(** * ATGT: the transcription-to-subtitle pipeline of [video_processor.py]

    A shallow embedding of [VideoProcessor] ([_format_timestamp],
    [_write_srt], [transcribe_video], [process_video], [_cleanup_files],
    [check_existing_translation]) and the properties of the written
    specification that can be settled on it.

    - Python [float] is IEEE-754 binary64; it is modelled by [spec_float]
      (the Standard Library's specification of binary floating point) at
      precision 53 and exponent bound 1024, with CPython's [//], [%] and
      [int()] written out on top of it.
    - Python [str] is modelled by [string]; every [ascii] stands for the
      code point of the same number (0..255).
    - The local disk, the remote drive, the trace of external calls and
      the log are an explicit [world], threaded through a monad of state
      and exceptions that also reads the [host]: the environment, the
      media decoder and the external calls that fail.
    - The timestamp rule is written on the exact rational value of a float
      ([value], [spec_hours], [spec_minutes], [spec_whole_seconds]); a
      small theory of rounding to binary64 ([digits], [canonical], [dy])
      relates it to what the float operations compute.
    - The service of [main.py] ([list_files], [download_file],
      [translate_text], [translate_file], [upload_file], [process_file],
      [load_environment]), [VideoProcessor.__init__] and
      [process_video_files] run in a second monad over that one: its
      [session] holds the world, [os.environ] as the code assigns to it,
      the calls made to the other libraries and the global
      [VIDEO_FOLDERS]; what the libraries answer is a record of
      [services]. *)

From Stdlib Require Import ZArith Lia Bool List Ascii String DecimalString.
From Stdlib Require Import QArith Qround Qpower.
From Stdlib Require Import Floats.SpecFloat.
From stdpp Require Import base option gmap strings list.

Local Open Scope string_scope.
Local Open Scope Z_scope.

(* ===================================================================== *)
(** * Python exceptions *)
(* ===================================================================== *)

(** The external calls of the pipeline; the world decides which of them
    fail, and a trace records which were made. *)
Inductive io_op :=
| OpOpen (path : string)                   (* open(path, "w") *)
| OpWrite (path data : string)             (* f.write(data) *)
| OpClose (path : string)                  (* leaving the with-block *)
| OpRemove (path : string)                 (* os.remove(path) *)
| OpCopy (src dst : string)                (* shutil.copy2(src, dst) *)
| OpDownload (file_id dst : string)        (* MediaIoBaseDownload chunks *)
| OpUpload (path folder_id : string)       (* files().create(...).execute() *)
| OpListFolder (name folder_id : string)   (* files().list(q=...).execute() *)
| OpDecode (video_path : string)           (* VideoFileClip(video_path) *)
| OpReadAudio (audio_path : string)        (* soundfile.read(audio_path) *)
| OpTranscribe (language : string).        (* model.transcribe(...) *)

Inductive exn :=
| OSError (op : io_op)
| FileNotFoundError (path : string)
| AttributeError
| ValueError
| OverflowError
| ZeroDivisionError
| RuntimeError (op : io_op)
| Exception_ (msg : string).

Inductive result (A : Type) :=
| Ok (a : A)
| Raise (e : exn).
Arguments Ok {A} a.
Arguments Raise {A} e.

#[global] Instance result_ret : MRet result := fun _ a => Ok a.
#[global] Instance result_bind : MBind result := fun _ _ f r =>
  match r with
  | Ok a => f a
  | Raise e => Raise e
  end.

(* ===================================================================== *)
(** * Python floats (binary64) *)
(* ===================================================================== *)

Module Float64.

Definition prec : Z := 53.
Definition emax : Z := 1024.

Definition valid (x : spec_float) : bool := valid_binary prec emax x.

Definition mul := SFmul prec emax.
Definition div := SFdiv prec emax.
Definition add := SFadd prec emax.
Definition sub := SFsub prec emax.
Definition ltb := SFltb.

(** The float nearest to the integer [z] (exact below 2^53). *)
Definition of_Z (z : Z) : spec_float := binary_normalize prec emax z 0 false.

(** The float a decimal literal [n / 10^k] denotes: both are exact
    floats for the literals used here and the division rounds correctly. *)
Definition of_decimal (n : Z) (k : Z) : spec_float := div (of_Z n) (of_Z (10 ^ k)).

Definition is_finite (x : spec_float) : bool :=
  match x with
  | S754_zero _ | S754_finite _ _ _ => true
  | _ => false
  end.

Definition sign (x : spec_float) : bool :=
  match x with
  | S754_zero s | S754_infinity s | S754_finite s _ _ => s
  | S754_nan => false
  end.

(** The literal [0.5]. *)
Definition half : spec_float := S754_finite false 4503599627370496 (-53).

(** C truth value of a double: [if (x)]. *)
Definition nonzero (x : spec_float) : bool :=
  match x with
  | S754_zero _ => false
  | _ => true
  end.

(** [copysign(0.0, y)] *)
Definition copysign_zero (y : spec_float) : spec_float := S754_zero (sign y).

(** C [fmod]: the exact remainder, with the sign of [x]. *)
Definition fmod (x y : spec_float) : spec_float :=
  match x, y with
  | S754_nan, _ | _, S754_nan => S754_nan
  | S754_infinity _, _ => S754_nan
  | _, S754_zero _ => S754_nan
  | S754_zero _, _ => x
  | S754_finite _ _ _, S754_infinity _ => x
  | S754_finite sx mx ex, S754_finite _ my ey =>
      let e := Z.min ex ey in
      let X := Zpos mx * 2 ^ (ex - e) in
      let Y := Zpos my * 2 ^ (ey - e) in
      binary_normalize prec emax (cond_Zopp sx (X mod Y)) e sx
  end.

(** C [floor]. *)
Definition floor (x : spec_float) : spec_float :=
  match x with
  | S754_finite s m e =>
      if 0 <=? e then x
      else binary_normalize prec emax (cond_Zopp s (Zpos m) / 2 ^ (- e)) 0 s
  | _ => x
  end.

(** CPython [_float_div_mod], for a divisor that is not zero. *)
Definition _float_div_mod (vx wx : spec_float) : spec_float * spec_float :=
  let mod0 := fmod vx wx in
  let div0 := div (sub vx mod0) wx in
  let '(mod1, div1) :=
    if nonzero mod0 then
      if xorb (ltb wx (S754_zero false)) (ltb mod0 (S754_zero false))
      then (add mod0 wx, sub div0 (of_Z 1))
      else (mod0, div0)
    else (copysign_zero wx, div0) in
  let floordiv :=
    if nonzero div1 then
      let f := floor div1 in
      if ltb half (sub div1 f) then add f (of_Z 1) else f
    else copysign_zero (div vx wx) in
  (floordiv, mod1).

(** [v // w] on floats. *)
Definition floordiv (v w : spec_float) : result spec_float :=
  if nonzero w then Ok (fst (_float_div_mod v w)) else Raise ZeroDivisionError.

(** [v % w] on floats (CPython [float_rem]). *)
Definition rem (v w : spec_float) : result spec_float :=
  if nonzero w then
    let mod0 := fmod v w in
    Ok (if nonzero mod0 then
          if xorb (ltb w (S754_zero false)) (ltb mod0 (S754_zero false))
          then add mod0 w else mod0
        else copysign_zero w)
  else Raise ZeroDivisionError.

(** [int(x)]: truncation towards zero; NaN and the infinities raise. *)
Definition to_int (x : spec_float) : result Z :=
  match x with
  | S754_nan => Raise ValueError
  | S754_infinity _ => Raise OverflowError
  | S754_zero _ => Ok 0
  | S754_finite s m e =>
      Ok (cond_Zopp s (if 0 <=? e then Zpos m * 2 ^ e else Zpos m / 2 ^ (- e)))
  end.

End Float64.

(* ===================================================================== *)
(** * String formatting *)
(* ===================================================================== *)

Fixpoint zeros (n : nat) : string :=
  match n with
  | O => ""
  | S k => String "0" (zeros k)
  end.

(** [str(n)] for a Python int that is not negative. *)
Definition str_of_N (n : N) : string := NilZero.string_of_uint (N.to_uint n).

(** [str(z)] for a Python int. *)
Definition str_of_int (z : Z) : string :=
  if z <? 0 then "-" +:+ str_of_N (Z.abs_N z) else str_of_N (Z.abs_N z).

(** [f"{z:0<width>d}"]: zero padding between the sign and the digits, up to
    a minimal total width. *)
Definition format_0d (width : nat) (z : Z) : string :=
  let digits := str_of_N (Z.abs_N z) in
  if z <? 0 then "-" +:+ zeros (width - 1 - String.length digits) +:+ digits
  else zeros (width - String.length digits) +:+ digits.

(* ===================================================================== *)
(** * [VideoProcessor._format_timestamp] *)
(* ===================================================================== *)

Import Float64.

Definition _format_timestamp (seconds : spec_float) : result string :=
  q ← floordiv seconds (of_Z 3600);
  hours ← to_int q;
  r ← rem seconds (of_Z 3600);
  q' ← floordiv r (of_Z 60);
  minutes ← to_int q';
  seconds ← rem seconds (of_Z 60);
  frac ← rem seconds (of_Z 1);
  milliseconds ← to_int (mul frac (of_Z 1000));
  seconds ← to_int seconds;
  Ok (format_0d 2 hours +:+ ":" +:+ format_0d 2 minutes +:+ ":" +:+
      format_0d 2 seconds +:+ "," +:+ format_0d 3 milliseconds).

(** The text [HH:MM:SS,mmm] of four integer fields (the f-string of
    [_format_timestamp]). *)
Definition render (hours minutes seconds milliseconds : Z) : string :=
  format_0d 2 hours +:+ ":" +:+ format_0d 2 minutes +:+ ":" +:+
  format_0d 2 seconds +:+ "," +:+ format_0d 3 milliseconds.

(* ===================================================================== *)
(** * The timestamp rule of the specification *)
(* ===================================================================== *)

(** The rational number a float stands for. *)
Definition value (x : spec_float) : Q :=
  match x with
  | S754_finite s m e => (inject_Z (cond_Zopp s (Zpos m)) * 2 ^ e)%Q
  | _ => 0%Q
  end.

(** [a mod b] on rationals. *)
Definition Qmod (a b : Q) : Q := (a - b * inject_Z (Qfloor (a / b)))%Q.

(** The fields as the specification writes them, on the exact value. *)
Definition spec_hours (v : Q) : Z := Qfloor (v / 3600).
Definition spec_minutes (v : Q) : Z := Qfloor (Qmod v 3600 / 60).
Definition spec_whole_seconds (v : Q) : Z := Qfloor (Qmod v 60).

(** The milliseconds of the specification on a fraction held in a float:
    [floor(frac * 1000)], the product being the binary64 one. *)
Definition spec_milliseconds (frac : spec_float) : result Z :=
  to_int (mul frac (of_Z 1000)).

(** The same with the product taken exactly. *)
Definition exact_milliseconds (v : Q) : Z := Qfloor (Qmod v 1 * 1000).

(* ===================================================================== *)
(** * Binary64 values: vocabulary of the rounding proofs *)
(* ===================================================================== *)

(** The number of binary digits of a positive integer. *)
Definition digits (m : Z) : Z := Z.log2 m + 1.

(** The sticky bit after shifting [m] right by [n] places. *)
Definition sticky (m n : Z) (r0 s0 : bool) : bool :=
  negb (m mod 2 ^ (n - 1) =? 0) || r0 || s0.

Abbreviation fexp64 := (fexp 53 1024).

(** A mantissa and exponent in canonical form. *)
Definition canonical (m e : Z) : Prop := 0 < m /\ fexp64 (digits m + e) = e.

(** [M * 2^ez] and [m * 2^e] are the same number. *)
Definition same_value (M ez m e : Z) : Prop :=
  M * 2 ^ (ez - Z.min ez e) = m * 2 ^ (e - Z.min ez e).

(** The float of a non-negative dyadic number [M * 2^e]. *)
Definition dy (M e : Z) : spec_float := binary_normalize 53 1024 M e false.

(** A float that is zero or finite, not negative, with a bounded exponent. *)
Definition tame (x : spec_float) (B : Z) : Prop :=
  x = S754_zero false \/
  exists m e, x = S754_finite false m e /\ -1074 <= e <= B /\ digits (Zpos m) <= 53.

(* ===================================================================== *)
(** * Python [str] and [os.path] helpers *)
(* ===================================================================== *)

(** [str.isspace] on one code point below 256: TAB..CR, FS..US, SPACE,
    NEL (0x85) and NBSP (0xA0). *)
Definition isspace (c : ascii) : bool :=
  let n := N_of_ascii c in
  ((9 <=? n) && (n <=? 13) || (28 <=? n) && (n <=? 32) || (n =? 133) || (n =? 160))%N.

Fixpoint lstrip (s : string) : string :=
  match s with
  | EmptyString => EmptyString
  | String c rest => if isspace c then lstrip rest else s
  end.

Fixpoint rstrip (s : string) : string :=
  match s with
  | EmptyString => EmptyString
  | String c rest =>
      match rstrip rest with
      | EmptyString => if isspace c then EmptyString else String c EmptyString
      | kept => String c kept
      end
  end.

(** [s.strip()] *)
Definition strip (s : string) : string := rstrip (lstrip s).

(** Python truth value of a string: [if s]. *)
Definition truthy (s : string) : bool :=
  match s with
  | EmptyString => false
  | _ => true
  end.

(** [str.lower] on one code point below 256: A..Z, and the Latin-1 capitals
    0xC0..0xDE except the multiplication sign 0xD7. *)
Definition lower_char (c : ascii) : ascii :=
  let n := N_of_ascii c in
  if ((65 <=? n) && (n <=? 90) || (192 <=? n) && (n <=? 222) && negb (n =? 215))%N
  then ascii_of_N (n + 32) else c.

Fixpoint lower (s : string) : string :=
  match s with
  | EmptyString => EmptyString
  | String c rest => String (lower_char c) (lower rest)
  end.

(** [s.rfind(c)], -1 when [c] does not occur. *)
Fixpoint rfind_from (c : ascii) (s : string) (i : Z) (last : Z) : Z :=
  match s with
  | EmptyString => last
  | String d rest => rfind_from c rest (i + 1) (if Ascii.eqb d c then i else last)
  end.

Definition rfind (c : ascii) (s : string) : Z := rfind_from c s 0 (-1).

(** The slice [s[i:j]] for indices that are not negative. *)
Definition slice (s : string) (i j : Z) : string :=
  substring (Z.to_nat i) (Z.to_nat (j - i)) s.

Fixpoint all_dots (s : string) : bool :=
  match s with
  | EmptyString => true
  | String c rest => Ascii.eqb c "." && all_dots rest
  end.

Module os_path.

(** [os.path.basename] (posix): what follows the last slash. *)
Definition basename (p : string) : string :=
  slice p (rfind "/" p + 1) (Z.of_nat (String.length p)).

(** [os.path.splitext] (posix): the extension starts at the last dot of
    the last component, unless only dots precede it there. *)
Definition splitext (p : string) : string * string :=
  let sepIndex := rfind "/" p in
  let dotIndex := rfind "." p in
  if (sepIndex <? dotIndex) && negb (all_dots (slice p (sepIndex + 1) dotIndex))
  then (slice p 0 dotIndex, slice p dotIndex (Z.of_nat (String.length p)))
  else (p, "").

(** [os.path.join(a, b)] (posix). *)
Definition join (a b : string) : string :=
  match b with
  | String "/" _ => b
  | _ =>
      if negb (truthy a) || Ascii.eqb (default "."%char (String.get (String.length a - 1) a)) "/"
      then a +:+ b
      else a +:+ "/" +:+ b
  end.

End os_path.

(* ===================================================================== *)
(** * The world: disk, environment, drive, log *)
(* ===================================================================== *)

Inductive level := INFO | WARNING | ERROR.

(** A file on the remote drive. *)
Record remote_file := RemoteFile {
  rf_id : string;
  rf_name : string;
  rf_parent : string;
  rf_trashed : bool;
  rf_content : string;
}.

(** What the media decoder makes of the bytes of a video file. *)
Inductive media :=
| Unreadable                  (* VideoFileClip raises *)
| NoAudio                     (* video.audio is None *)
| Audio (wav : string).       (* the 16 kHz PCM rendering *)

(** The host the program runs on: nothing in the pipeline changes it. *)
Record host := Host {
  environ : gmap string string;     (* os.environ *)
  decoder : string -> media;        (* moviepy on a file's content *)
  io_fails : io_op -> bool;         (* the external calls that fail *)
}.

(** What the pipeline reads and changes. *)
Record world := World {
  fs : gmap string string;          (* local disk: path to content *)
  drive : list remote_file;         (* the remote drive *)
  trace : list io_op;               (* external calls made, oldest first *)
  log : list (level * string);      (* log records, oldest first *)
}.

Definition set_fs (f : gmap string string -> gmap string string) (w : world) : world :=
  World (f (fs w)) (drive w) (trace w) (log w).

Definition set_drive (f : list remote_file -> list remote_file) (w : world) : world :=
  World (fs w) (f (drive w)) (trace w) (log w).

Definition add_trace (op : io_op) (w : world) : world :=
  World (fs w) (drive w) (trace w ++ [op])%list (log w).

Definition add_log (l : level) (msg : string) (w : world) : world :=
  World (fs w) (drive w) (trace w) (log w ++ [(l, msg)])%list.

(** ** The monad of Python statements: host, state and exceptions *)

Definition io (A : Type) : Type := host -> world -> result A * world.

#[global] Instance io_ret : MRet io := fun _ a _ w => (Ok a, w).
#[global] Instance io_bind : MBind io := fun _ _ f m h w =>
  match m h w with
  | (Ok a, w') => f a h w'
  | (Raise e, w') => (Raise e, w')
  end.

Definition ret {A} (a : A) : io A := mret a.

Definition raise {A} (e : exn) : io A := fun _ w => (Raise e, w).

Definition lift {A} (r : result A) : io A := fun _ w => (r, w).

Definition get_world : io world := fun _ w => (Ok w, w).

Definition modify (f : world -> world) : io unit := fun _ w => (Ok tt, f w).

(** [try: body  except Exception as e: handler e] *)
Definition try_except {A} (body : io A) (handler : exn -> io A) : io A := fun h w =>
  match body h w with
  | (Ok a, w') => (Ok a, w')
  | (Raise e, w') => handler e h w'
  end.

(** [try: body  finally: fin]: [fin] always runs; the outcome of [body]
    stands unless [fin] itself raises. *)
Definition try_finally {A} (body : io A) (fin : io unit) : io A := fun h w =>
  let '(r, w') := body h w in
  match fin h w' with
  | (Ok _, w'') => (r, w'')
  | (Raise e, w'') => (Raise e, w'')
  end.

(** [try: x = first; rest x  except Exception as e: handler e
     finally: fin x], where [fin] sees [None] when the exception came
    before [x] was assigned. *)
Definition try_except_finally {A B} (first : io A) (rest : A -> io B)
    (handler : exn -> io B) (fin : option A -> io unit) : io B := fun h w =>
  match first h w with
  | (Raise e, w') => try_finally (handler e) (fin None) h w'
  | (Ok x, w') => try_finally (try_except (rest x) handler) (fin (Some x)) h w'
  end.

(** ** Primitives *)

Definition logger (l : level) (msg : string) : io unit := modify (add_log l msg).

(** An external call: it is traced, and raises when the world says so. *)
Definition external (op : io_op) (e : exn) : io unit := fun h w =>
  let w' := add_trace op w in
  if io_fails h op then (Raise e, w') else (Ok tt, w').

(** [os.path.exists(path)], [os.path.isfile(path)] *)
Definition exists_ (path : string) : io bool := fun _ w =>
  (Ok (bool_decide (is_Some (fs w !! path))), w).

(** [open(path, "w")]: creates or truncates the file. *)
Definition open_w (path : string) : io unit :=
  external (OpOpen path) (OSError (OpOpen path));;
  modify (set_fs (insert path "")).

(** [f.write(data)] on a file opened at [path]. *)
Definition write (path data : string) : io unit :=
  external (OpWrite path data) (OSError (OpWrite path data));;
  modify (set_fs (alter (fun old => old +:+ data) path)).

Definition close (path : string) : io unit :=
  external (OpClose path) (OSError (OpClose path)).

(** [with open(path, "w") as f: body]: the file is closed on the way out;
    when [body] raised and closing raises too, the later exception wins. *)
Definition with_open {A} (path : string) (body : io A) : io A :=
  open_w path;;
  try_finally body (close path).

(** [os.remove(path)] *)
Definition remove (path : string) : io unit :=
  w ← get_world;
  external (OpRemove path) (OSError (OpRemove path));;
  if bool_decide (is_Some (fs w !! path)) then modify (set_fs (delete path))
  else raise (FileNotFoundError path).

(** [shutil.copy2(src, dst)] *)
Definition copy2 (src dst : string) : io unit :=
  w ← get_world;
  external (OpCopy src dst) (OSError (OpCopy src dst));;
  match fs w !! src with
  | Some content => modify (set_fs (insert dst content))
  | None => raise (FileNotFoundError src)
  end.

(** [os.getenv(name)] *)
Definition getenv (name : string) : io (option string) := fun h w =>
  (Ok (environ h !! name), w).

(** [VideoFileClip(video_path)]: what the decoder makes of the file. *)
Definition decode (video_path : string) : io media := fun h w =>
  let w' := add_trace (OpDecode video_path) w in
  if io_fails h (OpDecode video_path) then (Raise (RuntimeError (OpDecode video_path)), w')
  else (Ok (decoder h (default "" (fs w !! video_path))), w').

(** [str(e)], schematically. *)
Definition str_exn (e : exn) : string :=
  match e with
  | OSError _ => "OSError"
  | FileNotFoundError path => "File not found: " +:+ path
  | AttributeError => "AttributeError"
  | ValueError => "cannot convert float NaN to integer"
  | OverflowError => "cannot convert float infinity to integer"
  | ZeroDivisionError => "float modulo"
  | RuntimeError _ => "RuntimeError"
  | Exception_ msg => msg
  end.

(* ===================================================================== *)
(** * [VideoProcessor] *)
(* ===================================================================== *)

Definition nl : string := String "010"%char EmptyString.

(** One recognized utterance: [segment["start"]], [segment["end"]],
    [segment["text"]]. *)
Record segment := Segment {
  start : spec_float;
  end_ : spec_float;
  text : string;
}.

(** What [model.transcribe] returns: something that is not a [dict], or a
    [dict] with or without the key ['segments']. *)
Inductive transcription :=
| NotADict
| Dict (segments : option (list segment)).

Record VideoProcessor := {
  cache_dir : string;
  output_dir : string;
  (** [self.model]: [None] when loading failed; otherwise the outcome of
      [transcribe(audio_data, batch_size=1, language=...)]. *)
  model : option (string -> string -> result transcription);
}.

(** The binding a caller passes as [language_info]: any object, or a
    [dict] whose ['code'] may be missing. *)
Inductive language_info :=
| NotDict
| LangDict (code : option string).

(** ** [_write_srt] *)

(** The body of [for i, segment in enumerate(segments, 1)], from index [i]. *)
Fixpoint write_entries (output_path : string) (i : N) (segments : list segment) : io unit :=
  match segments with
  | [] => ret tt
  | segment :: rest =>
      start_time ← lift (_format_timestamp (start segment));
      end_time ← lift (_format_timestamp (end_ segment));
      let text := strip (text segment) in
      (if truthy text then
         write output_path (str_of_N i +:+ nl);;
         write output_path (start_time +:+ " --> " +:+ end_time +:+ nl);;
         write output_path (text +:+ nl +:+ nl)
       else ret tt);;                               (* continue *)
      write_entries output_path (N.succ i) rest
  end.

Definition _write_srt (segments : list segment) (output_path : string) : io bool :=
  try_except
    (match segments with
     | [] =>
         logger WARNING "No segments to write to SRT file";;
         ret false
     | _ =>
         with_open output_path (write_entries output_path 1 segments);;
         ret true
     end)
    (fun e =>
       logger ERROR ("Error writing SRT file: " +:+ str_exn e);;
       ret false).

(** ** [_cleanup_files] *)

Fixpoint _cleanup_files (file_paths : list (option string)) : io unit :=
  match file_paths with
  | [] => ret tt
  | file_path :: rest =>
      match file_path with
      | Some path =>
          present ← exists_ path;
          if truthy path && present then
            try_except
              (remove path;;
               logger INFO ("Cleaned up file: " +:+ path))
              (fun e => logger ERROR ("Error cleaning up file: " +:+ str_exn e))
          else ret tt
      | None => ret tt
      end;;
      _cleanup_files rest
  end.

(** ** [_download_file] and [_upload_srt] *)

Definition _download_file (file_id destination_path : string) : io unit :=
  try_except
    (with_open destination_path
       (external (OpDownload file_id destination_path)
                 (RuntimeError (OpDownload file_id destination_path));;
        w ← get_world;
        match List.find (fun f => String.eqb (rf_id f) file_id) (drive w) with
        | Some f => write destination_path (rf_content f)
        | None => raise (RuntimeError (OpDownload file_id destination_path))
        end);;
     logger INFO ("Downloaded file to: " +:+ destination_path))
    (fun e =>
       logger ERROR ("Error downloading file: " +:+ str_exn e);;
       raise e).

Definition _upload_srt (srt_path folder_id : string) : io unit :=
  try_except
    (w ← get_world;
     match fs w !! srt_path with
     | None => raise (FileNotFoundError srt_path)     (* MediaFileUpload *)
     | Some content =>
         external (OpUpload srt_path folder_id) (RuntimeError (OpUpload srt_path folder_id));;
         modify (set_drive (fun d =>
           (d ++ [RemoteFile ("upload-" +:+ str_of_N (N.of_nat (List.length d)))
                             (os_path.basename srt_path) folder_id false content])%list));;
         logger INFO ("Successfully uploaded SRT to folder: " +:+ os_path.basename srt_path)
     end)
    (fun e =>
       logger ERROR ("Error uploading SRT file: " +:+ str_exn e);;
       raise e).

(** ** [prepare_audio]

    The samples are read from the file; averaging the channels and the
    conversion to 32-bit floats are left to the model, which is given the
    content read. *)
Definition prepare_audio (audio_path : string) : io string :=
  logger INFO ("Loading audio file: " +:+ audio_path);;
  external (OpReadAudio audio_path) (RuntimeError (OpReadAudio audio_path));;
  w ← get_world;
  match fs w !! audio_path with
  | Some content => ret content
  | None => raise (RuntimeError (OpReadAudio audio_path))
  end.

(** ** [transcribe_video] *)

Definition stem (video_path : string) : string :=
  fst (os_path.splitext (os_path.basename video_path)).

Definition audio_path_of (self : VideoProcessor) (video_path : string) : string :=
  os_path.join (cache_dir self) (stem video_path +:+ ".wav").

Definition srt_path_of (self : VideoProcessor) (video_path : string) : string :=
  os_path.join (cache_dir self) (stem video_path +:+ ".srt").

(** The inner [try] of [transcribe_video]: the model is invoked, its
    result validated and the segments handed to [_write_srt]. *)
Definition recognize (self : VideoProcessor) (transcribe : string -> string -> result transcription)
    (audio_data video_path language_code : string) : io (option string) :=
  try_except
    (logger INFO ("Transcribing with language: " +:+ language_code);;
     modify (add_trace (OpTranscribe language_code));;
     result ← lift (transcribe audio_data language_code);
     match result with
     | NotADict =>
         logger ERROR "Unexpected result type";;
         ret None
     | Dict None =>
         logger ERROR "No segments found in transcription result";;
         ret None
     | Dict (Some segments) =>
         match segments with
         | [] =>
             logger WARNING "No segments were transcribed";;
             ret None
         | _ =>
             let srt_path := srt_path_of self video_path in
             written ← _write_srt segments srt_path;
             if written : bool then
               logger INFO ("SRT file created successfully: " +:+ srt_path);;
               ret (Some srt_path)
             else
               logger ERROR "Failed to write SRT file";;
               ret None
         end
     end)
    (fun e =>
       logger ERROR ("Transcription failed: " +:+ str_exn e);;
       ret None).

Definition transcribe_video (self : VideoProcessor) (video_path language_code : string)
    : io (option string) :=
  try_except_finally
    (* up to the assignment of audio_path *)
    (present ← exists_ video_path;
     (if present : bool then ret tt else raise (FileNotFoundError video_path));;
     logger INFO "Extracting audio...";;
     video ← decode video_path;
     match video with
     | Unreadable => raise (RuntimeError (OpDecode video_path))
     | NoAudio => ret None
     | Audio wav => ret (Some wav)
     end)
    (fun audio =>
       let audio_path := audio_path_of self video_path in
       match audio with
       | None => raise AttributeError               (* video.audio is None *)
       | Some wav => with_open audio_path (write audio_path wav)
       end;;
       match model self with
       | None =>
           logger ERROR "WhisperX model not available";;
           ret None
       | Some transcribe =>
           audio_data ← prepare_audio audio_path;
           logger INFO "Starting transcription...";;
           recognize self transcribe audio_data video_path language_code
       end)
    (fun e =>
       logger ERROR ("Error in transcribe_video: " +:+ str_exn e);;
       ret None)
    (fun assigned =>
       match assigned with
       | None => ret tt                              (* audio_path is None *)
       | Some _ =>
           let audio_path := audio_path_of self video_path in
           present ← exists_ audio_path;
           if truthy audio_path && present then
             try_except
               (remove audio_path;;
                logger INFO "Cleaned up temporary audio file")
               (fun e => logger ERROR ("Error cleaning up audio file: " +:+ str_exn e))
           else ret tt
       end).

(** ** [process_video] *)

(** Python truth value of an optional string: [None] and [''] are false. *)
Definition nonempty (o : option string) : option string :=
  match o with
  | Some s => if truthy s then Some s else None
  | None => None
  end.

(** [language_info.get('code') if isinstance(language_info, dict) else None] *)
Definition get_code (info : language_info) : option string :=
  match info with
  | LangDict code => code
  | NotDict => None
  end.

Definition process_video (self : VideoProcessor) (file_id file_name : string)
    (info : language_info) : io bool :=
  let video_path := os_path.join (cache_dir self) file_name in
  try_except_finally
    (* up to the assignment of srt_path *)
    (lang_code ←
       match nonempty (get_code info) with
       | Some code => ret code
       | None =>
           logger WARNING "No language code provided, defaulting to English";;
           ret "en"
       end;
     logger INFO ("Processing video (code: " +:+ lang_code +:+ ")");;
     _download_file file_id video_path;;
     srt_path ← transcribe_video self video_path lang_code;
     ret (lang_code, srt_path))
    (fun '(lang_code, srt_path) =>
       match nonempty srt_path with
       | None => raise (Exception_ "Failed to create SRT file")
       | Some srt_path =>
           let local_output_path :=
             os_path.join (output_dir self) (os_path.basename srt_path) in
           copy2 srt_path local_output_path;;
           logger INFO ("Saved local copy to: " +:+ local_output_path);;
           (if String.eqb (lower lang_code) "nl" then
              output_folder_id ← getenv "OUTPUT_FOLDER_ID";
              match nonempty output_folder_id with
              | None => raise (Exception_ "Output folder ID not configured")
              | Some output_folder_id =>
                  _upload_srt srt_path output_folder_id;;
                  logger INFO "Dutch SRT uploaded to Output folder"
              end
            else
              input_folder_id ← getenv "TEXT_TRANSLATION_FOLDER_ID";
              match nonempty input_folder_id with
              | None => raise (Exception_ "Input folder ID not configured")
              | Some input_folder_id =>
                  _upload_srt srt_path input_folder_id;;
                  logger INFO (lang_code +:+ " SRT uploaded to Input folder for translation")
              end);;
           ret true
       end)
    (fun e =>
       logger ERROR ("Error processing video " +:+ file_name +:+ ": " +:+ str_exn e);;
       ret false)
    (fun assigned =>
       _cleanup_files [Some video_path;
                       match assigned with
                       | Some (_, srt_path) => srt_path
                       | None => None
                       end]).

(** ** [check_existing_translation] *)

(** One [files().list(q=...)] query: is there a file of that name, not
    trashed, in that folder? *)
Definition listed (name folder_id : string) (d : list remote_file) : bool :=
  existsb (fun f => String.eqb (rf_name f) name && String.eqb (rf_parent f) folder_id
                    && negb (rf_trashed f)) d.

(** The two nested loops, over the (folder, name) pairs in their order. *)
Fixpoint check_queries (queries : list (string * string)) : io bool :=
  match queries with
  | [] =>
      logger INFO "No existing translations found, proceeding with transcription";;
      ret false
  | (folder_id, name) :: rest =>
      found ← try_except
        (external (OpListFolder name folder_id) (RuntimeError (OpListFolder name folder_id));;
         w ← get_world;
         if listed name folder_id (drive w) then
           logger INFO ("Found existing file in folder: " +:+ name);;
           ret true
         else ret false)
        (fun e =>
           logger ERROR ("Error checking folder: " +:+ str_exn e);;
           ret false);
      if found : bool then ret true else check_queries rest
  end.

Definition check_existing_translation (file_name output_folder_id translation_folder_id : string)
    : io bool :=
  let base_without_ext := fst (os_path.splitext file_name) in
  let possible_names :=
    [base_without_ext +:+ "_AI_Translated.srt"; base_without_ext +:+ ".srt"] in
  logger INFO ("Checking for existing translations of " +:+ file_name +:+ "...");;
  check_queries
    (folder_id ← [output_folder_id; translation_folder_id];
     name ← possible_names;
     [(folder_id, name)]).

(* ===================================================================== *)
(** * More of Python's [str], [list] and [os.path] *)
(* ===================================================================== *)

(** [str(x)] of an optional string: [None] prints as ['None']. *)
Definition str_opt (o : option string) : string := default "None" o.

(** [s.split("\n")]: never empty, the last piece is what follows the last
    newline. *)
Fixpoint split_lines (s : string) : list string :=
  match s with
  | EmptyString => [EmptyString]
  | String c rest =>
      if Ascii.eqb c "010" then EmptyString :: split_lines rest
      else match split_lines rest with
           | line :: lines => String c line :: lines
           | [] => [String c EmptyString]
           end
  end.

(** [sep.join(pieces)] *)
Fixpoint str_join (sep : string) (pieces : list string) : string :=
  match pieces with
  | [] => ""
  | [piece] => piece
  | piece :: rest => piece +:+ sep +:+ str_join sep rest
  end.

(** [range(0, n, step)] for a positive step. *)
Definition range_step (n step : nat) : list nat :=
  List.map (fun k => (k * step)%nat) (seq 0 (Nat.div (n + step - 1) step)).

(** [[lines[i:i+size] for i in range(0, len(lines), size)]] *)
Definition chunked {A} (size : nat) (lines : list A) : list (list A) :=
  List.map (fun i => take size (drop i lines)) (range_step (List.length lines) size).

(** [s.replace(old, new)] for a pattern that is not empty: the occurrences
    are taken from the left and do not overlap; [skip] counts the
    characters of the occurrence being replaced that are still to pass. *)
Fixpoint replace_from (old new : string) (skip : nat) (s : string) : string :=
  match s with
  | EmptyString => EmptyString
  | String c rest =>
      match skip with
      | S k => replace_from old new k rest
      | O =>
          if String.prefix old s
          then new +:+ replace_from old new (String.length old - 1) rest
          else String c (replace_from old new 0 rest)
      end
  end.

Definition replace (old new s : string) : string := replace_from old new 0 s.

(** [needle in s] *)
Fixpoint contains (needle s : string) : bool :=
  String.prefix needle s ||
  match s with
  | EmptyString => false
  | String _ rest => contains needle rest
  end.

(** [s.endswith(suffix)] *)
Definition endswith (s suffix : string) : bool :=
  (String.length suffix <=? String.length s)%nat &&
  String.eqb (substring (String.length s - String.length suffix) (String.length suffix) s) suffix.

Fixpoint all_slashes (s : string) : bool :=
  match s with
  | EmptyString => true
  | String c rest => Ascii.eqb c "/" && all_slashes rest
  end.

(** [s.rstrip('/')] *)
Fixpoint rstrip_slashes (s : string) : string :=
  match s with
  | EmptyString => EmptyString
  | String c rest =>
      match rstrip_slashes rest with
      | EmptyString => if Ascii.eqb c "/" then EmptyString else String c EmptyString
      | kept => String c kept
      end
  end.

(** [os.path.split] (posix): the directory and the last component. *)
Definition os_path_split (p : string) : string * string :=
  let i := rfind "/" p + 1 in
  let head := slice p 0 i in
  let tail := slice p i (Z.of_nat (String.length p)) in
  (if truthy head && negb (all_slashes head) then rstrip_slashes head else head, tail).

(* ===================================================================== *)
(** * The service around the pipeline *)
(* ===================================================================== *)

(** [main.py], [VideoProcessor.__init__] and [process_video_files] call
    more of the outside world than the pipeline does, assign to
    [os.environ] and can fail on a name that is not defined. They run in
    a second monad, over the one of the pipeline: its state holds the
    [world], the environment and the calls made; the answers of the
    libraries are fields of [services]. *)

(** A file as [files().list(fields="files(id, name, mimeType)")] reports
    it. *)
Record drive_file := DriveFile {
  df_id : string;
  df_name : string;
  df_mimeType : string;
}.

(** An entry of [VIDEO_FOLDERS], the [folder_info] of a caller. *)
Record folder_info := FolderInfo {
  fi_code : option string;          (* folder_info.get("code") *)
  fi_folder_id : option string;     (* folder_info.get("folder_id") *)
}.

(** The calls made beyond those of the pipeline. *)
Inductive call :=
| Makedirs (path : string)                      (* os.makedirs(path, exist_ok=True) *)
| FilesList (query : string)                    (* files().list(q=query, ...).execute() *)
| ChatCompletion (system user : string)         (* client.chat.completions.create(...) *)
| Sleep (seconds : Z)                           (* time.sleep(seconds) *)
| ReadText (path : string)                      (* open(path, 'r').read() *)
| OpenDocument (path : string)                  (* Document(path) *)
| SaveDocument (path : string)                  (* new_doc.save(path) *)
| OpenPdf (path : string)                       (* PdfReader(path) *)
| ExtractText (path : string) (page_num : N)    (* page.extract_text() *)
| DrawPage (text : string)                      (* the canvas and the page read back *)
| LoadModel (name device compute_type : string) (* whisperx.load_model(...) *)
| LoadDotenv.                                   (* load_dotenv() *)

Inductive error :=
| Pipeline (e : exn)                    (* an exception of the pipeline *)
| NameError (name : string)             (* a global that is not defined *)
| UnboundLocalError (name : string)     (* a local read before it is bound *)
| CallFailed (c : call).                (* what the library raises *)

Inductive outcome (A : Type) :=
| Done (a : A)
| Raised (e : error).
Arguments Done {A} a.
Arguments Raised {A} e.

(** [str(e)], schematically. *)
Definition str_error (e : error) : string :=
  match e with
  | Pipeline e => str_exn e
  | NameError name => "name '" +:+ name +:+ "' is not defined"
  | UnboundLocalError name => "local variable '" +:+ name +:+ "' referenced before assignment"
  | CallFailed _ => "Error"
  end.

(** What the machine and the libraries answer; no function changes it. *)
Record services := Services {
  media_decoder : string -> media;      (* moviepy on a file's content *)
  fails : io_op -> bool;                (* the calls of the pipeline that fail *)
  refuses : call -> bool;               (* the other calls that fail *)
  cwd : string;                         (* os.getcwd() *)
  cuda_is_available : bool;             (* torch.cuda.is_available() *)
  (** the model [whisperx.load_model(name, device, compute_type)] gives *)
  whisperx_model : string -> string -> string -> string -> string -> result transcription;
  (** [response.choices[0].message.content] for a system and a user message *)
  chat : string -> string -> option string;
  (** the files a query is answered with, on a drive *)
  listing : string -> list remote_file -> list drive_file;
  (** the folder the drive files an upload under whose parent is [None],
      or [None] when it refuses the request *)
  null_parent : option string;
  paragraphs : string -> list string;   (* python-docx: the paragraph texts of a file *)
  docx : list string -> string;         (* the file saved for a document of these paragraphs *)
  page_texts : string -> list string;   (* PyPDF2: the text of each page of a file *)
  pdf : list string -> string;          (* the file written for pages drawn with these texts *)
  (** [load_dotenv()] on an environment: what it returns, and the
      environment afterwards *)
  dotenv : gmap string string -> bool * gmap string string;
}.

(** What the service reads and changes. *)
Record session := Session {
  disk : world;                                 (* disk, drive, trace and log *)
  os_environ : gmap string string;              (* os.environ *)
  made : list call;                             (* calls made, oldest first *)
  VIDEO_FOLDERS : list (string * folder_info);  (* the global of main.py *)
}.

Definition set_disk (f : world -> world) (s : session) : session :=
  Session (f (disk s)) (os_environ s) (made s) (VIDEO_FOLDERS s).

Definition add_call (c : call) (s : session) : session :=
  Session (disk s) (os_environ s) (made s ++ [c])%list (VIDEO_FOLDERS s).

(** The host the pipeline sees in a session. *)
Definition host_of (sv : services) (s : session) : host :=
  Host (os_environ s) (media_decoder sv) (fails sv).

Definition app (A : Type) : Type := services -> session -> outcome A * session.

#[global] Instance app_ret : MRet app := fun _ a _ s => (Done a, s).
#[global] Instance app_bind : MBind app := fun _ _ f m sv s =>
  match m sv s with
  | (Done a, s') => f a sv s'
  | (Raised e, s') => (Raised e, s')
  end.

Definition throw {A} (e : error) : app A := fun _ s => (Raised e, s).

(** A computation of the pipeline, run in the session. *)
Definition pipeline {A} (m : io A) : app A := fun sv s =>
  let '(r, w) := m (host_of sv s) (disk s) in
  (match r with
   | Ok a => Done a
   | Raise e => Raised (Pipeline e)
   end, set_disk (fun _ => w) s).

(** [try: body  except Exception as e: handler e] *)
Definition try_catch {A} (body : app A) (handler : error -> app A) : app A := fun sv s =>
  match body sv s with
  | (Done a, s') => (Done a, s')
  | (Raised e, s') => handler e sv s'
  end.

(** ** Blocks that bind local variables

    Where the handler or the [finally] clause asks which locals are bound
    (['x' in locals()]) or reads one that need not be, the [try] block is
    run on a frame [L] of its locals, updated at each assignment and kept
    when the block raises. *)
Definition block (L A : Type) : Type := L -> services -> session -> (outcome A * L) * session.

#[global] Instance block_ret {L} : MRet (block L) := fun _ a l _ s => ((Done a, l), s).
#[global] Instance block_bind {L} : MBind (block L) := fun _ _ f m l sv s =>
  match m l sv s with
  | ((Done a, l'), s') => f a l' sv s'
  | ((Raised e, l'), s') => ((Raised e, l'), s')
  end.

(** A statement that binds no local of the frame. *)
Definition run {L A} (m : app A) : block L A := fun l sv s =>
  let '(r, s') := m sv s in ((r, l), s').

(** An assignment to a local of the frame. *)
Definition assign {L} (f : L -> L) : block L unit := fun l _ s => ((Done tt, f l), s).

(** [try: body  except Exception as e: handler e  finally: fin], the
    handler and [fin] on the frame as [body] left it, from the frame
    [unbound]. *)
Definition try_locals {L A} (unbound : L) (body : block L A)
    (handler : L -> error -> app A) (fin : L -> app unit) : app A := fun sv s =>
  let '((r, locals), s1) := body unbound sv s in
  let '(r', s2) := match r with
                   | Done a => (Done a, s1)
                   | Raised e => handler locals e sv s1
                   end in
  match fin locals sv s2 with
  | (Done _, s3) => (r', s3)
  | (Raised e, s3) => (Raised e, s3)
  end.

(** ** Primitives *)

Definition logger_info (msg : string) : app unit := pipeline (logger INFO msg).
Definition logger_warning (msg : string) : app unit := pipeline (logger WARNING msg).
Definition logger_error (msg : string) : app unit := pipeline (logger ERROR msg).

(** A call that is recorded, and raises when the services refuse it. *)
Definition request (c : call) : app unit := fun sv s =>
  if refuses sv c then (Raised (CallFailed c), add_call c s) else (Done tt, add_call c s).

(** A name the module neither defines nor imports. *)
Definition unresolved {A} (name : string) : app A := throw (NameError name).

(** An answer read off the services and the session. *)
Definition asks {A} (f : services -> session -> A) : app A := fun sv s => (Done (f sv s), s).

(** [os.getcwd()] *)
Definition getcwd : app string := asks (fun sv _ => cwd sv).

(** [os.makedirs(path, exist_ok=True)]; the disk of the model has no
    directories, so the call changes nothing. *)
Definition makedirs (path : string) : app unit := request (Makedirs path).

(** The environment after a change of [os.environ]. *)
Definition set_environ (env : gmap string string) : app unit := fun _ s =>
  (Done tt, Session (disk s) env (made s) (VIDEO_FOLDERS s)).

(** [os.environ[name] = value] *)
Definition setenv (name value : string) : app unit := fun sv s =>
  set_environ (<[name := value]> (os_environ s)) sv s.

(** [time.sleep(seconds)] *)
Definition sleep (seconds : Z) : app unit := fun _ s => (Done tt, add_call (Sleep seconds) s).

(** The content of the file at [path]. *)
Definition content_of (path : string) : app string := fun _ s =>
  match fs (disk s) !! path with
  | Some content => (Done content, s)
  | None => (Raised (Pipeline (FileNotFoundError path)), s)
  end.

(** [open(path, 'r').read()] *)
Definition read_text (path : string) : app string :=
  request (ReadText path);;
  content_of path.

(** [d.get(key)] of a dict written as a literal: of two items with the
    same key the later one stands. *)
Definition dict_get {V} (items : list (option string * V)) (key : option string) : option V :=
  snd <$> List.find (fun item => bool_decide (fst item = key)) (rev items).

(* ===================================================================== *)
(** * [main.py] *)
(* ===================================================================== *)

Module main.

(** ** [check_existing_translation]

    [output_folder_id] is what [os.getenv] gave: the query is formatted
    with [None] when the variable is not set. *)
Definition check_existing_translation (file_name : string) (output_folder_id : option string)
    : io bool :=
  let base_without_ext := fst (os_path.splitext file_name) in
  let translated_name := base_without_ext +:+ "_AI_Translated.srt" in
  logger INFO ("Checking for existing translation: " +:+ translated_name);;
  let folder := str_opt output_folder_id in
  try_except
    (external (OpListFolder translated_name folder)
              (RuntimeError (OpListFolder translated_name folder));;
     w ← get_world;
     if listed translated_name folder (drive w) then
       logger INFO ("Found existing translation: " +:+ translated_name);;
       ret true
     else
       logger INFO "No existing translation found";;
       ret false)
    (fun e =>
       logger ERROR ("Error checking for existing translation: " +:+ str_exn e);;
       ret true).                   (* safer to assume it exists *)

(** ** [is_video_file] *)

Definition video_mime_types : list string :=
  ["video/mp4"; "video/x-msvideo"; "video/quicktime"; "video/x-matroska";
   "video/webm"; "video/mpeg"].

Definition is_video_file (mime_type : string) : bool :=
  existsb (fun vtype => String.prefix vtype mime_type) video_mime_types.

(** ** [list_files] *)

(** [service.files().list(q=query, ...).execute().get('files', [])] *)
Definition files_list (query : string) : app (list drive_file) :=
  request (FilesList query);;
  asks (fun sv s => listing sv query (drive (disk s))).

(** The dict [folder_names], its keys read from the environment. *)
Definition folder_names : app (list (option string * string)) :=
  dutch ← pipeline (getenv "VIDEO_DUTCH_FOLDER_ID");
  german ← pipeline (getenv "VIDEO_GERMAN_FOLDER_ID");
  english ← pipeline (getenv "VIDEO_ENGLISH_FOLDER_ID");
  other ← pipeline (getenv "VIDEO_OTHER_FOLDER_ID");
  output ← pipeline (getenv "OUTPUT_FOLDER_ID");
  queue ← pipeline (getenv "TEXT_TRANSLATION_FOLDER_ID");
  mret [(dutch, "Dutch Videos"); (german, "German Videos"); (english, "English Videos");
        (other, "Other Videos"); (output, "Output"); (queue, "Translation Queue")].

(** The frame is the binding of [folder_name], which the handler reads. *)
Definition list_files (folder_id : string) (suffix : option string) : app (list drive_file) :=
  try_locals None
    (let query := "'" +:+ folder_id +:+ "' in parents and trashed=false" in
     let query := match nonempty suffix with
                  | Some suffix => query +:+ " and name ends with '" +:+ suffix +:+ "'"
                  | None => query
                  end in
     files ← run (files_list query);
     assign (fun _ => Some "Unknown Folder");;
     folder_names ← run folder_names;
     let folder_name := default folder_id (dict_get folder_names (Some folder_id)) in
     assign (fun _ => Some folder_name);;
     run (logger_info ("Found " +:+ str_of_N (N.of_nat (List.length files)) +:+ " files in "
                       +:+ folder_name));;
     mret files)
    (fun folder_name e =>
       match folder_name with
       | None => throw (UnboundLocalError "folder_name")
       | Some folder_name =>
           logger_error ("Error listing files in " +:+ folder_name +:+ ": " +:+ str_error e);;
           mret []
       end)
    (fun _ => mret tt).

(** ** [download_file] *)

Definition download_file (file_id file_name : string) : app (option string) :=
  logger_info ("Downloading file: " +:+ file_name);;
  cwd ← getcwd;
  let data_folder := os_path.join cwd "Data" in
  makedirs data_folder;;
  let file_path := os_path.join data_folder file_name in
  try_catch
    (pipeline
       (with_open file_path
          (external (OpDownload file_id file_path) (RuntimeError (OpDownload file_id file_path));;
           w ← get_world;
           match List.find (fun f => String.eqb (rf_id f) file_id) (drive w) with
           | Some f => write file_path (rf_content f)
           | None => raise (RuntimeError (OpDownload file_id file_path))
           end));;
     logger_info ("Successfully downloaded " +:+ file_name);;
     mret (Some file_path))
    (fun e =>
       logger_error ("Error downloading file " +:+ file_name +:+ ": " +:+ str_error e);;
       present ← pipeline (exists_ file_path);
       (if present : bool then pipeline (remove file_path) else mret tt);;
       mret None).

(** ** [translate_text] *)

(** [client.chat.completions.create(...)], and the content of its first
    choice. *)
Definition chat_completion (system user : string) : app (option string) :=
  request (ChatCompletion system user);;
  asks (fun sv _ => chat sv system user).

(** The body of [for i, chunk in enumerate(chunks, 1)], from index [i];
    it returns what the iterations append to [translated_chunks]. *)
Fixpoint translate_chunks (n : nat) (i : N) (chunks : list (list string)) : app (list string) :=
  match chunks with
  | [] => mret []
  | chunk :: rest =>
      logger_info ("Translating chunk " +:+ str_of_N i +:+ "/" +:+ str_of_N (N.of_nat n));;
      let chunk_text := str_join nl chunk in
      prompt ← pipeline (getenv "SYSTEM_PROMPT");
      content ← chat_completion (default "You are a helpful translation assistant." prompt)
                                chunk_text;
      translated_text ←
        match content with
        | Some content => mret (replace "```" "" (replace "```plaintext" "" content))
        | None => throw (Pipeline AttributeError)         (* None.replace *)
        end;
      sleep 1;;
      translated_chunks ← translate_chunks n (N.succ i) rest;
      mret (translated_text :: translated_chunks)
  end.

Definition translate_text (text : string) : app (option string) :=
  try_catch
    (logger_info "Starting text translation";;
     let lines := split_lines text in
     let chunks := chunked 125 lines in
     translated_chunks ← translate_chunks (List.length chunks) 1 chunks;
     logger_info "Translation completed successfully";;
     mret (Some (str_join nl translated_chunks)))
    (fun e =>
       logger_error ("Translation error: " +:+ str_error e);;
       mret None).

(** ** [translate_file] *)

(** [Document(file_path)]: the texts of its paragraphs. *)
Definition open_document (file_path : string) : app (list string) :=
  request (OpenDocument file_path);;
  content ← content_of file_path;
  asks (fun sv _ => paragraphs sv content).

(** [new_doc.save(path)] for a document of these paragraphs. *)
Definition save_document (new_doc : list string) (path : string) : app unit :=
  request (SaveDocument path);;
  content ← asks (fun sv _ => docx sv new_doc);
  pipeline (modify (set_fs (insert path content))).

(** The loop over [doc.paragraphs]; it returns the paragraphs added to
    [new_doc]. *)
Fixpoint translate_paragraphs (texts : list string) : app (list string) :=
  match texts with
  | [] => mret []
  | text :: rest =>
      added ← (if truthy (strip text) then
                 translated_text ← translate_text text;
                 match nonempty translated_text with
                 | Some translated_text => mret [translated_text]
                 | None => mret []
                 end
               else mret []);
      new_doc ← translate_paragraphs rest;
      mret (added ++ new_doc)%list
  end.

(** [PdfReader(file_path)]: its pages, each known by the text that
    [extract_text] gives. *)
Definition open_pdf (file_path : string) : app (list string) :=
  request (OpenPdf file_path);;
  content ← content_of file_path;
  asks (fun sv _ => page_texts sv content).

(** The loop over [reader.pages], from page [page_num] of [n]; it returns
    the texts of the pages added to [writer]. *)
Fixpoint translate_pages (file_path : string) (n : nat) (page_num : N) (pages : list string)
    : app (list string) :=
  match pages with
  | [] => mret []
  | text :: rest =>
      logger_info ("Processing PDF page " +:+ str_of_N page_num +:+ "/"
                   +:+ str_of_N (N.of_nat n));;
      request (ExtractText file_path page_num);;
      added ← (if truthy (strip text) then
                 translated_text ← translate_text text;
                 match nonempty translated_text with
                 | Some translated_text =>
                     request (DrawPage translated_text);;
                     mret [translated_text]
                 | None => mret []
                 end
               else mret []);
      writer ← translate_pages file_path n (N.succ page_num) rest;
      mret (added ++ writer)%list
  end.

Definition docx_mime_type : string :=
  "application/vnd.openxmlformats-officedocument.wordprocessingml.document".

(** The frame is the binding of [new_file_path]. The three branches give
    [Some r] where the source returns [r] from inside the branch. *)
Definition translate_file (file_path mime_type : string) : app (option string) :=
  logger_info ("Starting file translation for " +:+ file_path);;
  try_locals None
    (let '(file_dir, file_name) := os_path_split file_path in
     let '(file_name_without_ext, file_ext) := os_path.splitext file_name in
     let new_file_name := file_name_without_ext +:+ "_AI_Translated" +:+ file_ext in
     let new_file_path := os_path.join file_dir new_file_name in
     assign (fun _ => Some new_file_path);;
     returned ←
       (if String.eqb mime_type docx_mime_type then
          run (logger_info "Processing Word document");;
          doc ← run (open_document file_path);
          new_doc ← run (translate_paragraphs doc);
          run (save_document new_doc new_file_path);;
          mret None
        else if String.eqb mime_type "application/pdf" then
          run (logger_info "Processing PDF document");;
          reader ← run (open_pdf file_path);
          writer ← run (translate_pages file_path (List.length reader) 1 reader);
          pdf ← run (asks (fun sv _ => pdf sv writer));
          run (pipeline (with_open new_file_path (write new_file_path pdf)));;
          mret None
        else
          run (logger_info "Processing text-based file");;
          text ← run (read_text file_path);
          translated_text ← run (translate_text text);
          match translated_text with
          | None =>
              run (logger_error "Translation failed");;
              mret (Some None)
          | Some translated_text =>
              run (pipeline (with_open new_file_path (write new_file_path translated_text)));;
              mret None
          end);
     match returned with
     | Some r => mret r
     | None =>
         present ← run (pipeline (exists_ new_file_path));
         if present : bool then
           run (logger_info ("Successfully translated file to " +:+ new_file_path));;
           mret (Some new_file_path)
         else
           run (logger_error ("Translation file not created: " +:+ new_file_path));;
           mret None
     end)
    (fun new_file_path e =>
       logger_error ("Error translating file: " +:+ str_error e);;
       match new_file_path with
       | Some new_file_path =>
           present ← pipeline (exists_ new_file_path);
           if present : bool then
             try_catch
               (pipeline (remove new_file_path);;
                logger_info ("Cleaned up partial translation file: " +:+ new_file_path))
               (fun cleanup_error =>
                  logger_error ("Error cleaning up translation file: "
                                +:+ str_error cleanup_error))
           else mret tt
       | None => mret tt
       end;;
       mret None)
    (fun _ => mret tt).

(** ** [upload_file] *)

(** [main.py] defines no [create_or_get_folder]. *)
Definition create_or_get_folder (folder : string) (parent : option string)
    : app (option string) :=
  unresolved "create_or_get_folder".

(** [for folder in relative_path: current_folder_id = ...] *)
Fixpoint descend (relative_path : list string) (current_folder_id : option string)
    : app (option string) :=
  match relative_path with
  | [] => mret current_folder_id
  | folder :: rest =>
      current_folder_id ← create_or_get_folder folder current_folder_id;
      descend rest current_folder_id
  end.

(** [MediaFileUpload(file_path)] and [files().create(...).execute()]: the
    new file's id. *)
Definition files_create (file_path file_name parent : string) : io string :=
  w ← get_world;
  match fs w !! file_path with
  | None => raise (FileNotFoundError file_path)     (* MediaFileUpload *)
  | Some content =>
      external (OpUpload file_path parent) (RuntimeError (OpUpload file_path parent));;
      let id := "upload-" +:+ str_of_N (N.of_nat (List.length (drive w))) in
      modify (set_drive (fun d => (d ++ [RemoteFile id file_name parent false content])%list));;
      ret id
  end.

Definition upload_file (file_path : string) (folder_id : option string)
    (relative_path : option (list string)) : app (option string) :=
  logger_info ("Uploading file: " +:+ file_path);;
  try_catch
    (current_folder_id ←
       match relative_path with
       | Some (folder :: rest) => descend (folder :: rest) folder_id
       | _ => mret folder_id
       end;
     let file_name := os_path.basename file_path in
     parent ← match current_folder_id with
              | Some id => mret (Some id)
              | None => asks (fun sv _ => null_parent sv)
              end;
     parent ← match parent with
              | Some id => mret id
              | None => throw (Pipeline (RuntimeError (OpUpload file_path "None")))
              end;
     id ← pipeline (files_create file_path file_name parent);
     logger_info ("Successfully uploaded " +:+ file_name);;
     mret (Some id))
    (fun e =>
       logger_error ("Error uploading file: " +:+ str_error e);;
       mret None).

(** ** [process_file] *)

(** [if path and os.path.exists(path): os.remove(path)] for a local that
    is bound. *)
Definition remove_if_exists (path : option string) : app unit :=
  match nonempty path with
  | Some path =>
      present ← pipeline (exists_ path);
      if present : bool then pipeline (remove path) else mret tt
  | None => mret tt
  end.

(** The frame holds [file_path] and [translated_path]: each is [None]
    while it is not bound, and then what was assigned to it. *)
Definition process_file (file_id file_name mime_type : string)
    (folder_path : option (list string)) : app bool :=
  try_locals (None, None)
    (output_folder_id ← run (pipeline (getenv "OUTPUT_FOLDER_ID"));
     existing ← run (pipeline (check_existing_translation file_name output_folder_id));
     if existing : bool then
       run (logger_info ("Skipping " +:+ file_name +:+ " - translation already exists"));;
       mret true
     else
       run (logger_info ("Processing file: " +:+ file_name));;
       file_path ← run (download_file file_id file_name);
       assign (fun '(_, translated_path) => (file_path, translated_path));;
       match nonempty file_path with
       | None => mret false
       | Some file_path =>
           translated_path ← run (translate_file file_path mime_type);
           assign (fun '(file_path, _) => (file_path, translated_path));;
           match nonempty translated_path with
           | None => mret false
           | Some translated_path =>
               output_folder_id ← run (pipeline (getenv "OUTPUT_FOLDER_ID"));
               uploaded ← run (upload_file translated_path output_folder_id folder_path);
               match nonempty uploaded with
               | Some _ =>
                   run (logger_info ("Successfully processed " +:+ file_name));;
                   mret true
               | None => mret false
               end
           end
       end)
    (fun _ e =>
       logger_error ("Error processing file " +:+ file_name +:+ ": " +:+ str_error e);;
       logger_error "Error details:";;
       mret false)
    (fun '(file_path, translated_path) =>
       try_catch
         (remove_if_exists file_path;;
          remove_if_exists translated_path)
         (fun e => logger_error ("Error during cleanup: " +:+ str_error e))).

(** ** [load_environment] *)

(** [load_dotenv()] *)
Definition load_dotenv : app bool :=
  request LoadDotenv;;
  '(loaded, env) ← asks (fun sv s => dotenv sv (os_environ s));
  set_environ env;;
  mret loaded.

(** The assignment to the global [VIDEO_FOLDERS]. *)
Definition set_VIDEO_FOLDERS (folders : list (string * folder_info)) : app unit := fun _ s =>
  (Done tt, Session (disk s) (os_environ s) (made s) folders).

(** The loop over [required_vars.items()]; it returns what the iterations
    append to [missing_vars]. *)
Fixpoint check_required (required_vars : list (string * (string * option string)))
    : app (list string) :=
  match required_vars with
  | [] => mret []
  | (var, (description, value)) :: rest =>
      missing ←
        match nonempty value with
        | None =>
            logger_warning ("No folder ID configured for " +:+ description);;
            mret [description]
        | Some value =>
            logger_info ("Loaded " +:+ description +:+ " folder ID: " +:+ slice value 0 10
                         +:+ "...");;
            mret []
        end;
      missing_vars ← check_required rest;
      mret (missing ++ missing_vars)%list
  end.

Definition load_environment : app bool :=
  loaded ← load_dotenv;
  if negb loaded then
    logger_error "Failed to load .env file";;
    mret false
  else
    dutch ← pipeline (getenv "VIDEO_DUTCH_FOLDER_ID");
    german ← pipeline (getenv "VIDEO_GERMAN_FOLDER_ID");
    english ← pipeline (getenv "VIDEO_ENGLISH_FOLDER_ID");
    other ← pipeline (getenv "VIDEO_OTHER_FOLDER_ID");
    set_VIDEO_FOLDERS
      [("Dutch", FolderInfo (Some "nl") dutch); ("German", FolderInfo (Some "de") german);
       ("English", FolderInfo (Some "en") english); ("Other", FolderInfo None other)];;
    text ← pipeline (getenv "TEXT_TRANSLATION_FOLDER_ID");
    output ← pipeline (getenv "OUTPUT_FOLDER_ID");
    key ← pipeline (getenv "OPENAI_API_KEY");
    let required_vars :=
      [("VIDEO_DUTCH_FOLDER_ID", ("Dutch videos", dutch));
       ("VIDEO_GERMAN_FOLDER_ID", ("German videos", german));
       ("VIDEO_ENGLISH_FOLDER_ID", ("English videos", english));
       ("VIDEO_OTHER_FOLDER_ID", ("Other videos", other));
       ("TEXT_TRANSLATION_FOLDER_ID", ("Text translations", text));
       ("OUTPUT_FOLDER_ID", ("Output", output));
       ("OPENAI_API_KEY", ("OpenAI API", key))] in
    missing_vars ← check_required required_vars;
    match missing_vars with
    | [] => mret true
    | _ =>
        logger_error ("Missing required environment variables for: "
                      +:+ str_join ", " missing_vars);;
        mret false
    end.

End main.

(* ===================================================================== *)
(** * [VideoProcessor.__init__] and [process_video_files] *)
(* ===================================================================== *)

(** [whisperx.load_model(name, device=device, compute_type=compute_type)] *)
Definition load_model (name device compute_type : string)
    : app (string -> string -> result transcription) :=
  request (LoadModel name device compute_type);;
  asks (fun sv _ => whisperx_model sv name device compute_type).

Definition __init__ : app VideoProcessor :=
  cuda ← asks (fun sv _ => cuda_is_available sv);
  device ← (if cuda : bool then
              logger_info "CUDA is available - using GPU";;
              mret "cuda"
            else
              logger_info "CUDA is not available - using CPU";;
              setenv "CUDA_VISIBLE_DEVICES" "-1";;
              mret "cpu");
  let compute_type := "float32" in
  setenv "CUDA_VISIBLE_DEVICES" "-1";;
  let device := "cpu" in
  let compute_type := "float32" in
  cwd ← getcwd;
  let cache_dir := os_path.join (os_path.join cwd "Data") "Cache" in
  cwd ← getcwd;
  let output_dir := os_path.join (os_path.join cwd "Data") "Output" in
  makedirs cache_dir;;
  makedirs output_dir;;
  logger_info ("Cache directory: " +:+ cache_dir);;
  logger_info ("Output directory: " +:+ output_dir);;
  model ← try_catch
    (logger_info "Loading WhisperX model...";;
     model ← load_model "large-v2" device compute_type;
     logger_info ("WhisperX initialized successfully on " +:+ device);;
     mret (Some model))
    (fun e =>
       logger_error ("Error initializing WhisperX model: " +:+ str_error e);;
       mret None);
  mret {| cache_dir := cache_dir; output_dir := output_dir; model := model |}.

(** The body of [for file in files] in [process_video_files]. *)
Fixpoint process_each (folder_info : folder_info) (files : list drive_file) : app unit :=
  match files with
  | [] => mret tt
  | file :: rest =>
      (* is_video_file(...): the module neither defines nor imports it *)
      video ← unresolved "is_video_file";
      (if video : bool then
         video_processor ← __init__;
         success ← pipeline (process_video video_processor (df_id file) (df_name file)
                                           (LangDict (fi_code folder_info)));
         if success : bool then
           logger_info ("Successfully processed video: " +:+ df_name file)
         else
           logger_error ("Failed to process video: " +:+ df_name file)
       else mret tt);;
      process_each folder_info rest
  end.

Definition process_video_files (folder_info : folder_info) : app unit :=
  let folder_id := fi_folder_id folder_info in
  let language := fi_code folder_info in
  match nonempty folder_id with
  | None =>
      logger_warning ("No folder ID configured for " +:+ str_opt language +:+ " videos")
  | Some folder_id =>
      logger_info ("Checking " +:+ str_opt language +:+ " video folder");;
      (* list_files(folder_id): the module neither defines nor imports it *)
      files ← unresolved "list_files";
      process_each folder_info files
  end.

(* ===================================================================== *)
(** * What a run of [_write_srt] leaves in the file *)
(* ===================================================================== *)

(** The timestamp text, for a value the formatter accepts. *)
Definition timestamp (seconds : spec_float) : string :=
  match _format_timestamp seconds with
  | Ok t => t
  | Raise _ => ""
  end.

(** Both timestamps of the segment can be formatted. *)
Definition formats (s : segment) : bool :=
  match _format_timestamp (start s), _format_timestamp (end_ s) with
  | Ok _, Ok _ => true
  | _, _ => false
  end.

(** The segment is written, not skipped. *)
Definition spoken (s : segment) : bool := truthy (strip (text s)).

(** The three writes of one entry, put together. *)
Definition entry (i : N) (s : segment) : string :=
  (str_of_N i +:+ nl) +:+
  (timestamp (start s) +:+ " --> " +:+ timestamp (end_ s) +:+ nl) +:+
  (strip (text s) +:+ nl +:+ nl).

(** The entries the loop emits, with the index it writes for each, when
    the enumeration is at [i]. *)
Fixpoint emitted (i : N) (segments : list segment) : list (N * segment) :=
  match segments with
  | [] => []
  | s :: rest => (if spoken s then [(i, s)] else []) ++ emitted (N.succ i) rest
  end%list.

Fixpoint concat_entries (es : list (N * segment)) : string :=
  match es with
  | [] => ""
  | (i, s) :: rest => entry i s +:+ concat_entries rest
  end.

(** No call on the file at [path] fails. *)
Definition writable (h : host) (path : string) : Prop :=
  io_fails h (OpOpen path) = false ∧
  (∀ data, io_fails h (OpWrite path data) = false) ∧
  io_fails h (OpClose path) = false.

(** The calls a computation makes from [w]. *)
Definition calls {A} (m : io A) (h : host) (w : world) : list io_op :=
  drop (List.length (trace w)) (trace (snd (m h w))).

(** ** The numbering and the routing rule of the specification *)

(** No segment that is written comes after one that is skipped: the
    skipped segments, if any, are the last ones. *)
Fixpoint skips_only_at_the_end (segments : list segment) : bool :=
  match segments with
  | [] => true
  | s :: rest =>
      if spoken s then skips_only_at_the_end rest
      else forallb (λ s, negb (spoken s)) rest
  end.

(** The two destinations of a subtitle file. *)
Inductive destination := FinalOutput | TranslationIntake.

(** The specification's designated code: ['nl'], compared without regard
    to case. *)
Definition spec_is_target_language (code : string) : bool :=
  existsb (String.eqb code) ["nl"; "nL"; "Nl"; "NL"].

(** The specification's code of a binding: the code it carries, and the
    fallback ['en'] when it carries none (it is no dictionary, has no
    ['code'], or an empty one). *)
Definition spec_code (info : language_info) : string :=
  match info with
  | LangDict (Some (String c rest)) => String c rest
  | _ => "en"
  end.

(** The specification's destination for a binding. *)
Definition spec_destination (info : language_info) : destination :=
  if spec_is_target_language (spec_code info) then FinalOutput else TranslationIntake.

(** The folder of a destination on a host. *)
Definition folder_of (h : host) (d : destination) : option string :=
  match d with
  | FinalOutput => environ h !! "OUTPUT_FOLDER_ID"
  | TranslationIntake => environ h !! "TEXT_TRANSLATION_FOLDER_ID"
  end.

(** What the rule allows a call of a run to be: an upload goes to the
    folder of the destination, and the model is asked for the language of
    the binding's code. *)
Definition routed (h : host) (info : language_info) (op : io_op) : Prop :=
  match op with
  | OpUpload _ folder_id => folder_of h (spec_destination info) = Some folder_id
  | OpTranscribe language => language = spec_code info
  | _ => True
  end.

(** The model is asked for no other language than [language]. *)
Definition asks_in (language : string) (op : io_op) : Prop :=
  match op with
  | OpTranscribe l => l = language
  | _ => True
  end.

(* ===================================================================== *)
(** * Running the monad *)
(* ===================================================================== *)

Lemma string_app_cons c a b : String c a +:+ b = String c (a +:+ b).
Proof. reflexivity. Qed.

Lemma string_app_nil_r a : a +:+ "" = a.
Proof. induction a as [|c a IH]; [reflexivity|]. rewrite string_app_cons. by rewrite IH. Qed.

Lemma string_app_assoc a b c : (a +:+ b) +:+ c = a +:+ (b +:+ c).
Proof. induction a as [|x a IH]; [reflexivity|]. rewrite !string_app_cons. by rewrite IH. Qed.

Lemma run_bind {A B} (m : io A) (k : A → io B) h w :
  (m ≫= k) h w = match m h w with
                 | (Ok a, w') => k a h w'
                 | (Raise e, w') => (Raise e, w')
                 end.
Proof. reflexivity. Qed.

Lemma external_ok op e h w :
  io_fails h op = false → external op e h w = (Ok tt, add_trace op w).
Proof. intros H. unfold external. by rewrite H. Qed.

Lemma external_fails op e h w :
  io_fails h op = true → external op e h w = (Raise e, add_trace op w).
Proof. intros H. unfold external. by rewrite H. Qed.

Lemma write_run path data h w :
  io_fails h (OpWrite path data) = false →
  write path data h w =
    (Ok tt, set_fs (alter (λ old, old +:+ data) path) (add_trace (OpWrite path data) w)).
Proof. intros H. unfold write. by rewrite run_bind, external_ok. Qed.

(** ** The loop of [_write_srt] when nothing fails *)

Lemma write_entries_ok h segments : ∀ i path w content,
  (∀ data, io_fails h (OpWrite path data) = false) →
  forallb formats segments = true →
  fs w !! path = Some content →
  ∃ w', write_entries path i segments h w = (Ok tt, w') ∧
        fs w' = <[path := content +:+ concat_entries (emitted i segments)]> (fs w) ∧
        drive w' = drive w ∧ log w' = log w.
Proof.
  induction segments as [|s rest IH]; intros i path w content Hw Hf Hc.
  - exists w. simpl. rewrite string_app_nil_r. split; [done|]. split; [|done].
    symmetry. by apply insert_id.
  - simpl in Hf. apply andb_prop in Hf as [Hs Hrest].
    unfold formats in Hs. simpl write_entries.
    destruct (_format_timestamp (start s)) as [t1|] eqn:E1; [|done].
    destruct (_format_timestamp (end_ s)) as [t2|] eqn:E2; [|done].
    rewrite run_bind. unfold lift at 1. rewrite run_bind. unfold lift at 1.
    rewrite run_bind. simpl emitted. unfold spoken.
    destruct (truthy (strip (text s))) eqn:Et.
    + rewrite run_bind, write_run by done.
      rewrite run_bind, write_run by done.
      rewrite write_run by done.
      match goal with |- context [write_entries _ _ _ _ ?x] => set (w3 := x) end.
      destruct (IH (N.succ i) path w3 (content +:+ entry i s))
        as (w' & Hrun & Hfs & Hdrive & Hlog); [done..| |].
      * subst w3. simpl. rewrite !lookup_alter_eq, Hc. simpl.
        unfold entry, timestamp. rewrite E1, E2. by rewrite !string_app_assoc.
      * exists w'. split; [done|]. split; [|done].
        rewrite Hfs. subst w3. simpl.
        rewrite !insert_alter_eq. simpl. by rewrite string_app_assoc.
    + destruct (IH (N.succ i) path w content) as (w' & Hrun & Hfs & Hio & Hlog); try done.
      exists w'. done.
Qed.

(** [_write_srt] on segments, when the file can be written and every
    timestamp formatted: the file holds the emitted entries. *)
Lemma write_srt_ok h segments path w :
  segments ≠ [] → writable h path → forallb formats segments = true →
  ∃ w', _write_srt segments path h w = (Ok true, w') ∧
        fs w' = <[path := concat_entries (emitted 1 segments)]> (fs w) ∧
        drive w' = drive w ∧ log w' = log w.
Proof.
  intros Hne (Hopen & Hwrite & Hclose) Hf.
  set (w1 := set_fs (insert path "") (add_trace (OpOpen path) w)).
  destruct (write_entries_ok h segments 1%N path w1 "") as (w' & Hrun & Hfs & Hd & Hl);
    [done..| by (subst w1; simpl; rewrite lookup_insert_eq) |].
  exists (add_trace (OpClose path) w').
  unfold _write_srt, try_except.
  destruct segments as [|s rest]; [done|].
  remember (s :: rest) as segments.
  rewrite run_bind. unfold with_open, open_w.
  rewrite !run_bind, external_ok by done.
  unfold modify at 1. unfold try_finally. fold w1. rewrite Hrun.
  unfold close. rewrite external_ok by done.
  split; [done|]. simpl. rewrite Hfs, Hd, Hl. subst w1. simpl.
  by rewrite insert_insert_eq.
Qed.

(** ** Computations that end normally only if none of their calls failed *)

Definition clean {A} (m : io A) : Prop :=
  ∀ h w, ∃ ops, trace (snd (m h w)) = (trace w ++ ops)%list ∧
                (∀ a, fst (m h w) = Ok a → existsb (io_fails h) ops = false).

Lemma calls_eq {A} (m : io A) h w ops :
  trace (snd (m h w)) = (trace w ++ ops)%list → calls m h w = ops.
Proof. intros H. unfold calls. rewrite H. apply drop_app_length. Qed.

Lemma clean_ret {A} (a : A) : clean (ret a).
Proof. intros h w. exists []. simpl. by rewrite app_nil_r. Qed.

Lemma clean_raise {A} e : clean (@raise A e).
Proof. intros h w. exists []. simpl. by rewrite app_nil_r. Qed.

Lemma clean_lift {A} (r : result A) : clean (lift r).
Proof. intros h w. exists []. simpl. by rewrite app_nil_r. Qed.

Lemma clean_logger l msg : clean (logger l msg).
Proof. intros h w. exists []. simpl. by rewrite app_nil_r. Qed.

Lemma clean_set_fs f : clean (modify (set_fs f)).
Proof. intros h w. exists []. simpl. by rewrite app_nil_r. Qed.

Lemma clean_external op e : clean (external op e).
Proof.
  intros h w. exists [op]. unfold external.
  destruct (io_fails h op) eqn:E; simpl; [done|]. rewrite E. done.
Qed.

Lemma clean_bind {A B} (m : io A) (k : A → io B) :
  clean m → (∀ a, clean (k a)) → clean (m ≫= k).
Proof.
  intros Hm Hk h w. rewrite run_bind.
  destruct (Hm h w) as (ops1 & Ht1 & Hok1).
  destruct (m h w) as [[a|e] w1]; simpl in *.
  - destruct (Hk a h w1) as (ops2 & Ht2 & Hok2).
    exists (ops1 ++ ops2)%list. rewrite Ht2, Ht1, app_assoc. split; [done|].
    intros b Hb. rewrite existsb_app, (Hok1 a), (Hok2 b); done.
  - exists ops1. done.
Qed.

Lemma clean_try_finally {A} (body : io A) fin :
  clean body → clean fin → clean (try_finally body fin).
Proof.
  intros Hb Hf h w. unfold try_finally.
  destruct (Hb h w) as (ops1 & Ht1 & Hok1).
  destruct (body h w) as [r w1]; simpl in *.
  destruct (Hf h w1) as (ops2 & Ht2 & Hok2).
  exists (ops1 ++ ops2)%list.
  destruct (fin h w1) as [[[]|e] w2]; simpl in *; rewrite Ht2, Ht1, app_assoc.
  - split; [done|]. intros a ->. rewrite existsb_app, (Hok1 a), (Hok2 tt); done.
  - done.
Qed.

Lemma clean_write_entries path segments : ∀ i, clean (write_entries path i segments).
Proof.
  induction segments as [|s rest IH]; intros i; simpl.
  - apply clean_ret.
  - apply clean_bind; [apply clean_lift|]. intros t1.
    apply clean_bind; [apply clean_lift|]. intros t2.
    apply clean_bind; [|intros _; apply IH].
    destruct (truthy _); [|apply clean_ret].
    unfold write.
    repeat first [ apply clean_bind; [|intros _] | apply clean_external | apply clean_set_fs ].
Qed.

Lemma clean_with_open {A} path (body : io A) : clean body → clean (with_open path body).
Proof.
  intros Hb. unfold with_open, open_w, close.
  apply clean_bind; [|intros _; apply clean_try_finally; [done|apply clean_external]].
  apply clean_bind; [apply clean_external|intros _; apply clean_set_fs].
Qed.

(** The [try] block of [_write_srt]. *)
Definition write_srt_body (segments : list segment) (output_path : string) : io bool :=
  match segments with
  | [] =>
      logger WARNING "No segments to write to SRT file";;
      ret false
  | _ =>
      with_open output_path (write_entries output_path 1 segments);;
      ret true
  end.

Lemma clean_write_srt_body segments path : clean (write_srt_body segments path).
Proof.
  unfold write_srt_body. destruct segments.
  - apply clean_bind; [apply clean_logger|intros _; apply clean_ret].
  - apply clean_bind; [|intros _; apply clean_ret].
    apply clean_with_open, clean_write_entries.
Qed.

Lemma write_srt_unfold segments path h w :
  _write_srt segments path h w =
    match write_srt_body segments path h w with
    | (Ok b, w') => (Ok b, w')
    | (Raise e, w') =>
        (Ok false, add_log ERROR ("Error writing SRT file: " +:+ str_exn e) w')
    end.
Proof.
  unfold _write_srt, try_except, write_srt_body.
  destruct segments; [reflexivity|].
  match goal with |- context [match ?x with _ => _ end] => destruct x as [[b|e] w'] end;
    reflexivity.
Qed.

(* ===================================================================== *)
(** * The subtitle writer *)
(* ===================================================================== *)

(** [enumerate(segments, i)] *)
Fixpoint enumerate (i : N) (segments : list segment) : list (N * segment) :=
  match segments with
  | [] => []
  | s :: rest => (i, s) :: enumerate (N.succ i) rest
  end.

(** The numbering the specification describes: the emitted entries,
    renumbered from 1 without gaps. *)
Definition renumbered (segments : list segment) : list (N * segment) :=
  enumerate 1 (List.filter spoken segments).

Lemma emitted_enumerate segments : ∀ i,
  emitted i segments = List.filter (λ e, spoken e.2) (enumerate i segments).
Proof.
  induction segments as [|s rest IH]; intros i; simpl; [done|].
  rewrite IH. by destruct (spoken s).
Qed.

Lemma emitted_length segments : ∀ i,
  List.length (emitted i segments) = List.length (List.filter spoken segments).
Proof.
  induction segments as [|s rest IH]; intros i; simpl; [done|].
  rewrite length_app, IH. by destruct (spoken s).
Qed.

Lemma emitted_silent segments : ∀ i,
  forallb (λ s, negb (spoken s)) segments = true → emitted i segments = [].
Proof.
  induction segments as [|s rest IH]; intros i H; simpl in *; [done|].
  apply andb_prop in H as [Hs Hrest]. rewrite IH by done.
  by destruct (spoken s).
Qed.

Lemma emitted_all_spoken segments : ∀ i,
  forallb spoken segments = true → emitted i segments = enumerate i segments.
Proof.
  induction segments as [|s rest IH]; intros i H; simpl in *; [done|].
  apply andb_prop in H as [Hs Hrest]. rewrite IH by done. by rewrite Hs.
Qed.

(** ** Fixtures *)

(** A host on which no call fails; both destination folders are
    configured and every video decodes to some audio. *)
Definition quiet : host :=
  Host (<["OUTPUT_FOLDER_ID" := "out"]> (<["TEXT_TRANSLATION_FOLDER_ID" := "in"]> ∅))
       (fun content => Audio ("pcm:" +:+ content))
       (fun _ => false).

(** [quiet], but the calls selected by [bad] fail. *)
Definition faulty (bad : io_op -> bool) : host :=
  Host (environ quiet) (decoder quiet) bad.

(** An empty disk, and a drive that holds the video [v1]. *)
Definition fresh : world :=
  World ∅ [RemoteFile "v1" "talk.mp4" "videos" false "mp4-bytes"] [] [].

Definition utterance (a b : Z) (t : string) : segment :=
  Segment (of_decimal a 3) (of_decimal b 3) t.

(** Five segments, the third of which is blank. *)
Definition five : list segment :=
  [utterance 1000 2500 "hello"; utterance 4000 6250 " world ";
   utterance 7000 7500 "   "; utterance 8000 9000 "again"; utterance 9500 9900 "bye"].

(** ** Empty input *)

(** C8. Called with an empty segment sequence, [_write_srt] returns
    [False]; it makes no external call, so no file is opened or created,
    and the disk and the drive are as they were. *)
Theorem write_srt_empty_returns_false (output_path : string) (h : host) (w : world) :
  let out := _write_srt [] output_path h w in
  fst out = Ok false ∧
  fs (snd out) = fs w ∧
  drive (snd out) = drive w ∧
  calls (_write_srt [] output_path) h w = [].
Proof.
  repeat split. unfold calls. simpl. apply drop_all.
Qed.

(** ** Segments that are all blank *)

(** C10. For a sequence of segments that is not empty and whose texts all
    strip to the empty string, when the output file can be written and the
    timestamps can be formatted, [_write_srt] returns [True] and leaves an
    empty file at the output path. *)
Theorem write_srt_all_blank_writes_empty_file
    (h : host) (segments : list segment) (output_path : string) (w : world) :
  segments ≠ [] →
  forallb (λ s, negb (truthy (strip (text s)))) segments = true →
  writable h output_path →
  forallb formats segments = true →
  let out := _write_srt segments output_path h w in
  fst out = Ok true ∧
  fs (snd out) !! output_path = Some "" ∧
  emitted 1 segments = [].
Proof.
  intros Hne Hblank Hw Hf.
  destruct (write_srt_ok h segments output_path w) as (w' & Hrun & Hfs & _); [done..|].
  simpl. rewrite Hrun. simpl. rewrite Hfs, (emitted_silent segments) by done.
  split; [done|]. split; [|done]. simpl. apply lookup_insert_eq.
Qed.

Lemma write_srt_all_blank_witness :
  let segments := [utterance 1000 2500 "  "; utterance 4000 6250 ""] in
  let out := _write_srt segments "/cache/talk.srt" quiet fresh in
  fst out = Ok true ∧
  fs (snd out) !! "/cache/talk.srt" = Some "" ∧
  emitted 1 segments = [].
Proof.
  apply (write_srt_all_blank_writes_empty_file quiet _ "/cache/talk.srt" fresh).
  - discriminate.
  - vm_compute. reflexivity.
  - repeat split.
  - vm_compute. reflexivity.
Defined.

(** ** Numbering *)

(** C1, as stated, fails: of five segments whose third is blank, the four
    entries written carry the indices 1, 2, 4 and 5, not 1 to 4. *)
Lemma write_srt_renumbers_counterexample :
  let out := _write_srt five "/cache/talk.srt" quiet fresh in
  fst out = Ok true ∧
  fs (snd out) !! "/cache/talk.srt" = Some (concat_entries (emitted 1 five)) ∧
  map fst (emitted 1 five) = [1; 2; 4; 5]%N ∧
  map fst (renumbered five) = [1; 2; 3; 4]%N ∧
  fs (snd out) !! "/cache/talk.srt" ≠ Some (concat_entries (renumbered five)).
Proof.
  repeat split; try (vm_compute; reflexivity).
  intros H. vm_compute in H. discriminate H.
Qed.

Lemma emitted_from segments : ∀ i,
  Forall (λ e, (i <= e.1)%N) (emitted i segments).
Proof.
  induction segments as [|s rest IH]; intros i; simpl; [done|].
  apply Forall_app. split.
  - destruct (spoken s); [|done]. apply Forall_cons. split; [simpl; lia|done].
  - eapply Forall_impl; [apply IH|]. simpl. intros e He. lia.
Qed.

Lemma filter_spoken_nil segments :
  List.filter spoken segments = [] → forallb (λ s, negb (spoken s)) segments = true.
Proof.
  induction segments as [|s rest IH]; simpl; [done|].
  destruct (spoken s); [done|]. exact IH.
Qed.

(** The indices written are those of a renumbering exactly when no
    written segment follows a skipped one. *)
Lemma emitted_renumbered segments : ∀ i,
  List.map fst (emitted i segments) = List.map fst (enumerate i (List.filter spoken segments))
  ↔ skips_only_at_the_end segments = true.
Proof.
  induction segments as [|s rest IH]; intros i; simpl; [done|].
  destruct (spoken s) eqn:Hs; simpl.
  - rewrite <- (IH (N.succ i)). split; [by intros [=]|by intros ->].
  - split.
    + intros Heq. apply filter_spoken_nil.
      destruct (List.filter spoken rest) as [|x xs] eqn:Hfilter; [done|]. exfalso.
      pose proof (emitted_from rest (N.succ i)) as Hfrom.
      destruct (emitted (N.succ i) rest) as [|[j y] es]; [done|].
      simpl in Heq. injection Heq as -> _.
      apply Forall_cons in Hfrom as [Hj _]. simpl in Hj. lia.
    + intros Hsilent. rewrite emitted_silent by done.
      assert (List.filter spoken rest = []) as ->; [|done].
      clear -Hsilent. induction rest as [|x xs IH]; simpl in *; [done|].
      apply andb_prop in Hsilent as [Hx Hxs]. destruct (spoken x); [done|]. by apply IH.
Qed.

Lemma all_spoken_skips_only_at_the_end segments :
  forallb spoken segments = true → skips_only_at_the_end segments = true.
Proof.
  induction segments as [|s rest IH]; simpl; [done|].
  intros [-> Hrest]%andb_prop. by apply IH.
Qed.

(** C1, amended. When the file can be written and the timestamps can be
    formatted, [_write_srt] returns [True] and the file holds one entry for
    every segment whose stripped text is not empty, in order; the index
    written for an entry is the position of its segment in the input,
    counted from 1, so a skipped segment leaves a gap before every entry
    written after it. The indices are 1, 2, ... without gaps exactly when
    no written segment follows a skipped one, as when none is skipped. *)
Theorem write_srt_numbers_by_position
    (h : host) (segments : list segment) (output_path : string) (w : world) :
  segments ≠ [] →
  writable h output_path →
  forallb formats segments = true →
  let out := _write_srt segments output_path h w in
  fst out = Ok true ∧
  fs (snd out) !! output_path = Some (concat_entries (emitted 1 segments)) ∧
  emitted 1 segments = List.filter (λ e, spoken e.2) (enumerate 1 segments) ∧
  List.length (emitted 1 segments) = List.length (List.filter spoken segments) ∧
  (List.map fst (emitted 1 segments) = List.map fst (renumbered segments)
   ↔ skips_only_at_the_end segments = true) ∧
  (forallb spoken segments = true → emitted 1 segments = renumbered segments).
Proof.
  intros Hne Hw Hf.
  destruct (write_srt_ok h segments output_path w) as (w' & Hrun & Hfs & _); [done..|].
  simpl. rewrite Hrun. simpl. rewrite Hfs.
  split; [done|]. split; [apply lookup_insert_eq|].
  split; [apply emitted_enumerate|]. split; [apply emitted_length|].
  split; [apply emitted_renumbered|].
  intros Hall. rewrite emitted_all_spoken by done. unfold renumbered.
  f_equal. symmetry. clear -Hall.
  induction segments as [|s rest IH]; simpl in *; [done|].
  apply andb_prop in Hall as [-> Hrest]. by rewrite IH.
Qed.

Lemma write_srt_numbers_by_position_witness :
  let out := _write_srt five "/cache/talk.srt" quiet fresh in
  fst out = Ok true ∧
  fs (snd out) !! "/cache/talk.srt" = Some (concat_entries (emitted 1 five)) ∧
  emitted 1 five = List.filter (λ e, spoken e.2) (enumerate 1 five) ∧
  List.length (emitted 1 five) = List.length (List.filter spoken five) ∧
  (List.map fst (emitted 1 five) = List.map fst (renumbered five)
   ↔ skips_only_at_the_end five = true) ∧
  (forallb spoken five = true → emitted 1 five = renumbered five).
Proof.
  apply (write_srt_numbers_by_position quiet five "/cache/talk.srt" fresh).
  - discriminate.
  - repeat split.
  - vm_compute. reflexivity.
Defined.

(** Three segments of which the last is blank: a segment is skipped, and
    the indices written are 1 and 2, as a renumbering would give. *)
Example write_srt_trailing_blank :
  let segments := [utterance 1000 2500 "hello"; utterance 4000 6250 " world ";
                   utterance 7000 7500 "   "] in
  forallb spoken segments = false ∧
  skips_only_at_the_end segments = true ∧
  List.map fst (emitted 1 segments) = [1; 2]%N ∧
  emitted 1 segments = renumbered segments.
Proof. repeat split. Qed.

(** ** Failures while writing *)

(** C5, as stated, fails: when the file cannot be opened the caller gets a
    plain [False], not an exception. *)
Lemma write_srt_surfaces_failure_counterexample :
  let h := faulty (λ op, match op with OpOpen _ => true | _ => false end) in
  let out := _write_srt five "/cache/talk.srt" h fresh in
  calls (_write_srt five "/cache/talk.srt") h fresh = [OpOpen "/cache/talk.srt"] ∧
  fst out = Ok false ∧
  (∀ e, fst out ≠ Raise e).
Proof.
  repeat split. intros e H. vm_compute in H. discriminate H.
Qed.

(** C5, amended. [_write_srt] never raises. When one of its calls (opening
    the file, a write, closing it) fails, the exception is caught inside,
    an error record is logged and the caller gets [False]. *)
Theorem write_srt_swallows_failure
    (h : host) (segments : list segment) (output_path : string) (w : world) :
  let out := _write_srt segments output_path h w in
  (∃ b, fst out = Ok b) ∧
  (existsb (io_fails h) (calls (_write_srt segments output_path) h w) = true →
   fst out = Ok false ∧
   ∃ msg, last (log (snd out)) = Some (ERROR, msg)).
Proof.
  simpl. unfold calls. rewrite write_srt_unfold.
  destruct (clean_write_srt_body segments output_path h w) as (ops & Ht & Hok).
  destruct (write_srt_body segments output_path h w) as [[b|e] w']; simpl in *.
  - split; [by exists b|]. rewrite Ht, drop_app_length, (Hok b) by done. done.
  - split; [by exists false|]. intros _. split; [done|].
    eexists. apply last_snoc.
Qed.

Lemma write_srt_swallows_failure_witness :
  let h := faulty (λ op, match op with OpWrite _ _ => true | _ => false end) in
  let out := _write_srt five "/cache/talk.srt" h fresh in
  fst out = Ok false ∧
  ∃ msg, last (log (snd out)) = Some (ERROR, msg).
Proof.
  apply (write_srt_swallows_failure
           (faulty (λ op, match op with OpWrite _ _ => true | _ => false end))
           five "/cache/talk.srt" fresh).
  vm_compute. reflexivity.
Defined.

(* ===================================================================== *)
(** * The calls a computation may make *)
(* ===================================================================== *)

(** Every call [m] makes satisfies [P]; the trace and the log only grow. *)
Definition emits {A} (P : io_op → Prop) (m : io A) : Prop :=
  ∀ h w, ∃ ops entries,
    trace (snd (m h w)) = (trace w ++ ops)%list ∧ Forall P ops ∧
    log (snd (m h w)) = (log w ++ entries)%list.

Section Emits.
Context (P : io_op → Prop).

Lemma emits_pure {A} (m : io A) :
  (∀ h w, trace (snd (m h w)) = trace w ∧ log (snd (m h w)) = log w) → emits P m.
Proof.
  intros H h w. exists [], []. destruct (H h w) as [-> ->].
  by rewrite !app_nil_r.
Qed.

Lemma emits_ret {A} (a : A) : emits P (ret a).
Proof. by apply emits_pure. Qed.

Lemma emits_raise {A} e : emits P (@raise A e).
Proof. by apply emits_pure. Qed.

Lemma emits_lift {A} (r : result A) : emits P (lift r).
Proof. by apply emits_pure. Qed.

Lemma emits_get_world : emits P get_world.
Proof. by apply emits_pure. Qed.

Lemma emits_exists path : emits P (exists_ path).
Proof. by apply emits_pure. Qed.

Lemma emits_getenv name : emits P (getenv name).
Proof. by apply emits_pure. Qed.

Lemma emits_set_fs f : emits P (modify (set_fs f)).
Proof. by apply emits_pure. Qed.

Lemma emits_set_drive f : emits P (modify (set_drive f)).
Proof. by apply emits_pure. Qed.

Lemma emits_logger l msg : emits P (logger l msg).
Proof. intros h w. exists [], [(l, msg)]. simpl. by rewrite app_nil_r. Qed.

Lemma emits_add_trace op : P op → emits P (modify (add_trace op)).
Proof. intros HP h w. exists [op], []. simpl. rewrite app_nil_r. auto. Qed.

Lemma emits_external op e : P op → emits P (external op e).
Proof.
  intros HP h w. exists [op], []. unfold external.
  destruct (io_fails h op); simpl; rewrite app_nil_r; auto.
Qed.

Lemma emits_decode path : P (OpDecode path) → emits P (decode path).
Proof.
  intros HP h w. exists [OpDecode path], []. unfold decode.
  destruct (io_fails h _); simpl; rewrite app_nil_r; auto.
Qed.

Lemma emits_bind {A B} (m : io A) (k : A → io B) :
  emits P m → (∀ a, emits P (k a)) → emits P (m ≫= k).
Proof.
  intros Hm Hk h w. rewrite run_bind.
  destruct (Hm h w) as (ops1 & es1 & Ht1 & HP1 & Hl1).
  destruct (m h w) as [[a|e] w1]; simpl in *.
  - destruct (Hk a h w1) as (ops2 & es2 & Ht2 & HP2 & Hl2).
    exists (ops1 ++ ops2)%list, (es1 ++ es2)%list.
    rewrite Ht2, Ht1, Hl2, Hl1, !app_assoc. split_and!; [done| |done].
    by apply Forall_app.
  - by exists ops1, es1.
Qed.

Lemma emits_try_except {A} (body : io A) handler :
  emits P body → (∀ e, emits P (handler e)) → emits P (try_except body handler).
Proof.
  intros Hb Hh h w. unfold try_except.
  destruct (Hb h w) as (ops1 & es1 & Ht1 & HP1 & Hl1).
  destruct (body h w) as [[a|e] w1]; simpl in *.
  - by exists ops1, es1.
  - destruct (Hh e h w1) as (ops2 & es2 & Ht2 & HP2 & Hl2).
    exists (ops1 ++ ops2)%list, (es1 ++ es2)%list.
    rewrite Ht2, Ht1, Hl2, Hl1, !app_assoc. split_and!; [done| |done].
    by apply Forall_app.
Qed.

Lemma emits_try_finally {A} (body : io A) fin :
  emits P body → emits P fin → emits P (try_finally body fin).
Proof.
  intros Hb Hf h w. unfold try_finally.
  destruct (Hb h w) as (ops1 & es1 & Ht1 & HP1 & Hl1).
  destruct (body h w) as [r w1]; simpl in *.
  destruct (Hf h w1) as (ops2 & es2 & Ht2 & HP2 & Hl2).
  exists (ops1 ++ ops2)%list, (es1 ++ es2)%list.
  destruct (fin h w1) as [[[]|e] w2]; simpl in *;
    rewrite Ht2, Ht1, Hl2, Hl1, !app_assoc; (split_and!; [done| |done]);
    by apply Forall_app.
Qed.

Lemma emits_try_except_finally {A B} (first : io A) (rest : A → io B) handler fin :
  emits P first → (∀ x, emits P (rest x)) → (∀ e, emits P (handler e)) →
  (∀ o, emits P (fin o)) → emits P (try_except_finally first rest handler fin).
Proof.
  intros H1 Hr Hh Hf h w. unfold try_except_finally.
  destruct (H1 h w) as (ops1 & es1 & Ht1 & HP1 & Hl1).
  destruct (first h w) as [[x|e] w1]; simpl in *.
  - destruct (emits_try_finally _ _ (emits_try_except _ _ (Hr x) Hh) (Hf (Some x)) h w1)
      as (ops2 & es2 & Ht2 & HP2 & Hl2).
    exists (ops1 ++ ops2)%list, (es1 ++ es2)%list.
    rewrite Ht2, Ht1, Hl2, Hl1, !app_assoc. split_and!; [done| |done].
    by apply Forall_app.
  - destruct (emits_try_finally _ _ (Hh e) (Hf None) h w1)
      as (ops2 & es2 & Ht2 & HP2 & Hl2).
    exists (ops1 ++ ops2)%list, (es1 ++ es2)%list.
    rewrite Ht2, Ht1, Hl2, Hl1, !app_assoc. split_and!; [done| |done].
    by apply Forall_app.
Qed.

End Emits.

Lemma emits_weaken {A} (P P' : io_op → Prop) (m : io A) :
  (∀ op, P op → P' op) → emits P m → emits P' m.
Proof.
  intros HPP' Hm h w. destruct (Hm h w) as (ops & es & Ht & HP & Hl).
  exists ops, es. split_and!; [done| |done]. eapply Forall_impl; eauto.
Qed.

(** One step of the proof that a computation emits [P]: the rule of the
    construct at the head of the computation. *)
Ltac emits_step :=
  lazymatch goal with
  | |- emits _ (mbind _ _) => apply emits_bind; [|intros ?]
  | |- emits _ (ret _) => apply emits_ret
  | |- emits _ (raise _) => apply emits_raise
  | |- emits _ (lift _) => apply emits_lift
  | |- emits _ get_world => apply emits_get_world
  | |- emits _ (exists_ _) => apply emits_exists
  | |- emits _ (getenv _) => apply emits_getenv
  | |- emits _ (logger _ _) => apply emits_logger
  | |- emits _ (modify (set_fs _)) => apply emits_set_fs
  | |- emits _ (modify (set_drive _)) => apply emits_set_drive
  | |- emits _ (modify (add_trace _)) => apply emits_add_trace
  | |- emits _ (external _ _) => apply emits_external
  | |- emits _ (decode _) => apply emits_decode
  | |- emits _ (try_except _ _) => apply emits_try_except; [|intros ?]
  | |- emits _ (try_finally _ _) => apply emits_try_finally
  | |- emits _ (try_except_finally _ _ _ _) =>
      apply emits_try_except_finally; [|intros ?|intros ?|intros ?]
  | |- emits _ (match ?x with _ => _ end) => destruct x
  | |- emits _ (let '(_, _) := ?x in _) => destruct x
  | |- emits _ (open_w _) => unfold open_w
  | |- emits _ (write _ _) => unfold write
  | |- emits _ (close _) => unfold close
  | |- emits _ (with_open _ _) => unfold with_open
  | |- emits _ (remove _) => unfold remove
  | |- emits _ (copy2 _ _) => unfold copy2
  | |- emits _ (prepare_audio _) => unfold prepare_audio
  | |- emits _ (_download_file _ _) => unfold _download_file
  | |- emits _ (_upload_srt _ _) => unfold _upload_srt
  | |- emits _ (_write_srt _ _) => unfold _write_srt
  | |- emits _ (recognize _ _ _ _ _) => unfold recognize
  | |- emits _ (transcribe_video _ _ _) => unfold transcribe_video
  | |- emits _ (process_video _ _ _ _) => unfold process_video
  end.

(** The calls of the pipeline, by kind. *)
Definition is_upload (op : io_op) : bool :=
  match op with OpUpload _ _ => true | _ => false end.

Definition is_copy (op : io_op) : bool :=
  match op with OpCopy _ _ => true | _ => false end.

Definition is_listing (op : io_op) : bool :=
  match op with OpListFolder _ _ => true | _ => false end.

Definition is_remove (op : io_op) : bool :=
  match op with OpRemove _ => true | _ => false end.

(** The calls on the local disk and towards the decoder and the model. *)
Definition is_local (op : io_op) : bool :=
  match op with
  | OpUpload _ _ | OpCopy _ _ | OpListFolder _ _ => false
  | _ => true
  end.

Lemma emits_write_entries P path segments : ∀ i,
  (∀ data, P (OpWrite path data)) → emits P (write_entries path i segments).
Proof.
  induction segments as [|s rest IH]; intros i HP; simpl.
  - apply emits_ret.
  - repeat emits_step; auto.
Qed.

Lemma emits_cleanup_files P file_paths :
  (∀ path, P (OpRemove path)) → emits P (_cleanup_files file_paths).
Proof.
  intros HP. induction file_paths as [|p rest IH]; simpl.
  - apply emits_ret.
  - apply emits_bind; [|intros _; apply IH].
    repeat emits_step; auto.
Qed.

Lemma emits_transcribe_video self video_path language_code :
  emits (λ op, is_local op = true) (transcribe_video self video_path language_code).
Proof.
  repeat first [ apply emits_write_entries; intros | emits_step ]; done.
Qed.

(* ===================================================================== *)
(** * The recognizer adapter *)
(* ===================================================================== *)

Lemma write_srt_returns segments path h w : ∃ b, fst (_write_srt segments path h w) = Ok b.
Proof.
  rewrite write_srt_unfold.
  destruct (write_srt_body segments path h w) as [[b|e] w']; eauto.
Qed.

Lemma recognize_unfold self transcribe audio_data video_path language_code h w :
  recognize self transcribe audio_data video_path language_code h w =
    let srt_path := srt_path_of self video_path in
    let w1 := add_trace (OpTranscribe language_code)
                (add_log INFO ("Transcribing with language: " +:+ language_code) w) in
    match transcribe audio_data language_code with
    | Raise e => (Ok None, add_log ERROR ("Transcription failed: " +:+ str_exn e) w1)
    | Ok NotADict => (Ok None, add_log ERROR "Unexpected result type" w1)
    | Ok (Dict None) =>
        (Ok None, add_log ERROR "No segments found in transcription result" w1)
    | Ok (Dict (Some [])) => (Ok None, add_log WARNING "No segments were transcribed" w1)
    | Ok (Dict (Some segments)) =>
        match _write_srt segments srt_path h w1 with
        | (Ok true, w2) =>
            (Ok (Some srt_path),
             add_log INFO ("SRT file created successfully: " +:+ srt_path) w2)
        | (Ok false, w2) => (Ok None, add_log ERROR "Failed to write SRT file" w2)
        | (Raise e, w2) =>
            (Ok None, add_log ERROR ("Transcription failed: " +:+ str_exn e) w2)
        end
    end.
Proof.
  unfold recognize, try_except.
  destruct (transcribe audio_data language_code) as [[|[[|s rest]|]]|e];
    cbv [mbind io_bind modify lift logger ret mret io_ret]; try reflexivity.
  destruct (_write_srt _ _ _ _) as [[[]|] ?]; reflexivity.
Qed.

(** C9. The model's result is validated: when the invocation raises, or the
    result is not a dictionary, or has no ['segments'], or an empty list
    of them, the adapter returns [None] and writes nothing; otherwise the
    very list the model returned is handed to [_write_srt], blank segments
    included, and the adapter returns the path exactly when the writer
    returned [True]. *)
Theorem recognize_validates_and_passes_segments
    (self : VideoProcessor) (transcribe : string → string → result transcription)
    (audio_data video_path language_code : string) (h : host) (w : world) :
  let out := recognize self transcribe audio_data video_path language_code h w in
  let srt_path := srt_path_of self video_path in
  match transcribe audio_data language_code with
  | Ok (Dict (Some (s :: rest))) =>
      ∃ w1, fs w1 = fs w ∧ drive w1 = drive w ∧
            let written := _write_srt (s :: rest) srt_path h w1 in
            fst out = Ok (match fst written with
                          | Ok true => Some srt_path
                          | _ => None
                          end) ∧
            fs (snd out) = fs (snd written) ∧
            drive (snd out) = drive (snd written)
  | _ =>
      fst out = Ok None ∧ fs (snd out) = fs w ∧ drive (snd out) = drive w ∧
      calls (recognize self transcribe audio_data video_path language_code) h w
        = [OpTranscribe language_code]
  end.
Proof.
  simpl. unfold calls. rewrite recognize_unfold.
  destruct (transcribe audio_data language_code) as [[|[[|s rest]|]]|e]; simpl;
    try (split_and!; [done..|]; by rewrite drop_app_length).
  exists (add_trace (OpTranscribe language_code)
            (add_log INFO ("Transcribing with language: " +:+ language_code) w)).
  split_and!; [done..| | |];
    destruct (_write_srt _ _ _ _) as [[[]|] ?]; reflexivity.
Qed.

(* ===================================================================== *)
(** * The orchestrator on concrete runs *)
(* ===================================================================== *)

(** A processor whose model hears two utterances in any audio. *)
Definition processor : VideoProcessor :=
  Build_VideoProcessor "/app/Data/Cache" "/app/Data/Output"
    (Some (λ _ _, Ok (Dict (Some [utterance 1000 2500 "hello";
                                       utterance 4000 6250 "world"])))).

Definition is_download (op : io_op) : bool :=
  match op with OpDownload _ _ => true | _ => false end.

Definition is_transcribe (op : io_op) : bool :=
  match op with OpTranscribe _ => true | _ => false end.

(** The drive after a first successful run on [v1] for a Dutch folder:
    the subtitle file is in the output folder. *)
Definition processed : world :=
  World ∅ [RemoteFile "v1" "talk.mp4" "videos" false "mp4-bytes";
           RemoteFile "s1" "talk.srt" "out" false "1"] [] [].

(** C3 fails on the code: [process_video] never calls
    [check_existing_translation]. On a drive where the output of [talk.mp4]
    is already in the output folder, so that the check would answer
    [True], a second run lists no folder, downloads the video, invokes the
    model and uploads a second [talk.srt]. *)
Theorem process_video_repeats_existing_output :
  let run := process_video processor "v1" "talk.mp4" (LangDict (Some "nl")) in
  fst (check_existing_translation "talk.mp4" "out" "in" quiet processed) = Ok true ∧
  fst (run quiet processed) = Ok true ∧
  existsb is_listing (calls run quiet processed) = false ∧
  existsb is_download (calls run quiet processed) = true ∧
  existsb is_transcribe (calls run quiet processed) = true ∧
  existsb is_upload (calls run quiet processed) = true ∧
  List.length (List.filter (λ f, String.eqb (rf_name f) "talk.srt" && String.eqb (rf_parent f) "out")
                 (drive (snd (run quiet processed)))) = 2%nat.
Proof. vm_compute. repeat split. Qed.

(** On every host and world, [process_video] makes no listing call. *)
Lemma process_video_never_lists self file_id file_name info :
  emits (λ op, is_listing op = false) (process_video self file_id file_name info).
Proof.
  repeat first [ apply emits_write_entries; intros
               | apply emits_cleanup_files; intros
               | emits_step ]; done.
Qed.

(** A host whose disk is full when the subtitle file is written. *)
Definition disk_full : host :=
  faulty (λ op, match op with
                | OpWrite path _ => String.eqb path "/app/Data/Cache/talk.srt"
                | _ => false
                end).

(** C7 fails on the code: when writing the subtitle file fails after the
    file has been opened, [transcribe_video] returns [None], [srt_path]
    stays [None] in [process_video], and the partly written file is left
    in the cache directory: no removal of it is attempted. The video and
    the audio file are removed. *)
Theorem process_video_leaves_partial_subtitle :
  let run := process_video processor "v1" "talk.mp4" (LangDict (Some "nl")) in
  let out := run disk_full fresh in
  fst out = Ok false ∧
  fs (snd out) !! "/app/Data/Cache/talk.srt" = Some "" ∧
  fs (snd out) !! "/app/Data/Cache/talk.mp4" = None ∧
  fs (snd out) !! "/app/Data/Cache/talk.wav" = None ∧
  List.filter is_remove (calls run disk_full fresh)
    = [OpRemove "/app/Data/Cache/talk.wav"; OpRemove "/app/Data/Cache/talk.mp4"].
Proof. vm_compute. repeat split. Qed.

(** A host on which the copy into the archive directory fails. *)
Definition archive_readonly : host :=
  faulty (λ op, match op with OpCopy _ _ => true | _ => false end).

(** C4, as stated, fails: when the copy into the archive directory fails,
    the run returns [False] and nothing is uploaded. *)
Lemma archive_failure_advisory_counterexample :
  let run := process_video processor "v1" "talk.mp4" (LangDict (Some "nl")) in
  let out := run archive_readonly fresh in
  existsb (λ op, is_copy op && io_fails archive_readonly op) (calls run archive_readonly fresh) = true ∧
  fst out = Ok false ∧
  existsb is_upload (calls run archive_readonly fresh) = false ∧
  drive (snd out) = drive fresh.
Proof. vm_compute. repeat split. Qed.

(* ===================================================================== *)
(** * The orchestrator on every run *)
(* ===================================================================== *)

(** Computations that never raise. *)
Definition total {A} (m : io A) : Prop := ∀ h w, ∃ a, fst (m h w) = Ok a.

Lemma total_cleanup_files file_paths : total (_cleanup_files file_paths).
Proof.
  induction file_paths as [|p rest IH]; intros h w; simpl.
  - by exists tt.
  - rewrite run_bind.
    assert (∃ w', (match p with
                   | Some path =>
                       present ← exists_ path;
                       if truthy path && present
                       then try_except
                              (remove path;; logger INFO ("Cleaned up file: " +:+ path))
                              (λ e, logger ERROR ("Error cleaning up file: " +:+ str_exn e))
                       else ret ()
                   | None => ret ()
                   end) h w = (Ok tt, w')) as [w' ->].
    { destruct p as [path|]; [|by eexists].
      rewrite run_bind. unfold exists_ at 1.
      destruct (truthy path && _); [|by eexists].
      unfold try_except.
      destruct ((remove path;; logger INFO ("Cleaned up file: " +:+ path)) h w)
        as [[[]|e] w1]; by eexists. }
    apply IH.
Qed.

(** The language code [process_video] works with: the binding's code, or
    ['en'] when the binding carries none. *)
Definition lang_code_of (info : language_info) : string :=
  default "en" (nonempty (get_code info)).

(** The environment variable that names the upload folder. *)
Definition destination_variable (lang_code : string) : string :=
  if String.eqb (lower lang_code) "nl" then "OUTPUT_FOLDER_ID"
  else "TEXT_TRANSLATION_FOLDER_ID".

(** The [try] block of [process_video] up to the assignment of [srt_path]. *)
Definition fetch (self : VideoProcessor) (file_id file_name : string) (info : language_info)
    : io (string * option string) :=
  lang_code ←
    match nonempty (get_code info) with
    | Some code => ret code
    | None =>
        logger WARNING "No language code provided, defaulting to English";;
        ret "en"
    end;
  logger INFO ("Processing video (code: " +:+ lang_code +:+ ")");;
  _download_file file_id (os_path.join (cache_dir self) file_name);;
  srt_path ← transcribe_video self (os_path.join (cache_dir self) file_name) lang_code;
  ret (lang_code, srt_path).

(** The choice of the destination and the upload. *)
Definition route (lang_code srt_path : string) : io unit :=
  if String.eqb (lower lang_code) "nl" then
    output_folder_id ← getenv "OUTPUT_FOLDER_ID";
    match nonempty output_folder_id with
    | None => raise (Exception_ "Output folder ID not configured")
    | Some output_folder_id =>
        _upload_srt srt_path output_folder_id;;
        logger INFO "Dutch SRT uploaded to Output folder"
    end
  else
    input_folder_id ← getenv "TEXT_TRANSLATION_FOLDER_ID";
    match nonempty input_folder_id with
    | None => raise (Exception_ "Input folder ID not configured")
    | Some input_folder_id =>
        _upload_srt srt_path input_folder_id;;
        logger INFO (lang_code +:+ " SRT uploaded to Input folder for translation")
    end.

(** The rest of the [try] block. *)
Definition deliver (self : VideoProcessor) (x : string * option string) : io bool :=
  let '(lang_code, srt_path) := x in
  match nonempty srt_path with
  | None => raise (Exception_ "Failed to create SRT file")
  | Some srt_path =>
      let local_output_path :=
        os_path.join (output_dir self) (os_path.basename srt_path) in
      copy2 srt_path local_output_path;;
      logger INFO ("Saved local copy to: " +:+ local_output_path);;
      route lang_code srt_path;;
      ret true
  end.

Definition on_error (file_name : string) (e : exn) : io bool :=
  logger ERROR ("Error processing video " +:+ file_name +:+ ": " +:+ str_exn e);;
  ret false.

Definition finally_cleanup (self : VideoProcessor) (file_name : string)
    (assigned : option (string * option string)) : io unit :=
  _cleanup_files [Some (os_path.join (cache_dir self) file_name);
                  match assigned with
                  | Some (_, srt_path) => srt_path
                  | None => None
                  end].

Lemma process_video_unfold self file_id file_name info :
  process_video self file_id file_name info =
    try_except_finally (fetch self file_id file_name info) (deliver self)
      (on_error file_name) (finally_cleanup self file_name).
Proof. reflexivity. Qed.

Lemma emits_fetch self file_id file_name info :
  emits (λ op, is_local op = true) (fetch self file_id file_name info).
Proof.
  unfold fetch.
  repeat first [ apply emits_write_entries; intros | emits_step ]; done.
Qed.

Lemma fetch_lang_code self file_id file_name info h w lang_code srt_path :
  fst (fetch self file_id file_name info h w) = Ok (lang_code, srt_path) →
  lang_code = lang_code_of info.
Proof.
  unfold fetch, lang_code_of.
  destruct (nonempty (get_code info)) as [code|]; simpl;
    cbv [mbind io_bind logger modify ret mret io_ret];
    destruct (_download_file _ _ _ _) as [[[]|?] ?]; simpl; try done;
    destruct (transcribe_video _ _ _ _ _) as [[?|?] ?]; simpl; congruence.
Qed.

Lemma emits_finally_cleanup self file_name assigned :
  emits (λ op, is_local op = true) (finally_cleanup self file_name assigned).
Proof. apply emits_cleanup_files. done. Qed.

Lemma nonempty_Some o s : nonempty o = Some s → o = Some s.
Proof. destruct o as [t|]; simpl; [|done]. destruct (truthy t); congruence. Qed.

Lemma run_getenv_bind {B} name (k : option string → io B) h w :
  (getenv name ≫= k) h w = k (environ h !! name) h w.
Proof. reflexivity. Qed.

Lemma upload_srt_run srt_path folder_id h w :
  ∃ entries,
    log (snd (_upload_srt srt_path folder_id h w)) = (log w ++ entries)%list ∧
    ((trace (snd (_upload_srt srt_path folder_id h w)) = trace w ∧
      ∃ e, fst (_upload_srt srt_path folder_id h w) = Raise e)
     ∨ trace (snd (_upload_srt srt_path folder_id h w))
         = (trace w ++ [OpUpload srt_path folder_id])%list).
Proof.
  unfold _upload_srt, try_except.
  cbv [mbind io_bind get_world external logger modify ret mret io_ret raise].
  destruct (fs w !! srt_path) as [content|]; [destruct (io_fails h _)|]; simpl;
    eexists; (split; [reflexivity|]); eauto.
Qed.

Lemma upload_then_log srt_path folder_id msg h w :
  let m := _upload_srt srt_path folder_id;; logger INFO msg in
  ∃ ops entries,
    trace (snd (m h w)) = (trace w ++ ops)%list ∧
    log (snd (m h w)) = (log w ++ entries)%list ∧
    ((ops = [] ∧ ∃ e, fst (m h w) = Raise e) ∨ ops = [OpUpload srt_path folder_id]).
Proof.
  simpl. rewrite run_bind.
  destruct (upload_srt_run srt_path folder_id h w) as (es & Hl & [[Ht [e He]]|Ht]);
    destruct (_upload_srt srt_path folder_id h w) as [[[]|e'] w']; simpl in *;
    try discriminate.
  - exists [], es. rewrite app_nil_r. split_and!; [done..|]. left. eauto.
  - exists [OpUpload srt_path folder_id], (es ++ [(INFO, msg)])%list.
    rewrite Hl, app_assoc. split_and!; [done..|]. by right.
  - exists [OpUpload srt_path folder_id], es. split_and!; [done..|]. by right.
Qed.

(** The upload step: either no call is made and an exception leaves the
    block, or the one call made is the upload of the subtitle file to the
    folder that the variable chosen from the language code names. *)
Lemma route_run lang_code srt_path h w :
  ∃ ops entries,
    trace (snd (route lang_code srt_path h w)) = (trace w ++ ops)%list ∧
    log (snd (route lang_code srt_path h w)) = (log w ++ entries)%list ∧
    ((ops = [] ∧ ∃ e, fst (route lang_code srt_path h w) = Raise e)
     ∨ ∃ folder_id,
         ops = [OpUpload srt_path folder_id] ∧
         environ h !! destination_variable lang_code = Some folder_id).
Proof.
  unfold route, destination_variable.
  destruct (String.eqb (lower lang_code) "nl");
    rewrite run_getenv_bind;
    (destruct (nonempty (environ h !! _)) as [folder_id|] eqn:E;
     [ apply nonempty_Some in E
     | exists [], []; simpl; rewrite !app_nil_r; split_and!; [done..|]; left; eauto ]).
  - destruct (upload_then_log srt_path folder_id "Dutch SRT uploaded to Output folder" h w)
      as (ops & es & Ht & Hl & H).
    exists ops, es. split_and!; [done..|]. destruct H as [H|H]; [by left|right; eauto].
  - destruct (upload_then_log srt_path folder_id
                (lang_code +:+ " SRT uploaded to Input folder for translation") h w)
      as (ops & es & Ht & Hl & H).
    exists ops, es. split_and!; [done..|]. destruct H as [H|H]; [by left|right; eauto].
Qed.

Lemma copy2_run src dst h w :
  copy2 src dst h w =
    let w' := add_trace (OpCopy src dst) w in
    if io_fails h (OpCopy src dst) then (Raise (OSError (OpCopy src dst)), w')
    else match fs w !! src with
         | Some content => (Ok tt, set_fs (insert dst content) w')
         | None => (Raise (FileNotFoundError src), w')
         end.
Proof.
  unfold copy2. cbv [mbind io_bind get_world external].
  destruct (io_fails h (OpCopy src dst)); [reflexivity|].
  destruct (fs w !! src); reflexivity.
Qed.

Lemma cleanup_step self file_name assigned h w :
  ∃ w' ops entries,
    finally_cleanup self file_name assigned h w = (Ok tt, w') ∧
    trace w' = (trace w ++ ops)%list ∧ Forall (λ op, is_local op = true) ops ∧
    log w' = (log w ++ entries)%list.
Proof.
  destruct (emits_finally_cleanup self file_name assigned h w) as (ops & es & Ht & HP & Hl).
  destruct (total_cleanup_files
              [Some (os_path.join (cache_dir self) file_name);
               match assigned with Some (_, srt_path) => srt_path | None => None end] h w)
    as [[] Hr].
  fold (finally_cleanup self file_name assigned) in Hr.
  destruct (finally_cleanup self file_name assigned h w) as [r w'].
  simpl in *. subst r. by exists w', ops, es.
Qed.

(** The shape of every run of [process_video]: it never raises, and either
    it makes no archive copy and no upload and returns [False]; or the
    archive copy does not succeed, nothing is uploaded, an error is logged
    and it returns [False]; or the archive copy succeeds and then either no
    upload is made and it returns [False], or the one upload made is that
    of the subtitle file to the folder chosen from the language code. *)
Lemma process_video_run self file_id file_name info h w :
  let run := process_video self file_id file_name info in
  let var := destination_variable (lang_code_of info) in
  (∃ b, fst (run h w) = Ok b) ∧
  ((Forall (λ op, is_local op = true) (calls run h w) ∧ fst (run h w) = Ok false)
   ∨ (∃ ops1 src dst ops3,
        calls run h w = (ops1 ++ OpCopy src dst :: ops3)%list ∧
        Forall (λ op, is_local op = true) ops1 ∧
        Forall (λ op, is_local op = true) ops3 ∧
        fst (run h w) = Ok false ∧
        ∃ msg, In (ERROR, msg) (log (snd (run h w))))
   ∨ (∃ ops1 src dst ops2 ops3,
        calls run h w = (ops1 ++ OpCopy src dst :: ops2 ++ ops3)%list ∧
        io_fails h (OpCopy src dst) = false ∧
        Forall (λ op, is_local op = true) ops1 ∧
        Forall (λ op, is_local op = true) ops3 ∧
        ((ops2 = [] ∧ fst (run h w) = Ok false)
         ∨ ∃ folder_id, ops2 = [OpUpload src folder_id] ∧
                        environ h !! var = Some folder_id))).
Proof.
  simpl. unfold calls.
  destruct (process_video self file_id file_name info h w) as [r wf] eqn:Hrun. simpl.
  rewrite process_video_unfold in Hrun. unfold try_except_finally in Hrun.
  destruct (emits_fetch self file_id file_name info h w) as (ops1 & es1 & Ht1 & HP1 & Hl1).
  pose proof (fetch_lang_code self file_id file_name info h w) as Hlang.
  destruct (fetch self file_id file_name info h w) as [[[lang_code srt_path]|e] w1];
    simpl in Ht1, Hl1, Hlang; unfold try_finally, try_except in Hrun.
  - rewrite <- (Hlang _ _ eq_refl). clear Hlang.
    unfold deliver in Hrun. destruct (nonempty srt_path) as [p|].
    + rewrite run_bind, copy2_run in Hrun. cbv zeta in Hrun.
      destruct (io_fails h (OpCopy p _)) eqn:Hcopy; [|destruct (fs w1 !! p) as [content|]].
      * (* the copy fails *)
        unfold on_error in Hrun. cbv [mbind io_bind logger modify ret mret io_ret] in Hrun.
        match type of Hrun with context [finally_cleanup ?s ?f ?a ?hh ?ww] =>
          destruct (cleanup_step s f a hh ww) as (w3 & ops3 & es3 & Hc & Ht3 & HP3 & Hl3) end.
        rewrite Hc in Hrun. injection Hrun as <- <-.
        simpl in *. split; [by eexists|]. right; left.
        exists ops1, p, (os_path.join (output_dir self) (os_path.basename p)), ops3.
        rewrite Ht3, Ht1, <- !app_assoc, drop_app_length. simpl.
        split_and!; [done..|]. eexists. rewrite Hl3. apply in_or_app. left.
        apply in_or_app. right. by left.
      * (* the copy is made *)
        rewrite run_bind in Hrun. unfold logger at 1, modify at 1 in Hrun.
        rewrite run_bind in Hrun.
        match type of Hrun with context [route ?l ?s ?hh ?ww] =>
          destruct (route_run l s hh ww) as (ops2 & es2 & Ht2 & Hl2 & Hcase);
          destruct (route l s hh ww) as [[[]|e] w2] end;
          unfold on_error in Hrun; cbv [mbind io_bind logger modify ret mret io_ret] in Hrun;
          match type of Hrun with context [finally_cleanup ?s ?f ?a ?hh ?ww] =>
            destruct (cleanup_step s f a hh ww) as (w3 & ops3 & es3 & Hc & Ht3 & HP3 & Hl3) end;
          rewrite Hc in Hrun; injection Hrun as <- <-;
          simpl in *; (split; [by eexists|]); right; right;
          exists ops1, p, (os_path.join (output_dir self) (os_path.basename p)), ops2, ops3;
          rewrite Ht3, Ht2, Ht1, <- !app_assoc, drop_app_length; simpl;
          (split_and!; [done..|]).
        -- destruct Hcase as [[_ [e He]]|Hcase]; [discriminate|by right].
        -- destruct Hcase as [[-> _]|Hcase]; [by left|by right].
      * (* the subtitle file is not there *)
        unfold on_error in Hrun. cbv [mbind io_bind logger modify ret mret io_ret] in Hrun.
        match type of Hrun with context [finally_cleanup ?s ?f ?a ?hh ?ww] =>
          destruct (cleanup_step s f a hh ww) as (w3 & ops3 & es3 & Hc & Ht3 & HP3 & Hl3) end.
        rewrite Hc in Hrun. injection Hrun as <- <-.
        simpl in *. split; [by eexists|]. right; left.
        exists ops1, p, (os_path.join (output_dir self) (os_path.basename p)), ops3.
        rewrite Ht3, Ht1, <- !app_assoc, drop_app_length. simpl.
        split_and!; [done..|]. eexists. rewrite Hl3. apply in_or_app. left.
        apply in_or_app. right. by left.
    + unfold on_error, raise in Hrun.
      cbv [mbind io_bind logger modify ret mret io_ret] in Hrun.
      match type of Hrun with context [finally_cleanup ?s ?f ?a ?hh ?ww] =>
        destruct (cleanup_step s f a hh ww) as (w3 & ops3 & es3 & Hc & Ht3 & HP3 & Hl3) end.
      rewrite Hc in Hrun. injection Hrun as <- <-.
      simpl in *. split; [by eexists|]. left.
      rewrite Ht3, Ht1, <- !app_assoc, drop_app_length. split; [|done].
      by apply Forall_app.
  - clear Hlang. unfold on_error in Hrun.
    cbv [mbind io_bind logger modify ret mret io_ret] in Hrun.
    match type of Hrun with context [finally_cleanup ?s ?f ?a ?hh ?ww] =>
      destruct (cleanup_step s f a hh ww) as (w3 & ops3 & es3 & Hc & Ht3 & HP3 & Hl3) end.
    rewrite Hc in Hrun. injection Hrun as <- <-.
    simpl in *. split; [by eexists|]. left.
    rewrite Ht3, Ht1, <- !app_assoc, drop_app_length. split; [|done].
    by apply Forall_app.
Qed.

Lemma local_not_copy (f : io_op → bool) ops :
  Forall (λ op, is_local op = true) ops → existsb (λ op, is_copy op && f op) ops = false.
Proof.
  induction 1 as [|op ops Hop _ IH]; simpl; [done|].
  rewrite IH. by destruct op.
Qed.

Lemma local_not_upload ops :
  Forall (λ op, is_local op = true) ops → existsb is_upload ops = false.
Proof.
  induction 1 as [|op ops Hop _ IH]; simpl; [done|].
  rewrite IH. by destruct op.
Qed.

(** ** Archival *)

(** C4, amended. When the copy of the subtitle file into the archive
    directory fails, the exception is caught at the boundary of
    [process_video]: an error is logged, nothing is uploaded and the run
    returns [False]. *)
Theorem archive_failure_fails_the_run
    (self : VideoProcessor) (file_id file_name : string) (info : language_info)
    (h : host) (w : world) :
  let run := process_video self file_id file_name info in
  existsb (λ op, is_copy op && io_fails h op) (calls run h w) = true →
  fst (run h w) = Ok false ∧
  existsb is_upload (calls run h w) = false ∧
  ∃ msg, In (ERROR, msg) (log (snd (run h w))).
Proof.
  simpl. intros Hfail.
  destruct (process_video_run self file_id file_name info h w) as [_ Hshape].
  simpl in Hshape.
  destruct Hshape as [[Hlocal _]|[(ops1 & src & dst & ops3 & Hc & H1 & H3 & Hr & Hlog)
                                 |(ops1 & src & dst & ops2 & ops3 & Hc & Hok & H1 & H3 & H2)]].
  - by rewrite local_not_copy in Hfail.
  - split; [done|]. split; [|done].
    rewrite Hc, existsb_app. simpl.
    by rewrite !local_not_upload.
  - rewrite Hc, existsb_app in Hfail. simpl in Hfail.
    rewrite Hok, existsb_app, (local_not_copy _ ops1), (local_not_copy _ ops3) in Hfail by done.
    destruct H2 as [[-> _]|(folder_id & -> & _)]; done.
Qed.

Lemma archive_failure_fails_the_run_witness :
  let run := process_video processor "v1" "talk.mp4" (LangDict (Some "nl")) in
  fst (run archive_readonly fresh) = Ok false ∧
  existsb is_upload (calls run archive_readonly fresh) = false ∧
  ∃ msg, In (ERROR, msg) (log (snd (run archive_readonly fresh))).
Proof.
  apply (archive_failure_fails_the_run processor "v1" "talk.mp4" (LangDict (Some "nl"))
           archive_readonly fresh).
  vm_compute. reflexivity.
Defined.

(* ===================================================================== *)
(** * The timestamp formatter on binary64 values *)
(* ===================================================================== *)

(** ** Binary digits *)

Lemma digits2_pos_size p : digits2_pos p = Pos.size p.
Proof. induction p; simpl; congruence. Qed.

Lemma digits2_log2 p : Zpos (digits2_pos p) = Z.log2 (Zpos p) + 1.
Proof.
  rewrite digits2_pos_size. destruct p; simpl; try reflexivity; lia.
Qed.

Lemma Zdigits2_digits m : 0 < m -> Zdigits2 m = digits m.
Proof. destruct m; try lia. intros _. apply digits2_log2. Qed.

Lemma digits_bounds m : 0 < m -> 2 ^ (digits m - 1) <= m < 2 ^ digits m.
Proof.
  intros H. unfold digits. replace (Z.log2 m + 1 - 1) with (Z.log2 m) by lia.
  apply Z.log2_spec. lia.
Qed.

Lemma digits_unique m d : 2 ^ (d - 1) <= m < 2 ^ d -> 0 < m -> digits m = d.
Proof.
  intros H Hm. unfold digits.
  assert (0 <= d - 1).
  { destruct (Z.le_gt_cases 0 (d - 1)); [lia|].
    assert (d <= 0) by lia.
    assert (2 ^ d <= 2 ^ 0) by (destruct (Z.eq_dec d 0); [subst; lia|rewrite Z.pow_neg_r by lia; lia]).
    simpl in *. lia. }
  rewrite (Z.log2_unique m (d - 1)); try lia.
  replace (Z.succ (d - 1)) with d by lia. lia.
Qed.

Lemma digits_pos m : 0 < m -> 0 < digits m.
Proof. intros. unfold digits. pose proof (Z.log2_nonneg m). lia. Qed.

Lemma digits_mul_pow2 m k : 0 < m -> 0 <= k -> digits (m * 2 ^ k) = digits m + k.
Proof.
  intros Hm Hk. unfold digits. rewrite Z.log2_mul_pow2 by lia. lia.
Qed.

Lemma digits_le m n : 0 < m -> m <= n -> digits m <= digits n.
Proof. intros. unfold digits. pose proof (Z.log2_le_mono m n). lia. Qed.

Lemma digits_lt_pow2 m d : 0 < m -> 0 <= d -> m < 2 ^ d -> digits m <= d.
Proof.
  intros Hm Hd H. unfold digits.
  assert (Z.log2 m < d) by (apply Z.log2_lt_pow2; lia). lia.
Qed.

(** iter_pos *)
Lemma iter_pos_iter {A} (f : A -> A) p : forall x, SpecFloat.iter_pos f p x = Pos.iter f x p.
Proof.
  induction p; intros x; simpl.
  - rewrite !IHp, !Pos.iter_swap. reflexivity.
  - rewrite !IHp. reflexivity.
  - reflexivity.
Qed.

Lemma shr_1_spec m r s : 0 <= m ->
  shr_1 (Build_shr_record m r s) = Build_shr_record (m / 2) (Z.odd m) (r || s).
Proof.
  intros Hm. destruct m as [|p|p]; try lia; simpl.
  - reflexivity.
  - destruct p; simpl; try reflexivity.
    + f_equal. rewrite Pos2Z.inj_xI. rewrite Z.mul_comm, Z.div_add_l by lia. reflexivity.
    + f_equal. rewrite Pos2Z.inj_xO. rewrite Z.mul_comm, Z.div_mul by lia. reflexivity.
Qed.

Lemma shr_iter_spec p : forall m r0 s0, 0 <= m ->
  SpecFloat.iter_pos shr_1 p (Build_shr_record m r0 s0) =
  Build_shr_record (m / 2 ^ Zpos p) (Z.testbit m (Zpos p - 1)) (sticky m (Zpos p) r0 s0).
Proof.
  intros m r0 s0 Hm. rewrite iter_pos_iter.
  induction p using Pos.peano_ind.
  - change (Pos.iter shr_1 (Build_shr_record m r0 s0) 1) with (shr_1 (Build_shr_record m r0 s0)).
    rewrite shr_1_spec by lia. unfold sticky.
    change (Zpos 1 - 1) with 0. change (2 ^ 0) with 1.
    rewrite Z.mod_1_r. change (2 ^ 1) with 2. simpl negb. simpl orb.
    rewrite Z.bit0_odd. reflexivity.
  - rewrite Pos.iter_succ, IHp. rewrite shr_1_spec by (apply Z.div_pos; lia).
    rewrite Pos2Z.inj_succ. f_equal.
    + rewrite Z.pow_succ_r by lia. rewrite Z.div_div by lia. f_equal. lia.
    + rewrite <- Z.bit0_odd. rewrite Z.div_pow2_bits by lia.
      f_equal. lia.
    + unfold sticky. replace (Z.succ (Zpos p) - 1) with (Zpos p) by lia.
      pose proof (Z.pow_pos_nonneg 2 (Zpos p - 1) ltac:(lia) ltac:(lia)) as Hpos.
      assert (Hsplit : m mod 2 ^ Zpos p = 2 ^ (Zpos p - 1) * Z.b2z (Z.testbit m (Zpos p - 1)) + m mod 2 ^ (Zpos p - 1)).
      { rewrite Z.testbit_spec' by lia.
        assert (Hpow : 2 ^ Zpos p = 2 ^ (Zpos p - 1) * 2).
        { replace (Zpos p) with (Z.succ (Zpos p - 1)) at 1 by lia.
          rewrite Z.pow_succ_r by lia. lia. }
        rewrite Hpow. rewrite Z.rem_mul_r by lia. lia. }
      rewrite Hsplit.
      assert (Hb : 0 <= m mod 2 ^ (Zpos p - 1) < 2 ^ (Zpos p - 1)) by (apply Z.mod_pos_bound; lia).
      set (a := 2 ^ (Zpos p - 1)) in *. set (b := m mod a) in *.
      destruct (Z.testbit m (Zpos p - 1)); cbn [Z.b2z];
        destruct (Z.eqb_spec b 0) as [Eb|Eb];
        destruct (Z.eqb_spec (a * 1 + b) 0); destruct (Z.eqb_spec (a * 0 + b) 0);
        try lia; reflexivity.
Qed.

(** ** Rounding to binary64 when nothing is lost *)

Lemma shr_fexp_noshift m e : 0 < m -> fexp64 (digits m + e) <= e ->
  shr_fexp 53 1024 m e loc_Exact = (Build_shr_record m false false, e).
Proof.
  intros Hm Hn. unfold shr_fexp. rewrite Zdigits2_digits by lia.
  unfold shr. destruct (fexp64 (digits m + e) - e) eqn:E; try reflexivity. lia.
Qed.

Lemma shr_fexp_shift m e n : 0 < m -> n = fexp64 (digits m + e) - e -> 0 < n ->
  shr_fexp 53 1024 m e loc_Exact =
    (Build_shr_record (m / 2 ^ n) (Z.testbit m (n - 1)) (sticky m n false false), e + n).
Proof.
  intros Hm Hn Hpos. unfold shr_fexp. rewrite Zdigits2_digits by lia.
  rewrite <- Hn. unfold shr.
  change (shr_record_of_loc m loc_Exact) with (Build_shr_record m false false).
  destruct n as [|p|p]; try lia.
  rewrite shr_iter_spec by lia. reflexivity.
Qed.

(** Rounding a mantissa that has its digits in place already. *)
Lemma round_aux_canonical s m e : canonical m e -> e <= 971 ->
  binary_round_aux 53 1024 s m e loc_Exact = S754_finite s (Z.to_pos m) e.
Proof.
  intros [Hm Hc] He. unfold binary_round_aux.
  rewrite shr_fexp_noshift by lia.
  cbn [shr_m loc_of_shr_record round_nearest_even].
  rewrite shr_fexp_noshift by lia.
  cbn [shr_m]. destruct m; try lia.
  replace (e <=? 1024 - 53) with true by (symmetry; apply Z.leb_le; lia).
  reflexivity.
Qed.

(** Rounding a mantissa whose surplus low bits are all zero. *)
Lemma round_aux_exact s q e' m e : canonical m e -> e <= 971 -> e' <= e ->
  q = m * 2 ^ (e - e') ->
  binary_round_aux 53 1024 s q e' loc_Exact = S754_finite s (Z.to_pos m) e.
Proof.
  intros [Hm Hc] He Hee Hq.
  destruct (Z.eq_dec e e') as [->|Hne].
  { rewrite Z.sub_diag, Z.mul_1_r in Hq. subst q. apply round_aux_canonical; [split|]; assumption. }
  assert (Hn : 0 < e - e') by lia.
  assert (Hpow : 0 < 2 ^ (e - e')) by (apply Z.pow_pos_nonneg; lia).
  assert (Hq0 : 0 < q) by (subst q; lia).
  assert (Hd : digits q + e' = digits m + e).
  { subst q. rewrite digits_mul_pow2 by lia. lia. }
  unfold binary_round_aux.
  rewrite (shr_fexp_shift q e' (e - e')) by (rewrite ?Hd, ?Hc; lia).
  assert (Hdiv : q / 2 ^ (e - e') = m) by (subst q; apply Z.div_mul; lia).
  assert (Hbit : Z.testbit q (e - e' - 1) = false).
  { subst q. rewrite Z.mul_pow2_bits by lia. apply Z.testbit_neg_r. lia. }
  assert (Hst : sticky q (e - e') false false = false).
  { unfold sticky. rewrite !orb_false_r. apply negb_false_iff, Z.eqb_eq.
    subst q. replace (m * 2 ^ (e - e')) with (m * 2 * 2 ^ (e - e' - 1)).
    2:{ rewrite <- Z.mul_assoc. f_equal. rewrite <- Z.pow_succ_r by lia. f_equal. lia. }
    apply Z.mod_mul.
    apply Z.pow_nonzero; lia. }
  rewrite Hdiv, Hbit, Hst.
  cbn [shr_m loc_of_shr_record round_nearest_even].
  rewrite shr_fexp_noshift by (try lia; replace (digits m + (e' + (e - e'))) with (digits m + e) by lia; lia).
  cbn [shr_m]. destruct m; try lia.
  replace (e' + (e - e') <=? 1024 - 53) with true by (symmetry; apply Z.leb_le; lia).
  f_equal. lia.
Qed.

(** ** Normalising an exact value *)

Lemma shl_iter_xO p d : Zpos (Pos.iter xO p d) = Zpos p * 2 ^ Zpos d.
Proof.
  induction d using Pos.peano_ind.
  - simpl. lia.
  - rewrite Pos.iter_succ, Pos2Z.inj_xO, IHd, Pos2Z.inj_succ, Z.pow_succ_r by lia. lia.
Qed.

Lemma shl_align_spec p ex ex' :
  shl_align p ex ex' =
    if ex' <? ex then (Z.to_pos (Zpos p * 2 ^ (ex - ex')), ex') else (p, ex).
Proof.
  unfold shl_align. destruct (Z.ltb_spec ex' ex) as [H|H].
  - destruct (ex' - ex) eqn:E; try lia.
    f_equal. replace (ex - ex') with (Zpos p0) by lia.
    rewrite <- shl_iter_xO. reflexivity.
  - destruct (ex' - ex) eqn:E; try lia; reflexivity.
Qed.

Lemma same_value_digits M ez m e :
  0 < M -> 0 < m -> same_value M ez m e -> digits M + ez = digits m + e.
Proof.
  unfold same_value. intros HM Hm H.
  assert (digits (M * 2 ^ (ez - Z.min ez e)) = digits (m * 2 ^ (e - Z.min ez e))) as Hd
    by (rewrite H; reflexivity).
  rewrite !digits_mul_pow2 in Hd by lia. lia.
Qed.

Lemma normalize_exact M ez m e sz :
  0 < M -> canonical m e -> e <= 971 -> same_value M ez m e ->
  binary_normalize 53 1024 M ez sz = S754_finite false (Z.to_pos m) e.
Proof.
  intros HM [Hm Hc] He Hv.
  pose proof (same_value_digits M ez m e HM Hm Hv) as Hd.
  destruct M as [|p|p]; try lia. unfold binary_normalize, binary_round.
  rewrite digits2_log2. fold (digits (Zpos p)). rewrite Hd, Hc.
  rewrite shl_align_spec. unfold same_value in Hv.
  destruct (Z.ltb_spec e ez) as [H|H].
  - rewrite Z.min_r in Hv by lia. rewrite Z.sub_diag, Z.mul_1_r in Hv.
    rewrite Z2Pos.id by (rewrite Hv; lia).
    rewrite Hv. apply round_aux_canonical; [split|]; assumption.
  - rewrite Z.min_l in Hv by lia. rewrite Z.sub_diag, Z.mul_1_r in Hv.
    apply round_aux_exact; [split| | |]; try assumption. 
Qed.

Lemma dy_finite M e :
  0 < M -> digits M <= 53 -> -1074 <= e <= 971 ->
  let e' := fexp64 (digits M + e) in
  e' <= e /\ canonical (M * 2 ^ (e - e')) e' /\
  dy M e = S754_finite false (Z.to_pos (M * 2 ^ (e - e'))) e'.
Proof.
  intros HM Hd He. cbv zeta. set (e' := fexp64 (digits M + e)).
  assert (Hle : e' <= e) by (subst e'; unfold fexp, emin; lia).
  assert (Hpow : 0 < 2 ^ (e - e')) by (apply Z.pow_pos_nonneg; lia).
  assert (Hc : canonical (M * 2 ^ (e - e')) e').
  { split; [lia|]. rewrite digits_mul_pow2 by lia.
    replace (digits M + (e - e') + e') with (digits M + e) by lia. reflexivity. }
  split; [assumption|]. split; [assumption|].
  apply normalize_exact; try assumption; try lia.
  unfold same_value. rewrite Z.min_r by lia. rewrite Z.sub_diag, Z.mul_1_r. reflexivity.
Qed.

Lemma dy_same M1 e1 M2 e2 :
  0 < M1 -> digits M1 <= 53 -> -1074 <= e1 <= 971 ->
  0 < M2 -> -1074 <= e2 <= 971 ->
  same_value M1 e1 M2 e2 -> dy M1 e1 = dy M2 e2.
Proof.
  intros H1 Hd1 He1 H2 He2 Hv.
  destruct (dy_finite M1 e1 H1 Hd1 He1) as (Hle & Hc & ->).
  set (e' := fexp64 (digits M1 + e1)) in *.
  symmetry. apply normalize_exact; try assumption; try lia.
  unfold same_value in *.
  assert (Hp1 : 0 < 2 ^ (e1 - Z.min e1 e2)) by (apply Z.pow_pos_nonneg; lia).
  assert (Hp2 : 0 < 2 ^ (e2 - Z.min e1 e2)) by (apply Z.pow_pos_nonneg; lia).
  (* scale both sides to the exponent min e' e2 *)
  destruct (Z.le_ge_cases e' e2) as [Hc2|Hc2].
  - rewrite Z.min_r by lia. rewrite Z.sub_diag, Z.mul_1_r.
    destruct (Z.le_ge_cases e1 e2) as [H12|H12].
    + rewrite Z.min_l, Z.sub_diag, Z.mul_1_r in Hv by lia. rewrite Hv.
      rewrite <- Z.mul_assoc, <- Z.pow_add_r by lia. f_equal. f_equal. lia.
    + rewrite Z.min_r, Z.sub_diag, Z.mul_1_r in Hv by lia. rewrite <- Hv.
      replace (e1 - e') with ((e1 - e2) + (e2 - e')) by lia.
      rewrite Z.pow_add_r by lia. lia.
  - rewrite Z.min_l by lia. rewrite Z.sub_diag, Z.mul_1_r.
    assert (e2 <= e1) by lia.
    rewrite Z.min_r, Z.sub_diag, Z.mul_1_r in Hv by lia. rewrite <- Hv.
    rewrite <- Z.mul_assoc, <- Z.pow_add_r by lia. f_equal. f_equal. lia.
Qed.

(** ** Python's float operations on exact values *)

Lemma canonical_lt m e : canonical m e -> m < 2 ^ 53 /\ -1074 <= e.
Proof.
  intros [Hm Hc]. unfold fexp, emin in Hc.
  assert (digits m <= 53) by lia. split; [|lia].
  pose proof (digits_bounds m Hm) as [_ Hlt].
  eapply Z.lt_le_trans; [exact Hlt|]. apply Z.pow_le_mono_r; lia.
Qed.

Lemma digits_small M : 0 < M -> M < 2 ^ 53 -> digits M <= 53.
Proof. intros. apply digits_lt_pow2; lia. Qed.

Lemma dy_zero e : dy 0 e = S754_zero false.
Proof. reflexivity. Qed.

(** Every valid finite float that is not negative is [dy M e] for its own
    mantissa and exponent. *)
Lemma valid_is_dy s m e :
  valid (S754_finite s m e) = true ->
  canonical (Zpos m) e /\ e <= 971 /\ dy (Zpos m) e = S754_finite false m e.
Proof.
  unfold valid, valid_binary, bounded, canonical_mantissa.
  intros H. apply andb_prop in H as [Hc He].
  apply Z.eqb_eq in Hc. apply Z.leb_le in He.
  rewrite digits2_log2 in Hc. fold (digits (Zpos m)) in Hc.
  unfold Float64.prec, Float64.emax in *.
  assert (canonical (Zpos m) e) as Hcan by (split; [lia|assumption]).
  split; [assumption|]. split; [lia|].
  unfold dy. rewrite (normalize_exact (Zpos m) e (Zpos m) e); try assumption; try lia.
  - reflexivity.
  - reflexivity.
Qed.

Lemma of_Z_dy z : of_Z z = dy z 0.
Proof. reflexivity. Qed.

(** The C remainder of two exact values, at a common exponent [e <= 0]. *)
Lemma fmod_dy M e y :
  0 <= M < 2 ^ 53 -> -1074 <= e <= 0 -> 0 < y < 2 ^ 53 ->
  fmod (dy M e) (of_Z y) = dy (M mod (y * 2 ^ (- e))) e.
Proof.
  intros HM He Hy. rewrite of_Z_dy.
  assert (HD : 0 < 2 ^ (- e)) by (apply Z.pow_pos_nonneg; lia).
  destruct (Z.eq_dec M 0) as [->|HM0].
  { rewrite Z.mod_0_l by lia. rewrite dy_zero.
    destruct (dy_finite y 0) as (_ & _ & ->); [lia|apply digits_small; lia|lia|].
    reflexivity. }
  destruct (dy_finite M e) as (Hle1 & Hc1 & ->); [lia|apply digits_small; lia|lia|].
  destruct (dy_finite y 0) as (Hley & Hcy & ->); [lia|apply digits_small; lia|lia|].
  set (e1 := fexp64 (digits M + e)) in *. set (ey := fexp64 (digits y + 0)) in *.
  pose proof (canonical_lt _ _ Hc1) as [Hm1 He1].
  pose proof (canonical_lt _ _ Hcy) as [Hmy Hey].
  destruct Hc1 as [Hm1pos _]. destruct Hcy as [Hmypos _].
  unfold fmod. rewrite !Z2Pos.id by lia.
  set (e0 := Z.min e1 ey).
  assert (Hp1 : 0 < 2 ^ (e1 - e0)) by (apply Z.pow_pos_nonneg; lia).
  assert (Hpy : 0 < 2 ^ (ey - e0)) by (apply Z.pow_pos_nonneg; lia).
  assert (Hpe : 0 < 2 ^ (e - e0)) by (apply Z.pow_pos_nonneg; lia).
  assert (HX : M * 2 ^ (e - e1) * 2 ^ (e1 - e0) = M * 2 ^ (e - e0)).
  { rewrite <- Z.mul_assoc, <- Z.pow_add_r by lia. f_equal. f_equal. lia. }
  assert (HY : y * 2 ^ (0 - ey) * 2 ^ (ey - e0) = y * 2 ^ (- e) * 2 ^ (e - e0)).
  { rewrite <- !Z.mul_assoc, <- !Z.pow_add_r by lia. f_equal. f_equal. lia. }
  assert (Hmod : (M * 2 ^ (e - e1) * 2 ^ (e1 - e0)) mod (y * 2 ^ (0 - ey) * 2 ^ (ey - e0))
                 = M mod (y * 2 ^ (- e)) * 2 ^ (e - e0)).
  { rewrite HX, HY. apply Z.mul_mod_distr_r; lia. }
  assert (Hlt : (M * 2 ^ (e - e1) * 2 ^ (e1 - e0)) mod (y * 2 ^ (0 - ey) * 2 ^ (ey - e0)) < 2 ^ 53).
  { destruct (Z.le_ge_cases e1 ey).
    - assert (e0 = e1) as E0 by lia. rewrite E0 at 1. rewrite Z.sub_diag, Z.mul_1_r.
      eapply Z.le_lt_trans; [apply Z.mod_le; lia|]. assumption.
    - assert (e0 = ey) as E0 by lia.
      eapply Z.lt_le_trans; [apply Z.mod_pos_bound; lia|].
      rewrite E0, Z.sub_diag, Z.mul_1_r. lia. }
  change (binary_normalize Float64.prec Float64.emax ?a ?b false) with (dy a b).
  unfold cond_Zopp.
  pose proof (Z.mod_pos_bound M (y * 2 ^ (- e)) ltac:(lia)) as HR.
  destruct (Z.eq_dec (M mod (y * 2 ^ (- e))) 0) as [HR0|HR0].
  { rewrite Hmod, HR0. reflexivity. }
  assert (Hpos : 0 < (M * 2 ^ (e - e1) * 2 ^ (e1 - e0)) mod (y * 2 ^ (0 - ey) * 2 ^ (ey - e0))).
  { rewrite Hmod. apply Z.mul_pos_pos; lia. }
  apply dy_same; try lia.
  - apply digits_small; lia.
  - unfold same_value. rewrite Z.min_l by lia. rewrite Z.sub_diag, Z.mul_1_r.
    exact Hmod.
Qed.

Lemma dy_nonneg_form M e :
  0 <= M < 2 ^ 53 -> -1074 <= e <= 971 ->
  (M = 0 /\ dy M e = S754_zero false) \/
  (0 < M /\ exists m e', dy M e = S754_finite false m e').
Proof.
  intros HM He. destruct (Z.eq_dec M 0) as [->|HM0]; [left; split; reflexivity|].
  right. split; [lia|].
  destruct (dy_finite M e) as (_ & _ & ->); [lia|apply digits_small; lia|lia|].
  eauto.
Qed.

(** [v % w] on exact values. *)
Lemma rem_dy M e y :
  0 <= M < 2 ^ 53 -> -1074 <= e <= 0 -> 0 < y < 2 ^ 53 ->
  rem (dy M e) (of_Z y) = Ok (dy (M mod (y * 2 ^ (- e))) e).
Proof.
  intros HM He Hy. unfold rem. rewrite fmod_dy by assumption.
  assert (HD : 0 < 2 ^ (- e)) by (apply Z.pow_pos_nonneg; lia).
  pose proof (Z.mod_pos_bound M (y * 2 ^ (- e)) ltac:(lia)) as HR.
  assert (HRM : M mod (y * 2 ^ (- e)) <= M) by (apply Z.mod_le; lia).
  rewrite of_Z_dy.
  destruct (dy_finite y 0) as (_ & _ & ->); [lia|apply digits_small; lia|lia|].
  cbn [nonzero].
  destruct (dy_nonneg_form (M mod (y * 2 ^ (- e))) e) as [[-> ->]|[_ (m & e' & ->)]];
    try lia; reflexivity.
Qed.

(** [int(x)] on an exact value. *)
Lemma to_int_dy M e :
  0 <= M < 2 ^ 53 -> -1074 <= e <= 0 -> to_int (dy M e) = Ok (M / 2 ^ (- e)).
Proof.
  intros HM He.
  destruct (Z.eq_dec M 0) as [->|HM0].
  { rewrite dy_zero. simpl. by rewrite Z.div_0_l by (apply Z.pow_nonzero; lia). }
  destruct (dy_finite M e) as (Hle & [Hpos _] & ->); [lia|apply digits_small; lia|lia|].
  set (e' := fexp64 (digits M + e)) in *.
  unfold to_int, cond_Zopp. rewrite Z2Pos.id by lia. f_equal.
  assert (Hp : 0 < 2 ^ (e - e')) by (apply Z.pow_pos_nonneg; lia).
  destruct (Z.leb_spec 0 e') as [H0|H0].
  - assert (e' = 0) by lia. assert (e = 0) by lia. subst e. rewrite H.
    simpl. rewrite Z.div_1_r. lia.
  - replace (- e') with ((- e) + (e - e')) by lia.
    rewrite Z.pow_add_r by lia. rewrite Z.mul_comm at 1.
    rewrite (Z.mul_comm (2 ^ (- e))).
    rewrite Z.div_mul_cancel_l; lia.
Qed.

Lemma to_int_of_Z k : 0 <= k < 2 ^ 53 -> to_int (of_Z k) = Ok k.
Proof.
  intros Hk. rewrite of_Z_dy, to_int_dy by lia. simpl. by rewrite Z.div_1_r.
Qed.

(** Subtraction of exact values with a common exponent. *)
Lemma sub_dy M R e :
  0 <= R <= M -> M < 2 ^ 53 -> -1074 <= e <= 971 ->
  sub (dy M e) (dy R e) = dy (M - R) e.
Proof.
  intros HR HM He.
  destruct (Z.eq_dec R 0) as [->|HR0].
  { rewrite Z.sub_0_r, dy_zero.
    destruct (dy_nonneg_form M e) as [[-> ->]|[_ (m & e' & ->)]]; try lia; reflexivity. }
  destruct (dy_finite M e) as (Hle1 & [Hp1 _] & ->); [lia|apply digits_small; lia|lia|].
  destruct (dy_finite R e) as (Hle2 & [Hp2 _] & ->); [lia|apply digits_small; lia|lia|].
  set (e1 := fexp64 (digits M + e)) in *. set (e2 := fexp64 (digits R + e)) in *.
  unfold sub, SFsub. rewrite !shl_align_spec. rewrite !Z2Pos.id by lia.
  set (ez := Z.min e1 e2).
  assert (Ha1 : Zpos (fst (if ez <? e1 then (Z.to_pos (M * 2 ^ (e - e1) * 2 ^ (e1 - ez)), ez)
                           else (Z.to_pos (M * 2 ^ (e - e1)), e1))) = M * 2 ^ (e - ez)).
  { assert (0 < 2 ^ (e1 - ez)) by (apply Z.pow_pos_nonneg; lia).
    destruct (Z.ltb_spec ez e1); cbn [fst].
    - rewrite Z2Pos.id by lia. rewrite <- Z.mul_assoc, <- Z.pow_add_r by lia.
      f_equal. f_equal. lia.
    - rewrite Z2Pos.id by lia. replace ez with e1 by lia. reflexivity. }
  assert (Ha2 : Zpos (fst (if ez <? e2 then (Z.to_pos (R * 2 ^ (e - e2) * 2 ^ (e2 - ez)), ez)
                           else (Z.to_pos (R * 2 ^ (e - e2)), e2))) = R * 2 ^ (e - ez)).
  { assert (0 < 2 ^ (e2 - ez)) by (apply Z.pow_pos_nonneg; lia).
    destruct (Z.ltb_spec ez e2); cbn [fst].
    - rewrite Z2Pos.id by lia. rewrite <- Z.mul_assoc, <- Z.pow_add_r by lia.
      f_equal. f_equal. lia.
    - rewrite Z2Pos.id by lia. replace ez with e2 by lia. reflexivity. }
  unfold cond_Zopp. rewrite Ha1, Ha2.
  change (binary_normalize Float64.prec Float64.emax ?a ?b false) with (dy a b).
  rewrite <- Z.mul_sub_distr_r.
  destruct (Z.eq_dec (M - R) 0) as [E|E]; [rewrite E; reflexivity|].
  assert (Hpz : 0 < 2 ^ (e - ez)) by (apply Z.pow_pos_nonneg; lia).
  symmetry. apply dy_same; try lia.
  - apply digits_small; lia.
  - apply Z.mul_pos_pos; lia.
  - subst ez. unfold fexp, emin in *. lia.
  - unfold same_value. rewrite Z.min_r by lia. rewrite Z.sub_diag, Z.mul_1_r. reflexivity.
Qed.

Lemma digits_mul_le a b : 0 < a -> 0 < b -> digits (a * b) <= digits a + digits b.
Proof.
  intros Ha Hb.
  pose proof (digits_bounds a Ha) as [_ Hla]. pose proof (digits_bounds b Hb) as [_ Hlb].
  pose proof (digits_pos a Ha). pose proof (digits_pos b Hb).
  apply digits_lt_pow2; [nia|lia|].
  rewrite Z.pow_add_r by lia. nia.
Qed.

(** The float of a positive integer below 2^53. *)
Lemma of_Z_finite z : 0 < z < 2 ^ 53 ->
  canonical (z * 2 ^ (53 - digits z)) (digits z - 53) /\
  of_Z z = S754_finite false (Z.to_pos (z * 2 ^ (53 - digits z))) (digits z - 53).
Proof.
  intros Hz. rewrite of_Z_dy.
  pose proof (digits_pos z ltac:(lia)). pose proof (digits_small z ltac:(lia) ltac:(lia)).
  destruct (dy_finite z 0) as (_ & Hc & ->); [lia|lia|lia|].
  assert (E : fexp64 (digits z + 0) = digits z - 53) by (unfold fexp, emin; lia).
  rewrite E in *. replace (0 - (digits z - 53)) with (53 - digits z) in * by lia.
  split; [assumption|reflexivity].
Qed.

(** A division whose quotient is an integer is exact. *)
Lemma div_exact k y :
  0 < k -> 0 < y -> k * y < 2 ^ 53 -> div (of_Z (k * y)) (of_Z y) = of_Z k.
Proof.
  intros Hk Hy Hky.
  assert (Hk53 : k < 2 ^ 53) by nia. assert (Hy53 : y < 2 ^ 53) by nia.
  destruct (of_Z_finite (k * y)) as ([Hp1 Hc1] & ->); [nia|].
  destruct (of_Z_finite y) as ([Hp2 Hc2] & ->); [lia|].
  destruct (of_Z_finite k) as (Hck & ->); [lia|].
  set (d1 := digits (k * y)) in *. set (d2 := digits y) in *. set (dk := digits k) in *.
  assert (Hd1 : 0 < d1 <= 53) by (subst d1; split; [apply digits_pos; nia|apply digits_small; nia]).
  assert (Hd2 : 0 < d2 <= 53) by (subst d2; split; [apply digits_pos; lia|apply digits_small; lia]).
  assert (Hdk : 0 < dk <= 53) by (subst dk; split; [apply digits_pos; lia|apply digits_small; lia]).
  assert (Hdm : d1 <= dk + d2) by (apply digits_mul_le; lia).
  unfold div, SFdiv, SFdiv_core_binary. rewrite !Z2Pos.id by lia.
  rewrite !Zdigits2_digits by lia.
  assert (Hm1 : digits (k * y * 2 ^ (53 - d1)) = 53).
  { rewrite digits_mul_pow2 by nia. fold d1. lia. }
  assert (Hm2 : digits (y * 2 ^ (53 - d2)) = 53).
  { rewrite digits_mul_pow2 by lia. fold d2. lia. }
  rewrite Hm1, Hm2.
  replace (53 + (d1 - 53) - (53 + (d2 - 53))) with (d1 - d2) by lia.
  assert (E' : Z.min (fexp Float64.prec Float64.emax (d1 - d2)) (d1 - 53 - (d2 - 53)) = d1 - d2 - 53).
  { unfold fexp, emin, Float64.prec, Float64.emax. lia. }
  rewrite E'. replace (d1 - 53 - (d2 - 53) - (d1 - d2 - 53)) with 53 by lia.
  rewrite Z.shiftl_mul_pow2 by lia.
  assert (Hp : 0 < 2 ^ (53 - d2)) by (apply Z.pow_pos_nonneg; lia).
  assert (Hq : k * y * 2 ^ (53 - d1) * 2 ^ 53 = (k * 2 ^ (53 - d1 + d2)) * (y * 2 ^ (53 - d2))).
  { replace (k * 2 ^ (53 - d1 + d2) * (y * 2 ^ (53 - d2)))
      with (k * y * (2 ^ (53 - d1 + d2) * 2 ^ (53 - d2))) by ring.
    rewrite <- !Z.mul_assoc. f_equal. f_equal.
    rewrite <- !Z.pow_add_r by lia. f_equal. lia. }
  pose proof (Z.div_eucl_eq (k * y * 2 ^ (53 - d1) * 2 ^ 53) (y * 2 ^ (53 - d2)) ltac:(lia)) as Heucl.
  assert (Hdiv : (k * y * 2 ^ (53 - d1) * 2 ^ 53) / (y * 2 ^ (53 - d2)) = k * 2 ^ (53 - d1 + d2)).
  { rewrite Hq. apply Z.div_mul. lia. }
  assert (Hmod : (k * y * 2 ^ (53 - d1) * 2 ^ 53) mod (y * 2 ^ (53 - d2)) = 0).
  { rewrite Hq. apply Z.mod_mul. lia. }
  unfold Z.div, Z.modulo in Hdiv, Hmod.
  destruct (Z.div_eucl (k * y * 2 ^ (53 - d1) * 2 ^ 53) (y * 2 ^ (53 - d2))) as [q r].
  cbn [fst snd] in Hdiv, Hmod. subst q r.
  assert (Hloc : new_location (y * 2 ^ (53 - d2)) 0 = loc_Exact).
  { unfold new_location, new_location_even, new_location_odd.
    destruct (Z.even _); reflexivity. }
  rewrite Hloc. cbn [xorb].
  apply round_aux_exact; try assumption; try lia.
  rewrite <- Z.mul_assoc, <- Z.pow_add_r by lia. f_equal. f_equal. lia.
Qed.

Lemma floor_of_Z k : 0 <= k < 2 ^ 53 -> floor (of_Z k) = of_Z k.
Proof.
  intros Hk. destruct (Z.eq_dec k 0) as [->|Hk0]; [reflexivity|].
  destruct (of_Z_finite k) as ([Hp Hc] & E); [lia|].
  rewrite E. unfold floor.
  destruct (Z.leb_spec 0 (digits k - 53)) as [H|H]; [reflexivity|].
  unfold cond_Zopp. rewrite Z2Pos.id by lia.
  replace (- (digits k - 53)) with (53 - digits k) by lia.
  rewrite Z.div_mul by (apply Z.pow_nonzero; lia).
  change (binary_normalize Float64.prec Float64.emax k 0 false) with (of_Z k).
  exact E.
Qed.

Lemma sign_round_aux m e l : sign (binary_round_aux 53 1024 false m e l) = false.
Proof.
  unfold binary_round_aux.
  destruct (shr_fexp 53 1024 m e l) as [mrs' e'].
  destruct (shr_fexp 53 1024 _ e' loc_Exact) as [mrs'' e''].
  destruct (shr_m mrs''); try reflexivity.
  destruct (e'' <=? 1024 - 53); reflexivity.
Qed.

Lemma sign_div_dy M e y :
  0 <= M < 2 ^ 53 -> -1074 <= e <= 971 -> 0 < y < 2 ^ 53 ->
  sign (div (dy M e) (of_Z y)) = false.
Proof.
  intros HM He Hy.
  destruct (of_Z_finite y) as (_ & ->); [lia|].
  destruct (dy_nonneg_form M e) as [[-> ->]|[_ (m & e' & ->)]]; try lia; [reflexivity|].
  unfold div, SFdiv.
  destruct (SFdiv_core_binary _ _ _ _ _ _) as [[mz ez] lz].
  apply sign_round_aux.
Qed.

(** [v // w] on exact values: the floor of the exact quotient. *)
Lemma floordiv_dy M e y :
  0 <= M < 2 ^ 53 -> -1074 <= e <= 0 -> 0 < y < 2 ^ 53 ->
  floordiv (dy M e) (of_Z y) = Ok (of_Z (M / (y * 2 ^ (- e)))).
Proof.
  intros HM He Hy.
  assert (HD : 0 < 2 ^ (- e)) by (apply Z.pow_pos_nonneg; lia).
  set (D := 2 ^ (- e)) in *. set (k := M / (y * D)). set (R := M mod (y * D)).
  pose proof (Z.mod_pos_bound M (y * D) ltac:(nia)) as HR. fold R in HR.
  pose proof (Z.div_mod M (y * D) ltac:(nia)) as HMk. fold k R in HMk.
  assert (Hk0 : 0 <= k) by (apply Z.div_pos; nia).
  assert (HRM : R <= M) by (apply Z.mod_le; nia).
  assert (Hwx : nonzero (of_Z y) = true /\ sign (of_Z y) = false
                /\ ltb (of_Z y) (S754_zero false) = false).
  { destruct (of_Z_finite y) as (_ & ->); [lia|]. repeat split. }
  destruct Hwx as (Hnz & Hsg & Hlt).
  unfold floordiv. rewrite Hnz. f_equal.
  unfold _float_div_mod. rewrite fmod_dy by assumption. fold D R.
  rewrite sub_dy by lia. rewrite Hlt.
  assert (Hmodlt : ltb (dy R e) (S754_zero false) = false).
  { destruct (dy_nonneg_form R e) as [[_ ->]|[_ (m & e' & ->)]]; try lia; reflexivity. }
  rewrite Hmodlt. cbn [xorb].
  replace (M - R) with (k * y * D) by lia.
  destruct (Z.eq_dec k 0) as [Ek|Ek].
  - rewrite Ek. simpl Z.mul. rewrite dy_zero.
    assert (Hdz : div (S754_zero false) (of_Z y) = S754_zero false).
    { destruct (of_Z_finite y) as (_ & ->); [lia|]. reflexivity. }
    rewrite Hdz.
    replace (if nonzero (dy R e) then (dy R e, S754_zero false)
             else (copysign_zero (of_Z y), S754_zero false))
      with (if nonzero (dy R e) then dy R e else copysign_zero (of_Z y), S754_zero false)
      by (destruct (nonzero (dy R e)); reflexivity).
    cbn [nonzero fst]. unfold copysign_zero.
    rewrite sign_div_dy by lia. reflexivity.
  - assert (Hkpos : 0 < k) by lia.
    assert (Hky : k * y < 2 ^ 53) by nia.
    assert (Hd0 : dy (k * y * D) e = of_Z (k * y)).
    { rewrite of_Z_dy. symmetry. apply dy_same; try nia.
      - apply digits_small; nia.
      - unfold same_value. rewrite Z.min_r by lia.
        rewrite Z.sub_diag, Z.mul_1_r. replace (0 - e) with (- e) by lia. reflexivity. }
    rewrite Hd0, div_exact by lia.
    replace (if nonzero (dy R e) then (dy R e, of_Z k)
             else (copysign_zero (of_Z y), of_Z k))
      with (if nonzero (dy R e) then dy R e else copysign_zero (of_Z y), of_Z k)
      by (destruct (nonzero (dy R e)); reflexivity).
    assert (Hk53 : k < 2 ^ 53) by nia.
    assert (Hknz : nonzero (of_Z k) = true).
    { destruct (of_Z_finite k) as (_ & ->); [lia|]. reflexivity. }
    rewrite Hknz, floor_of_Z by lia. cbv zeta.
    change (sub (of_Z k) (of_Z k)) with (sub (dy k 0) (dy k 0)).
    rewrite sub_dy by lia.
    rewrite Z.sub_diag, dy_zero. reflexivity.
Qed.

(** ** Rounding to nearest: how far the result can be *)

Lemma rne_bound m n : 0 <= m -> 0 < n ->
  let q := round_nearest_even (m / 2 ^ n)
             (loc_of_shr_record
                (Build_shr_record (m / 2 ^ n) (Z.testbit m (n - 1)) (sticky m n false false))) in
  q * 2 ^ n <= m + 2 ^ (n - 1) /\ m <= q * 2 ^ n + 2 ^ (n - 1).
Proof.
  intros Hm Hn. cbv zeta.
  assert (Hp : 0 < 2 ^ (n - 1)) by (apply Z.pow_pos_nonneg; lia).
  assert (Hpow : 2 ^ n = 2 ^ (n - 1) * 2).
  { replace n with (Z.succ (n - 1)) at 1 by lia. rewrite Z.pow_succ_r by lia. lia. }
  assert (Hsplit : m mod 2 ^ n = 2 ^ (n - 1) * Z.b2z (Z.testbit m (n - 1)) + m mod 2 ^ (n - 1)).
  { rewrite Z.testbit_spec' by lia. rewrite Hpow. rewrite Z.rem_mul_r by lia. lia. }
  pose proof (Z.mod_pos_bound m (2 ^ (n - 1)) Hp) as Hlow.
  pose proof (Z.div_mod m (2 ^ n) ltac:(lia)) as Hdm.
  unfold sticky. rewrite !orb_false_r.
  set (q0 := m / 2 ^ n) in *. set (low := m mod 2 ^ (n - 1)) in *.
  destruct (Z.testbit m (n - 1)); cbn [Z.b2z] in Hsplit;
    destruct (Z.eqb_spec low 0) as [E|E]; cbn [negb loc_of_shr_record round_nearest_even];
    try destruct (Z.even q0); lia.
Qed.

Lemma rne_step mx lx : mx <= round_nearest_even mx lx <= mx + 1.
Proof. destruct lx as [|[]]; simpl; try destruct (Z.even mx); lia. Qed.

(** The first shift of [binary_round_aux], for any location. *)
Lemma shr_fexp_any m e l : 0 < m ->
  let e1 := Z.max e (fexp64 (digits m + e)) in
  exists r s,
    shr_fexp 53 1024 m e l = (Build_shr_record (m / 2 ^ (e1 - e)) r s, e1) /\
    (e1 = e -> loc_of_shr_record (Build_shr_record (m / 2 ^ (e1 - e)) r s) = l).
Proof.
  intros Hm. cbv zeta. unfold shr_fexp. rewrite Zdigits2_digits by lia.
  set (n := fexp64 (digits m + e) - e).
  assert (exists r0 s0, shr_record_of_loc m l = Build_shr_record m r0 s0 /\
                        loc_of_shr_record (Build_shr_record m r0 s0) = l) as (r0 & s0 & -> & Hl).
  { destruct l as [|[]]; simpl; eauto. }
  unfold shr. destruct n as [|p|p] eqn:E.
  - rewrite Z.max_l by lia. rewrite Z.sub_diag, Z.div_1_r. eauto.
  - rewrite shr_iter_spec by lia. rewrite Z.max_r by lia.
    replace (fexp64 (digits m + e) - e) with (Zpos p) by lia.
    replace (e + Zpos p) with (fexp64 (digits m + e)) by lia.
    do 2 eexists. split; [reflexivity|]. lia.
  - rewrite Z.max_l by lia. rewrite Z.sub_diag, Z.div_1_r. eauto.
Qed.

(** The second shift of [binary_round_aux]: the mantissa may have reached
    2^53. *)
Lemma round_second_stage s q e1 : 0 <= q <= 2 ^ 53 -> -1074 <= e1 ->
  (let '(mrs'', e'') := shr_fexp 53 1024 q e1 loc_Exact in
   match shr_m mrs'' with
   | 0 => S754_zero s
   | Zpos m => if e'' <=? 1024 - 53 then S754_finite s m e'' else S754_infinity s
   | Zneg _ => S754_nan
   end) =
  if q =? 0 then S754_zero s
  else if q =? 2 ^ 53
       then if e1 + 1 <=? 971 then S754_finite s (2 ^ 52) (e1 + 1) else S754_infinity s
       else if e1 <=? 971 then S754_finite s (Z.to_pos q) e1 else S754_infinity s.
Proof.
  intros Hq He1.
  destruct (Z.eqb_spec q 0) as [->|Hq0].
  { unfold shr_fexp. cbn [Zdigits2 shr_record_of_loc]. unfold shr.
    destruct (fexp 53 1024 (0 + e1) - e1) eqn:E; cbn [shr_m fst]; try reflexivity.
    exfalso. unfold fexp, emin in E. lia. }
  destruct (Z.eqb_spec q (2 ^ 53)) as [->|Hq53].
  { rewrite (shr_fexp_shift (2 ^ 53) e1 1); try lia.
    - cbn [shr_m]. change (2 ^ 53 / 2 ^ 1) with (Zpos (2 ^ 52)). reflexivity.
    - change (digits (2 ^ 53)) with 54. unfold fexp, emin. lia. }
  assert (digits q <= 53) by (apply digits_small; lia).
  rewrite shr_fexp_noshift by (try lia; unfold fexp, emin; lia).
  cbn [shr_m]. destruct q; try lia. reflexivity.
Qed.

(** What [binary_round_aux] returns: a zero, an infinity, or a mantissa
    [q] next to [m * 2^e] at the exponent [e1] of its binade. *)
Lemma round_aux_any s m e l : 0 < m ->
  let e1 := Z.max e (fexp64 (digits m + e)) in
  exists q, m / 2 ^ (e1 - e) <= q <= m / 2 ^ (e1 - e) + 1 /\ q <= 2 ^ 53 /\
    (l = loc_Exact ->
     q * 2 ^ (e1 - e) <= m + 2 ^ (e1 - e) / 2 /\ m <= q * 2 ^ (e1 - e) + 2 ^ (e1 - e) / 2) /\
    binary_round_aux 53 1024 s m e l =
      if q =? 0 then S754_zero s
      else if q =? 2 ^ 53
           then if e1 + 1 <=? 971 then S754_finite s (2 ^ 52) (e1 + 1) else S754_infinity s
           else if e1 <=? 971 then S754_finite s (Z.to_pos q) e1 else S754_infinity s.
Proof.
  intros Hm. cbv zeta. set (e1 := Z.max e (fexp64 (digits m + e))).
  destruct (shr_fexp_any m e l Hm) as (r & st & Hshr & Hloc). fold e1 in Hshr, Hloc.
  unfold binary_round_aux. rewrite Hshr. cbn [shr_m].
  set (q := round_nearest_even _ _).
  pose proof (rne_step (m / 2 ^ (e1 - e))
                (loc_of_shr_record (Build_shr_record (m / 2 ^ (e1 - e)) r st))) as Hq.
  fold q in Hq.
  assert (Hn : 0 <= e1 - e) by (subst e1; lia).
  assert (Hpn : 0 < 2 ^ (e1 - e)) by (apply Z.pow_pos_nonneg; lia).
  assert (Hq0 : 0 <= m / 2 ^ (e1 - e)) by (apply Z.div_pos; lia).
  pose proof (digits_bounds m Hm) as [Hdl Hdu].
  assert (Hlt : m / 2 ^ (e1 - e) < 2 ^ 53).
  { apply Z.div_lt_upper_bound; [lia|]. rewrite <- Z.pow_add_r by lia.
    eapply Z.lt_le_trans; [exact Hdu|]. apply Z.pow_le_mono_r; [lia|].
    subst e1. unfold fexp, emin. lia. }
  exists q. split; [lia|]. split; [lia|]. split.
  - intros ->. destruct (Z.eq_dec e1 e) as [Ee|Ee].
    + specialize (Hloc Ee). subst q. rewrite Hloc. cbn [round_nearest_even].
      rewrite Ee, Z.sub_diag, Z.div_1_r. change (2 ^ 0 / 2) with 0. lia.
    + assert (Hn' : 0 < e1 - e) by lia.
      assert (Hshr' := shr_fexp_shift m e (e1 - e) Hm).
      assert (e1 - e = fexp64 (digits m + e) - e) as En by (subst e1; lia).
      specialize (Hshr' En Hn').
      rewrite Hshr in Hshr'. injection Hshr' as -> ->.
      pose proof (rne_bound m (e1 - e) ltac:(lia) Hn') as Hb. cbv zeta in Hb.
      fold q in Hb.
      assert (Hhalf : 2 ^ (e1 - e) / 2 = 2 ^ (e1 - e - 1)).
      { replace (e1 - e) with (Z.succ (e1 - e - 1)) at 1 by lia.
        rewrite Z.pow_succ_r by lia. rewrite Z.mul_comm. apply Z.div_mul. lia. }
      rewrite Hhalf. exact Hb.
  - apply round_second_stage; [lia|]. subst e1. unfold fexp, emin. lia.
Qed.

(** ** The milliseconds: a product that is rounded before it is truncated *)

Lemma of_Z_1000 : of_Z 1000 = S754_finite false 8796093022208000 (-43).
Proof. reflexivity. Qed.

Lemma millis_bound F e :
  0 <= F < 2 ^ 53 -> -1074 <= e <= 0 -> F < 2 ^ (- e) ->
  exists ms, to_int (mul (dy F e) (of_Z 1000)) = Ok ms /\ 0 <= ms <= 999
             /\ F * 1000 / 2 ^ (- e) <= ms <= F * 1000 / 2 ^ (- e) + 1.
Proof.
  intros HF He HFD. rewrite of_Z_1000.
  destruct (Z.eq_dec F 0) as [->|HF0].
  { exists 0. rewrite dy_zero. split; [reflexivity|]. split; [lia|].
    rewrite Z.mul_0_l, Z.div_0_l by (apply Z.pow_nonzero; lia). lia. }
  destruct (dy_finite F e) as (Hle & [Hmf Hc] & ->); [lia|apply digits_small; lia|lia|].
  set (ef := fexp64 (digits F + e)) in *. set (mf := F * 2 ^ (e - ef)) in *.
  set (a := - ef).
  assert (Hpa0 : 0 < 2 ^ (e - ef)) by (apply Z.pow_pos_nonneg; lia).
  assert (Hmfa : mf < 2 ^ a).
  { subst mf a. replace (- ef) with ((- e) + (e - ef)) by lia.
    rewrite Z.pow_add_r by lia. nia. }
  assert (Hdmf : digits mf <= a) by (apply digits_lt_pow2; lia).
  assert (Ha : 53 <= a) by (subst a; unfold fexp, emin in Hc; lia).
  (* the gap between the fraction and 1 *)
  assert (Hgap : 2 ^ (a - 53) <= 2 ^ a - mf).
  { destruct (Z.eq_dec (digits mf) a) as [Ed|Ed].
    - assert (a = 53) by (subst a; unfold fexp, emin in Hc; lia).
      replace (a - 53) with 0 by lia. simpl (2 ^ 0). lia.
    - pose proof (digits_bounds mf Hmf) as [_ Hu].
      assert (2 ^ digits mf <= 2 ^ (a - 1)) by (apply Z.pow_le_mono_r; lia).
      assert (2 ^ a = 2 * 2 ^ (a - 1)).
      { replace a with (Z.succ (a - 1)) at 1 by lia. rewrite Z.pow_succ_r by lia. lia. }
      assert (2 ^ (a - 53) <= 2 ^ (a - 1)) by (apply Z.pow_le_mono_r; lia).
      lia. }
  unfold mul, SFmul. cbn [xorb]. rewrite Pos2Z.inj_mul, Z2Pos.id by lia.
  set (P := mf * 8796093022208000). set (eP := ef + -43).
  assert (HP : 0 < P) by (subst P; lia).
  destruct (round_aux_any false P eP loc_Exact HP) as (q & Hq & Hq53 & Hex & Hres).
  destruct (Hex eq_refl) as [Hup _]. clear Hex.
  cbv zeta in Hup, Hres, Hq. set (e1 := Z.max eP (fexp64 (digits P + eP))) in *.
  assert (Hq0 : 0 <= q).
  { assert (0 <= P / 2 ^ (e1 - eP)); [|lia].
    apply Z.div_pos; [lia|]. apply Z.pow_pos_nonneg; lia. }
  assert (Hn1 : 0 <= e1 - eP <= a).
  { assert (digits P <= digits mf + 53).
    { subst P. etransitivity; [apply digits_mul_le; lia|].
      change (digits 8796093022208000) with 53. lia. }
    subst e1 eP a. unfold fexp, emin in *. lia. }
  assert (He1 : e1 <= -43) by (subst eP a; lia).
  (* the rounded mantissa stays below 1000, scaled *)
  assert (Hlt : q * 2 ^ (e1 - eP) < 1000 * 2 ^ (a + 43)).
  { assert (Hhalf : 2 ^ (e1 - eP) / 2 <= 2 ^ (a - 1)).
    { destruct (Z.eq_dec (e1 - eP) 0) as [E0|E0].
      - rewrite E0. change (2 ^ 0 / 2) with 0. apply Z.pow_nonneg. lia.
      - replace (e1 - eP) with (Z.succ (e1 - eP - 1)) by lia.
        rewrite Z.pow_succ_r by lia. rewrite Z.mul_comm, Z.div_mul by lia.
        apply Z.pow_le_mono_r; lia. }
    assert (H1 : 2 ^ (a - 1) = 512 * 2 ^ (a - 10)).
    { replace (a - 1) with (9 + (a - 10)) by lia. rewrite Z.pow_add_r by lia. reflexivity. }
    assert (H2 : 2 ^ (a + 43) = 2 ^ a * 8796093022208).
    { rewrite Z.pow_add_r by lia. reflexivity. }
    assert (H3 : 2 ^ (a - 10) = 2 ^ (a - 53) * 8796093022208).
    { replace (a - 10) with ((a - 53) + 43) by lia. rewrite Z.pow_add_r by lia. reflexivity. }
    assert (0 < 2 ^ (a - 53)) by (apply Z.pow_pos_nonneg; lia).
    subst P. nia. }
  (* the exact product, floored *)
  assert (Hfloor : F * 1000 / 2 ^ (- e) = P / 2 ^ (- eP)).
  { assert (Hc43 : 0 < 2 ^ (e - ef + 43)) by (apply Z.pow_pos_nonneg; lia).
    replace P with (F * 1000 * 2 ^ (e - ef + 43)).
    2:{ subst P mf. rewrite Z.pow_add_r by lia. change (2 ^ 43) with 8796093022208. ring. }
    replace (2 ^ (- eP)) with (2 ^ (- e) * 2 ^ (e - ef + 43)).
    2:{ rewrite <- Z.pow_add_r by lia. f_equal. subst eP. lia. }
    symmetry. apply Z.div_mul_cancel_r; [apply Z.pow_nonzero|]; lia. }
  assert (Hnear : P / 2 ^ (- eP) <= q / 2 ^ (- e1) <= P / 2 ^ (- eP) + 1).
  { assert (Hp1 : 0 < 2 ^ (e1 - eP)) by (apply Z.pow_pos_nonneg; lia).
    assert (Hp2 : 0 < 2 ^ (- e1)) by (apply Z.pow_pos_nonneg; lia).
    replace (2 ^ (- eP)) with (2 ^ (e1 - eP) * 2 ^ (- e1))
      by (rewrite <- Z.pow_add_r by lia; f_equal; lia).
    rewrite <- Z.div_div by lia. split.
    - apply Z.div_le_mono; lia.
    - etransitivity; [apply (Z.div_le_mono _ (P / 2 ^ (e1 - eP) + 1 * 2 ^ (- e1))); lia|].
      rewrite Z.div_add by lia. lia. }
  rewrite <- Hfloor in Hnear.
  assert (Hfin : forall m' e', e1 <= e' <= e1 + 1 -> Zpos m' * 2 ^ (e' - e1) = q ->
            exists ms, to_int (S754_finite false m' e') = Ok ms /\ 0 <= ms <= 999
                       /\ F * 1000 / 2 ^ (- e) <= ms <= F * 1000 / 2 ^ (- e) + 1).
  { intros m' e' He' Hm'. unfold to_int, cond_Zopp.
    destruct (Z.leb_spec 0 e') as [|_]; [lia|].
    exists (Zpos m' / 2 ^ (- e')).
    assert (Hpe : 0 < 2 ^ (- e')) by (apply Z.pow_pos_nonneg; lia).
    split; [reflexivity|].
    assert (Hsame : Zpos m' / 2 ^ (- e') = q / 2 ^ (- e1)).
    { rewrite <- Hm'. replace (2 ^ (- e1)) with (2 ^ (- e') * 2 ^ (e' - e1))
        by (rewrite <- Z.pow_add_r by lia; f_equal; lia).
      symmetry. apply Z.div_mul_cancel_r; [|apply Z.pow_nonzero]; lia. }
    split; [|rewrite Hsame; exact Hnear].
    split; [apply Z.div_pos; lia|].
    assert (Zpos m' / 2 ^ (- e') < 1000); [|lia].
    apply Z.div_lt_upper_bound; [lia|].
    (* cancel the common power of two *)
    set (t := e' - eP).
    assert (Ht : 0 <= t) by (subst t; lia).
    assert (Hpt : 0 < 2 ^ t) by (apply Z.pow_pos_nonneg; lia).
    assert (Hl : Zpos m' * 2 ^ t = q * 2 ^ (e1 - eP)).
    { rewrite <- Hm'. rewrite <- Z.mul_assoc, <- Z.pow_add_r by lia.
      f_equal. f_equal. subst t. lia. }
    assert (Hr : 2 ^ (a + 43) = 2 ^ (- e') * 2 ^ t).
    { rewrite <- Z.pow_add_r by lia. f_equal. subst t eP a. lia. }
    rewrite Hr in Hlt. nia. }
  change (binary_round_aux Float64.prec Float64.emax false P eP loc_Exact)
    with (binary_round_aux 53 1024 false P eP loc_Exact).
  rewrite Hres.
  destruct (Z.eqb_spec q 0) as [Eq0|Eq0].
  { exists 0. split; [reflexivity|]. split; [lia|].
    rewrite Eq0, Z.div_0_l in Hnear by (apply Z.pow_nonzero; lia). exact Hnear. }
  destruct (Z.eqb_spec q (2 ^ 53)) as [Eq53|Eq53].
  - destruct (Z.leb_spec (e1 + 1) 971); [|lia].
    apply Hfin; [lia|]. rewrite Eq53. replace (e1 + 1 - e1) with 1 by lia. reflexivity.
  - destruct (Z.leb_spec e1 971); [|lia].
    apply Hfin; [lia|]. rewrite Z.sub_diag, Z2Pos.id by lia. lia.
Qed.

(** ** Floats of 2^53 and more *)

(** A canonical positive exponent comes with a full mantissa. *)
Lemma canonical_big m e : canonical m e -> 0 < e -> digits m = 53 /\ 2 ^ 52 <= m < 2 ^ 53.
Proof.
  intros [Hm Hc] He. unfold fexp, emin in Hc.
  assert (digits m = 53) as Hd by lia. split; [assumption|].
  pose proof (digits_bounds m Hm) as Hb. rewrite Hd in Hb. exact Hb.
Qed.

(** The C remainder of an integer-valued float of 2^53 or more. *)
Lemma fmod_big m e y :
  canonical (Zpos m) e -> 0 < e <= 971 -> 0 < y < 2 ^ 53 ->
  fmod (S754_finite false m e) (of_Z y) = dy ((Zpos m * 2 ^ e) mod y) 0.
Proof.
  intros Hc He Hy.
  destruct (of_Z_finite y) as ([Hmy Hcy] & ->); [lia|].
  set (dyy := digits y) in *.
  assert (Hdy : 0 < dyy <= 53) by (subst dyy; split; [apply digits_pos; lia|apply digits_small; lia]).
  unfold fmod. rewrite Z2Pos.id by lia.
  rewrite Z.min_r by lia. rewrite Z.sub_diag, Z.mul_1_r.
  unfold cond_Zopp.
  change (binary_normalize Float64.prec Float64.emax ?a ?b false) with (dy a b).
  assert (Hp : 0 < 2 ^ (53 - dyy)) by (apply Z.pow_pos_nonneg; lia).
  assert (HX : Zpos m * 2 ^ (e - (dyy - 53)) = Zpos m * 2 ^ e * 2 ^ (53 - dyy)).
  { rewrite <- Z.mul_assoc, <- Z.pow_add_r by lia. f_equal. f_equal. lia. }
  rewrite HX, Z.mul_mod_distr_r by lia.
  set (r := (Zpos m * 2 ^ e) mod y).
  pose proof (Z.mod_pos_bound (Zpos m * 2 ^ e) y ltac:(lia)) as Hr. fold r in Hr.
  destruct (Z.eq_dec r 0) as [->|Hr0]; [reflexivity|].
  symmetry. apply dy_same; try lia.
  - apply digits_small; lia.
  - unfold same_value. rewrite Z.min_r by lia. rewrite Z.sub_diag, Z.mul_1_r.
    f_equal. f_equal. lia.
Qed.

Lemma tame_to_int x B : tame x B -> exists z, to_int x = Ok z /\ 0 <= z.
Proof.
  intros [->|(m & e & -> & _ & _)]; [exists 0; split; [reflexivity|lia]|].
  unfold to_int, cond_Zopp. eexists. split; [reflexivity|].
  destruct (Z.leb_spec 0 e).
  - assert (0 <= 2 ^ e) by (apply Z.pow_nonneg; lia). lia.
  - apply Z.div_pos; [lia|]. apply Z.pow_pos_nonneg; lia.
Qed.

Lemma canonical_digits m e : canonical m e -> digits m <= 53.
Proof. intros [_ Hc]. unfold fexp, emin in Hc. lia. Qed.

Lemma digits_two_52 : digits (Zpos (2 ^ 52)) = 53.
Proof. reflexivity. Qed.

(** What rounding a positive integer at a given exponent can return. *)
Lemma round_aux_finite m e l :
  0 < m ->
  let e1 := Z.max e (fexp64 (digits m + e)) in
  2 ^ 52 <= m / 2 ^ (e1 - e) -> e1 + 1 <= 971 ->
  exists q ez, binary_round_aux 53 1024 false m e l = S754_finite false q ez
               /\ e1 <= ez <= e1 + 1 /\ digits (Zpos q) <= 53.
Proof.
  intros Hm e1 Hlow Hhigh.
  destruct (round_aux_any false m e l Hm) as (q & Hq & Hq53 & _ & Hr). fold e1 in Hq, Hr. rewrite Hr. clear Hr.
  destruct (Z.eqb_spec q 0) as [E|E]; [lia|].
  destruct (Z.eqb_spec q (2 ^ 53)) as [E'|E'].
  - destruct (Z.leb_spec (e1 + 1) 971); [|lia].
    eexists _, _. split; [reflexivity|]. split; [lia|]. rewrite digits_two_52. lia.
  - destruct (Z.leb_spec e1 971); [|lia].
    eexists _, _. split; [reflexivity|]. split; [lia|].
    rewrite Z2Pos.id by lia. apply digits_small; lia.
Qed.

Lemma round_aux_tame m e l :
  0 < m ->
  let e1 := Z.max e (fexp64 (digits m + e)) in
  e1 + 1 <= 971 -> tame (binary_round_aux 53 1024 false m e l) (e1 + 1).
Proof.
  intros Hm e1 Hhigh.
  destruct (round_aux_any false m e l Hm) as (q & Hq & Hq53 & _ & Hr). fold e1 in Hq, Hr. rewrite Hr. clear Hr.
  assert (0 <= m / 2 ^ (e1 - e)) by (apply Z.div_pos; [lia|apply Z.pow_pos_nonneg; lia]).
  destruct (Z.eqb_spec q 0) as [E|E]; [left; reflexivity|].
  destruct (Z.eqb_spec q (2 ^ 53)) as [E'|E'].
  - destruct (Z.leb_spec (e1 + 1) 971); [|lia].
    right. eexists _, _. split; [reflexivity|]. split; [unfold fexp, emin in *; lia|].
    rewrite digits_two_52. lia.
  - destruct (Z.leb_spec e1 971); [|lia].
    right. eexists _, _. split; [reflexivity|]. split; [unfold fexp, emin in *; lia|].
    rewrite Z2Pos.id by lia. apply digits_small; lia.
Qed.

(** Normalising a positive integer that needs rounding. *)
Lemma normalize_round M ez :
  0 < M -> let E := fexp64 (digits M + ez) in ez <= E ->
  dy M ez = binary_round_aux 53 1024 false M ez loc_Exact
  /\ Z.max ez (fexp64 (digits M + ez)) = E.
Proof.
  intros HM E HE. split; [|lia].
  destruct M as [|p|p]; try lia. unfold dy, binary_normalize, binary_round.
  rewrite digits2_log2. fold (digits (Zpos p)). fold E.
  rewrite shl_align_spec.
  destruct (Z.ltb_spec E ez); [lia|]. reflexivity.
Qed.

Lemma normalize_tame M ez :
  0 <= M -> fexp64 (digits M + ez) + 1 <= 971 ->
  tame (dy M ez) (fexp64 (digits M + ez) + 1).
Proof.
  intros HM HE.
  destruct (Z.eq_dec M 0) as [->|HM0]; [left; reflexivity|].
  set (E := fexp64 (digits M + ez)) in *.
  destruct (Z.le_gt_cases ez E) as [H|H].
  - destruct (normalize_round M ez ltac:(lia) H) as [-> Hmax].
    pose proof (round_aux_tame M ez loc_Exact ltac:(lia)) as Ht. cbv zeta in Ht.
    rewrite Hmax in Ht. apply Ht. assumption.
  - assert (Hd : digits M <= 53) by (subst E; unfold fexp, emin in *; lia).
    assert (Hpow : 0 < 2 ^ (ez - E)) by (apply Z.pow_pos_nonneg; lia).
    assert (Hc : canonical (M * 2 ^ (ez - E)) E).
    { split; [apply Z.mul_pos_pos; lia|]. rewrite digits_mul_pow2 by lia.
      replace (digits M + (ez - E) + E) with (digits M + ez) by lia. reflexivity. }
    unfold dy. rewrite (normalize_exact M ez (M * 2 ^ (ez - E)) E); try assumption; try lia.
    + right. eexists _, _. split; [reflexivity|]. split; [unfold fexp, emin in *; lia|].
      rewrite Z2Pos.id by apply Hc. apply (canonical_digits _ E), Hc.
    + unfold same_value. rewrite Z.min_r by lia. rewrite Z.sub_diag, Z.mul_1_r. reflexivity.
Qed.

Lemma tame_weaken x B B' : tame x B -> B <= B' -> tame x B'.
Proof.
  intros [->|(m & e & -> & He & Hd)] HB; [left; reflexivity|].
  right. exists m, e. split; [reflexivity|]. split; [lia|assumption].
Qed.

Lemma tame_sign x B : tame x B -> sign x = false.
Proof. intros [->|(m & e & -> & _)]; reflexivity. Qed.

(** [x - r] for a float [x] of 2^53 or more and a small positive [r]. *)
Lemma sub_big m e r :
  canonical (Zpos m) e -> 0 < e <= 971 -> 0 < r < 2 ^ 52 ->
  exists md ed, sub (S754_finite false m e) (dy r 0) = S754_finite false md ed
                /\ 0 <= ed <= e /\ digits (Zpos md) <= 53.
Proof.
  intros Hc He Hr.
  destruct (canonical_big _ _ Hc ltac:(lia)) as [Hd Hm].
  destruct (of_Z_finite r) as (Hcr & Er); [lia|]. rewrite of_Z_dy in Er. rewrite Er.
  set (dr := digits r) in *.
  assert (Hdr : 0 < dr <= 52) by (subst dr; split; [apply digits_pos; lia|apply digits_lt_pow2; lia]).
  set (mr := r * 2 ^ (53 - dr)) in *. set (er := dr - 53) in *.
  assert (Hmr : 0 < mr < 2 ^ 53).
  { split; [apply Hcr|]. pose proof (canonical_digits _ _ Hcr) as Hd53.
    pose proof (digits_bounds mr ltac:(apply Hcr)) as Hb.
    assert (2 ^ digits mr <= 2 ^ 53) by (apply Z.pow_le_mono_r; lia). lia. }
  unfold sub, SFsub. rewrite !shl_align_spec. rewrite Z.min_r by lia.
  destruct (Z.ltb_spec er e) as [_|]; [|lia].
  destruct (Z.ltb_spec er er) as [|_]; [lia|]. cbn [fst cond_Zopp negb].
  rewrite !Z2Pos.id; try lia;
    try (apply Z.mul_pos_pos; [lia|apply Z.pow_pos_nonneg; lia]).
  change (binary_normalize Float64.prec Float64.emax ?a ?b false) with (dy a b).
  set (P := 2 ^ (e - er)).
  assert (HP : 4 <= P).
  { subst P. change 4 with (2 ^ 2). apply Z.pow_le_mono_r; lia. }
  set (M' := Z.pos m * P - mr).
  assert (HmP : 2 ^ 52 * P <= Z.pos m * P) by nia.
  assert (HmP' : Z.pos m * P < 2 ^ 53 * P) by nia.
  assert (Hlow : 2 ^ (51 + (e - er)) <= M').
  { rewrite Z.pow_add_r by lia. fold P. subst M'. lia. }
  assert (Hup : M' < 2 ^ (53 + (e - er))).
  { rewrite Z.pow_add_r by lia. fold P. subst M'. lia. }
  assert (HM'pos : 0 < M').
  { assert (0 < 2 ^ (51 + (e - er))) by (apply Z.pow_pos_nonneg; lia). lia. }
  assert (Hdig : 52 + (e - er) <= digits M' <= 53 + (e - er)).
  { split; [|apply digits_lt_pow2; lia].
    replace (52 + (e - er)) with (digits (1 * 2 ^ (51 + (e - er))))
      by (rewrite digits_mul_pow2 by lia; change (digits 1) with 1; lia).
    apply digits_le; [apply Z.mul_pos_pos; [lia|apply Z.pow_pos_nonneg; lia]|lia]. }
  set (F := fexp64 (digits M' + er)).
  assert (HF : F = digits M' + er - 53) by (subst F; unfold fexp, emin; lia).
  destruct (normalize_round M' er HM'pos) as [-> Hmax]; [fold F; lia|]. fold F in Hmax.
  pose proof (round_aux_any false M' er loc_Exact HM'pos) as Hra.
  cbv zeta in Hra. fold F in Hra. rewrite Hmax in Hra.
  destruct Hra as (q & Hq & Hq53 & Hhalf & ->). specialize (Hhalf eq_refl).
  set (N := F - er) in *.
  assert (HN : 0 < N) by lia.
  assert (H2N : 0 < 2 ^ N) by (apply Z.pow_pos_nonneg; lia).
  assert (Hq52 : 2 ^ 52 <= M' / 2 ^ N).
  { apply Z.div_le_lower_bound; [lia|].
    pose proof (digits_bounds M' HM'pos) as Hb.
    replace (digits M' - 1) with (N + 52) in Hb by lia.
    rewrite Z.pow_add_r in Hb by lia. lia. }
  destruct (Z.eqb_spec q 0) as [E|E]; [lia|].
  destruct (Z.eqb_spec q (2 ^ 53)) as [E'|E'].
  - assert (HFe : F <> e).
    { intros ->. assert (HNP : 2 ^ N = P) by (subst N P; reflexivity).
      rewrite HNP in Hhalf.
      assert (P / 2 <= P) by (apply Z.div_le_upper_bound; lia).
      subst M'. nia. }
    destruct (Z.leb_spec (F + 1) 971); [|lia].
    eexists _, _. split; [reflexivity|]. split; [lia|]. rewrite digits_two_52. lia.
  - destruct (Z.leb_spec F 971); [|lia].
    eexists _, _. split; [reflexivity|]. split; [lia|].
    rewrite Z2Pos.id by lia. apply digits_small; lia.
Qed.

(** Dividing a float of magnitude one or more by a small integer. *)
Lemma div_big md ed y :
  digits (Zpos md) <= 53 -> 0 <= ed <= 971 -> 0 < y < 2 ^ 53 -> 2 <= digits y ->
  tame (div (S754_finite false md ed) (of_Z y)) (ed + 3 - digits y).
Proof.
  intros Hd He Hy Hy2.
  destruct (of_Z_finite y) as (Hcy & ->); [lia|].
  set (dg := digits y) in *.
  assert (Hdg : 0 < dg <= 53) by (subst dg; split; [apply digits_pos; lia|apply digits_small; lia]).
  set (my := y * 2 ^ (53 - dg)) in *.
  assert (Hdmy : digits my = 53).
  { subst my. rewrite digits_mul_pow2 by lia. fold dg. lia. }
  pose proof (digits_bounds my ltac:(apply Hcy)) as Hmy. rewrite Hdmy in Hmy.
  set (d1 := digits (Zpos md)) in *.
  assert (Hd1 : 0 < d1) by (apply digits_pos; lia).
  pose proof (digits_bounds (Zpos md) ltac:(lia)) as Hmd. fold d1 in Hmd.
  unfold div, SFdiv, SFdiv_core_binary.
  rewrite Z2Pos.id by apply Hcy.
  rewrite !Zdigits2_digits by (try lia; apply Hcy). fold d1. rewrite Hdmy.
  set (e' := Z.min _ _).
  assert (He' : e' = d1 + ed - dg - 53) by (subst e'; unfold fexp, emin, Float64.prec, Float64.emax; lia).
  replace (ed - (dg - 53) - e') with (106 - d1) by lia.
  destruct (106 - d1) as [|s|s] eqn:Es; try lia.
  rewrite Z.shiftl_mul_pow2 by lia. rewrite <- Es.
  set (m' := Zpos md * 2 ^ (106 - d1)).
  assert (Hm' : 2 ^ 105 <= m' < 2 ^ 106).
  { assert (HQ : 0 < 2 ^ (106 - d1)) by (apply Z.pow_pos_nonneg; lia).
    assert (E105 : 2 ^ 105 = 2 ^ (d1 - 1) * 2 ^ (106 - d1))
      by (rewrite <- Z.pow_add_r by lia; f_equal; lia).
    assert (E106 : 2 ^ 106 = 2 ^ d1 * 2 ^ (106 - d1))
      by (rewrite <- Z.pow_add_r by lia; f_equal; lia).
    rewrite E105, E106. subst m'. split.
    - apply Z.mul_le_mono_nonneg_r; lia.
    - apply Z.mul_lt_mono_pos_r; lia. }
  destruct (Z.div_eucl m' my) as [q r] eqn:E.
  assert (Eq : q = m' / my) by (unfold Z.div; rewrite E; reflexivity).
  assert (Hq : 2 ^ 52 <= q < 2 ^ 54).
  { rewrite Eq. split.
    - apply Z.div_le_lower_bound; [lia|]. 
      change (2 ^ 105) with (2 ^ 52 * 2 ^ 53) in Hm'. nia.
    - apply Z.div_lt_upper_bound; [lia|].
      change (2 ^ 106) with (2 ^ 52 * 2 ^ 54) in Hm'. nia. }
  cbn [xorb].
  pose proof (round_aux_tame q e' (new_location my r) ltac:(lia)) as Ht.
  cbv zeta in Ht.
  assert (Hdq : digits q <= 54) by (apply digits_lt_pow2; lia).
  assert (Hmax : Z.max e' (fexp64 (digits q + e')) <= e' + 1) by (unfold fexp, emin; lia).
  eapply tame_weaken; [apply Ht; lia|]. lia.
Qed.

Lemma floor_tame x B : tame x B -> 0 <= B -> tame (floor x) B.
Proof.
  intros [->|(m & e & -> & He & Hd)] HB; [left; reflexivity|].
  unfold floor. destruct (Z.leb_spec 0 e) as [H|H].
  { right. exists m, e. split; [reflexivity|]. split; assumption. }
  unfold cond_Zopp.
  change (binary_normalize Float64.prec Float64.emax ?a 0 false) with (of_Z a).
  assert (H2 : 0 < 2 ^ (- e)) by (apply Z.pow_pos_nonneg; lia).
  set (K := Zpos m / 2 ^ (- e)).
  assert (HK : 0 <= K < 2 ^ 53).
  { subst K. pose proof (digits_bounds (Zpos m) ltac:(lia)) as Hb.
    assert (2 ^ digits (Zpos m) <= 2 ^ 53) by (apply Z.pow_le_mono_r; lia).
    split; [apply Z.div_pos; lia|].
    apply Z.div_lt_upper_bound; [lia|]. nia. }
  destruct (Z.eq_dec K 0) as [->|HK0]; [left; reflexivity|].
  destruct (of_Z_finite K) as (Hc & ->); [lia|].
  right. eexists _, _. split; [reflexivity|].
  assert (0 < digits K <= 53) by (split; [apply digits_pos; lia|apply digits_small; lia]).
  split; [lia|]. rewrite Z2Pos.id by apply Hc. apply (canonical_digits _ _ Hc).
Qed.

Lemma add_one_tame x B :
  tame x B -> 0 <= B <= 968 -> tame (add x (of_Z 1)) (B + 2).
Proof.
  intros Hx HB.
  assert (E1 : of_Z 1 = S754_finite false (2 ^ 52) (-52)) by reflexivity.
  rewrite E1.
  destruct Hx as [->|(m & e & -> & He & Hd)].
  { right. eexists _, _. split; [reflexivity|]. split; [lia|]. rewrite digits_two_52. lia. }
  unfold add, SFadd. rewrite !shl_align_spec. cbn [cond_Zopp].
  change (binary_normalize Float64.prec Float64.emax ?a ?b false) with (dy a b).
  set (ez := Z.min e (-52)).
  set (M := _ + _).
  pose proof (digits_bounds (Zpos m) ltac:(lia)) as Hb.
  assert (H53 : 2 ^ digits (Zpos m) <= 2 ^ 53) by (apply Z.pow_le_mono_r; lia).
  assert (HM : 0 < M < 2 ^ (54 + B - ez)).
  { subst M. split; [lia|].
    assert (Ha : Zpos (fst (if ez <? e then (Z.to_pos (Zpos m * 2 ^ (e - ez)), ez) else (m, e)))
                 < 2 ^ (53 + B - ez)).
    { assert (0 < 2 ^ (e - ez)) by (apply Z.pow_pos_nonneg; lia).
      assert (2 ^ (e - ez) <= 2 ^ (B - ez)) by (apply Z.pow_le_mono_r; lia).
      replace (53 + B - ez) with (53 + (B - ez)) by lia. rewrite Z.pow_add_r by lia.
      destruct (Z.ltb_spec ez e); cbn [fst].
      - rewrite Z2Pos.id by (apply Z.mul_pos_pos; lia). nia.
      - assert (1 <= 2 ^ (B - ez)) by lia. nia. }
    assert (Hb1 : Zpos (fst (if ez <? -52 then (Z.to_pos (Zpos (2 ^ 52) * 2 ^ (-52 - ez)), ez)
                             else ((2 ^ 52)%positive, -52)))
                 < 2 ^ (53 + B - ez)).
    { assert (0 < 2 ^ (-52 - ez)) by (apply Z.pow_pos_nonneg; lia).
      change (Zpos (2 ^ 52)) with (2 ^ 52).
      destruct (Z.ltb_spec ez (-52)); cbn [fst].
      - rewrite Z2Pos.id by (apply Z.mul_pos_pos; lia).
        rewrite <- Z.pow_add_r by lia. apply Z.pow_lt_mono_r; lia.
      - change (Zpos (2 ^ 52)) with (2 ^ 52). apply Z.pow_lt_mono_r; lia. }
    replace (54 + B - ez) with (1 + (53 + B - ez)) by lia.
    rewrite Z.pow_add_r by lia. change (2 ^ 1) with 2. lia. }
  assert (Hdig : digits M <= 54 + B - ez) by (apply digits_lt_pow2; lia).
  eapply tame_weaken; [apply normalize_tame; [lia|]|]; unfold fexp, emin; lia.
Qed.

(** The float facts about a positive integer divisor. *)
Lemma of_Z_positive y : 0 < y < 2 ^ 53 ->
  nonzero (of_Z y) = true /\ ltb (of_Z y) (S754_zero false) = false.
Proof. intros Hy. destruct (of_Z_finite y) as (_ & ->); [lia|]. split; reflexivity. Qed.

(** [x // y] of a float [x] of 2^53 or more is a float that [int] accepts. *)
Lemma floordiv_big m e y :
  canonical (Zpos m) e -> 0 < e <= 971 -> 32 <= y < 2 ^ 52 ->
  exists q, floordiv (S754_finite false m e) (of_Z y) = Ok q /\ tame q 971.
Proof.
  intros Hc He Hy.
  destruct (of_Z_positive y ltac:(lia)) as [Hnz Hlt].
  assert (Hdy : 6 <= digits y).
  { change 6 with (digits 32). apply digits_le; lia. }
  assert (Hdm : digits (Zpos m) <= 53) by apply (canonical_digits _ _ Hc).
  unfold floordiv. rewrite Hnz. eexists. split; [reflexivity|].
  unfold _float_div_mod. rewrite fmod_big by (try assumption; lia).
  set (r := (Zpos m * 2 ^ e) mod y).
  pose proof (Z.mod_pos_bound (Zpos m * 2 ^ e) y ltac:(lia)) as Hr. fold r in Hr.
  rewrite Hlt.
  assert (Hdiv0 : tame (div (sub (S754_finite false m e) (dy r 0)) (of_Z y)) 968
                  /\ ltb (dy r 0) (S754_zero false) = false).
  { destruct (Z.eq_dec r 0) as [->|Hr0].
    - rewrite dy_zero. split; [|reflexivity]. cbn [sub SFsub].
      eapply tame_weaken; [apply div_big; try assumption; lia|lia].
    - destruct (sub_big m e r Hc He ltac:(lia)) as (md & ed & -> & Hed & Hdd).
      split.
      + eapply tame_weaken; [apply div_big; try assumption; lia|lia].
      + destruct (of_Z_positive r ltac:(lia)) as [_ H]. exact H. }
  destruct Hdiv0 as [Ht Hl]. rewrite Hl. cbn [xorb].
  set (div0 := div _ _) in *.
  assert (Hshape : (if nonzero (dy r 0) then (dy r 0, div0) else (copysign_zero (of_Z y), div0))
                   = (if nonzero (dy r 0) then dy r 0 else copysign_zero (of_Z y), div0))
    by (destruct (nonzero (dy r 0)); reflexivity).
  rewrite Hshape. cbn [fst].
  destruct (nonzero div0).
  - cbv zeta. destruct (ltb half _).
    + eapply tame_weaken; [apply add_one_tame; [apply floor_tame; [exact Ht|lia]|lia]|lia].
    + eapply tame_weaken; [apply floor_tame; [exact Ht|lia]|lia].
  - unfold copysign_zero.
    rewrite (tame_sign _ (e + 3 - digits y)); [left; reflexivity|].
    apply div_big; try assumption; lia.
Qed.

Lemma rem_big m e y :
  canonical (Zpos m) e -> 0 < e <= 971 -> 0 < y < 2 ^ 53 ->
  rem (S754_finite false m e) (of_Z y) = Ok (of_Z ((Zpos m * 2 ^ e) mod y)).
Proof.
  intros Hc He Hy. unfold rem. rewrite fmod_big by assumption.
  destruct (of_Z_positive y Hy) as [-> ->].
  pose proof (Z.mod_pos_bound (Zpos m * 2 ^ e) y ltac:(lia)) as Hr.
  set (r := (Zpos m * 2 ^ e) mod y) in *.
  assert (Hs : copysign_zero (of_Z y) = S754_zero false).
  { destruct (of_Z_finite y Hy) as (_ & ->). reflexivity. }
  rewrite Hs, (of_Z_dy r).
  destruct (dy_nonneg_form r 0) as [[-> ->]|[_ (m' & e' & ->)]];
    try lia; reflexivity.
Qed.

(** ** The four fields of [_format_timestamp] *)

Lemma result_bind_ok {A B} (a : A) (f : A -> result B) : (Ok a ≫= f) = f a.
Proof. reflexivity. Qed.

Ltac bind_ok := cbn [mbind result_bind].

Lemma mod_mod_multiple M D k : 0 < D -> 0 < k -> (M mod (k * D)) mod D = M mod D.
Proof.
  intros HD Hk. apply Z.mod_mod_divide. exists k. reflexivity.
Qed.

(** A time below 2^53 seconds: every field is the exact one, the
    milliseconds apart, which are those of the rounded product. *)
Lemma format_timestamp_dy M e :
  0 <= M < 2 ^ 53 -> -1074 <= e <= 0 ->
  let D := 2 ^ (- e) in
  exists ms, to_int (mul (dy (M mod D) e) (of_Z 1000)) = Ok ms
    /\ 0 <= ms <= 999
    /\ (M mod D) * 1000 / D <= ms <= (M mod D) * 1000 / D + 1
    /\ _format_timestamp (dy M e) =
         Ok (render (M / (3600 * D)) (M mod (3600 * D) / (60 * D)) (M mod (60 * D) / D) ms).
Proof.
  intros HM He D.
  assert (HD : 0 < D) by (apply Z.pow_pos_nonneg; lia).
  pose proof (Z.mod_pos_bound M D HD) as HF.
  assert (HFM : M mod D <= M) by (apply Z.mod_le; lia).
  destruct (millis_bound (M mod D) e) as (ms & Hms & Hr & Hn); [lia|lia|apply HF|].
  fold D in Hn. exists ms. split; [assumption|]. split; [assumption|]. split; [assumption|].
  pose proof (Z.mod_pos_bound M (3600 * D) ltac:(lia)) as HR.
  assert (HRM : M mod (3600 * D) <= M) by (apply Z.mod_le; lia).
  pose proof (Z.mod_pos_bound M (60 * D) ltac:(lia)) as HS.
  assert (HSM : M mod (60 * D) <= M) by (apply Z.mod_le; lia).
  assert (Hk : 0 <= M / (3600 * D) < 2 ^ 53).
  { split; [apply Z.div_pos; lia|]. apply Z.div_lt_upper_bound; nia. }
  assert (Hk' : 0 <= M mod (3600 * D) / (60 * D) < 2 ^ 53).
  { split; [apply Z.div_pos; lia|]. apply Z.div_lt_upper_bound; nia. }
  unfold _format_timestamp.
  rewrite (floordiv_dy M e 3600) by (try assumption; lia). fold D. bind_ok.
  rewrite to_int_of_Z by assumption. bind_ok.
  rewrite (rem_dy M e 3600) by (try assumption; lia). fold D. bind_ok.
  rewrite (floordiv_dy (M mod (3600 * D)) e 60) by lia. fold D. bind_ok.
  rewrite to_int_of_Z by assumption. bind_ok.
  rewrite (rem_dy M e 60) by (try assumption; lia). fold D. bind_ok.
  rewrite (rem_dy (M mod (60 * D)) e 1) by lia. fold D. bind_ok.
  replace (1 * D) with D by lia. rewrite mod_mod_multiple by lia.
  rewrite Hms. bind_ok.
  rewrite to_int_dy by lia. fold D. bind_ok.
  reflexivity.
Qed.

(** A time of 2^53 seconds or more is a whole number of seconds. *)
Lemma format_timestamp_big m e :
  canonical (Zpos m) e -> 0 < e <= 971 ->
  let V := Zpos m * 2 ^ e in
  exists q hours, floordiv (S754_finite false m e) (of_Z 3600) = Ok q
    /\ to_int q = Ok hours /\ 0 <= hours
    /\ _format_timestamp (S754_finite false m e) =
         Ok (render hours (V mod 3600 / 60) (V mod 60) 0).
Proof.
  intros Hc He V.
  destruct (floordiv_big m e 3600 Hc He ltac:(lia)) as (q & Hq & Ht).
  destruct (tame_to_int q 971 Ht) as (hours & Hh & Hh0).
  exists q, hours. split; [assumption|]. split; [assumption|]. split; [assumption|].
  pose proof (Z.mod_pos_bound V 3600 ltac:(lia)) as HR.
  pose proof (Z.mod_pos_bound V 60 ltac:(lia)) as HS.
  unfold _format_timestamp.
  rewrite Hq. bind_ok. rewrite Hh. bind_ok.
  rewrite (rem_big m e 3600) by (try assumption; lia). fold V. bind_ok.
  rewrite (of_Z_dy (V mod 3600)), (floordiv_dy (V mod 3600) 0 60) by lia. bind_ok.
  change (2 ^ (- 0)) with 1. rewrite Z.mul_1_r.
  rewrite to_int_of_Z
    by (split; [apply Z.div_pos; lia|apply Z.div_lt_upper_bound; lia]).
  bind_ok.
  rewrite (rem_big m e 60) by (try assumption; lia). fold V. bind_ok.
  rewrite (of_Z_dy (V mod 60)), (rem_dy (V mod 60) 0 1) by lia. bind_ok.
  change (1 * 2 ^ (- 0)) with 1. rewrite Z.mod_1_r, dy_zero.
  change (to_int (mul (S754_zero false) (of_Z 1000))) with (Ok 0 : result Z).
  bind_ok.
  rewrite <- of_Z_dy, to_int_of_Z by lia. bind_ok.
  reflexivity.
Qed.

#[global] Instance Qmod_proper : Proper (Qeq ==> Qeq ==> Qeq) Qmod.
Proof.
  intros a a' Ha b b' Hb. unfold Qmod.
  assert (E : Qfloor (a / b) = Qfloor (a' / b')).
  { apply Qfloor_comp. apply Qdiv_comp; assumption. }
  rewrite E. apply Qplus_comp; [assumption|].
  apply Qopp_comp. apply Qmult_comp; [assumption|reflexivity].
Qed.

Lemma Qfloor_div_pos N D y : Qfloor ((N # D) / (Zpos y # 1)) = N / (Zpos y * Zpos D).
Proof.
  unfold Qdiv, Qinv, Qmult, Qfloor. cbn [Qnum Qden].
  rewrite Z.mul_1_r. f_equal. lia.
Qed.

Lemma Qmod_fraction N D y :
  (Qmod (N # D) (Zpos y # 1) == (N mod (Zpos y * Zpos D)) # D)%Q.
Proof.
  unfold Qmod. rewrite Qfloor_div_pos.
  rewrite (Z.mod_eq N (Zpos y * Zpos D)) by lia.
  set (k := N / (Zpos y * Zpos D)).
  unfold Qeq, Qminus, Qplus, Qopp, Qmult, inject_Z. cbn [Qnum Qden].
  rewrite !Pos2Z.inj_mul. ring.
Qed.

Lemma Qfloor_times N D y : Qfloor ((N # D) * (Zpos y # 1)) = N * Zpos y / Zpos D.
Proof.
  unfold Qmult, Qfloor. cbn [Qnum Qden]. f_equal. lia.
Qed.

Lemma Qpower_2_neg e : e <= 0 -> (2 ^ e == 1 # Z.to_pos (2 ^ (- e)))%Q.
Proof.
  intros He. replace e with (- (- e)) at 1 by lia.
  rewrite Qpower_opp. change 2%Q with (inject_Z 2).
  rewrite <- Zpower_Qpower by lia.
  assert (H : 0 < 2 ^ (- e)) by (apply Z.pow_pos_nonneg; lia).
  destruct (2 ^ (- e)) as [|p|p]; try lia. reflexivity.
Qed.

Lemma value_fraction m e :
  e <= 0 -> (value (S754_finite false m e) == Zpos m # Z.to_pos (2 ^ (- e)))%Q.
Proof.
  intros He. unfold value, cond_Zopp. rewrite Qpower_2_neg by assumption.
  unfold Qeq, Qmult, inject_Z. cbn [Qnum Qden]. lia.
Qed.

Lemma value_integer m e :
  0 <= e -> (value (S754_finite false m e) == Zpos m * 2 ^ e # 1)%Q.
Proof.
  intros He. unfold value, cond_Zopp. change 2%Q with (inject_Z 2).
  rewrite <- Zpower_Qpower by assumption.
  unfold Qeq, Qmult, inject_Z. cbn [Qnum Qden]. lia.
Qed.

Lemma valid_canonical m e :
  canonical (Zpos m) e -> e <= 971 -> valid (S754_finite false m e) = true.
Proof.
  intros [_ Hc] He. unfold valid, valid_binary, bounded, canonical_mantissa.
  rewrite digits2_log2. fold (digits (Zpos m)).
  apply andb_true_intro. split; [apply Z.eqb_eq; exact Hc|apply Z.leb_le; exact He].
Qed.

(** The float of [F / 2^-e]: a valid float of exactly that value. *)
Lemma value_dy F e :
  0 <= F < 2 ^ 53 -> -1074 <= e <= 0 ->
  valid (dy F e) = true /\ (value (dy F e) == F # Z.to_pos (2 ^ (- e)))%Q.
Proof.
  intros HF He.
  destruct (Z.eq_dec F 0) as [->|HF0].
  { rewrite dy_zero. split; reflexivity. }
  destruct (dy_finite F e) as (Hle & Hc & ->); [lia|apply digits_small; lia|lia|].
  set (e' := fexp64 (digits F + e)) in *.
  assert (Hp : 0 < 2 ^ (e - e')) by (apply Z.pow_pos_nonneg; lia).
  assert (Hp1 : 0 < 2 ^ (- e)) by (apply Z.pow_pos_nonneg; lia).
  assert (Hp2 : 0 < 2 ^ (- e')) by (apply Z.pow_pos_nonneg; lia).
  split; [apply valid_canonical; [rewrite Z2Pos.id by apply Hc; exact Hc|lia]|].
  rewrite value_fraction by lia. rewrite Z2Pos.id by apply Hc.
  unfold Qeq. cbn [Qnum Qden]. rewrite !Z2Pos.id by lia.
  rewrite <- Z.mul_assoc, <- Z.pow_add_r by lia. f_equal. f_equal. lia.
Qed.

(** Every valid non-negative float is a fraction [N / D], and the formatter
    computes its fields from [N] and [D]. *)
Lemma format_timestamp_fraction s :
  valid s = true -> is_finite s = true -> ltb s (S754_zero false) = false ->
  exists (N : Z) (Dp : positive) (frac : spec_float) (hours ms : Z),
    0 <= N /\ (value s == N # Dp)%Q
    /\ valid frac = true /\ (value frac == (N mod Zpos Dp) # Dp)%Q
    /\ to_int (mul frac (of_Z 1000)) = Ok ms /\ 0 <= ms <= 999
    /\ (N mod Zpos Dp) * 1000 / Zpos Dp <= ms <= (N mod Zpos Dp) * 1000 / Zpos Dp + 1
    /\ (floordiv s (of_Z 3600) ≫= to_int) = Ok hours /\ 0 <= hours
    /\ (N < 2 ^ 53 * Zpos Dp -> hours = N / (3600 * Zpos Dp))
    /\ _format_timestamp s =
         Ok (render hours (N mod (3600 * Zpos Dp) / (60 * Zpos Dp))
               (N mod (60 * Zpos Dp) / Zpos Dp) ms).
Proof.
  intros Hv Hf Hs. destruct s as [b|b| |b m e]; try discriminate.
  { exists 0, 1%positive, (S754_zero false), 0, 0.
    destruct b; repeat split; try reflexivity; try lia; try (intros _; reflexivity);
      try (vm_compute; congruence). }
  destruct b; [discriminate|].
  destruct (valid_is_dy _ _ _ Hv) as (Hc & He & Hdy).
  pose proof (canonical_digits _ _ Hc) as Hd.
  pose proof (digits_bounds (Zpos m) ltac:(lia)) as Hb.
  assert (H53 : 2 ^ digits (Zpos m) <= 2 ^ 53) by (apply Z.pow_le_mono_r; lia).
  destruct (Z.le_gt_cases e 0) as [He0|He0].
  - assert (Hemin : -1074 <= e) by (destruct Hc as [_ Hc]; unfold fexp, emin in Hc; lia).
    assert (HD : 0 < 2 ^ (- e)) by (apply Z.pow_pos_nonneg; lia).
    destruct (format_timestamp_dy (Zpos m) e ltac:(lia) ltac:(lia)) as (ms & Hms & Hr & Hn & Hfmt).
    cbv zeta in *. rewrite Hdy in Hfmt.
    pose proof (Z.mod_pos_bound (Zpos m) (2 ^ (- e)) HD) as HF.
    assert (HFM : Zpos m mod 2 ^ (- e) <= Zpos m) by (apply Z.mod_le; lia).
    destruct (value_dy (Zpos m mod 2 ^ (- e)) e ltac:(lia) ltac:(lia)) as [Hvf Hvalf].
    exists (Zpos m), (Z.to_pos (2 ^ (- e))), (dy (Zpos m mod 2 ^ (- e)) e),
      (Zpos m / (3600 * 2 ^ (- e))), ms.
    rewrite !Z2Pos.id by lia.
    split; [lia|]. split; [apply value_fraction; lia|].
    split; [assumption|]. split; [assumption|]. split; [assumption|].
    split; [assumption|]. split; [assumption|].
    split.
    { rewrite <- Hdy. rewrite floordiv_dy by lia. cbn [mbind result_bind].
      apply to_int_of_Z. split; [apply Z.div_pos; lia|].
      apply Z.div_lt_upper_bound; nia. }
    split; [apply Z.div_pos; lia|]. split; [reflexivity|]. exact Hfmt.
  - destruct (format_timestamp_big m e Hc ltac:(lia)) as (q & hours & Hq & Hh & Hh0 & Hfmt).
    cbv zeta in Hfmt.
    destruct (canonical_big _ _ Hc He0) as [_ Hm].
    assert (H2e : 2 <= 2 ^ e).
    { change 2 with (2 ^ 1) at 1. apply Z.pow_le_mono_r; lia. }
    exists (Zpos m * 2 ^ e), 1%positive, (S754_zero false), hours, 0.
    rewrite !Z.mod_1_r, !Z.mul_1_r, !Z.div_1_r.
    split; [lia|]. split; [apply value_integer; lia|].
    split; [reflexivity|]. split; [reflexivity|]. split; [reflexivity|].
    split; [lia|]. split; [change (0 * 1000 / 1) with 0; lia|].
    split; [rewrite Hq; exact Hh|]. split; [assumption|].
    split; [nia|]. exact Hfmt.
Qed.

Lemma fields_of_fraction (v : Q) N Dp :
  (v == N # Dp)%Q ->
  spec_hours v = N / (3600 * Zpos Dp)
  /\ spec_minutes v = N mod (3600 * Zpos Dp) / (60 * Zpos Dp)
  /\ spec_whole_seconds v = N mod (60 * Zpos Dp) / Zpos Dp
  /\ (Qmod v 1 == (N mod Zpos Dp) # Dp)%Q
  /\ exact_milliseconds v = (N mod Zpos Dp) * 1000 / Zpos Dp.
Proof.
  intros Hv. unfold spec_hours, spec_minutes, spec_whole_seconds, exact_milliseconds.
  assert (Hm : forall y, (Qmod v (Zpos y # 1) == (N mod (Zpos y * Zpos Dp)) # Dp)%Q).
  { intros y. rewrite <- Qmod_fraction. apply Qmod_proper; [exact Hv|reflexivity]. }
  split.
  { rewrite <- (Qfloor_div_pos N Dp 3600).
    apply Qfloor_comp, Qdiv_comp; [exact Hv|reflexivity]. }
  split.
  { rewrite <- (Qfloor_div_pos (N mod (3600 * Zpos Dp)) Dp 60).
    apply Qfloor_comp, Qdiv_comp; [apply (Hm 3600%positive)|reflexivity]. }
  split.
  { change (N mod (60 * Zpos Dp) / Zpos Dp) with (Qfloor ((N mod (60 * Zpos Dp)) # Dp)).
    apply Qfloor_comp, (Hm 60%positive). }
  assert (H1 : (Qmod v 1 == (N mod Zpos Dp) # Dp)%Q).
  { rewrite (Hm 1%positive). replace (1 * Zpos Dp) with (Zpos Dp) by lia. reflexivity. }
  split; [exact H1|].
  rewrite <- (Qfloor_times (N mod Zpos Dp) Dp 1000).
  apply Qfloor_comp, Qmult_comp; [exact H1|reflexivity].
Qed.

(** ** Zero padding *)

Lemma format_0d_width (w : nat) (z : Z) :
  (1 <= w <= 3)%nat -> 0 <= z < 10 ^ Z.of_nat w -> String.length (format_0d w z) = w.
Proof.
  intros Hw Hz.
  assert (Hall : forallb (fun w' => forallb (fun n =>
            implb (Z.of_nat n <? 10 ^ Z.of_nat w')
                  (Nat.eqb (String.length (format_0d w' (Z.of_nat n))) w'))
            (seq 0 1000)) (seq 1 3) = true) by (vm_compute; reflexivity).
  rewrite forallb_forall in Hall.
  specialize (Hall w ltac:(apply in_seq; lia)).
  rewrite forallb_forall in Hall.
  assert (Hlt : z < 1000).
  { assert (10 ^ Z.of_nat w <= 10 ^ 3) by (apply Z.pow_le_mono_r; lia). lia. }
  specialize (Hall (Z.to_nat z) ltac:(apply in_seq; lia)).
  rewrite Z2Nat.id in Hall by lia.
  destruct (Z.ltb_spec z (10 ^ Z.of_nat w)); [|lia].
  apply Nat.eqb_eq. exact Hall.
Qed.

Lemma length_append (a b : string) :
  String.length (a +:+ b) = (String.length a + String.length b)%nat.
Proof. induction a as [|c a IH]; simpl; [reflexivity|]. rewrite IH. reflexivity. Qed.

(** [HH:MM:SS,mmm] is twelve characters while the hours stay below 100. *)
Lemma render_length hours minutes seconds milliseconds :
  0 <= hours < 100 -> 0 <= minutes < 60 -> 0 <= seconds < 60 ->
  0 <= milliseconds <= 999 ->
  String.length (render hours minutes seconds milliseconds) = 12%nat.
Proof.
  intros Hh Hm Hs Hms. unfold render. rewrite !length_append.
  rewrite !(format_0d_width 2), (format_0d_width 3); try lia; reflexivity.
Qed.

Lemma timestamp_examples :
  _format_timestamp (of_Z 0) = Ok "00:00:00,000"
  /\ _format_timestamp (of_decimal 36615 1) = Ok "01:01:01,500"
  /\ _format_timestamp (of_decimal 599999 4) = Ok "00:00:59,999".
Proof. repeat split; vm_compute; reflexivity. Qed.

Lemma format_timestamp_fields s :
  valid s = true -> is_finite s = true -> ltb s (S754_zero false) = false ->
  exists (hours ms : Z) (frac : spec_float),
    _format_timestamp s =
      Ok (render hours (spec_minutes (value s)) (spec_whole_seconds (value s)) ms)
    /\ (floordiv s (of_Z 3600) ≫= to_int) = Ok hours /\ 0 <= hours
    /\ ((value s < inject_Z (2 ^ 53))%Q -> hours = spec_hours (value s))
    /\ 0 <= spec_minutes (value s) < 60
    /\ 0 <= spec_whole_seconds (value s) < 60
    /\ valid frac = true /\ (value frac == Qmod (value s) 1)%Q
    /\ spec_milliseconds frac = Ok ms /\ 0 <= ms <= 999
    /\ exact_milliseconds (value s) <= ms <= exact_milliseconds (value s) + 1.
Proof.
  intros Hv Hf Hs.
  destruct (format_timestamp_fraction s Hv Hf Hs)
    as (N & Dp & frac & hours & ms & HN & Hval & Hvf & Hfrac & Hms & Hr & Hn & Hh & Hh0 & Hex & Hfmt).
  destruct (fields_of_fraction (value s) N Dp Hval) as (Eh & Em & Es & Ef & Ems).
  exists hours, ms, frac.
  rewrite Em, Es, Eh, Ems.
  pose proof (Z.mod_pos_bound N (3600 * Zpos Dp) ltac:(lia)) as HR.
  pose proof (Z.mod_pos_bound N (60 * Zpos Dp) ltac:(lia)) as HS.
  split; [exact Hfmt|]. split; [exact Hh|]. split; [exact Hh0|].
  split.
  { intros Hlt. apply Hex.
    assert (Hlt' : (N # Dp < inject_Z (2 ^ 53))%Q).
    { eapply Qle_lt_trans; [|exact Hlt]. rewrite Hval. apply Qle_refl. }
    unfold Qlt, inject_Z in Hlt'. cbn [Qnum Qden] in Hlt'. lia. }
  split.
  { split; [apply Z.div_pos; lia|]. apply Z.div_lt_upper_bound; lia. }
  split.
  { split; [apply Z.div_pos; lia|]. apply Z.div_lt_upper_bound; lia. }
  split; [exact Hvf|].
  split; [rewrite Ef; exact Hfrac|].
  split; [exact Hms|]. split; [exact Hr|]. exact Hn.
Qed.

(** The product by 1000 is rounded to binary64 before [int] truncates it:
    the milliseconds are the floor of the exact product or, when the
    product rounds up to a whole number, one more. *)
Lemma milliseconds_near_exact_floor (s : spec_float) :
  valid s = true -> is_finite s = true -> ltb s (S754_zero false) = false ->
  exists (ms : Z) (frac : spec_float),
    valid frac = true /\ (value frac == Qmod (value s) 1)%Q
    /\ spec_milliseconds frac = Ok ms
    /\ exact_milliseconds (value s) <= ms <= exact_milliseconds (value s) + 1.
Proof.
  intros Hv Hf Hs.
  destruct (format_timestamp_fields s Hv Hf Hs)
    as (hours & ms & frac & _ & _ & _ & _ & _ & _ & Hvf & Hfrac & Hms & _ & Hn).
  exists ms, frac. repeat split; try assumption; apply Hn.
Qed.

(** The float nearest to 0.009 lies below 9/1000, yet its product by 1000
    rounds to 9.0: the text shows 009 where the exact product floors to 8. *)
Lemma milliseconds_of_rounded_product :
  _format_timestamp (of_decimal 9 3) = Ok "00:00:00,009"
  /\ exact_milliseconds (value (of_decimal 9 3)) = 8.
Proof. split; vm_compute; reflexivity. Qed.

(** C2. [_format_timestamp] is a function of the seconds value alone: it
    reads and writes nothing. For every seconds value [s], a binary64 float
    that is finite and not negative, it returns the text [HH:MM:SS,mmm]
    whose fields are
    - hours: [int(s // 3600)], which is [floor(s / 3600)] of the exact value
      while [s] is below 2^53,
    - minutes: [floor((s mod 3600) / 60)],
    - whole seconds: [floor(s mod 60)],
    - milliseconds: [floor((s mod 1) * 1000)], where [s mod 1] is exact and
      the product is the binary64 one; they never exceed 999, so nothing is
      carried into the seconds,
    each zero-padded: two digits for hours, minutes and seconds, three for
    the milliseconds, twelve characters in all while the hours stay below
    100. The three examples are those of the specification: 0.0, 3661.5
    and 59.9999. *)
Theorem format_timestamp_renders_fields :
  (forall s : spec_float,
     valid s = true -> is_finite s = true -> ltb s (S754_zero false) = false ->
     exists (hours ms : Z) (frac : spec_float),
       _format_timestamp s =
         Ok (render hours (spec_minutes (value s)) (spec_whole_seconds (value s)) ms)
       /\ (floordiv s (of_Z 3600) ≫= to_int) = Ok hours /\ 0 <= hours
       /\ ((value s < inject_Z (2 ^ 53))%Q -> hours = spec_hours (value s))
       /\ 0 <= spec_minutes (value s) < 60
       /\ 0 <= spec_whole_seconds (value s) < 60
       /\ valid frac = true /\ (value frac == Qmod (value s) 1)%Q
       /\ spec_milliseconds frac = Ok ms /\ 0 <= ms <= 999
       /\ (hours < 100 ->
           String.length
             (render hours (spec_minutes (value s)) (spec_whole_seconds (value s)) ms)
           = 12%nat))
  /\ _format_timestamp (of_Z 0) = Ok "00:00:00,000"
  /\ _format_timestamp (of_decimal 36615 1) = Ok "01:01:01,500"
  /\ _format_timestamp (of_decimal 599999 4) = Ok "00:00:59,999".
Proof.
  split; [|exact timestamp_examples].
  intros s Hv Hf Hs.
  destruct (format_timestamp_fields s Hv Hf Hs)
    as (hours & ms & frac & Hfmt & Hh & Hh0 & Hex & Hm & Hsec & Hvf & Hfrac & Hms & Hr & _).
  exists hours, ms, frac.
  repeat (split; [assumption|]).
  intros Hh100. apply render_length; try assumption. lia.
Qed.

Lemma format_timestamp_renders_fields_witness :
  let s := of_decimal 599999 4 in
  exists (hours ms : Z) (frac : spec_float),
    _format_timestamp s =
      Ok (render hours (spec_minutes (value s)) (spec_whole_seconds (value s)) ms)
    /\ (floordiv s (of_Z 3600) ≫= to_int) = Ok hours /\ 0 <= hours
    /\ ((value s < inject_Z (2 ^ 53))%Q -> hours = spec_hours (value s))
    /\ 0 <= spec_minutes (value s) < 60
    /\ 0 <= spec_whole_seconds (value s) < 60
    /\ valid frac = true /\ (value frac == Qmod (value s) 1)%Q
    /\ spec_milliseconds frac = Ok ms /\ 0 <= ms <= 999
    /\ (hours < 100 ->
        String.length
          (render hours (spec_minutes (value s)) (spec_whole_seconds (value s)) ms)
        = 12%nat).
Proof.
  apply (proj1 format_timestamp_renders_fields (of_decimal 599999 4));
    vm_compute; reflexivity.
Defined.

(* ===================================================================== *)
(** * Timestamps the formatter refuses, and what the writer does then *)
(* ===================================================================== *)

(** A time the formatter is proved to accept: a binary64 value that is
    finite and not negative. *)
Definition timed (x : spec_float) : bool :=
  valid x && is_finite x && negb (ltb x (S754_zero false)).

Definition well_timed (s : segment) : bool := timed (start s) && timed (end_ s).

Lemma timed_formats x : timed x = true → ∃ t, _format_timestamp x = Ok t.
Proof.
  unfold timed. intros H.
  apply andb_prop in H as [H Hs]. apply andb_prop in H as [Hv Hf].
  apply negb_true_iff in Hs.
  destruct (format_timestamp_fields x Hv Hf Hs) as (hours & ms & frac & Hfmt & _).
  eauto.
Qed.

Lemma well_timed_formats s : well_timed s = true → formats s = true.
Proof.
  unfold well_timed, formats. intros H. apply andb_prop in H as [H1 H2].
  destruct (timed_formats _ H1) as [t1 ->]. destruct (timed_formats _ H2) as [t2 ->].
  reflexivity.
Qed.

Lemma non_finite_raises x : is_finite x = false → _format_timestamp x = Raise ValueError.
Proof. destruct x; try discriminate; intros _; reflexivity. Qed.

(** [_format_timestamp] of NaN or of an infinity raises [ValueError]: the
    floor division gives NaN, which [int] refuses. *)
Theorem format_timestamp_rejects_non_finite (seconds : spec_float) :
  is_finite seconds = false → _format_timestamp seconds = Raise ValueError.
Proof. apply non_finite_raises. Qed.

Lemma format_timestamp_rejects_non_finite_witness :
  _format_timestamp (S754_infinity false) = Raise ValueError.
Proof. apply (format_timestamp_rejects_non_finite (S754_infinity false)). reflexivity. Defined.

(** The loop over [pre ++ rest] is the loop over [pre], then the loop over
    [rest] with the enumeration carried on. *)
Lemma write_entries_app path pre rest h : ∀ i w,
  write_entries path i (pre ++ rest) h w =
    match write_entries path i pre h w with
    | (Ok _, w') => write_entries path (i + N.of_nat (List.length pre)) rest h w'
    | (Raise e, w') => (Raise e, w')
    end.
Proof.
  induction pre as [|s pre IH]; intros i w.
  - simpl. by rewrite N.add_0_r.
  - change ((s :: pre) ++ rest)%list with (s :: (pre ++ rest))%list.
    simpl write_entries. rewrite !run_bind.
    destruct (lift (_format_timestamp (start s)) h w) as [[t1|e] w1]; [|done].
    rewrite !run_bind.
    destruct (lift (_format_timestamp (end_ s)) h w1) as [[t2|e] w2]; [|done].
    rewrite !run_bind.
    match goal with |- context [match ?x with _ => _ end] =>
      destruct x as [[[]|e] w3] end; [|done].
    rewrite IH. replace (N.succ i + N.of_nat (List.length pre))%N
      with (i + N.of_nat (List.length (s :: pre)))%N by (simpl; lia).
    done.
Qed.

Lemma write_entries_stops path bad rest h i w :
  is_finite (start bad) = false ∨ is_finite (end_ bad) = false →
  ∃ e, write_entries path i (bad :: rest) h w = (Raise e, w).
Proof.
  intros Hbad. simpl write_entries. rewrite run_bind. unfold lift at 1.
  destruct (_format_timestamp (start bad)) as [t1|e] eqn:E1; [|by eexists].
  destruct Hbad as [Hbad|Hbad]; [by rewrite non_finite_raises in E1|].
  rewrite run_bind. unfold lift at 1. rewrite non_finite_raises by done. by eexists.
Qed.

(** ** The writer on well-formed and on ill-formed times *)

(** When every segment has finite, non-negative start and end times and
    the file can be written, [_write_srt] returns [True] and the file holds
    the entries of the segments whose stripped text is not empty. *)
Theorem write_srt_accepts_finite_times
    (h : host) (segments : list segment) (output_path : string) (w : world) :
  segments ≠ [] →
  writable h output_path →
  forallb well_timed segments = true →
  let out := _write_srt segments output_path h w in
  fst out = Ok true ∧
  fs (snd out) = <[output_path := concat_entries (emitted 1 segments)]> (fs w) ∧
  drive (snd out) = drive w ∧ log (snd out) = log w.
Proof.
  intros Hne Hw Ht.
  assert (Hf : forallb formats segments = true).
  { apply forallb_forall. intros s Hs. apply well_timed_formats.
    rewrite forallb_forall in Ht. by apply Ht. }
  destruct (write_srt_ok h segments output_path w Hne Hw Hf) as (w' & Hrun & Hfs & Hd & Hl).
  simpl. by rewrite Hrun.
Qed.

Lemma write_srt_accepts_finite_times_witness :
  let out := _write_srt five "/cache/talk.srt" quiet fresh in
  fst out = Ok true ∧
  fs (snd out) = <["/cache/talk.srt" := concat_entries (emitted 1 five)]> (fs fresh) ∧
  drive (snd out) = drive fresh ∧ log (snd out) = log fresh.
Proof.
  apply (write_srt_accepts_finite_times quiet five "/cache/talk.srt" fresh).
  - discriminate.
  - repeat split.
  - vm_compute. reflexivity.
Defined.

(** A segment whose start or end is NaN or infinite stops the writer, blank
    text or not, because the timestamps are formatted before the text is
    looked at: [_write_srt] returns [False], logs the error, and leaves
    the file with the entries of the segments before that one. *)
Theorem write_srt_stops_at_non_finite_time
    (h : host) (pre post : list segment) (bad : segment)
    (output_path : string) (w : world) :
  writable h output_path →
  forallb well_timed pre = true →
  is_finite (start bad) = false ∨ is_finite (end_ bad) = false →
  let out := _write_srt (pre ++ bad :: post) output_path h w in
  fst out = Ok false ∧
  fs (snd out) = <[output_path := concat_entries (emitted 1 pre)]> (fs w) ∧
  ∃ msg, log (snd out) = (log w ++ [(ERROR, msg)])%list.
Proof.
  intros (Hopen & Hwrite & Hclose) Ht Hbad.
  assert (Hf : forallb formats pre = true).
  { apply forallb_forall. intros s Hs. apply well_timed_formats.
    rewrite forallb_forall in Ht. by apply Ht. }
  set (w1 := set_fs (insert output_path "") (add_trace (OpOpen output_path) w)).
  destruct (write_entries_ok h pre 1%N output_path w1 "") as (w2 & Hrun & Hfs & Hd & Hl);
    [done..| by (subst w1; simpl; rewrite lookup_insert_eq) |].
  destruct (write_entries_stops output_path bad post h
              (1 + N.of_nat (List.length pre))%N w2 Hbad) as [e He].
  simpl. destruct (_write_srt (pre ++ bad :: post) output_path h w) as [r wf] eqn:Hout.
  rewrite write_srt_unfold in Hout. unfold write_srt_body in Hout.
  destruct (pre ++ bad :: post)%list as [|s0 l0] eqn:Els; [by destruct pre|].
  rewrite <- Els in Hout. clear Els.
  rewrite run_bind in Hout. unfold with_open, open_w in Hout.
  rewrite !run_bind, external_ok in Hout by done.
  unfold modify at 1 in Hout. unfold try_finally in Hout. fold w1 in Hout.
  rewrite write_entries_app, Hrun, He in Hout.
  unfold close in Hout. rewrite external_ok in Hout by done.
  injection Hout as <- <-.
  split; [done|]. split.
  - simpl. rewrite Hfs. subst w1. simpl. by rewrite insert_insert_eq.
  - eexists. simpl. rewrite Hl. subst w1. reflexivity.
Qed.

Lemma write_srt_stops_at_non_finite_time_witness :
  let bad := Segment S754_nan (of_decimal 9000 3) "   " in
  let out := _write_srt ([utterance 1000 2500 "hello"] ++ bad :: [utterance 9500 9900 "bye"])
               "/cache/talk.srt" quiet fresh in
  fst out = Ok false ∧
  fs (snd out) = <["/cache/talk.srt" := concat_entries (emitted 1 [utterance 1000 2500 "hello"])]>
                   (fs fresh) ∧
  ∃ msg, log (snd out) = (log fresh ++ [(ERROR, msg)])%list.
Proof.
  apply (write_srt_stops_at_non_finite_time quiet [utterance 1000 2500 "hello"]
           [utterance 9500 9900 "bye"] (Segment S754_nan (of_decimal 9000 3) "   ")
           "/cache/talk.srt" fresh).
  - repeat split.
  - vm_compute. reflexivity.
  - left. reflexivity.
Defined.

(* ===================================================================== *)
(** * [_cleanup_files] *)
(* ===================================================================== *)

(** One round of the loop of [_cleanup_files]. *)
Definition cleanup_one (file_path : option string) : io unit :=
  match file_path with
  | Some path =>
      present ← exists_ path;
      if truthy path && present then
        try_except
          (remove path;;
           logger INFO ("Cleaned up file: " +:+ path))
          (fun e => logger ERROR ("Error cleaning up file: " +:+ str_exn e))
      else ret tt
  | None => ret tt
  end.

Lemma cleanup_files_cons file_path rest :
  _cleanup_files (file_path :: rest) = (cleanup_one file_path;; _cleanup_files rest).
Proof. reflexivity. Qed.

Lemma truthy_nonempty s : s ≠ "" → truthy s = true.
Proof. by destruct s. Qed.

Lemma cleanup_one_run file_path h w :
  ∃ w', cleanup_one file_path h w = (Ok tt, w') ∧ drive w' = drive w ∧
        (fs w' = fs w ∨ ∃ p, file_path = Some p ∧ fs w' = delete p (fs w)) ∧
        (∀ p, file_path = Some p → p ≠ "" → io_fails h (OpRemove p) = false →
              fs w' !! p = None).
Proof.
  destruct file_path as [path|]; [|exists w; split_and!; [done..|by left|done]].
  unfold cleanup_one. rewrite run_bind. unfold exists_ at 1.
  destruct (bool_decide (is_Some (fs w !! path))) eqn:Hp.
  - destruct (truthy path) eqn:Ht; cbn [andb].
    + unfold try_except, remove.
      cbv [mbind io_bind get_world external logger modify ret mret io_ret raise].
      destruct (io_fails h (OpRemove path)) eqn:Hfail.
      * eexists. split; [reflexivity|]. simpl. split_and!; [done|by left|].
        intros p [= <-] _ Hok. congruence.
      * rewrite Hp. eexists. split; [reflexivity|]. simpl.
        split_and!; [done|right; eauto|].
        intros p [= <-] _ _. apply lookup_delete_eq.
    + exists w. split_and!; [done..|by left|]. intros p [= <-] Hne.
      by rewrite truthy_nonempty in Ht.
  - rewrite andb_false_r. exists w. split_and!; [done..|by left|].
    intros p [= <-] _ _. apply bool_decide_eq_false in Hp.
    by apply eq_None_not_Some.
Qed.

Lemma cleanup_files_run file_paths h : ∀ w,
  ∃ w', _cleanup_files file_paths h w = (Ok tt, w') ∧ drive w' = drive w ∧
        fs w' ⊆ fs w ∧
        (∀ q, Some q ∉ file_paths → fs w' !! q = fs w !! q) ∧
        (∀ p, Some p ∈ file_paths → p ≠ "" → io_fails h (OpRemove p) = false →
              fs w' !! p = None).
Proof.
  induction file_paths as [|file_path rest IH]; intros w.
  - exists w. split_and!; [done..| |]; [done|]. intros p Hp. by apply elem_of_nil in Hp.
  - rewrite cleanup_files_cons, run_bind.
    destruct (cleanup_one_run file_path h w) as (w1 & -> & Hd1 & Hfs1 & Hrm1).
    destruct (IH w1) as (w2 & -> & Hd2 & Hsub2 & Hframe2 & Hrm2).
    assert (Hsub1 : fs w1 ⊆ fs w).
    { destruct Hfs1 as [->|(p & _ & ->)]; [done|apply delete_subseteq]. }
    exists w2. split_and!; [done|congruence|by etrans| |].
    + intros q Hq. rewrite Hframe2.
      * destruct Hfs1 as [->|(p & -> & ->)]; [done|].
        apply lookup_delete_ne. intros ->. apply Hq. by left.
      * intros Hin. apply Hq. by right.
    + intros p Hp Hne Hok. apply elem_of_cons in Hp as [Hp|Hp].
      * specialize (Hrm1 p (eq_sym Hp) Hne Hok).
        destruct (fs w2 !! p) as [c|] eqn:E; [|done].
        eapply lookup_weaken in E; [|exact Hsub2]. congruence.
      * by apply Hrm2.
Qed.

(** [_cleanup_files] never raises and touches nothing but the files it is
    given: it only deletes, it leaves every other path and the drive as
    they were, and every given path whose removal does not fail is gone
    afterwards, whether or not the removal of another one failed. *)
Theorem cleanup_files_removes_what_it_can
    (file_paths : list (option string)) (h : host) (w : world) :
  let out := _cleanup_files file_paths h w in
  fst out = Ok tt ∧
  drive (snd out) = drive w ∧
  fs (snd out) ⊆ fs w ∧
  (∀ q, Some q ∉ file_paths → fs (snd out) !! q = fs w !! q) ∧
  (∀ p, Some p ∈ file_paths → p ≠ "" → io_fails h (OpRemove p) = false →
        fs (snd out) !! p = None).
Proof.
  simpl. destruct (cleanup_files_run file_paths h w) as (w' & -> & H). split; [done|exact H].
Qed.

(* ===================================================================== *)
(** * [VideoProcessor.check_existing_translation] *)
(* ===================================================================== *)

(** The queries the method would make, in the order of its two loops. *)
Definition existing_queries (file_name output_folder_id translation_folder_id : string)
    : list (string * string) :=
  let base_without_ext := fst (os_path.splitext file_name) in
  [(output_folder_id, base_without_ext +:+ "_AI_Translated.srt");
   (output_folder_id, base_without_ext +:+ ".srt");
   (translation_folder_id, base_without_ext +:+ "_AI_Translated.srt");
   (translation_folder_id, base_without_ext +:+ ".srt")].

(** A query answers: the listing call works and finds a file. *)
Definition answers (h : host) (d : list remote_file) (q : string * string) : bool :=
  negb (io_fails h (OpListFolder q.2 q.1)) && listed q.2 q.1 d.

(** The queries made: those up to the first that answers. *)
Fixpoint asked (h : host) (d : list remote_file) (queries : list (string * string))
    : list (string * string) :=
  match queries with
  | [] => []
  | q :: rest => q :: (if answers h d q then [] else asked h d rest)
  end.

Lemma check_queries_run queries h : ∀ w,
  ∃ w', check_queries queries h w = (Ok (existsb (answers h (drive w)) queries), w') ∧
        fs w' = fs w ∧ drive w' = drive w ∧
        trace w' = (trace w ++ map (λ q, OpListFolder q.2 q.1) (asked h (drive w) queries))%list.
Proof.
  induction queries as [|[folder_id name] rest IH]; intros w.
  - eexists. split; [reflexivity|]. simpl. by rewrite app_nil_r.
  - simpl check_queries. rewrite run_bind. unfold try_except.
    rewrite run_bind. unfold external at 1.
    change (existsb (answers h (drive w)) ((folder_id, name) :: rest))
      with (negb (io_fails h (OpListFolder name folder_id)) && listed name folder_id (drive w)
            || existsb (answers h (drive w)) rest).
    change (asked h (drive w) ((folder_id, name) :: rest))
      with ((folder_id, name) ::
            (if negb (io_fails h (OpListFolder name folder_id)) && listed name folder_id (drive w)
             then [] else asked h (drive w) rest)).
    destruct (io_fails h (OpListFolder name folder_id)) eqn:Hfail.
    + cbv [mbind io_bind logger modify ret mret io_ret].
      match goal with |- context [check_queries rest h ?w1] =>
        destruct (IH w1) as (w' & -> & Hfs & Hd & Ht) end.
      exists w'. simpl in *. rewrite Hfs, Hd, Ht. by rewrite <- app_assoc.
    + rewrite run_bind. unfold get_world at 1.
      change (drive (add_trace (OpListFolder name folder_id) w)) with (drive w).
      destruct (listed name folder_id (drive w)) eqn:Hl.
      * cbv [mbind io_bind logger modify ret mret io_ret].
        eexists. split; [reflexivity|]. done.
      * cbv [mbind io_bind logger modify ret mret io_ret].
        match goal with |- context [check_queries rest h ?w1] =>
          destruct (IH w1) as (w' & -> & Hfs & Hd & Ht) end.
        exists w'. simpl in *. rewrite Hfs, Hd, Ht. by rewrite <- app_assoc.
Qed.

(** [check_existing_translation] never raises and changes neither the disk
    nor the drive. It asks, in this order, for [<stem>_AI_Translated.srt]
    and [<stem>.srt] in the output folder and then in the translation
    folder, stops at the first query that finds a file, and answers [True]
    exactly when one does; a query whose listing call fails counts as
    finding nothing. *)
Theorem check_existing_translation_answers
    (file_name output_folder_id translation_folder_id : string) (h : host) (w : world) :
  let run := check_existing_translation file_name output_folder_id translation_folder_id in
  let queries := existing_queries file_name output_folder_id translation_folder_id in
  fst (run h w) = Ok (existsb (answers h (drive w)) queries) ∧
  calls run h w = map (λ q, OpListFolder q.2 q.1) (asked h (drive w) queries) ∧
  fs (snd (run h w)) = fs w ∧
  drive (snd (run h w)) = drive w.
Proof.
  simpl. unfold calls.
  destruct (check_existing_translation file_name output_folder_id translation_folder_id h w)
    as [r wf] eqn:Hrun.
  unfold check_existing_translation in Hrun. rewrite run_bind in Hrun.
  unfold logger at 1, modify at 1 in Hrun.
  match type of Hrun with context [check_queries ?qs h ?w1] =>
    change qs with (existing_queries file_name output_folder_id translation_folder_id) in Hrun;
    destruct (check_queries_run
                (existing_queries file_name output_folder_id translation_folder_id) h w1)
      as (w' & Hq & Hfs & Hd & Ht) end.
  rewrite Hq in Hrun. injection Hrun as <- <-.
  simpl in *. rewrite Ht, drop_app_length. done.
Qed.

(* ===================================================================== *)
(** * What a computation keeps, returns and never does *)
(* ===================================================================== *)

(** [m] keeps [Q]: from a world where [Q] holds it ends in such a world. *)
Definition preserves {A} (Q : world → Prop) (m : io A) : Prop :=
  ∀ h w, Q w → Q (snd (m h w)).

(** Whatever [m] returns satisfies [P]. *)
Definition yields {A} (P : A → Prop) (m : io A) : Prop :=
  ∀ h w a, fst (m h w) = Ok a → P a.

Section Preserves.
Context (Q : world → Prop).
Context (Qlog : ∀ l msg w, Q w → Q (add_log l msg w)).
Context (Qtrace : ∀ op w, Q w → Q (add_trace op w)).

Lemma preserves_ret {A} (a : A) : preserves Q (ret a).
Proof. by intros h w. Qed.

Lemma preserves_raise {A} e : preserves Q (@raise A e).
Proof. by intros h w. Qed.

Lemma preserves_lift {A} (r : result A) : preserves Q (lift r).
Proof. by intros h w. Qed.

Lemma preserves_get_world : preserves Q get_world.
Proof. by intros h w. Qed.

Lemma preserves_exists path : preserves Q (exists_ path).
Proof. by intros h w. Qed.

Lemma preserves_getenv name : preserves Q (getenv name).
Proof. by intros h w. Qed.

Lemma preserves_logger l msg : preserves Q (logger l msg).
Proof. intros h w. apply Qlog. Qed.

Lemma preserves_modify g : (∀ w, Q w → Q (g w)) → preserves Q (modify g).
Proof. intros H h w. apply H. Qed.

Lemma preserves_external op e : preserves Q (external op e).
Proof. intros h w Hw. unfold external. destruct (io_fails h op); by apply Qtrace. Qed.

Lemma preserves_decode path : preserves Q (decode path).
Proof. intros h w Hw. unfold decode. destruct (io_fails h _); by apply Qtrace. Qed.

Lemma preserves_bind {A B} (m : io A) (k : A → io B) :
  preserves Q m → (∀ a, preserves Q (k a)) → preserves Q (m ≫= k).
Proof.
  intros Hm Hk h w Hw. rewrite run_bind. specialize (Hm h w Hw).
  destruct (m h w) as [[a|e] w1]; [by apply Hk|done].
Qed.

Lemma preserves_try_except {A} (body : io A) handler :
  preserves Q body → (∀ e, preserves Q (handler e)) → preserves Q (try_except body handler).
Proof.
  intros Hb Hh h w Hw. unfold try_except. specialize (Hb h w Hw).
  destruct (body h w) as [[a|e] w1]; [done|by apply Hh].
Qed.

Lemma preserves_try_finally {A} (body : io A) fin :
  preserves Q body → preserves Q fin → preserves Q (try_finally body fin).
Proof.
  intros Hb Hf h w Hw. unfold try_finally. specialize (Hb h w Hw).
  destruct (body h w) as [r w1]. specialize (Hf h w1 Hb).
  by destruct (fin h w1) as [[[]|e] w2].
Qed.

Lemma preserves_try_except_finally {A B} (first : io A) (rest : A → io B) handler fin :
  preserves Q first → (∀ x, preserves Q (rest x)) → (∀ e, preserves Q (handler e)) →
  (∀ o, preserves Q (fin o)) → preserves Q (try_except_finally first rest handler fin).
Proof.
  intros H1 Hr Hh Hf h w Hw. unfold try_except_finally. specialize (H1 h w Hw).
  destruct (first h w) as [[x|e] w1].
  - apply preserves_try_finally; [apply preserves_try_except; auto|apply Hf|exact H1].
  - apply preserves_try_finally; [apply Hh|apply Hf|exact H1].
Qed.

End Preserves.

(** One step of the proof that a computation preserves [Q]. *)
Ltac preserves_step :=
  lazymatch goal with
  | |- preserves _ (mbind _ _) => apply preserves_bind; [|intros ?]
  | |- preserves _ (ret _) => apply preserves_ret
  | |- preserves _ (raise _) => apply preserves_raise
  | |- preserves _ (lift _) => apply preserves_lift
  | |- preserves _ get_world => apply preserves_get_world
  | |- preserves _ (exists_ _) => apply preserves_exists
  | |- preserves _ (getenv _) => apply preserves_getenv
  | |- preserves _ (logger _ _) => apply preserves_logger
  | |- preserves _ (modify _) => apply preserves_modify
  | |- preserves _ (external _ _) => apply preserves_external
  | |- preserves _ (decode _) => apply preserves_decode
  | |- preserves _ (try_except _ _) => apply preserves_try_except; [|intros ?]
  | |- preserves _ (try_finally _ _) => apply preserves_try_finally
  | |- preserves _ (try_except_finally _ _ _ _) =>
      apply preserves_try_except_finally; [|intros ?|intros ?|intros ?]
  | |- preserves _ (match ?x with _ => _ end) => destruct x
  | |- preserves _ (open_w _) => unfold open_w
  | |- preserves _ (write _ _) => unfold write
  | |- preserves _ (close _) => unfold close
  | |- preserves _ (with_open _ _) => unfold with_open
  | |- preserves _ (remove _) => unfold remove
  | |- preserves _ (copy2 _ _) => unfold copy2
  | |- preserves _ (prepare_audio _) => unfold prepare_audio
  | |- preserves _ (_download_file _ _) => unfold _download_file
  | |- preserves _ (_upload_srt _ _) => unfold _upload_srt
  | |- preserves _ (_write_srt _ _) => unfold _write_srt
  | |- preserves _ (recognize _ _ _ _ _) => unfold recognize
  | |- preserves _ (transcribe_video _ _ _) => unfold transcribe_video
  end.

Lemma preserves_write_entries Q path segments :
  (∀ op w, Q w → Q (add_trace op w)) →
  (∀ data w, Q w → Q (set_fs (alter (λ old, old +:+ data) path) w)) →
  ∀ i, preserves Q (write_entries path i segments).
Proof.
  intros Qtrace Qalter. induction segments as [|s rest IH]; intros i; simpl.
  - apply preserves_ret.
  - repeat first [ apply IH | preserves_step ]; auto.
Qed.

Lemma preserves_cleanup_files Q file_paths :
  (∀ l msg w, Q w → Q (add_log l msg w)) →
  (∀ op w, Q w → Q (add_trace op w)) →
  (∀ path w, Q w → Q (set_fs (delete path) w)) →
  preserves Q (_cleanup_files file_paths).
Proof.
  intros Qlog Qtrace Qdel. induction file_paths as [|p rest IH]; simpl.
  - apply preserves_ret.
  - apply preserves_bind; [|intros _; apply IH].
    repeat preserves_step; auto.
Qed.

(** ** Computations that never raise *)

Lemma total_ret {A} (a : A) : total (ret a).
Proof. intros h w. by exists a. Qed.

Lemma total_logger l msg : total (logger l msg).
Proof. intros h w. by exists tt. Qed.

Lemma total_bind {A B} (m : io A) (k : A → io B) :
  total m → (∀ a, total (k a)) → total (m ≫= k).
Proof.
  intros Hm Hk h w. rewrite run_bind. destruct (Hm h w) as [a Ha].
  destruct (m h w) as [[a'|e] w1]; simpl in Ha; [|done]. apply Hk.
Qed.

Lemma total_try_except {A} (body : io A) handler :
  (∀ e, total (handler e)) → total (try_except body handler).
Proof.
  intros Hh h w. unfold try_except.
  destruct (body h w) as [[a|e] w1]; [by exists a|apply Hh].
Qed.

Lemma total_try_finally {A} (body : io A) fin :
  total body → total fin → total (try_finally body fin).
Proof.
  intros Hb Hf h w. unfold try_finally. destruct (Hb h w) as [a Ha].
  destruct (body h w) as [r w1]. simpl in Ha. subst r.
  destruct (Hf h w1) as [[] Hu]. destruct (fin h w1) as [[[]|e] w2]; simpl in Hu; [|done].
  by exists a.
Qed.

Lemma total_try_except_finally {A B} (first : io A) (rest : A → io B) handler fin :
  (∀ e, total (handler e)) → (∀ o, total (fin o)) →
  total (try_except_finally first rest handler fin).
Proof.
  intros Hh Hf h w. unfold try_except_finally.
  destruct (first h w) as [[x|e] w1].
  - apply total_try_finally; [apply total_try_except; auto|apply Hf].
  - apply total_try_finally; [apply Hh|apply Hf].
Qed.

(** ** What is returned *)

Lemma yields_ret {A} (P : A → Prop) a : P a → yields P (ret a).
Proof. intros HP h w a' [= <-]. done. Qed.

Lemma yields_raise {A} (P : A → Prop) e : yields P (raise e).
Proof. intros h w a. done. Qed.

Lemma yields_bind {A B} (P : B → Prop) (m : io A) (k : A → io B) :
  (∀ a, yields P (k a)) → yields P (m ≫= k).
Proof.
  intros Hk h w b. rewrite run_bind.
  destruct (m h w) as [[a|e] w1]; [apply Hk|done].
Qed.

Lemma yields_try_except {A} (P : A → Prop) (body : io A) handler :
  yields P body → (∀ e, yields P (handler e)) → yields P (try_except body handler).
Proof.
  intros Hb Hh h w a. unfold try_except. specialize (Hb h w).
  destruct (body h w) as [[a'|e] w1]; [apply Hb|apply Hh].
Qed.

Lemma yields_try_finally {A} (P : A → Prop) (body : io A) fin :
  yields P body → yields P (try_finally body fin).
Proof.
  intros Hb h w a. unfold try_finally. specialize (Hb h w).
  destruct (body h w) as [r w1]. destruct (fin h w1) as [[[]|e] w2]; [apply Hb|done].
Qed.

Lemma yields_try_except_finally {A B} (P : B → Prop) (first : io A) (rest : A → io B)
    handler fin :
  (∀ x, yields P (rest x)) → (∀ e, yields P (handler e)) →
  yields P (try_except_finally first rest handler fin).
Proof.
  intros Hr Hh h w b. unfold try_except_finally.
  destruct (first h w) as [[x|e] w1].
  - apply yields_try_finally, yields_try_except; auto.
  - apply yields_try_finally, Hh.
Qed.

(* ===================================================================== *)
(** * [transcribe_video] *)
(* ===================================================================== *)

Lemma string_app_inv_head a b c : a +:+ b = a +:+ c → b = c.
Proof. induction a as [|x a IH]; simpl; [done|]. intros [= H]. by apply IH. Qed.

Lemma string_app_nonempty a c b : a +:+ String c b ≠ "".
Proof. by destruct a. Qed.

Lemma join_nonempty a b : b ≠ "" → os_path.join a b ≠ "".
Proof.
  intros Hb. destruct b as [|c b]; [done|]. unfold os_path.join.
  destruct c as [[] [] [] [] [] [] [] []];
    try (destruct (_ || _); [apply string_app_nonempty|
         rewrite <- string_app_assoc; apply string_app_nonempty]);
    done.
Qed.

Lemma join_extension_ne a s : os_path.join a (s +:+ ".srt") ≠ os_path.join a (s +:+ ".wav").
Proof.
  unfold os_path.join. destruct s as [|c s].
  - simpl. destruct (_ || _); intros H; apply string_app_inv_head in H; discriminate.
  - rewrite !string_app_cons.
    destruct c as [[] [] [] [] [] [] [] []];
      try (destruct (_ || _); intros H; repeat apply string_app_inv_head in H;
           injection H as H; apply string_app_inv_head in H; discriminate).
    intros H. injection H as H. apply string_app_inv_head in H. discriminate.
Qed.

Lemma audio_path_nonempty self video_path : audio_path_of self video_path ≠ "".
Proof.
  unfold audio_path_of. apply join_nonempty.
  rewrite <- (string_app_nil_r (stem video_path)) at 1. apply string_app_nonempty.
Qed.

Lemma srt_path_nonempty self video_path : srt_path_of self video_path ≠ "".
Proof.
  unfold srt_path_of. apply join_nonempty.
  rewrite <- (string_app_nil_r (stem video_path)) at 1. apply string_app_nonempty.
Qed.

Lemma srt_path_not_audio_path self video_path :
  srt_path_of self video_path ≠ audio_path_of self video_path.
Proof. apply join_extension_ne. Qed.

(** The [finally] block of [transcribe_video], once [audio_path] is set. *)
Definition audio_cleanup (audio_path : string) : io unit :=
  present ← exists_ audio_path;
  if truthy audio_path && present then
    try_except
      (remove audio_path;;
       logger INFO "Cleaned up temporary audio file")
      (fun e => logger ERROR ("Error cleaning up audio file: " +:+ str_exn e))
  else ret tt.

(** The [try] block up to the assignment of [audio_path]. *)
Definition open_video (video_path : string) : io (option string) :=
  present ← exists_ video_path;
  (if present : bool then ret tt else raise (FileNotFoundError video_path));;
  logger INFO "Extracting audio...";;
  video ← decode video_path;
  match video with
  | Unreadable => raise (RuntimeError (OpDecode video_path))
  | NoAudio => ret None
  | Audio wav => ret (Some wav)
  end.

(** The rest of the [try] block. *)
Definition extract_and_recognize (self : VideoProcessor) (video_path language_code : string)
    (audio : option string) : io (option string) :=
  let audio_path := audio_path_of self video_path in
  match audio with
  | None => raise AttributeError
  | Some wav => with_open audio_path (write audio_path wav)
  end;;
  match model self with
  | None =>
      logger ERROR "WhisperX model not available";;
      ret None
  | Some transcribe =>
      audio_data ← prepare_audio audio_path;
      logger INFO "Starting transcription...";;
      recognize self transcribe audio_data video_path language_code
  end.

Lemma transcribe_video_unfold self video_path language_code :
  transcribe_video self video_path language_code =
    try_except_finally (open_video video_path)
      (extract_and_recognize self video_path language_code)
      (fun e =>
         logger ERROR ("Error in transcribe_video: " +:+ str_exn e);;
         ret None)
      (fun assigned =>
         match assigned with
         | None => ret tt
         | Some _ => audio_cleanup (audio_path_of self video_path)
         end).
Proof. reflexivity. Qed.

Lemma audio_cleanup_run audio_path h w :
  ∃ w', audio_cleanup audio_path h w = (Ok tt, w') ∧ drive w' = drive w ∧
        (∀ q, q ≠ audio_path → fs w' !! q = fs w !! q) ∧
        (audio_path ≠ "" → io_fails h (OpRemove audio_path) = false →
         fs w' !! audio_path = None).
Proof.
  unfold audio_cleanup. rewrite run_bind. unfold exists_ at 1.
  destruct (bool_decide (is_Some (fs w !! audio_path))) eqn:Hp.
  - destruct (truthy audio_path) eqn:Ht; cbn [andb].
    + unfold try_except, remove.
      cbv [mbind io_bind get_world external logger modify ret mret io_ret raise].
      destruct (io_fails h (OpRemove audio_path)) eqn:Hfail.
      * eexists. split; [reflexivity|]. simpl. split_and!; [done..|]. congruence.
      * rewrite Hp. eexists. split; [reflexivity|]. simpl. split_and!; [done| |].
        -- intros q Hq. by apply lookup_delete_ne.
        -- intros _ _. apply lookup_delete_eq.
    + exists w. split_and!; [done..|]. intros Hne. by rewrite truthy_nonempty in Ht.
  - rewrite andb_false_r. exists w. split_and!; [done..|].
    intros _ _. apply bool_decide_eq_false in Hp. by apply eq_None_not_Some.
Qed.

Lemma yields_recognize self transcribe audio_data video_path language_code :
  yields (λ r, r = None ∨ r = Some (srt_path_of self video_path))
    (recognize self transcribe audio_data video_path language_code).
Proof.
  intros h w r. rewrite recognize_unfold. cbv zeta.
  destruct (transcribe audio_data language_code) as [[|[[|s rest]|]]|e]; simpl;
    try (intros [= <-]; by left).
  destruct (_write_srt _ _ _ _) as [[[]|] ?]; simpl; intros [= <-]; auto.
Qed.

Lemma write_srt_true_exists segments path h w w' :
  _write_srt segments path h w = (Ok true, w') → is_Some (fs w' !! path).
Proof.
  rewrite write_srt_unfold. unfold write_srt_body.
  destruct segments as [|s rest]; [done|].
  remember (s :: rest) as segments. clear Heqsegments.
  rewrite run_bind. unfold with_open, open_w. rewrite !run_bind.
  unfold external at 1. destruct (io_fails h (OpOpen path)); [done|].
  unfold modify at 1.
  set (w1 := set_fs (insert path "") (add_trace (OpOpen path) w)).
  assert (H1 : is_Some (fs w1 !! path)) by (subst w1; simpl; by rewrite lookup_insert_eq).
  pose proof (preserves_try_finally (λ w, is_Some (fs w !! path))
                (write_entries path 1 segments) (close path)) as Hp.
  assert (Htr : ∀ op w0, is_Some (fs w0 !! path) → is_Some (fs (add_trace op w0) !! path))
    by (intros op w0 Hw0; exact Hw0).
  assert (Halt : ∀ data w0, is_Some (fs w0 !! path) →
                 is_Some (fs (set_fs (alter (λ old, old +:+ data) path) w0) !! path))
    by (intros data w0 Hw0; simpl; by apply lookup_alter_is_Some).
  specialize (Hp (preserves_write_entries _ path segments Htr Halt 1%N)).
  specialize (Hp (preserves_external _ Htr _ _) h w1 H1).
  destruct (try_finally _ _ h w1) as [[[]|e] w2]; simpl in *; [|done].
  by intros [= <-].
Qed.

Lemma recognize_path_exists self transcribe audio_data video_path language_code h w w' :
  recognize self transcribe audio_data video_path language_code h w
    = (Ok (Some (srt_path_of self video_path)), w') →
  is_Some (fs w' !! srt_path_of self video_path).
Proof.
  rewrite recognize_unfold. cbv zeta.
  destruct (transcribe audio_data language_code) as [[|[[|s rest]|]]|e]; simpl; try done.
  match goal with |- context [_write_srt ?segs ?p h ?w1] =>
    pose proof (write_srt_true_exists segs p h w1) as Hex;
    destruct (_write_srt segs p h w1) as [[[]|] w2] end; simpl in *; try done.
  intros [= <-]. simpl. by apply Hex.
Qed.

Lemma transcribe_video_keeps_drive self video_path language_code h w :
  drive (snd (transcribe_video self video_path language_code h w)) = drive w.
Proof.
  assert (preserves (λ w', drive w' = drive w)
            (transcribe_video self video_path language_code)) as H;
    [|by apply H].
  repeat first [ apply preserves_write_entries; intros | preserves_step ]; done.
Qed.

Lemma yields_extract_and_recognize self video_path language_code audio :
  yields (λ r, r = None ∨ r = Some (srt_path_of self video_path))
    (extract_and_recognize self video_path language_code audio).
Proof.
  unfold extract_and_recognize. apply yields_bind. intros _.
  destruct (model self) as [transcribe|].
  - apply yields_bind. intros audio_data. apply yields_bind. intros _.
    apply yields_recognize.
  - apply yields_bind. intros _. apply yields_ret. by left.
Qed.

Lemma extract_path_exists self video_path language_code audio h w w' :
  extract_and_recognize self video_path language_code audio h w
    = (Ok (Some (srt_path_of self video_path)), w') →
  is_Some (fs w' !! srt_path_of self video_path).
Proof.
  unfold extract_and_recognize. rewrite run_bind.
  match goal with |- context [match ?x with _ => _ end] =>
    destruct x as [[[]|e] w1] end; [|done].
  destruct (model self) as [transcribe|]; [|done].
  rewrite run_bind. destruct (prepare_audio _ h w1) as [[audio_data|e] w2]; [|done].
  rewrite run_bind. unfold logger at 1, modify at 1.
  apply recognize_path_exists.
Qed.

(** [transcribe_video] never raises, makes only local calls and leaves the
    drive alone. It returns [None] or the path of the subtitle file in the
    cache directory, and when it returns the path the file is there. When
    there is no file at [video_path] it returns [None] without calling the
    decoder or the model and without touching the disk. *)
Theorem transcribe_video_returns_a_written_file
    (self : VideoProcessor) (video_path language_code : string) (h : host) (w : world) :
  let run := transcribe_video self video_path language_code in
  let srt_path := srt_path_of self video_path in
  (fst (run h w) = Ok None ∨
   fst (run h w) = Ok (Some srt_path) ∧ is_Some (fs (snd (run h w)) !! srt_path)) ∧
  drive (snd (run h w)) = drive w ∧
  Forall (λ op, is_local op = true) (calls run h w) ∧
  (fs w !! video_path = None →
   fst (run h w) = Ok None ∧ calls run h w = [] ∧ fs (snd (run h w)) = fs w).
Proof.
  simpl. split_and!.
  - destruct (transcribe_video self video_path language_code h w) as [r wf] eqn:Hrun.
    rewrite transcribe_video_unfold in Hrun. unfold try_except_finally in Hrun.
    destruct (open_video video_path h w) as [[audio|e] w1].
    + unfold try_finally, try_except in Hrun.
      pose proof (yields_extract_and_recognize self video_path language_code audio h w1) as Hy.
      pose proof (extract_path_exists self video_path language_code audio h w1) as Hex.
      destruct (extract_and_recognize self video_path language_code audio h w1)
        as [[r'|e] w2].
      * destruct (audio_cleanup_run (audio_path_of self video_path) h w2)
          as (w3 & Hc & _ & Hframe & _).
        rewrite Hc in Hrun. injection Hrun as <- <-. simpl.
        destruct (Hy r' eq_refl) as [-> | ->]; [by left|right].
        split; [done|]. rewrite Hframe by apply srt_path_not_audio_path.
        by apply Hex.
      * cbv [mbind io_bind logger modify ret mret io_ret] in Hrun.
        match type of Hrun with context [audio_cleanup ?p h ?ww] =>
          destruct (audio_cleanup_run p h ww) as (w3 & Hc & _) end.
        rewrite Hc in Hrun. injection Hrun as <- <-. by left.
    + cbv [try_finally mbind io_bind logger modify ret mret io_ret] in Hrun.
      injection Hrun as <- <-. by left.
  - apply transcribe_video_keeps_drive.
  - destruct (emits_transcribe_video self video_path language_code h w)
      as (ops & es & Ht & HP & _).
    by rewrite (calls_eq _ _ _ _ Ht).
  - intros Hmissing. unfold calls.
    destruct (transcribe_video self video_path language_code h w) as [r wf] eqn:Hrun.
    rewrite transcribe_video_unfold in Hrun. unfold try_except_finally, open_video in Hrun.
    rewrite run_bind in Hrun. unfold exists_ at 1 in Hrun.
    rewrite Hmissing in Hrun.
    cbv [try_finally mbind io_bind logger modify ret mret io_ret raise] in Hrun.
    rewrite bool_decide_eq_false_2 in Hrun by (by intros [? ?]).
    injection Hrun as <- <-. simpl. split_and!; [done| |done]. apply drop_all.
Qed.

(** When the removal of the audio file does not fail, [transcribe_video]
    leaves no audio file behind: whatever happens in between (no audio
    track, no model, a failed transcription, a failed write), the file it
    extracted to the cache directory is gone when it returns. *)
Theorem transcribe_video_removes_the_audio
    (self : VideoProcessor) (video_path language_code : string) (h : host) (w : world) :
  let audio_path := audio_path_of self video_path in
  io_fails h (OpRemove audio_path) = false →
  fs w !! audio_path = None →
  fs (snd (transcribe_video self video_path language_code h w)) !! audio_path = None.
Proof.
  simpl. intros Hok Hnone.
  destruct (transcribe_video self video_path language_code h w) as [r wf] eqn:Hrun.
  rewrite transcribe_video_unfold in Hrun. unfold try_except_finally in Hrun.
  assert (H1 : preserves (λ w', fs w' !! audio_path_of self video_path = None)
                 (open_video video_path)).
  { unfold open_video. repeat preserves_step; done. }
  specialize (H1 h w Hnone).
  destruct (open_video video_path h w) as [[audio|e] w1]; simpl in H1.
  - unfold try_finally in Hrun.
    destruct (try_except _ _ h w1) as [r' w2].
    destruct (audio_cleanup_run (audio_path_of self video_path) h w2)
      as (w3 & Hc & _ & _ & Hrm).
    rewrite Hc in Hrun. injection Hrun as <- <-. simpl.
    apply Hrm; [apply audio_path_nonempty|done].
  - cbv [try_finally mbind io_bind logger modify ret mret io_ret] in Hrun.
    injection Hrun as <- <-. done.
Qed.

Lemma transcribe_video_removes_the_audio_witness :
  let w := set_fs (insert "/app/Data/Cache/talk.mp4" "mp4-bytes") fresh in
  fs (snd (transcribe_video processor "/app/Data/Cache/talk.mp4" "nl" quiet w))
    !! audio_path_of processor "/app/Data/Cache/talk.mp4" = None.
Proof.
  apply (transcribe_video_removes_the_audio processor "/app/Data/Cache/talk.mp4" "nl" quiet
           (set_fs (insert "/app/Data/Cache/talk.mp4" "mp4-bytes") fresh)).
  - reflexivity.
  - vm_compute. reflexivity.
Defined.

(* ===================================================================== *)
(** * [_download_file] *)
(* ===================================================================== *)

(** [_download_file] either stores at the destination exactly the content
    of the drive file with that id and returns, or logs an error and raises
    again what it caught; it never returns without the complete file, and
    it changes nothing on the drive. *)
Theorem download_file_stores_or_raises
    (file_id destination_path : string) (h : host) (w : world) :
  let out := _download_file file_id destination_path h w in
  drive (snd out) = drive w ∧
  match fst out with
  | Ok _ =>
      ∃ f, List.find (λ f, String.eqb (rf_id f) file_id) (drive w) = Some f ∧
           fs (snd out) = <[destination_path := rf_content f]> (fs w)
  | Raise e =>
      last (log (snd out)) = Some (ERROR, "Error downloading file: " +:+ str_exn e)
  end.
Proof.
  simpl. destruct (_download_file file_id destination_path h w) as [r wf] eqn:Hrun.
  unfold _download_file, try_except, with_open, open_w, write, close, try_finally in Hrun.
  cbv [mbind io_bind get_world external logger modify ret mret io_ret raise] in Hrun.
  simpl in Hrun.
  destruct (io_fails h (OpOpen destination_path)); simpl in Hrun;
    [injection Hrun as <- <-; split; [done|apply last_snoc]|].
  destruct (io_fails h (OpDownload file_id destination_path)); simpl in Hrun.
  { destruct (io_fails h (OpClose destination_path)); simpl in Hrun;
      injection Hrun as <- <-; (split; [done|apply last_snoc]). }
  destruct (find _ (drive w)) as [f|] eqn:Hfind; simpl in Hrun.
  - destruct (io_fails h (OpWrite destination_path (rf_content f))); simpl in Hrun;
      destruct (io_fails h (OpClose destination_path)); simpl in Hrun;
      injection Hrun as <- <-; (split; [done|]); try apply last_snoc.
    exists f. split; [done|]. simpl.
    by rewrite alter_insert_eq.
  - destruct (io_fails h (OpClose destination_path)); simpl in Hrun;
      injection Hrun as <- <-; (split; [done|apply last_snoc]).
Qed.

(* ===================================================================== *)
(** * [process_video]: what every run leaves behind *)
(* ===================================================================== *)

Lemma yields_bind_with {A B} (P' : A → Prop) (P : B → Prop) (m : io A) (k : A → io B) :
  yields P' m → (∀ a, P' a → yields P (k a)) → yields P (m ≫= k).
Proof.
  intros Hm Hk h w b. rewrite run_bind. specialize (Hm h w).
  destruct (m h w) as [[a|e] w1]; [|done]. apply Hk. by apply Hm.
Qed.

Lemma yields_transcribe_video self video_path language_code :
  yields (λ r, r = None ∨ r = Some (srt_path_of self video_path))
    (transcribe_video self video_path language_code).
Proof.
  rewrite transcribe_video_unfold. apply yields_try_except_finally.
  - intros audio. apply yields_extract_and_recognize.
  - intros e. apply yields_bind. intros _. apply yields_ret. by left.
Qed.

Lemma yields_transcribe_without_model self video_path language_code :
  model self = None →
  yields (λ r, r = None) (transcribe_video self video_path language_code).
Proof.
  intros Hm. rewrite transcribe_video_unfold. apply yields_try_except_finally.
  - intros audio. unfold extract_and_recognize. apply yields_bind. intros _.
    rewrite Hm. apply yields_bind. intros _. by apply yields_ret.
  - intros e. apply yields_bind. intros _. by apply yields_ret.
Qed.

Lemma yields_fetch self file_id file_name info (P : option string → Prop) :
  yields P (transcribe_video self (os_path.join (cache_dir self) file_name)
              (lang_code_of info)) →
  yields (λ x, P x.2) (fetch self file_id file_name info).
Proof.
  intros Ht. unfold fetch.
  assert (∀ lang_code, lang_code = lang_code_of info →
            yields (λ x, P x.2)
              (logger INFO ("Processing video (code: " +:+ lang_code +:+ ")");;
               _download_file file_id (os_path.join (cache_dir self) file_name);;
               srt_path ← transcribe_video self (os_path.join (cache_dir self) file_name)
                            lang_code;
               ret (lang_code, srt_path))) as Hrest.
  { intros lang_code ->. apply yields_bind. intros _. apply yields_bind. intros _.
    eapply yields_bind_with; [exact Ht|]. intros srt Hsrt. by apply yields_ret. }
  unfold lang_code_of in *.
  destruct (nonempty (get_code info)) as [code|]; simpl in *.
  - intros h w x. rewrite run_bind. unfold ret at 1. simpl. by apply Hrest.
  - intros h w x. rewrite !run_bind. unfold logger at 1, modify at 1.
    unfold ret at 1. simpl. by apply Hrest.
Qed.

Lemma fetch_keeps_drive self file_id file_name info h w :
  drive (snd (fetch self file_id file_name info h w)) = drive w.
Proof.
  assert (preserves (λ w', drive w' = drive w) (fetch self file_id file_name info)) as H;
    [|by apply H].
  unfold fetch.
  repeat first [ apply preserves_write_entries; intros | preserves_step ]; done.
Qed.

(** The world a [try ... except ... finally] ends in is one its [finally]
    block produced. *)
Lemma try_except_finally_ends {A B} (first : io A) (rest : A → io B) handler fin h w :
  ∃ o w1, snd (try_except_finally first rest handler fin h w) = snd (fin o h w1).
Proof.
  unfold try_except_finally, try_finally.
  destruct (first h w) as [[x|e] w1].
  - destruct (try_except (rest x) handler h w1) as [r w2]. exists (Some x), w2.
    by destruct (fin (Some x) h w2) as [[[]|?] ?].
  - destruct (handler e h w1) as [r w2]. exists None, w2.
    by destruct (fin None h w2) as [[[]|?] ?].
Qed.

(** Whatever a run of [process_video] did, and whether it succeeded or
    not, the video it downloaded is not in the cache directory afterwards,
    unless the removal itself fails. *)
Theorem process_video_removes_the_video
    (self : VideoProcessor) (file_id file_name : string) (info : language_info)
    (h : host) (w : world) :
  let video_path := os_path.join (cache_dir self) file_name in
  file_name ≠ "" →
  io_fails h (OpRemove video_path) = false →
  fs (snd (process_video self file_id file_name info h w)) !! video_path = None.
Proof.
  simpl. intros Hname Hok. rewrite process_video_unfold.
  destruct (try_except_finally_ends (fetch self file_id file_name info) (deliver self)
              (on_error file_name) (finally_cleanup self file_name) h w) as (o & w1 & ->).
  unfold finally_cleanup.
  match goal with |- context [_cleanup_files ?ps h w1] =>
    destruct (cleanup_files_run ps h w1) as (w2 & -> & _ & _ & _ & Hrm) end.
  simpl. apply Hrm; [by left|by apply join_nonempty|done].
Qed.

Lemma process_video_removes_the_video_witness :
  fs (snd (process_video processor "v1" "talk.mp4" (LangDict (Some "nl")) disk_full fresh))
    !! os_path.join (cache_dir processor) "talk.mp4" = None.
Proof.
  apply (process_video_removes_the_video processor "v1" "talk.mp4" (LangDict (Some "nl"))
           disk_full fresh).
  - discriminate.
  - reflexivity.
Defined.

(** When the variable that names the destination folder is not set, a run
    returns [False] and uploads nothing. The variable is read only after
    the video has been downloaded and transcribed. *)
Theorem process_video_needs_the_destination
    (self : VideoProcessor) (file_id file_name : string) (info : language_info)
    (h : host) (w : world) :
  let run := process_video self file_id file_name info in
  environ h !! destination_variable (lang_code_of info) = None →
  fst (run h w) = Ok false ∧ existsb is_upload (calls run h w) = false.
Proof.
  simpl. intros Hunset.
  destruct (process_video_run self file_id file_name info h w) as [_ Hshape].
  simpl in Hshape.
  destruct Hshape as [[Hlocal Hr]|[(ops1 & src & dst & ops3 & Hc & H1 & H3 & Hr & _)
                                  |(ops1 & src & dst & ops2 & ops3 & Hc & _ & H1 & H3 & H2)]].
  - split; [done|]. by apply local_not_upload.
  - split; [done|]. rewrite Hc, existsb_app. simpl. by rewrite !local_not_upload.
  - destruct H2 as [[-> Hr]|(folder_id & _ & Hf)]; [|congruence].
    split; [done|]. rewrite Hc, existsb_app. simpl. by rewrite !local_not_upload.
Qed.

Lemma process_video_needs_the_destination_witness :
  let h := Host ∅ (decoder quiet) (io_fails quiet) in
  let run := process_video processor "v1" "talk.mp4" (LangDict (Some "nl")) in
  fst (run h fresh) = Ok false ∧ existsb is_upload (calls run h fresh) = false.
Proof.
  apply (process_video_needs_the_destination processor "v1" "talk.mp4" (LangDict (Some "nl"))
           (Host ∅ (decoder quiet) (io_fails quiet)) fresh).
  reflexivity.
Defined.

(** A processor whose model could not be loaded fails every video: the run
    returns [False], uploads nothing and leaves the drive as it was. *)
Theorem process_video_without_model
    (self : VideoProcessor) (file_id file_name : string) (info : language_info)
    (h : host) (w : world) :
  let run := process_video self file_id file_name info in
  model self = None →
  fst (run h w) = Ok false ∧
  Forall (λ op, is_local op = true) (calls run h w) ∧
  drive (snd (run h w)) = drive w.
Proof.
  simpl. intros Hmodel. unfold calls.
  destruct (process_video self file_id file_name info h w) as [r wf] eqn:Hrun. simpl.
  rewrite process_video_unfold in Hrun. unfold try_except_finally in Hrun.
  destruct (emits_fetch self file_id file_name info h w) as (ops1 & es1 & Ht1 & HP1 & _).
  pose proof (fetch_keeps_drive self file_id file_name info h w) as Hd1.
  pose proof (yields_fetch self file_id file_name info (λ r, r = None)
                (yields_transcribe_without_model _ _ _ Hmodel) h w) as Hy.
  assert (Hfin : ∀ a ww, ∃ w3 ops3,
             finally_cleanup self file_name a h ww = (Ok tt, w3) ∧
             trace w3 = (trace ww ++ ops3)%list ∧
             Forall (λ op, is_local op = true) ops3 ∧ drive w3 = drive ww).
  { intros a ww.
    destruct (emits_finally_cleanup self file_name a h ww) as (ops3 & es3 & Ht3 & HP3 & _).
    unfold finally_cleanup in *.
    match goal with |- context [_cleanup_files ?ps h ww] =>
      destruct (cleanup_files_run ps h ww) as (w3 & Hc & Hd3 & _) end.
    rewrite Hc in Ht3 |- *. exists w3, ops3. done. }
  destruct (fetch self file_id file_name info h w) as [[[lang_code srt_path]|e] w1];
    simpl in Ht1, Hd1; unfold try_finally, try_except in Hrun.
  - specialize (Hy _ eq_refl). simpl in Hy. subst srt_path.
    unfold deliver, on_error, raise in Hrun. simpl in Hrun.
    cbv [mbind io_bind logger modify ret mret io_ret] in Hrun.
    match type of Hrun with context [finally_cleanup ?s ?f ?a h ?ww] =>
      destruct (Hfin a ww) as (w3 & ops3 & Hc & Ht3 & HP3 & Hd3) end.
    rewrite Hc in Hrun. injection Hrun as <- <-. simpl in *.
    rewrite Ht3, Ht1, <- app_assoc, drop_app_length.
    split_and!; [done|by apply Forall_app|congruence].
  - unfold on_error in Hrun.
    cbv [mbind io_bind logger modify ret mret io_ret] in Hrun.
    match type of Hrun with context [finally_cleanup ?s ?f ?a h ?ww] =>
      destruct (Hfin a ww) as (w3 & ops3 & Hc & Ht3 & HP3 & Hd3) end.
    rewrite Hc in Hrun. injection Hrun as <- <-. simpl in *.
    rewrite Ht3, Ht1, <- app_assoc, drop_app_length.
    split_and!; [done|by apply Forall_app|congruence].
Qed.

Lemma process_video_without_model_witness :
  let self := Build_VideoProcessor "/app/Data/Cache" "/app/Data/Output" None in
  let run := process_video self "v1" "talk.mp4" (LangDict (Some "nl")) in
  fst (run quiet fresh) = Ok false ∧
  Forall (λ op, is_local op = true) (calls run quiet fresh) ∧
  drive (snd (run quiet fresh)) = drive fresh.
Proof.
  apply (process_video_without_model
           (Build_VideoProcessor "/app/Data/Cache" "/app/Data/Output" None)
           "v1" "talk.mp4" (LangDict (Some "nl")) quiet fresh).
  reflexivity.
Defined.

(** What a successful upload step does: the disk is as it was and the
    drive has one more file, the subtitle file under its base name in the
    folder the variable names. *)
Lemma route_effect lang_code srt_path h w w' :
  route lang_code srt_path h w = (Ok tt, w') →
  fs w' = fs w ∧
  ∃ folder_id content,
    environ h !! destination_variable lang_code = Some folder_id ∧
    fs w !! srt_path = Some content ∧
    drive w' = (drive w ++ [RemoteFile ("upload-" +:+ str_of_N (N.of_nat (List.length (drive w))))
                              (os_path.basename srt_path) folder_id false content])%list.
Proof.
  unfold route, destination_variable.
  destruct (String.eqb (lower lang_code) "nl");
    rewrite run_getenv_bind;
    (destruct (nonempty (environ h !! _)) as [folder_id|] eqn:E;
     [apply nonempty_Some in E|done]);
    unfold _upload_srt, try_except;
    cbv [mbind io_bind get_world external logger modify ret mret io_ret raise];
    (destruct (fs w !! srt_path) as [content|] eqn:Hc; [|done]);
    (destruct (io_fails h (OpUpload srt_path folder_id)); [done|]);
    intros [= <-]; simpl; (split; [done|]); exists folder_id, content; done.
Qed.

(** A run that returns [True] has made a round trip: the text it wrote is
    in the archive directory and on the drive, in the folder chosen from
    the language code and under the base name of the subtitle file; and
    the cache directory holds neither the video nor the subtitle file any
    more (the archive directory is not the cache directory, and the two
    removals do not fail). *)
Theorem process_video_success_round_trip
    (self : VideoProcessor) (file_id file_name : string) (info : language_info)
    (h : host) (w : world) :
  let run := process_video self file_id file_name info in
  let video_path := os_path.join (cache_dir self) file_name in
  let srt_path := srt_path_of self video_path in
  let archive := os_path.join (output_dir self) (os_path.basename srt_path) in
  fst (run h w) = Ok true →
  file_name ≠ "" →
  archive ≠ video_path → archive ≠ srt_path →
  io_fails h (OpRemove video_path) = false →
  io_fails h (OpRemove srt_path) = false →
  ∃ content folder_id id,
    environ h !! destination_variable (lang_code_of info) = Some folder_id ∧
    fs (snd (run h w)) !! archive = Some content ∧
    drive (snd (run h w))
      = (drive w ++ [RemoteFile id (os_path.basename srt_path) folder_id false content])%list ∧
    fs (snd (run h w)) !! video_path = None ∧
    fs (snd (run h w)) !! srt_path = None.
Proof.
  simpl. intros Htrue Hname Hav Has Hrmv Hrms.
  destruct (process_video self file_id file_name info h w) as [r wf] eqn:Hrun.
  simpl in Htrue. subst r.
  rewrite process_video_unfold in Hrun. unfold try_except_finally in Hrun.
  pose proof (fetch_keeps_drive self file_id file_name info h w) as Hd1.
  pose proof (fetch_lang_code self file_id file_name info h w) as Hlang.
  pose proof (yields_fetch self file_id file_name info _
                (yields_transcribe_video _ _ _) h w) as Hy.
  destruct (fetch self file_id file_name info h w) as [[[lang_code srt_path]|e] w1];
    simpl in Hd1, Hlang; unfold try_finally, try_except in Hrun.
  2:{ unfold on_error in Hrun. cbv [mbind io_bind logger modify ret mret io_ret] in Hrun.
      match type of Hrun with context [finally_cleanup ?s ?f ?a h ?ww] =>
        unfold finally_cleanup in Hrun end.
      match type of Hrun with context [_cleanup_files ?ps h ?ww] =>
        destruct (cleanup_files_run ps h ww) as (w3 & Hc & _) end.
      rewrite Hc in Hrun. discriminate. }
  specialize (Hlang _ _ eq_refl). subst lang_code.
  specialize (Hy _ eq_refl). simpl in Hy.
  unfold deliver in Hrun.
  destruct (nonempty srt_path) as [p|] eqn:Hp.
  2:{ unfold on_error, raise in Hrun. cbv [mbind io_bind logger modify ret mret io_ret] in Hrun.
      unfold finally_cleanup in Hrun.
      match type of Hrun with context [_cleanup_files ?ps h ?ww] =>
        destruct (cleanup_files_run ps h ww) as (w3 & Hc & _) end.
      rewrite Hc in Hrun. discriminate. }
  apply nonempty_Some in Hp. subst srt_path.
  destruct Hy as [Hy|Hy]; [done|]. injection Hy as ->.
  set (video_path := os_path.join (cache_dir self) file_name) in *.
  set (srt := srt_path_of self video_path) in *.
  set (archive := os_path.join (output_dir self) (os_path.basename srt)) in *.
  rewrite run_bind, copy2_run in Hrun. cbv zeta in Hrun.
  assert (Hfail : ∀ (e : exn) ww,
            (let (r, w'') := finally_cleanup self file_name (Some (lang_code_of info, Some srt)) h
                               (add_log ERROR ("Error processing video " +:+ file_name +:+ ": "
                                               +:+ str_exn e) ww) in
             match r with
             | Ok _ => (Ok false, w'')
             | Raise e0 => (Raise e0, w'')
             end) ≠ (Ok true, wf)).
  { intros e ww. unfold finally_cleanup.
    match goal with |- context [_cleanup_files ?ps h ?w0] =>
      destruct (cleanup_files_run ps h w0) as (w3 & Hc & _) end.
    rewrite Hc. discriminate. }
  destruct (io_fails h (OpCopy srt archive)).
  { exfalso. eapply Hfail. exact Hrun. }
  destruct (fs w1 !! srt) as [content|] eqn:Hcontent.
  2:{ exfalso. eapply Hfail. exact Hrun. }
  rewrite run_bind in Hrun. unfold logger at 1, modify at 1 in Hrun.
  rewrite run_bind in Hrun.
  match type of Hrun with context [route ?l ?s h ?ww] =>
    pose proof (route_effect l s h ww) as Hroute;
    destruct (route l s h ww) as [[[]|e] w3] end.
  2:{ exfalso. eapply Hfail. exact Hrun. }
  destruct (Hroute w3 eq_refl) as (Hfs3 & folder_id & content' & Henv & Hcontent' & Hd3).
  simpl in Hfs3, Hcontent', Hd3.
  rewrite lookup_insert_ne in Hcontent' by done.
  assert (content' = content) as -> by congruence.
  unfold ret at 1 in Hrun. unfold finally_cleanup in Hrun.
  cbv [mret io_ret] in Hrun.
  change (os_path.join (cache_dir self) file_name) with video_path in Hrun.
  destruct (cleanup_files_run [Some video_path; Some srt] h w3)
    as (w4 & Hc & Hd4 & _ & Hframe & Hrm).
  rewrite Hc in Hrun. injection Hrun as <-.
  eexists content, folder_id, _. simpl. split_and!.
  - exact Henv.
  - rewrite Hframe, Hfs3.
    + apply lookup_insert_eq.
    + intros Hin. apply elem_of_cons in Hin as [[= ?]|Hin]; [done|].
      apply elem_of_cons in Hin as [[= ?]|Hin]; [done|]. by apply elem_of_nil in Hin.
  - rewrite Hd4, Hd3, Hd1. reflexivity.
  - apply Hrm; [by left|by apply join_nonempty|done].
  - apply Hrm; [by right; left|apply srt_path_nonempty|done].
Qed.

Lemma process_video_success_round_trip_witness :
  let run := process_video processor "v1" "talk.mp4" (LangDict (Some "nl")) in
  let video_path := os_path.join (cache_dir processor) "talk.mp4" in
  let srt_path := srt_path_of processor video_path in
  let archive := os_path.join (output_dir processor) (os_path.basename srt_path) in
  ∃ content folder_id id,
    environ quiet !! destination_variable (lang_code_of (LangDict (Some "nl"))) = Some folder_id ∧
    fs (snd (run quiet fresh)) !! archive = Some content ∧
    drive (snd (run quiet fresh))
      = (drive fresh ++ [RemoteFile id (os_path.basename srt_path) folder_id false content])%list ∧
    fs (snd (run quiet fresh)) !! video_path = None ∧
    fs (snd (run quiet fresh)) !! srt_path = None.
Proof.
  apply (process_video_success_round_trip processor "v1" "talk.mp4" (LangDict (Some "nl"))
           quiet fresh).
  - vm_compute. reflexivity.
  - discriminate.
  - vm_compute. discriminate.
  - vm_compute. discriminate.
  - reflexivity.
  - reflexivity.
Defined.

(** At no point does a run of [process_video] ask the drive what a folder
    holds, on any host and from any world: the existence check of
    [check_existing_translation] is not part of a run. *)
Theorem process_video_asks_for_no_listing
    (self : VideoProcessor) (file_id file_name : string) (info : language_info)
    (h : host) (w : world) :
  Forall (λ op, is_listing op = false)
         (calls (process_video self file_id file_name info) h w).
Proof.
  destruct (process_video_never_lists self file_id file_name info h w)
    as (ops & entries & Htrace & Hops & _).
  by rewrite (calls_eq _ _ _ _ Htrace).
Qed.

(* ===================================================================== *)
(** * Routing *)
(* ===================================================================== *)

(** The destinations the rule gives. *)
Example spec_destination_examples :
  spec_destination (LangDict (Some "nl")) = FinalOutput ∧
  spec_destination (LangDict (Some "NL")) = FinalOutput ∧
  spec_destination (LangDict (Some "Nl")) = FinalOutput ∧
  spec_destination (LangDict (Some "de")) = TranslationIntake ∧
  spec_destination (LangDict (Some "nld")) = TranslationIntake ∧
  spec_destination (LangDict (Some "")) = TranslationIntake ∧
  spec_destination (LangDict None) = TranslationIntake ∧
  spec_destination NotDict = TranslationIntake.
Proof. repeat split. Qed.

(** ** The code against the rule *)

Lemma lower_char_n c : Ascii.eqb (lower_char c) "n" = Ascii.eqb c "n" || Ascii.eqb c "N".
Proof. by destruct c as [[] [] [] [] [] [] [] []]. Qed.

Lemma lower_char_l c : Ascii.eqb (lower_char c) "l" = Ascii.eqb c "l" || Ascii.eqb c "L".
Proof. by destruct c as [[] [] [] [] [] [] [] []]. Qed.

Lemma lower_is_nl code : String.eqb (lower code) "nl" = spec_is_target_language code.
Proof.
  unfold spec_is_target_language.
  destruct code as [|c1 [|c2 [|c3 rest]]]; cbn [lower String.eqb existsb].
  - done.
  - rewrite lower_char_n. destruct (Ascii.eqb c1 "n"), (Ascii.eqb c1 "N"); done.
  - rewrite lower_char_n, lower_char_l.
    destruct (Ascii.eqb c1 "n") eqn:E1, (Ascii.eqb c1 "N") eqn:E2,
             (Ascii.eqb c2 "l") eqn:E3, (Ascii.eqb c2 "L") eqn:E4; cbn;
      try apply Ascii.eqb_eq in E1; try apply Ascii.eqb_eq in E2;
      try apply Ascii.eqb_eq in E3; try apply Ascii.eqb_eq in E4; subst; try done.
  - rewrite lower_char_n, lower_char_l.
    destruct (Ascii.eqb c1 "n"), (Ascii.eqb c1 "N"), (Ascii.eqb c2 "l"), (Ascii.eqb c2 "L");
      cbn; by rewrite ?andb_false_r.
Qed.

Lemma lang_code_is_spec_code info : lang_code_of info = spec_code info.
Proof. by destruct info as [|[[|c rest]|]]. Qed.

Lemma destination_is_spec_destination h info :
  environ h !! destination_variable (lang_code_of info) = folder_of h (spec_destination info).
Proof.
  unfold destination_variable, spec_destination.
  rewrite lower_is_nl, lang_code_is_spec_code.
  by destruct (spec_is_target_language (spec_code info)).
Qed.

(** ** Runs on which nothing fails *)

(** The download, when no call fails and the drive has the file. *)
Lemma download_file_ok file_id path f h w :
  (∀ op, io_fails h op = false) →
  List.find (λ f, String.eqb (rf_id f) file_id) (drive w) = Some f →
  ∃ w', _download_file file_id path h w = (Ok tt, w') ∧
        fs w' = <[path := rf_content f]> (fs w) ∧ drive w' = drive w.
Proof.
  intros Hok Hfind. unfold _download_file, try_except, with_open, open_w.
  rewrite !run_bind, external_ok by done. unfold modify at 1.
  unfold try_finally. rewrite run_bind, external_ok by done.
  rewrite run_bind. unfold get_world at 1. cbn [drive set_fs add_trace].
  rewrite Hfind, write_run by done. unfold close. rewrite external_ok by done.
  unfold logger, modify. eexists. split; [reflexivity|]. cbn.
  split; [|done]. by rewrite alter_insert_eq.
Qed.

(** The audio file, when no call fails. *)
Lemma write_audio_ok audio_path wav h w :
  (∀ op, io_fails h op = false) →
  ∃ w', with_open audio_path (write audio_path wav) h w = (Ok tt, w') ∧
        fs w' = <[audio_path := wav]> (fs w) ∧ drive w' = drive w.
Proof.
  intros Hok. unfold with_open, open_w.
  rewrite !run_bind, external_ok by done. unfold modify at 1.
  unfold try_finally. rewrite write_run by done. unfold close.
  rewrite external_ok by done. eexists. split; [reflexivity|]. cbn.
  split; [|done]. by rewrite alter_insert_eq.
Qed.

(** [transcribe_video], when no call fails, the video decodes to audio
    and the model returns segments whose times can be formatted: the
    subtitle file is written and its path returned. *)
Lemma transcribe_video_ok self video_path language_code content wav transcribe segments h w :
  (∀ op, io_fails h op = false) →
  fs w !! video_path = Some content →
  decoder h content = Audio wav →
  model self = Some transcribe →
  transcribe wav language_code = Ok (Dict (Some segments)) →
  segments ≠ [] →
  forallb formats segments = true →
  ∃ w', transcribe_video self video_path language_code h w
          = (Ok (Some (srt_path_of self video_path)), w') ∧
        fs w' !! srt_path_of self video_path = Some (concat_entries (emitted 1 segments)) ∧
        drive w' = drive w.
Proof.
  intros Hok Hvideo Hdecode Hmodel Htranscribe Hne Hformats.
  rewrite transcribe_video_unfold. unfold try_except_finally.
  unfold open_video. rewrite run_bind. unfold exists_ at 1.
  rewrite bool_decide_eq_true_2 by (by eexists).
  rewrite run_bind. unfold ret at 1. cbn [mret io_ret].
  rewrite run_bind. unfold logger at 1, modify at 1.
  rewrite run_bind. unfold decode at 1. rewrite Hok. cbn [fs add_log].
  rewrite Hvideo. change (default "" (Some content)) with content. rewrite Hdecode.
  unfold ret at 1. cbn [mret io_ret].
  unfold try_finally, try_except, extract_and_recognize.
  rewrite run_bind.
  match goal with |- context [with_open ?p (write ?p wav) h ?w0] =>
    destruct (write_audio_ok p wav h w0 Hok) as (w1 & -> & Hfs1 & Hd1) end.
  rewrite Hmodel. unfold prepare_audio.
  rewrite !run_bind. unfold logger at 1, modify at 1.
  rewrite run_bind, external_ok by done. rewrite run_bind. unfold get_world at 1.
  cbn [fs add_trace add_log].
  rewrite Hfs1, lookup_insert_eq. unfold ret at 1. cbn [mret io_ret].
  rewrite run_bind. unfold logger at 1, modify at 1.
  rewrite recognize_unfold. cbv zeta. rewrite Htranscribe.
  destruct segments as [|s rest]; [done|].
  match goal with |- context [_write_srt ?segs ?p h ?w0] =>
    destruct (write_srt_ok h segs p w0) as (w2 & -> & Hfs2 & Hd2 & _);
      [done|by split_and!|done|] end.
  match goal with |- context [audio_cleanup ?p h ?w0] =>
    destruct (audio_cleanup_run p h w0) as (w3 & -> & Hd3 & Hfs3 & _) end.
  exists w3. split; [done|]. split.
  - rewrite Hfs3 by apply srt_path_not_audio_path. cbn [fs add_log].
    rewrite Hfs2. apply lookup_insert_eq.
  - rewrite Hd3. cbn [drive add_log]. rewrite Hd2. cbn [drive add_log add_trace]. done.
Qed.

(** The upload step, when no call fails and the folder is configured. *)
Lemma route_ok lang_code srt_path folder_id content h w :
  (∀ op, io_fails h op = false) →
  environ h !! destination_variable lang_code = Some folder_id →
  folder_id ≠ "" →
  fs w !! srt_path = Some content →
  ∃ w', route lang_code srt_path h w = (Ok tt, w').
Proof.
  intros Hok Henv Hfolder Hfile. unfold route, destination_variable in *.
  destruct (String.eqb (lower lang_code) "nl");
    rewrite run_getenv_bind, Henv; cbn [nonempty];
    rewrite truthy_nonempty by done;
    unfold _upload_srt, try_except;
    rewrite !run_bind; unfold get_world at 1; rewrite Hfile;
    rewrite !run_bind, external_ok by done;
    by eexists.
Qed.

(** A run of [process_video] returns [True] when no call fails, the drive
    has the video, the decoder finds audio in it, the model returns
    segments whose times can be formatted, and the folder of the
    destination is configured. *)
Lemma process_video_ok self file_id file_name info f wav transcribe segments folder_id h w :
  (∀ op, io_fails h op = false) →
  List.find (λ f, String.eqb (rf_id f) file_id) (drive w) = Some f →
  decoder h (rf_content f) = Audio wav →
  model self = Some transcribe →
  transcribe wav (lang_code_of info) = Ok (Dict (Some segments)) →
  segments ≠ [] →
  forallb formats segments = true →
  environ h !! destination_variable (lang_code_of info) = Some folder_id →
  folder_id ≠ "" →
  fst (process_video self file_id file_name info h w) = Ok true.
Proof.
  intros Hok Hfind Hdecode Hmodel Htranscribe Hne Hformats Henv Hfolder.
  rewrite process_video_unfold. unfold try_except_finally.
  set (video_path := os_path.join (cache_dir self) file_name).
  assert (∃ w1, fetch self file_id file_name info h w
                  = (Ok (lang_code_of info, Some (srt_path_of self video_path)), w1) ∧
                is_Some (fs w1 !! srt_path_of self video_path)) as (w1 & -> & [content Hsrt]).
  { assert (∀ w0, drive w0 = drive w →
              ∃ w1, (logger INFO ("Processing video (code: " +:+ lang_code_of info +:+ ")");;
                     _download_file file_id video_path;;
                     srt_path ← transcribe_video self video_path (lang_code_of info);
                     ret (lang_code_of info, srt_path)) h w0
                    = (Ok (lang_code_of info, Some (srt_path_of self video_path)), w1) ∧
                    is_Some (fs w1 !! srt_path_of self video_path)) as Hrest.
    { intros w0 Hd0. rewrite run_bind. unfold logger at 1, modify at 1.
      rewrite run_bind.
      match goal with |- context [_download_file file_id video_path h ?wa] =>
        destruct (download_file_ok file_id video_path f h wa Hok) as (w1 & -> & Hfs1 & Hd1);
          [by rewrite <- Hd0 in Hfind|] end.
      rewrite run_bind.
      destruct (transcribe_video_ok self video_path (lang_code_of info) (rf_content f) wav
                  transcribe segments h w1) as (w2 & -> & Hfs2 & _); try done.
      { rewrite Hfs1. apply lookup_insert_eq. }
      exists w2. split; [done|]. by eexists. }
    unfold fetch. fold video_path. unfold lang_code_of in *.
    destruct (nonempty (get_code info)) as [code|]; cbn [default from_option id] in *.
    - rewrite run_bind. unfold ret at 1. cbn [mret io_ret]. by apply Hrest.
    - rewrite !run_bind. unfold logger at 1, modify at 1. unfold ret at 1. cbn [mret io_ret].
      by apply Hrest. }
  unfold try_finally, try_except, deliver. cbn [nonempty].
  rewrite truthy_nonempty by apply srt_path_nonempty.
  rewrite run_bind, copy2_run. cbv zeta. rewrite Hok, Hsrt.
  rewrite run_bind. unfold logger at 1, modify at 1. rewrite run_bind.
  match goal with |- context [route ?l ?p h ?w0] =>
    destruct (route_ok l p folder_id content h w0) as (w2 & ->); try done end.
  { cbn [fs add_log set_fs add_trace].
    destruct (decide (os_path.join (output_dir self)
                        (os_path.basename (srt_path_of self video_path))
                      = srt_path_of self video_path)) as [->|Hne'].
    - apply lookup_insert_eq.
    - by rewrite lookup_insert_ne. }
  unfold ret at 1. cbn [mret io_ret].
  match goal with |- context [finally_cleanup ?s ?n ?a h ?w0] =>
    destruct (cleanup_step s n a h w0) as (w3 & ops & entries & -> & _) end.
  done.
Qed.

(** A run that returns [True] has added one file to the drive: the
    subtitle file, in the folder the variable names. *)
Lemma process_video_true_run self file_id file_name info h w :
  let run := process_video self file_id file_name info in
  let srt_path := srt_path_of self (os_path.join (cache_dir self) file_name) in
  fst (run h w) = Ok true →
  ∃ folder_id id content,
    environ h !! destination_variable (lang_code_of info) = Some folder_id ∧
    drive (snd (run h w))
      = (drive w ++ [RemoteFile id (os_path.basename srt_path) folder_id false content])%list.
Proof.
  simpl. intros Htrue.
  destruct (process_video self file_id file_name info h w) as [r wf] eqn:Hrun.
  simpl in Htrue. subst r.
  rewrite process_video_unfold in Hrun. unfold try_except_finally in Hrun.
  pose proof (fetch_keeps_drive self file_id file_name info h w) as Hd1.
  pose proof (fetch_lang_code self file_id file_name info h w) as Hlang.
  pose proof (yields_fetch self file_id file_name info _
                (yields_transcribe_video _ _ _) h w) as Hy.
  assert (Hfail : ∀ (e : exn) assigned ww,
            (let (r, w'') := finally_cleanup self file_name assigned h
                               (add_log ERROR ("Error processing video " +:+ file_name +:+ ": "
                                               +:+ str_exn e) ww) in
             match r with
             | Ok _ => (Ok false, w'')
             | Raise e0 => (Raise e0, w'')
             end) ≠ (Ok true, wf)).
  { intros e assigned ww.
    destruct (cleanup_step self file_name assigned h
                (add_log ERROR ("Error processing video " +:+ file_name +:+ ": "
                                +:+ str_exn e) ww)) as (w3 & ops & entries & -> & _).
    discriminate. }
  destruct (fetch self file_id file_name info h w) as [[[lang_code srt_path]|e] w1];
    simpl in Hd1, Hlang; unfold try_finally, try_except in Hrun.
  2:{ exfalso. eapply Hfail. exact Hrun. }
  specialize (Hlang _ _ eq_refl). subst lang_code.
  specialize (Hy _ eq_refl). simpl in Hy.
  unfold deliver in Hrun.
  destruct (nonempty srt_path) as [p|] eqn:Hp.
  2:{ exfalso. eapply Hfail. exact Hrun. }
  apply nonempty_Some in Hp. subst srt_path.
  destruct Hy as [Hy|Hy]; [done|]. injection Hy as ->.
  rewrite run_bind, copy2_run in Hrun. cbv zeta in Hrun.
  destruct (io_fails h (OpCopy _ _)).
  { exfalso. eapply Hfail. exact Hrun. }
  destruct (fs w1 !! _) as [content|] eqn:Hcontent.
  2:{ exfalso. eapply Hfail. exact Hrun. }
  rewrite run_bind in Hrun. unfold logger at 1, modify at 1 in Hrun.
  rewrite run_bind in Hrun.
  match type of Hrun with context [route ?l ?s h ?ww] =>
    pose proof (route_effect l s h ww) as Hroute;
    destruct (route l s h ww) as [[[]|e] w3] end.
  2:{ exfalso. eapply Hfail. exact Hrun. }
  destruct (Hroute w3 eq_refl) as (_ & folder_id & content' & Henv & _ & Hd3).
  simpl in Hd3.
  unfold ret at 1 in Hrun. cbv [mret io_ret] in Hrun.
  match type of Hrun with context [finally_cleanup ?s ?n ?a h ?w0] =>
    unfold finally_cleanup in Hrun end.
  match type of Hrun with context [_cleanup_files ?ps h ?w0] =>
    destruct (cleanup_files_run ps h w0) as (w4 & Hc & Hd4 & _) end.
  rewrite Hc in Hrun. injection Hrun as <-.
  eexists folder_id, _, content'. split; [exact Henv|].
  simpl. rewrite Hd4, Hd3, Hd1. reflexivity.
Qed.

(** ** Every call of a run *)

Lemma emits_transcribe_in self video_path language_code :
  emits (asks_in language_code) (transcribe_video self video_path language_code).
Proof.
  repeat first [ apply emits_write_entries; intros | emits_step ]; done.
Qed.

Lemma emits_fetch_in self file_id file_name info :
  emits (asks_in (lang_code_of info)) (fetch self file_id file_name info).
Proof.
  set (rest := λ lang_code : string,
         logger INFO ("Processing video (code: " +:+ lang_code +:+ ")");;
         _download_file file_id (os_path.join (cache_dir self) file_name);;
         srt_path ← transcribe_video self (os_path.join (cache_dir self) file_name) lang_code;
         ret (lang_code, srt_path)).
  assert (emits (asks_in (lang_code_of info)) (rest (lang_code_of info))) as Hrest.
  { unfold rest. apply emits_bind; [apply emits_logger|intros _].
    apply emits_bind; [repeat emits_step; done|intros _].
    apply emits_bind; [apply emits_transcribe_in|intros ?]. apply emits_ret. }
  intros h w. unfold lang_code_of in *.
  destruct (nonempty (get_code info)) as [code|] eqn:Hcode; cbn [default from_option id] in *.
  - change (fetch self file_id file_name info h w)
      with ((match nonempty (get_code info) with
             | Some code => ret code
             | None => logger WARNING "No language code provided, defaulting to English";;
                       ret "en"
             end ≫= rest) h w).
    rewrite Hcode. exact (Hrest h w).
  - change (fetch self file_id file_name info h w)
      with ((match nonempty (get_code info) with
             | Some code => ret code
             | None => logger WARNING "No language code provided, defaulting to English";;
                       ret "en"
             end ≫= rest) h w).
    rewrite Hcode.
    change ((_ ≫= rest) h w)
      with (rest "en" h (add_log WARNING "No language code provided, defaulting to English" w)).
    destruct (Hrest h (add_log WARNING "No language code provided, defaulting to English" w))
      as (ops & entries & Ht & HP & Hl).
    exists ops, ((WARNING, "No language code provided, defaulting to English") :: entries).
    split_and!; [done..|]. rewrite Hl. cbn [log add_log]. by rewrite <- app_assoc.
Qed.

Lemma emits_process_video_in self file_id file_name info :
  emits (asks_in (lang_code_of info)) (process_video self file_id file_name info).
Proof.
  rewrite process_video_unfold. apply emits_try_except_finally.
  - apply emits_fetch_in.
  - intros [lang_code srt_path]. unfold deliver, route.
    repeat emits_step; done.
  - intros e. unfold on_error. repeat emits_step.
  - intros assigned. by apply emits_cleanup_files.
Qed.

(** Every upload of a run goes to the folder the variable names. *)
Lemma process_video_uploads_to self file_id file_name info h w :
  Forall (λ op, match op with
                | OpUpload _ folder_id =>
                    environ h !! destination_variable (lang_code_of info) = Some folder_id
                | _ => True
                end) (calls (process_video self file_id file_name info) h w).
Proof.
  destruct (process_video_run self file_id file_name info h w) as [_ Hshape].
  simpl in Hshape.
  assert (∀ ops, Forall (λ op, is_local op = true) ops →
                 Forall (λ op, match op with
                               | OpUpload _ folder_id =>
                                   environ h !! destination_variable (lang_code_of info)
                                     = Some folder_id
                               | _ => True
                               end) ops) as Hloc.
  { intros ops Hops. eapply Forall_impl; [exact Hops|]. by intros []. }
  destruct Hshape as [[Hlocal _]|[(ops1 & src & dst & ops3 & Hc & H1 & H3 & _)
                                 |(ops1 & src & dst & ops2 & ops3 & Hc & _ & H1 & H3 & H2)]].
  - by apply Hloc.
  - rewrite Hc. apply Forall_app. split; [by apply Hloc|].
    apply Forall_cons. split; [done|by apply Hloc].
  - rewrite Hc. apply Forall_app. split; [by apply Hloc|].
    apply Forall_cons. split; [done|]. apply Forall_app. split; [|by apply Hloc].
    destruct H2 as [[-> _]|(folder_id & -> & Hf)]; [done|].
    by apply Forall_cons.
Qed.

(** A run that returns [True] has made exactly one upload. *)
Lemma process_video_true_uploads_once self file_id file_name info h w :
  let run := process_video self file_id file_name info in
  fst (run h w) = Ok true →
  ∃ path folder_id, List.filter is_upload (calls run h w) = [OpUpload path folder_id].
Proof.
  simpl. intros Htrue.
  assert (∀ ops, Forall (λ op, is_local op = true) ops → List.filter is_upload ops = [])
    as Hloc.
  { induction 1 as [|op ops Hop _ IH]; [done|]. simpl. rewrite IH. by destruct op. }
  destruct (process_video_run self file_id file_name info h w) as [_ Hshape].
  simpl in Hshape.
  destruct Hshape as [[_ Hr]|[(ops1 & src & dst & ops3 & _ & _ & _ & Hr & _)
                             |(ops1 & src & dst & ops2 & ops3 & Hc & _ & H1 & H3 & H2)]];
    [congruence..|].
  destruct H2 as [[_ Hr]|(folder_id & -> & _)]; [congruence|].
  exists src, folder_id. rewrite Hc, List.filter_app. cbn [List.filter is_upload].
  rewrite List.filter_app. cbn [List.filter is_upload].
  by rewrite (Hloc ops1), (Hloc ops3).
Qed.

(** C6. The subtitle file of a run goes to the destination the
    specification gives for the binding: the final output when the
    binding's code is ['nl'] in any case of the letters, the translation
    intake for every other code, and for the fallback ['en'] of a binding
    without a code. Every upload a run makes goes to the folder of that
    destination, and the model is asked for the language of that code; a
    run that returns [True] has made exactly one upload and has added
    exactly one file to the drive, the subtitle file, in that folder; and
    a run does return [True] when no call fails, the drive has the video,
    the decoder finds audio in it, the model returns segments whose times
    can be formatted, and the folder of the destination is configured. *)
Theorem upload_destination_follows_language_code
    (self : VideoProcessor) (file_id file_name : string) (info : language_info)
    (h : host) (w : world) :
  let run := process_video self file_id file_name info in
  let srt_path := srt_path_of self (os_path.join (cache_dir self) file_name) in
  let folder := folder_of h (spec_destination info) in
  Forall (routed h info) (calls run h w) ∧
  (fst (run h w) = Ok true →
     ∃ folder_id id content path,
       folder = Some folder_id ∧
       List.filter is_upload (calls run h w) = [OpUpload path folder_id] ∧
       drive (snd (run h w))
         = (drive w ++ [RemoteFile id (os_path.basename srt_path) folder_id false content])%list) ∧
  (∀ f wav transcribe segments folder_id,
     (∀ op, io_fails h op = false) →
     List.find (λ f, String.eqb (rf_id f) file_id) (drive w) = Some f →
     decoder h (rf_content f) = Audio wav →
     model self = Some transcribe →
     transcribe wav (spec_code info) = Ok (Dict (Some segments)) →
     segments ≠ [] →
     forallb formats segments = true →
     folder = Some folder_id →
     folder_id ≠ "" →
     fst (run h w) = Ok true).
Proof.
  cbv zeta. split_and!.
  - pose proof (process_video_uploads_to self file_id file_name info h w) as Hup.
    destruct (emits_process_video_in self file_id file_name info h w)
      as (ops & entries & Ht & Hin & _).
    rewrite (calls_eq _ _ _ _ Ht) in *.
    rewrite destination_is_spec_destination in Hup. rewrite lang_code_is_spec_code in Hin.
    apply Forall_forall. intros op Hop.
    rewrite Forall_forall in Hup, Hin. specialize (Hup op Hop). specialize (Hin op Hop).
    by destruct op.
  - intros Htrue.
    destruct (process_video_true_run self file_id file_name info h w Htrue)
      as (folder_id & id & content & Henv & Hdrive).
    destruct (process_video_true_uploads_once self file_id file_name info h w Htrue)
      as (path & folder_id' & Hcalls).
    rewrite destination_is_spec_destination in Henv.
    assert (folder_id' = folder_id) as ->.
    { pose proof (process_video_uploads_to self file_id file_name info h w) as Hup.
      rewrite destination_is_spec_destination in Hup.
      rewrite Forall_forall in Hup. specialize (Hup (OpUpload path folder_id')).
      cbn in Hup. rewrite Henv in Hup.
      assert (In (OpUpload path folder_id')
                 (List.filter is_upload
                    (calls (process_video self file_id file_name info) h w))) as Hin
        by (rewrite Hcalls; by left).
      apply List.filter_In in Hin as [Hin _]. apply list_elem_of_In in Hin.
      by injection (Hup Hin). }
    by exists folder_id, id, content, path.
  - intros f wav transcribe segments folder_id Hok Hfind Hdecode Hmodel Htranscribe
      Hne Hformats Hfolder Hnonempty.
    rewrite <- lang_code_is_spec_code in Htranscribe.
    rewrite <- destination_is_spec_destination in Hfolder.
    by eapply process_video_ok.
Qed.

Lemma upload_destination_follows_language_code_witness :
  (let run := process_video processor "v1" "talk.mp4" (LangDict (Some "NL")) in
   fst (run quiet fresh) = Ok true ∧
   ∃ id content,
     drive (snd (run quiet fresh)) = (drive fresh ++ [RemoteFile id "talk.srt" "out" false content])%list) ∧
  (let run := process_video processor "v1" "talk.mp4" (LangDict (Some "de")) in
   fst (run quiet fresh) = Ok true ∧
   ∃ id content,
     drive (snd (run quiet fresh)) = (drive fresh ++ [RemoteFile id "talk.srt" "in" false content])%list) ∧
  (let run := process_video processor "v1" "talk.mp4" NotDict in
   fst (run quiet fresh) = Ok true ∧
   List.filter is_transcribe (calls run quiet fresh) = [OpTranscribe "en"] ∧
   ∃ id content,
     drive (snd (run quiet fresh)) = (drive fresh ++ [RemoteFile id "talk.srt" "in" false content])%list).
Proof.
  cbv zeta. split; [|split].
  - destruct (upload_destination_follows_language_code processor "v1" "talk.mp4"
                (LangDict (Some "NL")) quiet fresh) as (_ & Hdrive & Hruns).
    cbv zeta in Hdrive, Hruns.
    assert (fst (process_video processor "v1" "talk.mp4" (LangDict (Some "NL")) quiet fresh)
            = Ok true) as Htrue.
    { eapply (Hruns (RemoteFile "v1" "talk.mp4" "videos" false "mp4-bytes")
                "pcm:mp4-bytes" _ _ "out");
        [reflexivity|reflexivity|reflexivity|reflexivity|reflexivity|discriminate
        |by vm_compute|reflexivity|discriminate]. }
    split; [exact Htrue|].
    destruct (Hdrive Htrue) as (folder_id & id & content & path & [= <-] & _ & Hd).
    by exists id, content.
  - destruct (upload_destination_follows_language_code processor "v1" "talk.mp4"
                (LangDict (Some "de")) quiet fresh) as (_ & Hdrive & Hruns).
    cbv zeta in Hdrive, Hruns.
    assert (fst (process_video processor "v1" "talk.mp4" (LangDict (Some "de")) quiet fresh)
            = Ok true) as Htrue.
    { eapply (Hruns (RemoteFile "v1" "talk.mp4" "videos" false "mp4-bytes")
                "pcm:mp4-bytes" _ _ "in");
        [reflexivity|reflexivity|reflexivity|reflexivity|reflexivity|discriminate
        |by vm_compute|reflexivity|discriminate]. }
    split; [exact Htrue|].
    destruct (Hdrive Htrue) as (folder_id & id & content & path & [= <-] & _ & Hd).
    by exists id, content.
  - destruct (upload_destination_follows_language_code processor "v1" "talk.mp4"
                NotDict quiet fresh) as (_ & Hdrive & Hruns).
    cbv zeta in Hdrive, Hruns.
    assert (fst (process_video processor "v1" "talk.mp4" NotDict quiet fresh)
            = Ok true) as Htrue.
    { eapply (Hruns (RemoteFile "v1" "talk.mp4" "videos" false "mp4-bytes")
                "pcm:mp4-bytes" _ _ "in");
        [reflexivity|reflexivity|reflexivity|reflexivity|reflexivity|discriminate
        |by vm_compute|reflexivity|discriminate]. }
    split; [exact Htrue|]. split; [by vm_compute|].
    destruct (Hdrive Htrue) as (folder_id & id & content & path & [= <-] & _ & Hd).
    by exists id, content.
Defined.

(* ===================================================================== *)
(** * The helpers on examples *)
(* ===================================================================== *)

Example os_path_split_examples :
  os_path_split "/a/b/c.txt" = ("/a/b", "c.txt") ∧ os_path_split "c.txt" = ("", "c.txt") ∧
  os_path_split "/c.txt" = ("/", "c.txt") ∧ os_path_split "//c" = ("//", "c") ∧
  os_path_split "a//b" = ("a", "b") ∧ os_path_split "a/" = ("a", "").
Proof. repeat split. Qed.

Example split_join_examples :
  split_lines "" = [""] ∧ split_lines ("a" +:+ nl) = ["a"; ""] ∧
  str_join nl [""] = "" ∧ range_step 0 125 = [] ∧ range_step 250 125 = [0; 125]%nat ∧
  range_step 251 125 = [0; 125; 250]%nat ∧
  replace "```" "" "````" = "`" ∧
  replace "```" "" (replace "```plaintext" "" "`````plaintext`") = "".
Proof. repeat split. Qed.

(* ===================================================================== *)
(** * Running the service *)
(* ===================================================================== *)

Lemma app_bind_run {A B} (m : app A) (k : A → app B) sv s :
  (m ≫= k) sv s = match m sv s with
                  | (Done a, s') => k a sv s'
                  | (Raised e, s') => (Raised e, s')
                  end.
Proof. reflexivity. Qed.

Lemma pipeline_run {A} (m : io A) sv s :
  pipeline m sv s =
  (match fst (m (host_of sv s) (disk s)) with
   | Ok a => Done a
   | Raise e => Raised (Pipeline e)
   end, set_disk (λ _, snd (m (host_of sv s) (disk s))) s).
Proof. unfold pipeline. by destruct (m (host_of sv s) (disk s)). Qed.

(** The statements of the service that always end normally, unfolded. *)
Ltac step_in H :=
  cbv [mbind mret app_bind app_ret block_bind block_ret run assign try_locals try_catch
       throw asks unresolved logger_info logger_error logger_warning pipeline
       logger modify getenv ret io_ret io_bind get_world exists_ getcwd sleep
       setenv set_environ makedirs request] in H.

(** ** [list_files] *)

(** [list_files] makes one listing request. When the request fails it does
    not return the empty list its handler promises: the handler reads
    [folder_name], which is bound only after the request, so the call
    raises [UnboundLocalError] and logs nothing. Otherwise it returns the
    files of the answer and logs their number. Disk and drive stay as they
    were. *)
Theorem list_files_raises_on_a_failed_listing
    (folder_id : string) (suffix : option string) (sv : services) (s : session) :
  let out := main.list_files folder_id suffix sv s in
  ∃ query,
    made (snd out) = (made s ++ [FilesList query])%list ∧
    fs (disk (snd out)) = fs (disk s) ∧
    drive (disk (snd out)) = drive (disk s) ∧
    (refuses sv (FilesList query) = true →
       fst out = Raised (UnboundLocalError "folder_name") ∧
       log (disk (snd out)) = log (disk s)) ∧
    (refuses sv (FilesList query) = false →
       fst out = Done (listing sv query (drive (disk s))) ∧
       ∃ record, log (disk (snd out)) = (log (disk s) ++ [(INFO, record)])%list).
Proof.
  simpl. eexists.
  destruct (main.list_files folder_id suffix sv s) as [r s'] eqn:Hrun.
  unfold main.list_files, main.files_list, main.folder_names, request in Hrun.
  step_in Hrun.
  match type of Hrun with context [refuses sv (FilesList ?q)] =>
    destruct (refuses sv (FilesList q)) eqn:Href end;
    simpl in Hrun; injection Hrun as <- <-; simpl; split_and!; try done;
    try (intros ?; congruence).
  intros _. split; [done|]. eauto.
Qed.

(** ** [upload_file] *)

(** With a [relative_path] that is not empty: the function called for
    each folder of the path does not exist, the [NameError] is caught
    and logged. *)
Lemma upload_file_nested_run file_path folder_id folder rest sv s :
  let out := main.upload_file file_path folder_id (Some (folder :: rest)) sv s in
  fst out = Done None ∧
  fs (disk (snd out)) = fs (disk s) ∧
  drive (disk (snd out)) = drive (disk s) ∧
  trace (disk (snd out)) = trace (disk s) ∧
  made (snd out) = made s ∧
  log (disk (snd out)) =
    (log (disk s) ++
     [(INFO, "Uploading file: " +:+ file_path);
      (ERROR, "Error uploading file: name 'create_or_get_folder' is not defined")])%list.
Proof. simpl. by rewrite <- (assoc_L (++)). Qed.

(** With no [relative_path]. *)
Lemma upload_file_flat_run file_path folder_id sv s :
  let out := main.upload_file file_path folder_id None sv s in
  fs (disk (snd out)) = fs (disk s) ∧
  (fst out = Done None ∧ drive (disk (snd out)) = drive (disk s) ∨
   ∃ id parent content,
     fst out = Done (Some id) ∧ id ≠ "" ∧
     fs (disk s) !! file_path = Some content ∧
     (folder_id = Some parent ∨ folder_id = None ∧ null_parent sv = Some parent) ∧
     fails sv (OpUpload file_path parent) = false ∧
     drive (disk (snd out)) =
       (drive (disk s) ++ [RemoteFile id (os_path.basename file_path) parent false content])%list).
Proof.
  simpl.
  destruct (main.upload_file file_path folder_id None sv s) as [r s'] eqn:Hrun.
  unfold main.upload_file, main.files_create in Hrun. step_in Hrun.
  cbv [external raise host_of io_fails] in Hrun. simpl in Hrun.
  destruct folder_id as [parent|]; [|destruct (null_parent sv) as [parent|] eqn:Hnull];
    simpl in Hrun.
  3: { injection Hrun as <- <-. simpl. split; [done|]. by left. }
  all: destruct (fs (disk s) !! file_path) as [content|] eqn:Hfile; simpl in Hrun;
    [destruct (fails sv (OpUpload file_path parent)) eqn:Hup; simpl in Hrun|];
    injection Hrun as <- <-; simpl; (split; [done|]); try (by left).
  all: right; eexists _, parent, content; split_and!; try done; eauto.
Qed.

(** [upload_file] never raises: it returns the id of a file it has added
    to the drive, named as the local file and holding its content, under
    the folder given (or the one the drive chooses when that is [None]);
    or it returns [None] and the drive is as it was. With a
    [relative_path] that is not empty it always returns [None], and
    makes no request at all: [create_or_get_folder], which it calls for
    each folder of the path, is not defined, and the [NameError] is
    caught and logged. *)
Theorem upload_file_adds_one_file
    (file_path : string) (folder_id : option string) (relative_path : option (list string))
    (sv : services) (s : session) :
  let out := main.upload_file file_path folder_id relative_path sv s in
  fs (disk (snd out)) = fs (disk s) ∧
  (fst out = Done None ∧ drive (disk (snd out)) = drive (disk s) ∨
   ∃ id parent content,
     fst out = Done (Some id) ∧ id ≠ "" ∧
     fs (disk s) !! file_path = Some content ∧
     (folder_id = Some parent ∨ folder_id = None ∧ null_parent sv = Some parent) ∧
     fails sv (OpUpload file_path parent) = false ∧
     drive (disk (snd out)) =
       (drive (disk s) ++ [RemoteFile id (os_path.basename file_path) parent false content])%list) ∧
  (∀ folder rest, relative_path = Some (folder :: rest) →
     fst out = Done None ∧
     trace (disk (snd out)) = trace (disk s) ∧
     made (snd out) = made s ∧
     last (log (disk (snd out))) =
       Some (ERROR, "Error uploading file: name 'create_or_get_folder' is not defined")).
Proof.
  cbv zeta. destruct relative_path as [[|folder rest]|].
  - change (main.upload_file file_path folder_id (Some [])) with
      (main.upload_file file_path folder_id None).
    destruct (upload_file_flat_run file_path folder_id sv s) as [Hfs Hrun].
    by split_and!.
  - destruct (upload_file_nested_run file_path folder_id folder rest sv s)
      as (Hr & Hfs & Hdrive & Htrace & Hmade & Hlog).
    split_and!; [done|by left|]. intros _ _ _. split_and!; try done.
    rewrite Hlog.
    match goal with |- last (?l ++ [?a; ?b])%list = _ =>
      change (l ++ [a; b])%list with (l ++ [a] ++ [b])%list end.
    by rewrite (assoc_L (++)), last_snoc.
  - destruct (upload_file_flat_run file_path folder_id sv s) as [Hfs Hrun].
    by split_and!.
Qed.

(** ** [process_video_files] *)

(** [process_video_files] processes no video. Without a folder id it logs
    a warning and returns; with one it raises [NameError], since its module
    neither defines nor imports [list_files]. Either way it makes no call
    and leaves disk and drive alone. *)
Theorem process_video_files_processes_nothing
    (folder_info : folder_info) (sv : services) (s : session) :
  let out := process_video_files folder_info sv s in
  made (snd out) = made s ∧
  trace (disk (snd out)) = trace (disk s) ∧
  fs (disk (snd out)) = fs (disk s) ∧
  drive (disk (snd out)) = drive (disk s) ∧
  match nonempty (fi_folder_id folder_info) with
  | None =>
      fst out = Done tt ∧
      log (disk (snd out)) =
        (log (disk s) ++ [(WARNING, "No folder ID configured for "
                                    +:+ str_opt (fi_code folder_info) +:+ " videos")])%list
  | Some _ =>
      fst out = Raised (NameError "list_files") ∧
      log (disk (snd out)) =
        (log (disk s) ++ [(INFO, "Checking " +:+ str_opt (fi_code folder_info)
                                 +:+ " video folder")])%list
  end.
Proof.
  simpl. unfold process_video_files.
  destruct (nonempty (fi_folder_id folder_info)); simpl; by split_and!.
Qed.

(** ** [VideoProcessor.__init__] *)

(** Whatever [torch.cuda.is_available()] says, [__init__] sets
    [CUDA_VISIBLE_DEVICES] to [-1] and asks for the model on the CPU in
    32-bit floats. It raises only when a directory cannot be made; a model
    that fails to load is not an error: the processor is returned with
    [model = None]. *)
Theorem init_forces_the_cpu (sv : services) (s : session) :
  let out := __init__ sv s in
  let data := os_path.join (cwd sv) "Data" in
  let load := LoadModel "large-v2" "cpu" "float32" in
  fs (disk (snd out)) = fs (disk s) ∧
  drive (disk (snd out)) = drive (disk s) ∧
  os_environ (snd out) = <["CUDA_VISIBLE_DEVICES" := "-1"]> (os_environ s) ∧
  (∀ e, fst out = Raised e →
     e = CallFailed (Makedirs (os_path.join data "Cache")) ∨
     e = CallFailed (Makedirs (os_path.join data "Output"))) ∧
  (∀ self, fst out = Done self →
     cache_dir self = os_path.join data "Cache" ∧
     output_dir self = os_path.join data "Output" ∧
     model self = (if refuses sv load then None
                   else Some (whisperx_model sv "large-v2" "cpu" "float32")) ∧
     made (snd out) = (made s ++ [Makedirs (os_path.join data "Cache");
                                  Makedirs (os_path.join data "Output"); load])%list).
Proof.
  cbv zeta.
  set (cache := os_path.join (os_path.join (cwd sv) "Data") "Cache").
  set (output := os_path.join (os_path.join (cwd sv) "Data") "Output").
  destruct (__init__ sv s) as [r s'] eqn:Hrun.
  unfold __init__, load_model in Hrun. step_in Hrun.
  fold cache output in Hrun.
  destruct (cuda_is_available sv); simpl in Hrun.
  all: destruct (refuses sv (Makedirs cache)) eqn:Hcache; simpl in Hrun;
    [|destruct (refuses sv (Makedirs output)) eqn:Houtput; simpl in Hrun;
      [|destruct (refuses sv (LoadModel _ _ _)) eqn:Hload; simpl in Hrun]].
  all: injection Hrun as <- <-; simpl; rewrite ?insert_insert_eq.
  all: split_and!; try done; try (intros ? [=]; subst; eauto; fail).
  all: intros self [= <-]; simpl; rewrite <- ?(assoc_L (++)); done.
Qed.

(** ** [load_environment] *)

(** The session with more records in its log. *)
Definition logged (entries : list (level * string)) (s : session) : session :=
  set_disk (λ w, World (fs w) (drive w) (trace w) (log w ++ entries)) s.

Lemma logged_nil s : logged [] s = s.
Proof. destruct s as [[] ? ? ?]. unfold logged, set_disk. simpl. by rewrite app_nil_r. Qed.

Lemma logged_app a b s : logged b (logged a s) = logged (a ++ b) s.
Proof. unfold logged, set_disk. simpl. by rewrite (assoc_L (++)). Qed.

Lemma logger_info_run msg sv s : logger_info msg sv s = (Done tt, logged [(INFO, msg)] s).
Proof. reflexivity. Qed.

Lemma logger_warning_run msg sv s : logger_warning msg sv s = (Done tt, logged [(WARNING, msg)] s).
Proof. reflexivity. Qed.

Lemma logger_error_run msg sv s : logger_error msg sv s = (Done tt, logged [(ERROR, msg)] s).
Proof. reflexivity. Qed.

(** The variables [load_environment] requires. *)
Definition required_names : list string :=
  ["VIDEO_DUTCH_FOLDER_ID"; "VIDEO_GERMAN_FOLDER_ID"; "VIDEO_ENGLISH_FOLDER_ID";
   "VIDEO_OTHER_FOLDER_ID"; "TEXT_TRANSLATION_FOLDER_ID"; "OUTPUT_FOLDER_ID";
   "OPENAI_API_KEY"].

(** Python's [not value] for what [os.getenv] gave. *)
Definition unset (value : option string) : bool :=
  match nonempty value with
  | None => true
  | Some _ => false
  end.

(** The variable is set, and not to the empty string. *)
Definition configured (env : gmap string string) (name : string) : bool :=
  negb (unset (env !! name)).

(** The record the loop logs for one required variable. *)
Definition required_record (item : string * (string * option string)) : level * string :=
  match nonempty (snd (snd item)) with
  | None => (WARNING, "No folder ID configured for " +:+ fst (snd item))
  | Some value => (INFO, "Loaded " +:+ fst (snd item) +:+ " folder ID: " +:+ slice value 0 10
                         +:+ "...")
  end.

Lemma check_required_run required sv s :
  main.check_required required sv s =
  (Done (List.map (λ item, fst (snd item))
           (List.filter (λ item, unset (snd (snd item))) required)),
   logged (List.map required_record required) s).
Proof.
  revert s. induction required as [|[var [description value]] rest IH]; intros s.
  - simpl. by rewrite logged_nil.
  - cbn [main.check_required]. rewrite app_bind_run.
    cbn [List.map List.filter fst snd].
    assert (required_record (var, (description, value)) =
            match nonempty value with
            | None => (WARNING, "No folder ID configured for " +:+ description)
            | Some v => (INFO, "Loaded " +:+ description +:+ " folder ID: " +:+ slice v 0 10
                               +:+ "...")
            end) as -> by reflexivity.
    unfold unset at 1. destruct (nonempty value) as [v|] eqn:Hv.
    + rewrite app_bind_run, logger_info_run. cbn [mret app_ret].
      rewrite app_bind_run, IH. cbn [mret app_ret]. by rewrite logged_app.
    + rewrite app_bind_run, logger_warning_run. cbn [mret app_ret].
      rewrite app_bind_run, IH. cbn [mret app_ret]. by rewrite logged_app.
Qed.


Lemma set_disk_same s : set_disk (λ _, disk s) s = s.
Proof. by destruct s. Qed.

Lemma getenv_run name sv s : pipeline (getenv name) sv s = (Done (os_environ s !! name), s).
Proof. unfold pipeline, getenv. simpl. by rewrite set_disk_same. Qed.

Lemma exists_run path sv s :
  pipeline (exists_ path) sv s = (Done (bool_decide (is_Some (fs (disk s) !! path))), s).
Proof. unfold pipeline, exists_. simpl. by rewrite set_disk_same. Qed.

Lemma request_run c sv s :
  request c sv s = if refuses sv c then (Raised (CallFailed c), add_call c s)
                   else (Done tt, add_call c s).
Proof. reflexivity. Qed.

(** One statement of a sequence is run. *)
Ltac app_step :=
  rewrite app_bind_run;
  rewrite ?getenv_run, ?exists_run, ?logger_info_run, ?logger_warning_run, ?logger_error_run;
  cbn beta iota.

(** The dict [required_vars] in an environment. *)
Definition required_vars (env : gmap string string)
    : list (string * (string * option string)) :=
  [("VIDEO_DUTCH_FOLDER_ID", ("Dutch videos", env !! "VIDEO_DUTCH_FOLDER_ID"));
   ("VIDEO_GERMAN_FOLDER_ID", ("German videos", env !! "VIDEO_GERMAN_FOLDER_ID"));
   ("VIDEO_ENGLISH_FOLDER_ID", ("English videos", env !! "VIDEO_ENGLISH_FOLDER_ID"));
   ("VIDEO_OTHER_FOLDER_ID", ("Other videos", env !! "VIDEO_OTHER_FOLDER_ID"));
   ("TEXT_TRANSLATION_FOLDER_ID", ("Text translations", env !! "TEXT_TRANSLATION_FOLDER_ID"));
   ("OUTPUT_FOLDER_ID", ("Output", env !! "OUTPUT_FOLDER_ID"));
   ("OPENAI_API_KEY", ("OpenAI API", env !! "OPENAI_API_KEY"))].

(** The value [VIDEO_FOLDERS] is given in an environment. *)
Definition video_folders (env : gmap string string) : list (string * folder_info) :=
  [("Dutch", FolderInfo (Some "nl") (env !! "VIDEO_DUTCH_FOLDER_ID"));
   ("German", FolderInfo (Some "de") (env !! "VIDEO_GERMAN_FOLDER_ID"));
   ("English", FolderInfo (Some "en") (env !! "VIDEO_ENGLISH_FOLDER_ID"));
   ("Other", FolderInfo None (env !! "VIDEO_OTHER_FOLDER_ID"))].

Lemma filter_nil_forallb {A} (p : A → bool) l :
  List.filter p l = [] ↔ forallb (λ a, negb (p a)) l = true.
Proof.
  induction l as [|a l IH]; simpl; [done|].
  destruct (p a); simpl; [split; [done|discriminate]|exact IH].
Qed.

(** The run of [load_environment] once [load_dotenv] has returned [True]
    and left the environment [env]. *)
Lemma load_environment_run sv s env :
  refuses sv LoadDotenv = false →
  dotenv sv (os_environ s) = (true, env) →
  ∃ final,
    main.load_environment sv s =
      (Done (forallb (configured env) required_names),
       logged (List.map required_record (required_vars env) ++ final)
              (Session (disk s) env (made s ++ [LoadDotenv]) (video_folders env))) ∧
    (forallb (configured env) required_names = true → final = []).
Proof.
  intros Hreq Hdotenv.
  unfold main.load_environment, main.load_dotenv.
  rewrite app_bind_run, app_bind_run, request_run, Hreq. cbn beta iota.
  rewrite app_bind_run. unfold asks at 1. cbn [add_call os_environ].
  rewrite Hdotenv. cbn beta iota. rewrite app_bind_run.
  unfold main.set_VIDEO_FOLDERS, set_environ. cbn [mret app_ret negb]. cbn iota.
  do 4 app_step. rewrite app_bind_run. cbn beta iota.
  do 3 app_step. cbn [os_environ disk made VIDEO_FOLDERS add_call].
  rewrite app_bind_run. fold (required_vars env). fold (video_folders env).
  rewrite check_required_run.
  destruct (List.filter (λ item, unset (snd (snd item))) (required_vars env))
    as [|item missing] eqn:Hmissing.
  - exists []. rewrite app_nil_r. apply filter_nil_forallb in Hmissing.
    assert (forallb (configured env) required_names = true) as -> by exact Hmissing.
    by split.
  - assert (forallb (configured env) required_names = false) as ->.
    { apply not_true_is_false. intros Hall.
      assert (List.filter (λ item, unset (snd (snd item))) (required_vars env) = [])
        by (apply filter_nil_forallb; exact Hall).
      congruence. }
    cbn [List.map]. cbn beta iota. rewrite app_bind_run, logger_error_run. cbn beta iota.
    rewrite logged_app. eexists. split; [reflexivity|discriminate].
Qed.

(** The run of [load_environment] when the request is made and
    [load_dotenv] returns [False]. *)
Lemma load_environment_not_loaded sv s env :
  refuses sv LoadDotenv = false →
  dotenv sv (os_environ s) = (false, env) →
  main.load_environment sv s =
    (Done false, logged [(ERROR, "Failed to load .env file")]
                        (Session (disk s) env (made s ++ [LoadDotenv]) (VIDEO_FOLDERS s))).
Proof.
  intros Hreq Hdotenv.
  unfold main.load_environment, main.load_dotenv.
  rewrite app_bind_run, app_bind_run, request_run, Hreq. cbn beta iota.
  rewrite app_bind_run. unfold asks at 1. cbn [add_call os_environ].
  rewrite Hdotenv. cbn beta iota. rewrite app_bind_run.
  unfold set_environ. cbn [mret app_ret negb]. cbn iota.
  by rewrite app_bind_run, logger_error_run.
Qed.

Lemma load_environment_refused sv s :
  refuses sv LoadDotenv = true →
  main.load_environment sv s = (Raised (CallFailed LoadDotenv), add_call LoadDotenv s).
Proof.
  intros Hreq. unfold main.load_environment, main.load_dotenv.
  by rewrite app_bind_run, app_bind_run, request_run, Hreq.
Qed.

(** A fixture: services of which nothing fails, a model that echoes the
    user's message, and a [.env] file that sets what is not yet set. *)
Definition echo : services := {|
  media_decoder := λ _, NoAudio;
  fails := λ _, false;
  refuses := λ _, false;
  cwd := "/app";
  cuda_is_available := false;
  whisperx_model := λ _ _ _ _ _, Ok NotADict;
  chat := λ _ user, Some user;
  listing := λ _ _, [];
  null_parent := None;
  paragraphs := split_lines;
  docx := str_join nl;
  page_texts := λ content, [content];
  pdf := str_join nl;
  dotenv := λ env,
    (true,
     env ∪ list_to_map (List.map (λ name, (name, "folder-" +:+ name)) required_names));
|}.

(** A session on the fresh world, with an API key in the environment. *)
Definition morning : session := {|
  disk := fresh;
  os_environ := {["OPENAI_API_KEY" := "sk-0123456789abcdef"]};
  made := [];
  VIDEO_FOLDERS := [];
|}.

(** [load_environment] returns [True] exactly when [load_dotenv] returns
    [True] and leaves each of the seven variables set to a string that is
    not empty; a complete environment is refused when there is no [.env]
    file to load. After [True], [VIDEO_FOLDERS] holds the four language
    folders with their ids. Only [load_dotenv] can make it raise. *)
Theorem load_environment_accepts_complete_environments (sv : services) (s : session) :
  let out := main.load_environment sv s in
  let loaded := fst (dotenv sv (os_environ s)) in
  let env := snd (dotenv sv (os_environ s)) in
  (fst out = Done true ↔
     refuses sv LoadDotenv = false ∧ loaded = true ∧
     forallb (configured env) required_names = true) ∧
  (fst out = Done true →
     os_environ (snd out) = env ∧ VIDEO_FOLDERS (snd out) = video_folders env) ∧
  (∀ e, fst out = Raised e → e = CallFailed LoadDotenv) ∧
  fs (disk (snd out)) = fs (disk s) ∧
  drive (disk (snd out)) = drive (disk s).
Proof.
  cbv zeta.
  destruct (refuses sv LoadDotenv) eqn:Hreq.
  { rewrite (load_environment_refused _ _ Hreq). simpl.
    split_and!; try done; [|by intros ? [= <-]].
    split; [done|]. by intros (? & _). }
  destruct (dotenv sv (os_environ s)) as [[] env] eqn:Hdotenv.
  - destruct (load_environment_run sv s env Hreq Hdotenv) as (final & -> & Hfinal).
    cbn [fst snd]. destruct (forallb (configured env) required_names) eqn:Hall.
    + split_and!; try done.
    + split_and!; try done. split; [done|]. by intros (_ & _ & ?).
  - rewrite (load_environment_not_loaded _ _ _ Hreq Hdotenv). simpl.
    split_and!; try done. split; [done|]. by intros (_ & ? & _).
Qed.

(** When [load_dotenv] has returned [True], [load_environment] writes the
    first ten characters of the API key to the log, whether or not it goes
    on to accept the environment. *)
Theorem load_environment_logs_the_key_prefix
    (sv : services) (s : session) (env : gmap string string) (key : string) :
  refuses sv LoadDotenv = false →
  dotenv sv (os_environ s) = (true, env) →
  env !! "OPENAI_API_KEY" = Some key →
  key ≠ "" →
  (INFO, "Loaded OpenAI API folder ID: " +:+ slice key 0 10 +:+ "...")
    ∈ log (disk (snd (main.load_environment sv s))).
Proof.
  intros Hreq Hdotenv Hkey Hne.
  destruct (load_environment_run sv s env Hreq Hdotenv) as (final & -> & _).
  cbn [snd disk logged set_disk log]. apply elem_of_app. right. apply elem_of_app. left.
  apply (list_elem_of_lookup_2 _ 6%nat). cbn [List.map required_vars lookup list_lookup].
  unfold required_record. cbn [fst snd]. rewrite Hkey.
  by destruct key.
Qed.

Lemma load_environment_logs_the_key_prefix_witness :
  (INFO, "Loaded OpenAI API folder ID: sk-0123456...")
    ∈ log (disk (snd (main.load_environment echo morning))).
Proof.
  apply (load_environment_logs_the_key_prefix echo morning
           (snd (dotenv echo (os_environ morning))) "sk-0123456789abcdef");
    [reflexivity|reflexivity|by vm_compute|discriminate].
Defined.

(* ===================================================================== *)
(** * Lines, chunks and names *)
(* ===================================================================== *)

Lemma prefix_app a b : String.prefix a b = true ↔ ∃ rest, b = a +:+ rest.
Proof.
  revert b. induction a as [|c a IH]; intros b.
  - split; [intros _; by exists b|]. intros _. by destruct b.
  - destruct b as [|d b]; [split; [done|by intros (? & ?)]|].
    simpl. destruct (ascii_dec c d) as [->|Hne].
    + rewrite IH. split; intros (rest & H); exists rest; [by rewrite H|by injection H].
    + split; [done|]. intros (rest & [= ? ?]). by subst.
Qed.

(** ** [is_video_file] *)

(** [is_video_file] accepts a MIME type exactly when it begins with one of
    the six listed types: a type with parameters after it is accepted, and
    so is any other type that one of the six is a prefix of; everything
    accepted begins with [video/]. *)
Theorem is_video_file_accepts_by_prefix (mime_type : string) :
  (main.is_video_file mime_type = true ↔
     ∃ vtype rest, vtype ∈ main.video_mime_types ∧ mime_type = vtype +:+ rest) ∧
  (main.is_video_file mime_type = true → String.prefix "video/" mime_type = true).
Proof.
  assert (main.is_video_file mime_type = true ↔
          ∃ vtype rest, vtype ∈ main.video_mime_types ∧ mime_type = vtype +:+ rest) as Hiff.
  { unfold main.is_video_file. rewrite existsb_exists. split.
    - intros (vtype & Hin & Hpre). apply prefix_app in Hpre as (rest & ->).
      exists vtype, rest. split; [|done]. by apply list_elem_of_In.
    - intros (vtype & rest & Hin & ->). exists vtype. split; [by apply list_elem_of_In|].
      apply prefix_app. by exists rest. }
  split; [exact Hiff|].
  intros (vtype & rest & Hin & ->)%Hiff. unfold main.video_mime_types in Hin.
  repeat (apply elem_of_cons in Hin as [->|Hin]; [reflexivity|]).
  by apply elem_of_nil in Hin.
Qed.

(** ** Lines *)

Lemma split_lines_nonempty s : split_lines s ≠ [].
Proof.
  destruct s as [|c rest]; simpl; [done|].
  destruct (Ascii.eqb c "010"); [done|]. by destruct (split_lines rest).
Qed.

Lemma str_join_cons sep piece rest :
  rest ≠ [] → str_join sep (piece :: rest) = piece +:+ sep +:+ str_join sep rest.
Proof. by destruct rest. Qed.

(** Splitting a text into lines and joining them gives the text back. *)
Lemma join_split_lines s : str_join nl (split_lines s) = s.
Proof.
  induction s as [|c rest IH]; [done|]. cbn [split_lines].
  destruct (Ascii.eqb_spec c "010") as [->|Hne].
  - rewrite str_join_cons by apply split_lines_nonempty. by rewrite IH.
  - destruct (split_lines rest) as [|line lines] eqn:Hsplit;
      [by apply split_lines_nonempty in Hsplit|].
    destruct lines as [|line' lines].
    + simpl in *. by rewrite IH.
    + rewrite str_join_cons by done. rewrite str_join_cons in IH by done.
      by rewrite string_app_cons, IH.
Qed.

Lemma str_join_app sep a b :
  a ≠ [] → b ≠ [] → str_join sep (a ++ b) = str_join sep a +:+ sep +:+ str_join sep b.
Proof.
  intros Ha Hb. induction a as [|x a IH]; [done|].
  destruct a as [|y a].
  - change ([x] ++ b)%list with (x :: b). by rewrite (str_join_cons sep x b) by done.
  - rewrite <- app_comm_cons. rewrite (str_join_cons sep x ((y :: a) ++ b)%list) by done.
    rewrite IH by done. rewrite (str_join_cons sep x (y :: a)) by done.
    by rewrite !string_app_assoc.
Qed.

(** Joining the joined chunks is joining all the lines. *)
Lemma str_join_concat sep (chunks : list (list string)) :
  Forall (λ chunk, chunk ≠ []) chunks →
  str_join sep (List.map (str_join sep) chunks) = str_join sep (concat chunks).
Proof.
  induction 1 as [|chunk chunks Hchunk Hall IH]; [done|].
  destruct chunks as [|chunk' chunks].
  - simpl. by rewrite app_nil_r.
  - change (str_join sep (List.map (str_join sep) (chunk :: chunk' :: chunks)))
      with (str_join sep chunk +:+ sep +:+
            str_join sep (List.map (str_join sep) (chunk' :: chunks))).
    rewrite IH. change (concat (chunk :: chunk' :: chunks))
      with (chunk ++ concat (chunk' :: chunks))%list.
    rewrite str_join_app; [done|done|].
    inversion Hall; subst. by destruct chunk'.
Qed.

(** ** Chunks *)

Lemma range_step_nil step : range_step 0 (S step) = [].
Proof.
  unfold range_step. replace ((0 + S step - 1) `div` S step)%nat with 0%nat; [done|].
  symmetry. apply Nat.div_small. lia.
Qed.

Lemma range_step_cons n step :
  (0 < n)%nat →
  range_step n (S step) = (0 :: List.map (λ i, i + S step) (range_step (n - S step) (S step)))%nat.
Proof.
  intros Hn. unfold range_step.
  assert (((n + S step - 1) `div` S step) = S ((n - S step + S step - 1) `div` S step))%nat
    as ->.
  { destruct (decide (n ≤ S step)%nat) as [Hle|Hgt].
    - replace (n - S step)%nat with 0%nat by lia.
      replace ((0 + S step - 1) `div` S step)%nat with 0%nat
        by (symmetry; apply Nat.div_small; lia).
      replace (n + S step - 1)%nat with ((n - 1) + 1 * S step)%nat by lia.
      rewrite Nat.div_add by lia. rewrite Nat.div_small by lia. done.
    - replace (n + S step - 1)%nat with ((n - S step + S step - 1) + 1 * S step)%nat by lia.
      rewrite Nat.div_add by lia. lia. }
  cbn [seq List.map]. f_equal. rewrite <- seq_shift, !List.map_map.
  apply List.map_ext. intros k. lia.
Qed.

(** The recursion the list comprehension amounts to. *)
Lemma chunked_cons {A} size (x : A) (lines : list A) :
  chunked (S size) (x :: lines) =
  take (S size) (x :: lines) :: chunked (S size) (drop (S size) (x :: lines)).
Proof.
  unfold chunked. rewrite range_step_cons by (simpl; lia).
  cbn [List.map]. f_equal. rewrite List.map_map, length_drop.
  apply List.map_ext. intros i. by rewrite drop_drop, (Nat.add_comm i).
Qed.

Lemma chunked_nil {A} size : chunked (S size) (@nil A) = [].
Proof. unfold chunked. simpl length. by rewrite range_step_nil. Qed.

(** The chunks are the lines in their order, none is empty and none has
    more than [size] lines. *)
Lemma chunked_spec {A} size (lines : list A) :
  concat (chunked (S size) lines) = lines ∧
  Forall (λ chunk, chunk ≠ [] ∧ (List.length chunk ≤ S size)%nat) (chunked (S size) lines).
Proof.
  remember (List.length lines) as n eqn:Hn. revert lines Hn.
  induction n as [n IH] using lt_wf_ind. intros lines ->.
  destruct lines as [|x lines]; [by rewrite chunked_nil|].
  rewrite chunked_cons.
  destruct (IH (List.length (drop (S size) (x :: lines)))
              ltac:(rewrite length_drop; simpl; lia) _ eq_refl) as [Hcat Hall].
  split.
  - cbn [concat]. rewrite Hcat. apply take_drop.
  - constructor; [|exact Hall]. split; [done|]. rewrite length_take. lia.
Qed.

(** Splitting into lines, cutting into chunks, joining each chunk and
    joining the results gives the text back. *)
Lemma join_chunks_of_lines text :
  str_join nl (List.map (str_join nl) (chunked 125 (split_lines text))) = text.
Proof.
  destruct (chunked_spec 124 (split_lines text)) as [Hcat Hall].
  rewrite str_join_concat.
  - by rewrite Hcat, join_split_lines.
  - eapply Forall_impl; [exact Hall|]. by intros chunk [? _].
Qed.

(* ===================================================================== *)
(** * [translate_text] *)
(* ===================================================================== *)

(** The session with more calls made. *)
Definition called (calls : list call) (s : session) : session :=
  Session (disk s) (os_environ s) (made s ++ calls) (VIDEO_FOLDERS s).

Lemma called_nil s : called [] s = s.
Proof. destruct s. unfold called. simpl. by rewrite app_nil_r. Qed.

Lemma called_app a b s : called b (called a s) = called (a ++ b) s.
Proof. unfold called. simpl. by rewrite (assoc_L (++)). Qed.

Lemma called_logged calls entries s :
  called calls (logged entries s) = logged entries (called calls s).
Proof. reflexivity. Qed.

(** The system message of a request. *)
Definition system_prompt (env : gmap string string) : string :=
  default "You are a helpful translation assistant." (env !! "SYSTEM_PROMPT").

(** The request made for a chunk of lines. *)
Definition chunk_request (env : gmap string string) (chunk : list string) : call :=
  ChatCompletion (system_prompt env) (str_join nl chunk).

(** What is kept of an answer: the code fences are taken out. *)
Definition unfenced (content : string) : string :=
  replace "```" "" (replace "```plaintext" "" content).

(** What a chunk is answered with: nothing, when the request fails or the
    answer has no content. *)
Definition answer (sv : services) (env : gmap string string) (chunk : list string)
    : option string :=
  if refuses sv (chunk_request env chunk) then None
  else unfenced <$> chat sv (system_prompt env) (str_join nl chunk).

(** The calls of the loop: a request for each chunk up to the first that
    is not answered, and a second's sleep after each answer. *)
Fixpoint chunk_calls (sv : services) (env : gmap string string) (chunks : list (list string))
    : list call :=
  match chunks with
  | [] => []
  | chunk :: rest =>
      chunk_request env chunk ::
      match answer sv env chunk with
      | Some _ => Sleep 1 :: chunk_calls sv env rest
      | None => []
      end
  end.

(** The text [translate_text] returns. *)
Definition translation (sv : services) (env : gmap string string) (text : string)
    : option string :=
  str_join nl <$> mapM (answer sv env) (chunked 125 (split_lines text)).

Lemma translate_chunks_run chunks : ∀ n i sv s,
  ∃ entries r,
    main.translate_chunks n i chunks sv s =
      (r, called (chunk_calls sv (os_environ s) chunks) (logged entries s)) ∧
    match mapM (answer sv (os_environ s)) chunks with
    | Some translated => r = Done translated
    | None => ∃ e, r = Raised e
    end.
Proof.
  induction chunks as [|chunk rest IH]; intros n i sv s.
  - exists [], (Done []). simpl. by rewrite called_nil, logged_nil.
  - cbn [main.translate_chunks chunk_calls mapM]. unfold answer at 1 3.
    unfold main.chat_completion, chunk_request at 2 3.
    do 2 app_step. cbn [os_environ logged set_disk]. fold (system_prompt (os_environ s)).
    set (record := (INFO, "Translating chunk " +:+ str_of_N i +:+ "/"
                          +:+ str_of_N (N.of_nat n))).
    rewrite !app_bind_run, request_run.
    destruct (refuses sv (ChatCompletion _ _)) eqn:Hreq.
    { exists [record]. eexists. cbn [mbind option_bind]. split; [reflexivity|by eexists]. }
    cbn beta iota. unfold asks.
    destruct (chat sv _ _) as [content|] eqn:Hchat; cbn [fmap option_fmap option_map].
    2: { exists [record]. eexists. cbn [throw mbind option_bind].
         split; [reflexivity|by eexists]. }
    rewrite app_bind_run. cbn [mret app_ret]. cbn beta iota.
    rewrite app_bind_run. unfold sleep at 1. cbn beta iota. rewrite app_bind_run.
    destruct (IH n (N.succ i) sv
                (add_call (Sleep 1)
                   (add_call (ChatCompletion (system_prompt (os_environ s)) (str_join nl chunk))
                      (logged [record] s))))
      as (entries & r & -> & Hr).
    cbn [os_environ add_call logged set_disk] in Hr.
    exists (record :: entries).
    cbn [mbind option_bind].
    destruct (mapM (answer sv (os_environ s)) rest) as [translated|].
    + subst r. eexists. cbn [fmap option_fmap option_map mret option_ret]. split; [|done].
      f_equal. unfold called, logged, set_disk, add_call. cbn. by rewrite <- !(assoc_L (++)).
    + destruct Hr as (e & ->). eexists. split; [|by eexists].
      f_equal. unfold called, logged, set_disk, add_call. cbn. by rewrite <- !(assoc_L (++)).
Qed.

Lemma translate_text_run text sv s :
  ∃ entries,
    main.translate_text text sv s =
      (Done (translation sv (os_environ s) text),
       called (chunk_calls sv (os_environ s) (chunked 125 (split_lines text)))
              (logged entries s)).
Proof.
  unfold main.translate_text, try_catch, translation.
  app_step. rewrite app_bind_run.
  destruct (translate_chunks_run (chunked 125 (split_lines text))
              (List.length (chunked 125 (split_lines text))) 1 sv
              (logged [(INFO, "Starting text translation")] s))
    as (entries & r & -> & Hr).
  cbn [os_environ logged set_disk] in *.
  destruct (mapM (answer sv (os_environ s)) (chunked 125 (split_lines text)))
    as [translated|].
  - subst r. cbn beta iota. app_step. cbn [mret app_ret fmap option_fmap option_map].
    eexists. f_equal. rewrite <- called_logged, !logged_app. reflexivity.
  - destruct Hr as (e & ->). cbn beta iota. app_step.
    cbn [mret app_ret fmap option_fmap option_map].
    eexists. f_equal. rewrite <- called_logged, !logged_app. reflexivity.
Qed.

Lemma mapM_None {A B} (f : A → option B) l :
  mapM f l = None ↔ ∃ x, x ∈ l ∧ f x = None.
Proof.
  induction l as [|a l IH]; cbn [mapM].
  - split; [done|]. intros (x & Hx & _). by apply elem_of_nil in Hx.
  - destruct (f a) as [b|] eqn:Hfa; cbn [mbind option_bind].
    + destruct (mapM f l) as [k|]; cbn [mbind option_bind mret option_ret].
      * split; [done|]. intros (x & [->|Hx]%elem_of_cons & Hfx); [congruence|].
        destruct IH as [_ IH]. by discriminate IH; eauto.
      * split; [|done]. intros _. destruct IH as [IH _].
        destruct (IH eq_refl) as (x & Hx & Hfx). exists x. split; [by right|done].
    + split; [|done]. intros _. exists a. split; [by left|done].
Qed.

(** [translate_text] never raises and gives all or nothing: it returns
    [None] exactly when the request for one of the chunks of 125 lines is
    refused or answered without content. Disk, drive and environment stay
    as they were. *)
Theorem translate_text_is_all_or_nothing (text : string) (sv : services) (s : session) :
  let out := main.translate_text text sv s in
  let system := system_prompt (os_environ s) in
  (∃ r, fst out = Done r ∧
     (r = None ↔
        ∃ chunk, chunk ∈ chunked 125 (split_lines text) ∧
          (refuses sv (ChatCompletion system (str_join nl chunk)) = true ∨
           chat sv system (str_join nl chunk) = None))) ∧
  fs (disk (snd out)) = fs (disk s) ∧
  drive (disk (snd out)) = drive (disk s) ∧
  trace (disk (snd out)) = trace (disk s) ∧
  os_environ (snd out) = os_environ s.
Proof.
  cbv zeta. destruct (translate_text_run text sv s) as (entries & ->).
  cbn [fst snd]. split; [|done].
  eexists. split; [reflexivity|]. unfold translation.
  rewrite fmap_None, mapM_None. apply exist_proper. intros chunk.
  apply and_iff_compat_l. unfold answer, chunk_request.
  destruct (refuses sv _); [by split; [left|]|].
  rewrite fmap_None. split; [by right|]. by intros [|].
Qed.

Lemma answered_chunks sv env chunks : ∀ translated,
  mapM (answer sv env) chunks = Some translated →
  chunk_calls sv env chunks =
    concat (List.map (λ chunk, [chunk_request env chunk; Sleep 1]) chunks) ∧
  ∃ replies,
    Forall2 (λ chunk reply, chat sv (system_prompt env) (str_join nl chunk) = Some reply)
            chunks replies ∧
    translated = List.map unfenced replies.
Proof.
  induction chunks as [|chunk rest IH]; intros translated; cbn [mapM chunk_calls].
  - intros [= <-]. split; [done|]. by exists [].
  - destruct (answer sv env chunk) as [t|] eqn:Hanswer; cbn [mbind option_bind]; [|done].
    destruct (mapM (answer sv env) rest) as [ts|]; cbn [mbind option_bind]; [|done].
    intros [= <-]. destruct (IH ts eq_refl) as (Hcalls & replies & Hreplies & ->).
    split; [cbn [List.map concat]; by rewrite Hcalls|].
    unfold answer in Hanswer. destruct (refuses sv _); [done|].
    destruct (chat sv _ _) as [reply|] eqn:Hchat; [|done].
    injection Hanswer as <-. exists (reply :: replies). split; [by constructor|done].
Qed.

(** When [translate_text] returns a text, it has sent the whole of its
    input, in order and nothing twice: one request for every 125 lines,
    each followed by a second's sleep, at least one request even for the
    empty text; the user messages of the requests, joined by newlines,
    are the input; and the result is the answers, without their code
    fences, joined by newlines. *)
Theorem translate_text_sends_the_whole_text
    (text translated : string) (sv : services) (s : session) :
  let out := main.translate_text text sv s in
  let system := system_prompt (os_environ s) in
  fst out = Done (Some translated) →
  ∃ chunks replies,
    made (snd out) =
      (made s ++ concat (List.map (λ chunk, [ChatCompletion system (str_join nl chunk); Sleep 1])
                                  chunks))%list ∧
    chunks ≠ [] ∧
    Forall (λ chunk, chunk ≠ [] ∧ (List.length chunk ≤ 125)%nat) chunks ∧
    str_join nl (List.map (str_join nl) chunks) = text ∧
    Forall2 (λ chunk reply, chat sv system (str_join nl chunk) = Some reply) chunks replies ∧
    translated = str_join nl (List.map unfenced replies).
Proof.
  cbv zeta. destruct (translate_text_run text sv s) as (entries & ->).
  cbn [fst snd]. unfold translation. intros [= Htranslated].
  apply fmap_Some in Htranslated as (ts & Hts & ->).
  destruct (answered_chunks _ _ _ _ Hts) as (Hcalls & replies & Hreplies & ->).
  exists (chunked 125 (split_lines text)), replies.
  destruct (chunked_spec 124 (split_lines text)) as [Hcat Hall].
  split_and!; try done.
  - cbn [made called logged set_disk]. by rewrite Hcalls.
  - intros Hnil. rewrite Hnil in Hcat. symmetry in Hcat.
    by apply split_lines_nonempty in Hcat.
  - apply join_chunks_of_lines.
Qed.

(** ** Code fences *)

Definition fence : string := "```".

Lemma prefix_cons a p b s :
  String.prefix (String a p) (String b s) = if ascii_dec a b then String.prefix p s else false.
Proof. reflexivity. Qed.

Lemma prefix_empty a p : String.prefix (String a p) "" = false.
Proof. reflexivity. Qed.

Lemma contains_cons needle c s :
  contains needle (String c s) = String.prefix needle (String c s) || contains needle s.
Proof. reflexivity. Qed.

Lemma replace_fence_keep c rest :
  String.prefix fence (String c rest) = false →
  replace fence "" (String c rest) = String c (replace fence "" rest).
Proof. intros H. unfold replace. cbn [replace_from]. by rewrite H. Qed.

Lemma replace_fence_drop tail : replace fence "" (fence +:+ tail) = replace fence "" tail.
Proof.
  unfold replace, fence. rewrite !string_app_cons. cbn [replace_from].
  assert (String.prefix "```" (String "`" (String "`" (String "`" ("" +:+ tail)))) = true) as ->.
  { apply prefix_app. by exists tail. }
  reflexivity.
Qed.

(** What is left of a text begins with two backticks only if the text
    did. *)
Lemma replace_fence_two s :
  String.prefix "``" s = false → String.prefix "``" (replace fence "" s) = false.
Proof.
  intros H. destruct s as [|c s]; [done|].
  rewrite prefix_cons in H. destruct (ascii_dec "`" c) as [<-|Hc].
  - assert (String.prefix fence (String "`" s) = false) as Hkeep.
    { unfold fence. rewrite prefix_cons. destruct (ascii_dec "`" "`"); [|done].
      destruct s as [|d s]; [done|]. rewrite prefix_cons in H |- *.
      destruct (ascii_dec "`" d); [by destruct s|done]. }
    rewrite (replace_fence_keep _ _ Hkeep), prefix_cons.
    destruct (ascii_dec "`" "`"); [|done].
    destruct s as [|d s]; [done|]. rewrite prefix_cons in H.
    destruct (ascii_dec "`" d) as [<-|Hd]; [by destruct s|].
    rewrite replace_fence_keep.
    + rewrite prefix_cons. by destruct (ascii_dec "`" d).
    + unfold fence. rewrite prefix_cons. by destruct (ascii_dec "`" d).
  - rewrite replace_fence_keep.
    + rewrite prefix_cons. by destruct (ascii_dec "`" c).
    + unfold fence. rewrite prefix_cons. by destruct (ascii_dec "`" c).
Qed.

(** Once the fences are taken out of a text, none is left. *)
Lemma replace_fence_none s : contains fence (replace fence "" s) = false.
Proof.
  remember (String.length s) as n eqn:Hn. revert s Hn.
  induction n as [n IH] using lt_wf_ind. intros s ->.
  destruct s as [|c rest]; [done|].
  destruct (String.prefix fence (String c rest)) eqn:Hpre.
  - apply prefix_app in Hpre as (tail & Htail). rewrite Htail, replace_fence_drop.
    apply (IH (String.length tail)); [|done].
    rewrite Htail. unfold fence. rewrite !string_app_cons. cbn [String.length].
    change ("" +:+ tail) with tail. lia.
  - rewrite (replace_fence_keep _ _ Hpre), contains_cons.
    rewrite (IH (String.length rest)) by (simpl; lia || done).
    rewrite orb_false_r. unfold fence in *. rewrite prefix_cons in Hpre |- *.
    destruct (ascii_dec "`" c); [|done]. by apply replace_fence_two.
Qed.

(** A fence does not run over a newline. *)
Lemma prefix_fence_line p a b :
  contains nl p = false →
  String.prefix p (a +:+ nl +:+ b) = true → String.prefix p a = true.
Proof.
  revert a. induction p as [|x p IH]; intros a Hp H; [by destruct a|].
  rewrite contains_cons in Hp. apply orb_false_elim in Hp as [Hx Hp].
  destruct a as [|c a].
  - exfalso. change ("" +:+ nl +:+ b) with (String "010"%char b) in H.
    change nl with (String "010"%char "") in Hx.
    rewrite prefix_cons in H, Hx. destruct (ascii_dec x "010") as [->|]; [|done].
    destruct (ascii_dec "010" "010"); [|done]. by destruct p.
  - rewrite string_app_cons, prefix_cons in H. rewrite prefix_cons.
    destruct (ascii_dec x c); [|done]. by apply IH.
Qed.

Lemma contains_fence_lines a b :
  contains fence a = false → contains fence b = false →
  contains fence (a +:+ nl +:+ b) = false.
Proof.
  intros Ha Hb. induction a as [|c a IH].
  - change ("" +:+ nl +:+ b) with (String "010"%char b).
    by rewrite contains_cons, Hb.
  - rewrite contains_cons in Ha. apply orb_false_elim in Ha as [Hpre Ha].
    rewrite string_app_cons, contains_cons, (IH Ha), orb_false_r.
    apply not_true_is_false. intros H.
    rewrite <- string_app_cons in H. apply prefix_fence_line in H; [congruence|done].
Qed.

Lemma contains_fence_join texts :
  Forall (λ t, contains fence t = false) texts → contains fence (str_join nl texts) = false.
Proof.
  induction 1 as [|t texts Ht Hall IH]; [done|].
  destruct texts as [|t' texts]; [done|].
  rewrite str_join_cons by done. by apply contains_fence_lines.
Qed.

(** A text that [translate_text] returns holds no code fence, whatever
    the answers were. *)
Theorem translate_text_returns_no_fence
    (text translated : string) (sv : services) (s : session) :
  fst (main.translate_text text sv s) = Done (Some translated) →
  contains "```" translated = false.
Proof.
  destruct (translate_text_run text sv s) as (entries & ->).
  cbn [fst]. unfold translation. intros [= Htranslated].
  apply fmap_Some in Htranslated as (ts & Hts & ->).
  destruct (answered_chunks _ _ _ _ Hts) as (_ & replies & _ & ->).
  apply contains_fence_join, List.Forall_map, Forall_forall. intros reply _.
  apply replace_fence_none.
Qed.

(* ===================================================================== *)
(** * [download_file] *)
(* ===================================================================== *)

Lemma remove_run path sv s :
  pipeline (remove path) sv s =
  if fails sv (OpRemove path)
  then (Raised (Pipeline (OSError (OpRemove path))), set_disk (add_trace (OpRemove path)) s)
  else if bool_decide (is_Some (fs (disk s) !! path))
       then (Done tt, set_disk (λ w, set_fs (delete path) (add_trace (OpRemove path) w)) s)
       else (Raised (Pipeline (FileNotFoundError path)), set_disk (add_trace (OpRemove path)) s).
Proof.
  unfold pipeline, remove, external.
  cbv [mbind io_bind get_world modify raise host_of io_fails].
  destruct (fails sv (OpRemove path)); [done|].
  by destruct (bool_decide (is_Some (fs (disk s) !! path))).
Qed.

(** The [with] block of a download: the file is opened, the content of
    the drive file written to it, and the file closed. *)
Lemma download_block_run file_id file_path h w :
  let out :=
    with_open file_path
      (external (OpDownload file_id file_path) (RuntimeError (OpDownload file_id file_path));;
       w ← get_world;
       match List.find (fun f => String.eqb (rf_id f) file_id) (drive w) with
       | Some f => write file_path (rf_content f)
       | None => raise (RuntimeError (OpDownload file_id file_path))
       end) h w in
  drive (snd out) = drive w ∧
  (∀ path, path ≠ file_path → fs (snd out) !! path = fs w !! path) ∧
  (∀ a, fst out = Ok a →
     ∃ f, List.find (λ f, String.eqb (rf_id f) file_id) (drive w) = Some f ∧
          fs (snd out) !! file_path = Some (rf_content f)).
Proof.
  cbv zeta.
  match goal with |- context [with_open ?p ?b h w] =>
    destruct (with_open p b h w) as [r w'] eqn:Hrun end.
  unfold with_open, open_w, write, close, try_finally, external in Hrun.
  cbv [mbind io_bind get_world modify raise ret mret io_ret] in Hrun.
  destruct (io_fails h (OpOpen file_path)); simpl in Hrun;
    [injection Hrun as <- <-; by split_and!|].
  assert (∀ path (m : gmap string string), path ≠ file_path →
            <[file_path:=""]> m !! path = m !! path) as Hoff
    by (intros; by apply lookup_insert_ne).
  destruct (io_fails h (OpDownload file_id file_path)); simpl in Hrun.
  { destruct (io_fails h (OpClose file_path)); simpl in Hrun;
      injection Hrun as <- <-; simpl; split_and!; try done; auto. }
  destruct (find _ (drive w)) as [f|] eqn:Hfind; simpl in Hrun.
  - destruct (io_fails h (OpWrite file_path (rf_content f))); simpl in Hrun;
      destruct (io_fails h (OpClose file_path)); simpl in Hrun;
      injection Hrun as <- <-; simpl; split_and!; try done; auto.
    + intros path Hne. rewrite lookup_alter_ne by done. auto.
    + intros path Hne. rewrite lookup_alter_ne by done. auto.
    + intros _ _. exists f. split; [done|]. by rewrite alter_insert_eq, lookup_insert_eq.
  - destruct (io_fails h (OpClose file_path)); simpl in Hrun;
      injection Hrun as <- <-; simpl; split_and!; try done; auto.
Qed.

(** A run of [download_file]. *)
Lemma download_file_run file_id file_name sv s :
  let data_folder := os_path.join (cwd sv) "Data" in
  let file_path := os_path.join data_folder file_name in
  ∃ r s',
    main.download_file file_id file_name sv s = (r, s') ∧
    drive (disk s') = drive (disk s) ∧
    os_environ s' = os_environ s ∧
    (∀ path, path ≠ file_path → fs (disk s') !! path = fs (disk s) !! path) ∧
    match r with
    | Done (Some path) =>
        path = file_path ∧
        ∃ f, List.find (λ f, String.eqb (rf_id f) file_id) (drive (disk s)) = Some f ∧
             fs (disk s') !! file_path = Some (rf_content f)
    | Done None => fs (disk s') !! file_path = None
    | Raised e =>
        e = CallFailed (Makedirs data_folder) ∧ refuses sv (Makedirs data_folder) = true ∨
        fails sv (OpRemove file_path) = true
    end.
Proof.
  cbv zeta.
  set (data_folder := os_path.join (cwd sv) "Data").
  set (file_path := os_path.join data_folder file_name).
  destruct (main.download_file file_id file_name sv s) as [r s'] eqn:Hrun.
  exists r, s'. split; [done|].
  unfold main.download_file in Hrun.
  rewrite app_bind_run, logger_info_run in Hrun. cbn beta iota in Hrun.
  rewrite app_bind_run in Hrun. unfold getcwd, asks in Hrun. cbn beta iota in Hrun.
  fold data_folder file_path in Hrun.
  rewrite app_bind_run in Hrun. unfold makedirs in Hrun. rewrite request_run in Hrun.
  destruct (refuses sv (Makedirs data_folder)) eqn:Hmk.
  { injection Hrun as <- <-. simpl. split_and!; try done. by left. }
  cbn beta iota in Hrun. unfold try_catch in Hrun.
  rewrite app_bind_run, pipeline_run in Hrun.
  set (s0 := add_call (Makedirs data_folder)
               (logged [(INFO, "Downloading file: " +:+ file_name)] s)) in Hrun.
  destruct (download_block_run file_id file_path (host_of sv s0) (disk s0))
    as (Hdrive & Hfs & Hok).
  match type of Hrun with context [with_open ?p ?b (host_of sv s0) (disk s0)] =>
    destruct (with_open p b (host_of sv s0) (disk s0)) as [rb wb] end.
  cbn [fst snd] in Hdrive, Hfs, Hok, Hrun.
  destruct rb as [[]|e].
  - destruct (Hok tt eq_refl) as (f & Hfind & Hcontent).
    cbn beta iota in Hrun. rewrite app_bind_run, logger_info_run in Hrun.
    injection Hrun as <- <-. cbn. split_and!; try done. eauto.
  - cbn beta iota in Hrun. rewrite app_bind_run, logger_error_run in Hrun.
    cbn beta iota in Hrun. rewrite app_bind_run, exists_run in Hrun. cbn beta iota in Hrun.
    cbn [disk logged set_disk fs] in Hrun.
    destruct (bool_decide (is_Some (fs wb !! file_path))) eqn:Hpresent.
    + rewrite app_bind_run, remove_run in Hrun.
      destruct (fails sv (OpRemove file_path)) eqn:Hrm.
      { injection Hrun as <- <-. cbn. split_and!; try done. by right. }
      cbn [disk logged set_disk fs] in Hrun. rewrite Hpresent in Hrun.
      injection Hrun as <- <-. cbn. split_and!; try done.
      * intros path Hne. rewrite lookup_delete_ne by done. auto.
      * apply lookup_delete_eq.
    + injection Hrun as <- <-. cbn. split_and!; try done.
      apply bool_decide_eq_false in Hpresent. by apply eq_None_not_Some.
Qed.

(** [main.py]'s [download_file] returns the path [Data/<file_name>] below
    the working directory with the content of the drive file in it, or
    [None], and then there is no file at that path: what was written is
    removed, and so is a file that was there before. It raises only when
    the directory cannot be made or the removal fails. The drive and the
    other files stay as they were. *)
Theorem download_file_leaves_no_partial_file
    (file_id file_name : string) (sv : services) (s : session) :
  let out := main.download_file file_id file_name sv s in
  let data_folder := os_path.join (cwd sv) "Data" in
  let file_path := os_path.join data_folder file_name in
  drive (disk (snd out)) = drive (disk s) ∧
  (∀ path, path ≠ file_path → fs (disk (snd out)) !! path = fs (disk s) !! path) ∧
  match fst out with
  | Done (Some path) =>
      path = file_path ∧
      ∃ f, List.find (λ f, String.eqb (rf_id f) file_id) (drive (disk s)) = Some f ∧
           fs (disk (snd out)) !! file_path = Some (rf_content f)
  | Done None => fs (disk (snd out)) !! file_path = None
  | Raised e =>
      e = CallFailed (Makedirs data_folder) ∨ fails sv (OpRemove file_path) = true
  end.
Proof.
  cbv zeta.
  destruct (download_file_run file_id file_name sv s) as (r & s' & -> & Hdrive & _ & Hfs & Hr).
  cbn [fst snd]. split_and!; try done.
  destruct r as [[path|]|e]; try done. destruct Hr as [[-> _]|Hr]; [by left|by right].
Qed.

(* ===================================================================== *)
(** * What a computation of the service keeps, and how it ends *)
(* ===================================================================== *)

(** [m] keeps the relation [R] between the session it starts from and the
    one it ends in. *)
Definition stays {A} (R : session → session → Prop) (m : app A) : Prop :=
  ∀ sv s, R s (snd (m sv s)).

Definition stays_block {L A} (R : session → session → Prop) (b : block L A) : Prop :=
  ∀ l sv s, R s (snd (b l sv s)).

(** [m] never raises. *)
Definition never_raises {A} (m : app A) : Prop := ∀ sv s, ∃ a, fst (m sv s) = Done a.

(** What [m] returns satisfies [P]. *)
Definition gives {A} (P : A → Prop) (m : app A) : Prop :=
  ∀ sv s a, fst (m sv s) = Done a → P a.

Definition gives_block {L A} (P : A → Prop) (b : block L A) : Prop :=
  ∀ l sv s a, fst (fst (b l sv s)) = Done a → P a.

Lemma block_bind_run {L A B} (m : block L A) (k : A → block L B) l sv s :
  (m ≫= k) l sv s = match m l sv s with
                    | ((Done a, l'), s') => k a l' sv s'
                    | ((Raised e, l'), s') => ((Raised e, l'), s')
                    end.
Proof. reflexivity. Qed.

Lemma run_run {L A} (m : app A) (l : L) sv s :
  run m l sv s = ((fst (m sv s), l), snd (m sv s)).
Proof. unfold run. by destruct (m sv s). Qed.

(** The relations that logging, tracing and recording a call keep. *)
Class Quiet (R : session → session → Prop) : Prop := {
  R_refl : ∀ s, R s s;
  R_trans : ∀ s1 s2 s3, R s1 s2 → R s2 s3 → R s1 s3;
  R_log : ∀ entries s, R s (logged entries s);
  R_call : ∀ c s, R s (add_call c s);
  R_trace : ∀ op s, R s (set_disk (add_trace op) s);
}.

Section Stays.
Context (R : session → session → Prop) `{!Quiet R}.

Lemma stays_mret {A} (a : A) : stays R (mret a).
Proof. intros sv s. apply R_refl. Qed.

Lemma stays_throw {A} e : stays R (@throw A e).
Proof. intros sv s. apply R_refl. Qed.

Lemma stays_bind {A B} (m : app A) (k : A → app B) :
  stays R m → (∀ a, stays R (k a)) → stays R (m ≫= k).
Proof.
  intros Hm Hk sv s. rewrite app_bind_run. specialize (Hm sv s).
  destruct (m sv s) as [[a|e] s1]; [|exact Hm].
  eapply R_trans; [exact Hm|apply Hk].
Qed.

Lemma stays_try_catch {A} (body : app A) handler :
  stays R body → (∀ e, stays R (handler e)) → stays R (try_catch body handler).
Proof.
  intros Hb Hh sv s. unfold try_catch. specialize (Hb sv s).
  destruct (body sv s) as [[a|e] s1]; [exact Hb|].
  eapply R_trans; [exact Hb|apply Hh].
Qed.

Lemma stays_logger_info msg : stays R (logger_info msg).
Proof. intros sv s. apply R_log. Qed.

Lemma stays_logger_warning msg : stays R (logger_warning msg).
Proof. intros sv s. apply R_log. Qed.

Lemma stays_logger_error msg : stays R (logger_error msg).
Proof. intros sv s. apply R_log. Qed.

Lemma stays_request c : stays R (request c).
Proof. intros sv s. rewrite request_run. destruct (refuses sv c); apply R_call. Qed.

Lemma stays_asks {A} (f : services → session → A) : stays R (asks f).
Proof. intros sv s. apply R_refl. Qed.

Lemma stays_sleep n : stays R (sleep n).
Proof. intros sv s. apply R_call. Qed.

Lemma stays_getenv name : stays R (pipeline (getenv name)).
Proof. intros sv s. rewrite getenv_run. apply R_refl. Qed.

Lemma stays_exists path : stays R (pipeline (exists_ path)).
Proof. intros sv s. rewrite exists_run. apply R_refl. Qed.

Lemma stays_content_of path : stays R (content_of path).
Proof. intros sv s. unfold content_of. destruct (fs (disk s) !! path); apply R_refl. Qed.

Lemma stays_run {L A} (m : app A) : stays R m → stays_block (L:=L) R (run m).
Proof. intros Hm l sv s. rewrite run_run. apply Hm. Qed.

Lemma stays_assign {L} (f : L → L) : stays_block R (assign f).
Proof. intros l sv s. apply R_refl. Qed.

Lemma stays_block_mret {L A} (a : A) : stays_block (L:=L) R (mret a).
Proof. intros l sv s. apply R_refl. Qed.

Lemma stays_block_bind {L A B} (m : block L A) (k : A → block L B) :
  stays_block R m → (∀ a, stays_block R (k a)) → stays_block R (m ≫= k).
Proof.
  intros Hm Hk l sv s. rewrite block_bind_run. specialize (Hm l sv s).
  destruct (m l sv s) as [[[a|e] l1] s1]; [|exact Hm].
  eapply R_trans; [exact Hm|apply Hk].
Qed.

Lemma stays_try_locals {L A} (unbound : L) (body : block L A) handler fin :
  stays_block R body → (∀ l e, stays R (handler l e)) → (∀ l, stays R (fin l)) →
  stays R (try_locals unbound body handler fin).
Proof.
  intros Hb Hh Hf sv s. unfold try_locals. specialize (Hb unbound sv s).
  destruct (body unbound sv s) as [[r l] s1]. cbn [snd] in Hb.
  assert (∃ r' s2, (match r with
                    | Done a => (Done a, s1)
                    | Raised e => handler l e sv s1
                    end) = (r', s2) ∧ R s s2) as (r' & s2 & -> & H2).
  { destruct r as [a|e]; [by eexists _, _|].
    specialize (Hh l e sv s1). destruct (handler l e sv s1) as [r' s2].
    eexists _, _. split; [done|]. eapply R_trans; [exact Hb|exact Hh]. }
  specialize (Hf l sv s2). destruct (fin l sv s2) as [[[]|e] s3];
    cbn [snd] in *; eapply R_trans; eauto.
Qed.

Lemma stays_called calls s : R s (called calls s).
Proof.
  induction calls as [|c calls IH] using rev_ind.
  - rewrite called_nil. apply R_refl.
  - rewrite <- called_app. eapply R_trans; [apply IH|]. apply R_call.
Qed.

(** [translate_text] touches the log and the list of calls only. *)
Lemma stays_translate_text text : stays R (main.translate_text text).
Proof.
  intros sv s. destruct (translate_text_run text sv s) as (entries & ->). cbn [snd].
  eapply R_trans; [apply R_log|apply stays_called].
Qed.

End Stays.

(** ** Never raising *)

Lemma never_raises_mret {A} (a : A) : never_raises (mret a).
Proof. intros sv s. by exists a. Qed.

Lemma never_raises_bind {A B} (m : app A) (k : A → app B) :
  never_raises m → (∀ a, never_raises (k a)) → never_raises (m ≫= k).
Proof.
  intros Hm Hk sv s. rewrite app_bind_run. destruct (Hm sv s) as (a & Ha).
  destruct (m sv s) as [r s1]. cbn [fst] in Ha. subst r. apply Hk.
Qed.

Lemma never_raises_try_catch {A} (body : app A) handler :
  (∀ e, never_raises (handler e)) → never_raises (try_catch body handler).
Proof.
  intros Hh sv s. unfold try_catch. destruct (body sv s) as [[a|e] s1]; [by exists a|].
  apply Hh.
Qed.

Lemma never_raises_try_locals {L A} (unbound : L) (body : block L A) handler fin :
  (∀ l e, never_raises (handler l e)) → (∀ l, never_raises (fin l)) →
  never_raises (try_locals unbound body handler fin).
Proof.
  intros Hh Hf sv s. unfold try_locals.
  destruct (body unbound sv s) as [[r l] s1].
  assert (∃ a s2, (match r with
                   | Done a => (Done a, s1)
                   | Raised e => handler l e sv s1
                   end) = (Done a, s2)) as (a & s2 & ->).
  { destruct r as [a|e]; [by eexists _, _|].
    destruct (Hh l e sv s1) as (a & Ha). destruct (handler l e sv s1) as [r' s2].
    cbn [fst] in Ha. subst r'. by eexists _, _. }
  destruct (Hf l sv s2) as ([] & Hfin). destruct (fin l sv s2) as [r3 s3].
  cbn [fst] in Hfin. subst r3. by exists a.
Qed.

Lemma never_raises_logger_info msg : never_raises (logger_info msg).
Proof. intros sv s. by exists tt. Qed.

Lemma never_raises_logger_error msg : never_raises (logger_error msg).
Proof. intros sv s. by exists tt. Qed.

Lemma never_raises_exists path : never_raises (pipeline (exists_ path)).
Proof. intros sv s. rewrite exists_run. by eexists. Qed.

Lemma never_raises_getenv name : never_raises (pipeline (getenv name)).
Proof. intros sv s. rewrite getenv_run. by eexists. Qed.

Lemma never_raises_translate_text text : never_raises (main.translate_text text).
Proof. intros sv s. destruct (translate_text_run text sv s) as (entries & ->). by eexists. Qed.

(* ===================================================================== *)
(** * [translate_file] *)
(* ===================================================================== *)

(** The path of the translation of the file at [file_path]. *)
Definition translated_path_of (file_path : string) : string :=
  let '(file_dir, file_name) := os_path_split file_path in
  let '(file_name_without_ext, file_ext) := os_path.splitext file_name in
  os_path.join file_dir (file_name_without_ext +:+ "_AI_Translated" +:+ file_ext).

(** Between the two sessions the drive, the environment and every file
    outside [paths] are the same. *)
Definition touches (paths : list string) (s s' : session) : Prop :=
  drive (disk s') = drive (disk s) ∧
  os_environ s' = os_environ s ∧
  VIDEO_FOLDERS s' = VIDEO_FOLDERS s ∧
  ∀ path, path ∉ paths → fs (disk s') !! path = fs (disk s) !! path.

#[global] Instance touches_quiet paths : Quiet (touches paths).
Proof.
  split; try (intros; by split_and!).
  intros s1 s2 s3 (Hd & He & Hv & Hf) (Hd' & He' & Hv' & Hf'). split_and!; try congruence.
  intros path Hpath. by rewrite Hf', Hf.
Qed.

Lemma stays_remove paths path :
  path ∈ paths → stays (touches paths) (pipeline (remove path)).
Proof.
  intros Hin sv s. rewrite remove_run.
  destruct (fails sv (OpRemove path)); [apply R_trace|].
  destruct (bool_decide _); [|apply R_trace].
  split_and!; try done. intros q Hq. cbn. apply lookup_delete_ne. by intros ->.
Qed.

Lemma stays_write_file paths path data :
  path ∈ paths → stays (touches paths) (pipeline (with_open path (write path data))).
Proof.
  intros Hin sv s. rewrite pipeline_run.
  unfold with_open, open_w, write, close, try_finally, external.
  cbv [mbind io_bind get_world modify raise ret mret io_ret host_of io_fails].
  assert (∀ q, q ∉ paths → q ≠ path) as Hne by (intros q Hq ->; done).
  destruct (fails sv (OpOpen path)); cbn; [by split_and!|].
  destruct (fails sv (OpWrite path data)); cbn;
    destruct (fails sv (OpClose path)); cbn; split_and!; try done;
    intros q Hq; specialize (Hne q Hq); simpl;
    rewrite ?lookup_alter_ne, ?lookup_insert_ne by done; done.
Qed.

Lemma stays_save_document paths new_doc path :
  path ∈ paths → stays (touches paths) (main.save_document new_doc path).
Proof.
  intros Hin sv s. unfold main.save_document. rewrite app_bind_run, request_run.
  destruct (refuses sv (SaveDocument path)); [apply R_call|].
  cbn. split_and!; try done. intros q Hq. apply lookup_insert_ne. by intros ->.
Qed.

(** One rule of [stays] is applied. *)
Ltac stays_step :=
  first
    [ apply stays_mret | apply stays_throw | apply stays_logger_info
    | apply stays_logger_warning | apply stays_logger_error | apply stays_request
    | apply stays_asks | apply stays_sleep | apply stays_getenv | apply stays_exists
    | apply stays_content_of | apply stays_translate_text
    | apply stays_assign | apply stays_block_mret
    | apply stays_run
    | (apply stays_bind; try exact _; [|intros ?])
    | (apply stays_block_bind; try exact _; [|intros ?])
    | (apply stays_try_catch; try exact _; [|intros ?])
    | (apply stays_try_locals; try exact _; [|intros ? ?|intros ?]) ];
  try exact _.

Lemma stays_translate_paragraphs R `{!Quiet R} texts :
  stays R (main.translate_paragraphs texts).
Proof.
  induction texts as [|text rest IH]; cbn [main.translate_paragraphs].
  - stays_step.
  - stays_step; [|stays_step; [exact IH|stays_step]].
    destruct (truthy (strip text)); [|stays_step].
    stays_step; [stays_step|]. destruct (nonempty _); stays_step.
Qed.

Lemma stays_translate_pages R `{!Quiet R} file_path n pages : ∀ page_num,
  stays R (main.translate_pages file_path n page_num pages).
Proof.
  induction pages as [|text rest IH]; intros page_num; cbn [main.translate_pages].
  - stays_step.
  - do 2 (stays_step; [stays_step|]).
    stays_step; [|stays_step; [apply IH|stays_step]].
    destruct (truthy (strip text)); [|stays_step].
    stays_step; [stays_step|]. destruct (nonempty _); [|stays_step].
    stays_step; stays_step.
Qed.

Lemma never_raises_remove_logged path :
  never_raises
    (try_catch
       (pipeline (remove path);;
        logger_info ("Cleaned up partial translation file: " +:+ path))
       (λ cleanup_error,
          logger_error ("Error cleaning up translation file: " +:+ str_error cleanup_error))).
Proof. apply never_raises_try_catch. intros e. apply never_raises_logger_error. Qed.

(** The branches of [translate_file] return from inside only [None]. *)
Definition falls_through (returned : option (option string)) : Prop :=
  returned = None ∨ returned = Some None.

Lemma gives_block_bind {L A B} (P : B → Prop) (m : block L A) (k : A → block L B) :
  (∀ a, gives_block P (k a)) → gives_block P (m ≫= k).
Proof.
  intros Hk l sv s b. rewrite block_bind_run.
  destruct (m l sv s) as [[[a|e] l1] s1]; [apply Hk|done].
Qed.

Lemma gives_block_mret {L A} (P : A → Prop) (a : A) : P a → gives_block (L:=L) P (mret a).
Proof. intros Ha l sv s b [= <-]. exact Ha. Qed.


(** The three branches of [translate_file], by MIME type. *)
Definition translate_by_type (file_path mime_type new_file_path : string)
    : block (option string) (option (option string)) :=
  if String.eqb mime_type main.docx_mime_type then
    run (logger_info "Processing Word document");;
    doc ← run (main.open_document file_path);
    new_doc ← run (main.translate_paragraphs doc);
    run (main.save_document new_doc new_file_path);;
    mret None
  else if String.eqb mime_type "application/pdf" then
    run (logger_info "Processing PDF document");;
    reader ← run (main.open_pdf file_path);
    writer ← run (main.translate_pages file_path (List.length reader) 1 reader);
    pdf ← run (asks (fun sv _ => pdf sv writer));
    run (pipeline (with_open new_file_path (write new_file_path pdf)));;
    mret None
  else
    run (logger_info "Processing text-based file");;
    text ← run (read_text file_path);
    translated_text ← run (main.translate_text text);
    match translated_text with
    | None =>
        run (logger_error "Translation failed");;
        mret (Some None)
    | Some translated_text =>
        run (pipeline (with_open new_file_path (write new_file_path translated_text)));;
        mret None
    end.

(** What follows the branches. *)
Definition translated_or_not (new_file_path : string) (returned : option (option string))
    : block (option string) (option string) :=
  match returned with
  | Some r => mret r
  | None =>
      present ← run (pipeline (exists_ new_file_path));
      if present : bool then
        run (logger_info ("Successfully translated file to " +:+ new_file_path));;
        mret (Some new_file_path)
      else
        run (logger_error ("Translation file not created: " +:+ new_file_path));;
        mret None
  end.

(** The handler of [translate_file]. *)
Definition translate_file_handler (new_file_path : option string) (e : error)
    : app (option string) :=
  logger_error ("Error translating file: " +:+ str_error e);;
  match new_file_path with
  | Some new_file_path =>
      present ← pipeline (exists_ new_file_path);
      if present : bool then
        try_catch
          (pipeline (remove new_file_path);;
           logger_info ("Cleaned up partial translation file: " +:+ new_file_path))
          (fun cleanup_error =>
             logger_error ("Error cleaning up translation file: "
                           +:+ str_error cleanup_error))
      else mret tt
  | None => mret tt
  end;;
  mret None.

Lemma translate_file_unfold file_path mime_type :
  main.translate_file file_path mime_type =
  (logger_info ("Starting file translation for " +:+ file_path);;
   try_locals None
     (assign (fun _ => Some (translated_path_of file_path));;
      returned ← translate_by_type file_path mime_type (translated_path_of file_path);
      translated_or_not (translated_path_of file_path) returned)
     translate_file_handler
     (fun _ => mret tt)).
Proof.
  unfold main.translate_file, translated_path_of.
  destruct (os_path_split file_path) as [file_dir file_name].
  by destruct (os_path.splitext file_name) as [file_name_without_ext file_ext].
Qed.

(** The handler of [translate_file] returns [None]. *)
Lemma translate_file_handler_run (new_file_path : option string) e sv s :
  ∃ s', translate_file_handler new_file_path e sv s = (Done None, s').
Proof.
  unfold translate_file_handler. app_step. rewrite app_bind_run.
  destruct new_file_path as [path|]; [|by eexists].
  app_step. destruct (bool_decide _); [|by eexists].
  destruct (never_raises_remove_logged path sv (logged
              [(ERROR, "Error translating file: " +:+ str_error e)] s)) as ([] & Hr).
  match goal with |- context [try_catch ?b ?h sv ?s0] =>
    destruct (try_catch b h sv s0) as [r s1] end.
  cbn [fst] in Hr. subst r. by eexists.
Qed.

(** The end of the [try] block of [translate_file]: what the branch
    returned, or the new path if the file is there. *)
Lemma translated_or_not_run new_file_path returned (l : option string) sv s r l' s' :
  falls_through returned →
  translated_or_not new_file_path returned l sv s = ((Done r, l'), s') →
  ∀ path, r = Some path → path = new_file_path ∧ is_Some (fs (disk s') !! new_file_path).
Proof.
  unfold translated_or_not. intros [->| ->]; [|by intros [= <- <- <-]].
  rewrite block_bind_run, run_run, exists_run. cbn [fst snd].
  destruct (bool_decide _) eqn:Hpresent.
  - rewrite block_bind_run, run_run, logger_info_run. cbn [fst snd].
    intros [= <- <- <-]. intros path [= <-]. split; [done|].
    by apply bool_decide_eq_true in Hpresent.
  - rewrite block_bind_run, run_run, logger_error_run. cbn [fst snd].
    by intros [= <- <- <-].
Qed.

Lemma gives_translate_by_type file_path mime_type new_file_path :
  gives_block falls_through (translate_by_type file_path mime_type new_file_path).
Proof.
  unfold translate_by_type.
  destruct (String.eqb mime_type main.docx_mime_type);
    [|destruct (String.eqb mime_type "application/pdf")].
  - do 4 (apply gives_block_bind; intros ?). apply gives_block_mret. by left.
  - do 5 (apply gives_block_bind; intros ?). apply gives_block_mret. by left.
  - do 3 (apply gives_block_bind; intros ?).
    match goal with |- context [match ?t with _ => _ end] => destruct t end;
      apply gives_block_bind; intros ?; apply gives_block_mret; [by left|by right].
Qed.

Lemma stays_open_document R `{!Quiet R} file_path : stays R (main.open_document file_path).
Proof. unfold main.open_document. repeat stays_step. Qed.

Lemma stays_open_pdf R `{!Quiet R} file_path : stays R (main.open_pdf file_path).
Proof. unfold main.open_pdf. repeat stays_step. Qed.

Lemma stays_read_text R `{!Quiet R} path : stays R (read_text path).
Proof. unfold read_text. repeat stays_step. Qed.

Lemma stays_translate_by_type paths file_path mime_type new_file_path :
  new_file_path ∈ paths →
  stays_block (touches paths) (translate_by_type file_path mime_type new_file_path).
Proof.
  intros Hin. unfold translate_by_type.
  destruct (String.eqb mime_type main.docx_mime_type);
    [|destruct (String.eqb mime_type "application/pdf")].
  - stays_step; [repeat stays_step|].
    stays_step; [stays_step; apply stays_open_document; exact _|].
    stays_step; [stays_step; apply stays_translate_paragraphs; exact _|].
    stays_step; [stays_step; by apply stays_save_document|]. stays_step.
  - stays_step; [repeat stays_step|].
    stays_step; [stays_step; apply stays_open_pdf; exact _|].
    stays_step; [stays_step; apply stays_translate_pages; exact _|].
    stays_step; [repeat stays_step|].
    stays_step; [stays_step; by apply stays_write_file|]. stays_step.
  - stays_step; [repeat stays_step|].
    stays_step; [stays_step; apply stays_read_text; exact _|].
    stays_step; [repeat stays_step|].
    match goal with |- context [match ?t with _ => _ end] => destruct t end.
    + stays_step; [stays_step; by apply stays_write_file|]. stays_step.
    + repeat stays_step.
Qed.

Lemma stays_translated_or_not R `{!Quiet R} new_file_path returned :
  stays_block R (translated_or_not new_file_path returned).
Proof.
  unfold translated_or_not. destruct returned; [stays_step|].
  stays_step; [repeat stays_step|].
  match goal with |- context [if ?b then _ else _] => destruct b end; repeat stays_step.
Qed.

Lemma stays_translate_file_handler paths new_file_path e :
  (∀ path, new_file_path = Some path → path ∈ paths) →
  stays (touches paths) (translate_file_handler new_file_path e).
Proof.
  intros Hin. unfold translate_file_handler.
  stays_step; [stays_step|]. stays_step; [|stays_step].
  destruct new_file_path as [path|]; [|stays_step].
  stays_step; [stays_step|].
  match goal with |- context [if ?b then _ else _] => destruct b end; [|stays_step].
  stays_step; [|stays_step]. stays_step; [|stays_step]. apply stays_remove. by apply Hin.
Qed.

(** ** Blocks that assign to no local *)

Definition keeps_frame {L A} (b : block L A) : Prop :=
  ∀ l sv s, snd (fst (b l sv s)) = l.

Lemma keeps_frame_run {L A} (m : app A) : keeps_frame (L:=L) (run m).
Proof. intros l sv s. by rewrite run_run. Qed.

Lemma keeps_frame_mret {L A} (a : A) : keeps_frame (L:=L) (mret a).
Proof. by intros l sv s. Qed.

Lemma keeps_frame_bind {L A B} (m : block L A) (k : A → block L B) :
  keeps_frame m → (∀ a, keeps_frame (k a)) → keeps_frame (m ≫= k).
Proof.
  intros Hm Hk l sv s. rewrite block_bind_run. specialize (Hm l sv s).
  destruct (m l sv s) as [[[a|e] l1] s1]; cbn [fst snd] in *; subst l1; [apply Hk|done].
Qed.

Ltac keeps_frame_step :=
  first [ apply keeps_frame_run | apply keeps_frame_mret
        | (apply keeps_frame_bind; [|intros ?]) ].

Lemma keeps_frame_translate_by_type file_path mime_type new_file_path :
  keeps_frame (translate_by_type file_path mime_type new_file_path).
Proof.
  unfold translate_by_type.
  destruct (String.eqb mime_type main.docx_mime_type);
    [|destruct (String.eqb mime_type "application/pdf")]; repeat keeps_frame_step.
  match goal with |- context [match ?t with _ => _ end] => destruct t end;
    repeat keeps_frame_step.
Qed.

Lemma keeps_frame_translated_or_not new_file_path returned :
  keeps_frame (translated_or_not new_file_path returned).
Proof.
  unfold translated_or_not. destruct returned; repeat keeps_frame_step.
  match goal with |- context [if ?b then _ else _] => destruct b end; repeat keeps_frame_step.
Qed.

(** A run of [translate_file]. *)
Lemma translate_file_run paths file_path mime_type sv s :
  translated_path_of file_path ∈ paths →
  ∃ r s',
    main.translate_file file_path mime_type sv s = (Done r, s') ∧
    touches paths s s' ∧
    ∀ path, r = Some path →
      path = translated_path_of file_path ∧
      is_Some (fs (disk s') !! translated_path_of file_path).
Proof.
  intros Hin. rewrite translate_file_unfold. app_step.
  set (new_file_path := translated_path_of file_path) in *.
  set (s0 := logged _ s).
  assert (touches paths s s0) as H0 by apply R_log.
  assert (∀ e s1, touches paths s s1 →
            ∃ s', translate_file_handler (Some new_file_path) e sv s1 = (Done None, s') ∧
                  touches paths s s') as Hhandler.
  { intros e s1 H1. destruct (translate_file_handler_run (Some new_file_path) e sv s1)
      as (s' & Hrun).
    exists s'. split; [done|]. eapply R_trans; [exact H1|].
    pose proof (stays_translate_file_handler paths (Some new_file_path) e
                  ltac:(by intros ? [= <-]) sv s1) as Hst.
    by rewrite Hrun in Hst. }
  unfold try_locals. rewrite block_bind_run. unfold assign at 1. cbn beta iota.
  rewrite block_bind_run.
  pose proof (stays_translate_by_type paths file_path mime_type new_file_path Hin
                (Some new_file_path) sv s0) as Hst.
  pose proof (keeps_frame_translate_by_type file_path mime_type new_file_path
                (Some new_file_path) sv s0) as Hfr.
  pose proof (gives_translate_by_type file_path mime_type new_file_path
                (Some new_file_path) sv s0) as Hg.
  destruct (translate_by_type file_path mime_type new_file_path (Some new_file_path) sv s0)
    as [[[returned|e] l1] s1]; cbn [fst snd] in Hst, Hfr, Hg; subst l1.
  - pose proof (stays_translated_or_not (touches paths) new_file_path returned
                  (Some new_file_path) sv s1) as Hst'.
    pose proof (keeps_frame_translated_or_not new_file_path returned
                  (Some new_file_path) sv s1) as Hfr'.
    pose proof (translated_or_not_run new_file_path returned (Some new_file_path) sv s1)
      as Hend.
    destruct (translated_or_not new_file_path returned (Some new_file_path) sv s1)
      as [[[r|e] l2] s2]; cbn [fst snd] in Hst', Hfr'; subst l2.
    + exists r, s2. split; [done|]. split.
      * eapply R_trans; [exact H0|]. eapply R_trans; [exact Hst|exact Hst'].
      * by apply (Hend r (Some new_file_path) s2 (Hg _ eq_refl)).
    + destruct (Hhandler e s2) as (s' & -> & Hs').
      { eapply R_trans; [exact H0|]. eapply R_trans; [exact Hst|exact Hst']. }
      exists None, s'. by split_and!.
  - destruct (Hhandler e s1) as (s' & -> & Hs').
    { eapply R_trans; [exact H0|exact Hst]. }
    exists None, s'. by split_and!.
Qed.

(** [translate_file] never raises. It returns [None], or the path of the
    translation, which is the path of the file with [_AI_Translated]
    put before the extension, and then there is a file at that path. The
    drive, the environment and every other file stay as they were. *)
Theorem translate_file_returns_the_new_file
    (file_path mime_type : string) (sv : services) (s : session) :
  let out := main.translate_file file_path mime_type sv s in
  let new_file_path := translated_path_of file_path in
  (fst out = Done None ∨
   fst out = Done (Some new_file_path) ∧ is_Some (fs (disk (snd out)) !! new_file_path)) ∧
  drive (disk (snd out)) = drive (disk s) ∧
  os_environ (snd out) = os_environ s ∧
  ∀ path, path ≠ new_file_path → fs (disk (snd out)) !! path = fs (disk s) !! path.
Proof.
  cbv zeta.
  destruct (translate_file_run [translated_path_of file_path] file_path mime_type sv s
              ltac:(by left)) as (r & s' & -> & (Hdrive & Henv & _ & Hfs) & Hr).
  cbn [fst snd]. split_and!; try done.
  - destruct r as [path|]; [|by left]. right. by destruct (Hr path eq_refl) as [-> ?].
  - intros path Hne. apply Hfs. intros Hin%list_elem_of_singleton. done.
Qed.

(** ** Word documents and text files *)

(** The paragraphs [translate_file] adds to the new document: the
    translations, in order, of the paragraphs that are not blank, those
    left out whose translation failed or is empty. *)
Definition kept (sv : services) (env : gmap string string) (texts : list string)
    : list string :=
  omap (λ text, if truthy (strip text) then nonempty (translation sv env text) else None)
       texts.






Lemma run_step {L A B} (m : app A) (k : A → block L B) l sv s :
  (run m ≫= k) l sv s = match m sv s with
                        | (Done a, s') => k a l sv s'
                        | (Raised e, s') => ((Raised e, l), s')
                        end.
Proof. rewrite block_bind_run. unfold run. by destruct (m sv s) as [[a|e] s']. Qed.







(* ===================================================================== *)
(** * [main.py]'s [check_existing_translation] and [process_file] *)
(* ===================================================================== *)

(** The name [check_existing_translation] asks for. *)
Definition translated_name_of (file_name : string) : string :=
  fst (os_path.splitext file_name) +:+ "_AI_Translated.srt".

Lemma main_check_run file_name output_folder_id h w :
  let name := translated_name_of file_name in
  let folder := str_opt output_folder_id in
  ∃ entries,
    main.check_existing_translation file_name output_folder_id h w =
      (Ok (io_fails h (OpListFolder name folder) || listed name folder (drive w)),
       World (fs w) (drive w) (trace w ++ [OpListFolder name folder]) (log w ++ entries)).
Proof.
  cbv zeta. unfold main.check_existing_translation, try_except, external.
  fold (translated_name_of file_name).
  cbv [mbind io_bind get_world logger modify ret mret io_ret raise].
  cbn [add_log add_trace fs drive trace log].
  destruct (io_fails h _); cbn [orb].
  - eexists. unfold add_log, add_trace. cbn [fs drive trace log].
    rewrite <- (assoc_L (++)). reflexivity.
  - unfold add_log, add_trace. cbn [fs drive trace log].
    destruct (listed _ _ (drive w)); eexists; unfold add_log, add_trace;
      cbn [fs drive trace log]; rewrite <- (assoc_L (++)); reflexivity.
Qed.

(** [main.py]'s [check_existing_translation] never raises and fails
    closed: it makes one listing request, for [<stem>_AI_Translated.srt]
    in the folder given, and returns [True] when the request finds such a
    file and also when the request fails. Disk and drive stay as they
    were. *)
Theorem main_check_existing_translation_fails_closed
    (file_name : string) (output_folder_id : option string) (h : host) (w : world) :
  let out := main.check_existing_translation file_name output_folder_id h w in
  let request :=
    OpListFolder (fst (os_path.splitext file_name) +:+ "_AI_Translated.srt")
                 (str_opt output_folder_id) in
  fst out = Ok (io_fails h request ||
                listed (fst (os_path.splitext file_name) +:+ "_AI_Translated.srt")
                       (str_opt output_folder_id) (drive w)) ∧
  calls (main.check_existing_translation file_name output_folder_id) h w = [request] ∧
  fs (snd out) = fs w ∧
  drive (snd out) = drive w.
Proof.
  cbv zeta. unfold calls.
  destruct (main_check_run file_name output_folder_id h w) as (entries & ->).
  cbn [fst snd trace fs drive]. split_and!; try done.
  by rewrite drop_app_length.
Qed.

(** A run of [upload_file]. *)
Lemma upload_file_run file_path folder_id relative_path sv s :
  ∃ r s',
    main.upload_file file_path folder_id relative_path sv s = (Done r, s') ∧
    fs (disk s') = fs (disk s) ∧
    os_environ s' = os_environ s ∧
    (r = None ∧ drive (disk s') = drive (disk s) ∨
     ∃ id parent content,
       r = Some id ∧ id ≠ "" ∧
       fs (disk s) !! file_path = Some content ∧
       (folder_id = Some parent ∨ folder_id = None ∧ null_parent sv = Some parent) ∧
       drive (disk s') =
         (drive (disk s) ++
          [RemoteFile id (os_path.basename file_path) parent false content])%list).
Proof.
  destruct (main.upload_file file_path folder_id relative_path sv s) as [r s'] eqn:Hrun.
  unfold main.upload_file, main.files_create in Hrun. step_in Hrun.
  cbv [external raise host_of io_fails] in Hrun.
  destruct relative_path as [[|folder rest]|]; simpl in Hrun.
  2: { injection Hrun as <- <-. eexists _, _. split; [done|]. simpl. split_and!; try done.
       by left. }
  all: destruct folder_id as [parent|]; [|destruct (null_parent sv) as [parent|] eqn:Hnull];
    simpl in Hrun.
  3, 6: injection Hrun as <- <-; eexists _, _; (split; [done|]); simpl; split_and!;
    try done; by left.
  all: destruct (fs (disk s) !! file_path) as [content|] eqn:Hfile; simpl in Hrun;
    [destruct (fails sv (OpUpload file_path parent)) eqn:Hup; simpl in Hrun|];
    injection Hrun as <- <-; eexists _, _; (split; [done|]); simpl; split_and!; try done;
    try (by left).
  all: right; eexists _, parent, content; split_and!; try done; eauto.
Qed.

Lemma remove_if_exists_run path sv s :
  main.remove_if_exists path sv s =
  match nonempty path with
  | Some p => if bool_decide (is_Some (fs (disk s) !! p)) then pipeline (remove p) sv s
              else (Done tt, s)
  | None => (Done tt, s)
  end.
Proof.
  unfold main.remove_if_exists. destruct (nonempty path) as [p|]; [|done].
  rewrite app_bind_run, exists_run. by destruct (bool_decide _).
Qed.

(** The [finally] clause of [process_file]. *)
Definition process_file_cleanup (locals : option string * option string) : app unit :=
  try_catch
    (main.remove_if_exists (fst locals);;
     main.remove_if_exists (snd locals))
    (fun e => logger_error ("Error during cleanup: " +:+ str_error e)).

(** One removal of the [finally] clause: every file is as it was or is
    gone, and only the file at [path] can be gone. *)
Lemma remove_if_exists_spec path sv s :
  ∃ r s',
    main.remove_if_exists path sv s = (r, s') ∧
    drive (disk s') = drive (disk s) ∧
    os_environ s' = os_environ s ∧
    made s' = made s ∧
    log (disk s') = log (disk s) ∧
    (∀ q, fs (disk s') !! q = fs (disk s) !! q ∨
          fs (disk s') !! q = None ∧ path = Some q) ∧
    (nonempty path = None → r = Done tt ∧ fs (disk s') = fs (disk s)) ∧
    (∀ p, nonempty path = Some p → fails sv (OpRemove p) = false →
       r = Done tt ∧ fs (disk s') !! p = None).
Proof.
  rewrite remove_if_exists_run. destruct (nonempty path) as [p|] eqn:Hp.
  2: { eexists _, _. split; [done|]. split_and!; try done. by left. }
  pose proof (nonempty_Some _ _ Hp) as ->.
  destruct (bool_decide (is_Some (fs (disk s) !! p))) eqn:Hpresent.
  - rewrite remove_run, Hpresent. destruct (fails sv (OpRemove p)) eqn:Hrm.
    + eexists _, _. split; [done|]. cbn. split_and!; try done; [by left|].
      intros p' [= <-]. congruence.
    + eexists _, _. split; [done|]. cbn. split_and!; try done.
      * intros q. destruct (decide (q = p)) as [->|Hne].
        -- right. split; [apply lookup_delete_eq|done].
        -- left. by apply lookup_delete_ne.
      * intros p' [= <-] _. split; [done|apply lookup_delete_eq].
  - eexists _, _. split; [done|]. split_and!; try done; [by left|].
    intros p' [= <-] _. split; [done|].
    apply bool_decide_eq_false in Hpresent. by apply eq_None_not_Some.
Qed.

Lemma process_file_cleanup_run file_path translated_path sv s :
  ∃ s',
    process_file_cleanup (file_path, translated_path) sv s = (Done tt, s') ∧
    drive (disk s') = drive (disk s) ∧
    os_environ s' = os_environ s ∧
    made s' = made s ∧
    (∀ path, Some path ≠ file_path → Some path ≠ translated_path →
       fs (disk s') !! path = fs (disk s) !! path) ∧
    (nonempty file_path = None → nonempty translated_path = None →
       fs (disk s') = fs (disk s) ∧ log (disk s') = log (disk s)) ∧
    (∀ p, nonempty file_path = Some p → fails sv (OpRemove p) = false →
       fs (disk s') !! p = None ∧
       ∀ q, nonempty translated_path = Some q → fails sv (OpRemove q) = false →
         fs (disk s') !! q = None).
Proof.
  unfold process_file_cleanup, try_catch. cbn [fst snd]. rewrite app_bind_run.
  destruct (remove_if_exists_spec file_path sv s)
    as (r1 & s1 & -> & Hd1 & He1 & Hm1 & Hl1 & Hfs1 & Hnone1 & Hsome1).
  destruct r1 as [[]|e1].
  - destruct (remove_if_exists_spec translated_path sv s1)
      as (r2 & s2 & -> & Hd2 & He2 & Hm2 & Hl2 & Hfs2 & Hnone2 & Hsome2).
    destruct r2 as [[]|e2].
    + exists s2. split; [done|]. split_and!; try congruence.
      * intros path Hne1 Hne2. destruct (Hfs2 path) as [->|[_ ->]]; [|done].
        by destruct (Hfs1 path) as [->|[_ ->]].
      * intros Hp Hq. destruct (Hnone2 Hq) as [_ ->]. destruct (Hnone1 Hp) as [_ ->].
        split; [done|congruence].
      * intros p Hp Hrm. destruct (Hsome1 p Hp Hrm) as [_ Hgone]. split.
        -- by destruct (Hfs2 p) as [->|[-> _]].
        -- intros q Hq Hrm'. by destruct (Hsome2 q Hq Hrm') as [_ ->].
    + rewrite logger_error_run. eexists. split; [reflexivity|]. cbn.
      rewrite Hd2, He2, Hm2. split_and!; try congruence.
      * intros path Hne1 Hne2. destruct (Hfs2 path) as [->|[_ ->]]; [|done].
        by destruct (Hfs1 path) as [->|[_ ->]].
      * intros _ Hq. by destruct (Hnone2 Hq).
      * intros p Hp Hrm. destruct (Hsome1 p Hp Hrm) as [_ Hgone]. split.
        -- by destruct (Hfs2 p) as [->|[-> _]].
        -- intros q Hq Hrm'. by destruct (Hsome2 q Hq Hrm').
  - rewrite logger_error_run. eexists. split; [reflexivity|]. cbn.
    rewrite Hd1, He1, Hm1. split_and!; try done.
    + intros path Hne1 _. by destruct (Hfs1 path) as [->|[_ ->]].
    + intros Hp _. by destruct (Hnone1 Hp).
    + intros p Hp Hrm. by destruct (Hsome1 p Hp Hrm).
Qed.

Lemma join_nonempty_l a b : a ≠ "" → os_path.join a b ≠ "".
Proof.
  intros Ha. unfold os_path.join.
  assert (∀ c, a +:+ c ≠ "") as Happ by (intros c; by destruct a).
  destruct b as [|c b]; [|destruct (Ascii.eqb_spec c "/") as [->|Hc]].
  - destruct (_ || _); apply Happ.
  - done.
  - assert (match c with
            | "/"%char => String c b
            | _ => if negb (truthy a)
                      || Ascii.eqb (default "."%char (String.get (String.length a - 1) a)) "/"
                   then a +:+ String c b else a +:+ "/" +:+ String c b
            end ≠ "") as H; [|exact H].
    destruct c as [[] [] [] [] [] [] [] []]; try done; destruct (_ || _); apply Happ.
Qed.

Lemma data_path_nonempty sv file_name :
  os_path.join (os_path.join (cwd sv) "Data") file_name ≠ "".
Proof. apply join_nonempty_l. by apply join_nonempty. Qed.

Lemma translated_path_nonempty file_path : translated_path_of file_path ≠ "".
Proof.
  unfold translated_path_of. destruct (os_path_split file_path) as [file_dir file_name].
  destruct (os_path.splitext file_name) as [stem ext]. apply join_nonempty.
  destruct stem; [done|done].
Qed.

Lemma nonempty_Some_ne x : x ≠ "" → nonempty (Some x) = Some x.
Proof. intros Hx. cbn. by rewrite truthy_nonempty. Qed.

(** The [try] block of [process_file]. *)
Definition process_file_body (file_id file_name mime_type : string)
    (folder_path : option (list string)) : block (option string * option string) bool :=
  output_folder_id ← run (pipeline (getenv "OUTPUT_FOLDER_ID"));
  existing ← run (pipeline (main.check_existing_translation file_name output_folder_id));
  if existing : bool then
    run (logger_info ("Skipping " +:+ file_name +:+ " - translation already exists"));;
    mret true
  else
    run (logger_info ("Processing file: " +:+ file_name));;
    file_path ← run (main.download_file file_id file_name);
    assign (fun '(_, translated_path) => (file_path, translated_path));;
    match nonempty file_path with
    | None => mret false
    | Some file_path =>
        translated_path ← run (main.translate_file file_path mime_type);
        assign (fun '(file_path, _) => (file_path, translated_path));;
        match nonempty translated_path with
        | None => mret false
        | Some translated_path =>
            output_folder_id ← run (pipeline (getenv "OUTPUT_FOLDER_ID"));
            uploaded ← run (main.upload_file translated_path output_folder_id folder_path);
            match nonempty uploaded with
            | Some _ =>
                run (logger_info ("Successfully processed " +:+ file_name));;
                mret true
            | None => mret false
            end
        end
    end.

(** The request [process_file] checks with, in a session. *)
Definition check_request (file_name : string) (s : session) : io_op :=
  OpListFolder (translated_name_of file_name) (str_opt (os_environ s !! "OUTPUT_FOLDER_ID")).

(** What the check says: the request fails, or finds the file. *)
Definition check_says_translated (file_name : string) (sv : services) (s : session) : bool :=
  fails sv (check_request file_name s) ||
  listed (translated_name_of file_name) (str_opt (os_environ s !! "OUTPUT_FOLDER_ID"))
         (drive (disk s)).

Lemma process_file_check_run file_name sv s :
  ∃ entries,
    pipeline (main.check_existing_translation file_name (os_environ s !! "OUTPUT_FOLDER_ID"))
             sv s =
    (Done (check_says_translated file_name sv s),
     set_disk (λ w, World (fs w) (drive w) (trace w ++ [check_request file_name s])
                          (log w ++ entries)) s).
Proof.
  rewrite pipeline_run.
  destruct (main_check_run file_name (os_environ s !! "OUTPUT_FOLDER_ID")
              (host_of sv s) (disk s)) as (entries & ->).
  by exists entries.
Qed.

Lemma process_file_unfold file_id file_name mime_type folder_path sv s :
  main.process_file file_id file_name mime_type folder_path sv s =
  let '((r, locals), s1) :=
    process_file_body file_id file_name mime_type folder_path (None, None) sv s in
  let '(r', s2) :=
    match r with
    | Done a => (Done a, s1)
    | Raised e =>
        (logger_error ("Error processing file " +:+ file_name +:+ ": " +:+ str_error e);;
         logger_error "Error details:";;
         mret false) sv s1
    end in
  match process_file_cleanup locals sv s2 with
  | (Done _, s3) => (r', s3)
  | (Raised e, s3) => (Raised e, s3)
  end.
Proof.
  unfold main.process_file, try_locals.
  fold (process_file_body file_id file_name mime_type folder_path).
  destruct (process_file_body _ _ _ _ _ _ _) as [[r [file_path translated_path]] s1].
  reflexivity.
Qed.

(** The block when the check says that the file is translated. *)
Lemma process_file_body_skips file_id file_name mime_type folder_path sv s :
  check_says_translated file_name sv s = true →
  ∃ s1,
    process_file_body file_id file_name mime_type folder_path (None, None) sv s =
      ((Done true, (None, None)), s1) ∧
    fs (disk s1) = fs (disk s) ∧ drive (disk s1) = drive (disk s) ∧
    os_environ s1 = os_environ s ∧ made s1 = made s ∧
    trace (disk s1) = (trace (disk s) ++ [check_request file_name s])%list.
Proof.
  intros Hcheck. unfold process_file_body.
  rewrite run_step, getenv_run. cbn beta iota. rewrite run_step.
  destruct (process_file_check_run file_name sv s) as (entries & ->).
  cbn beta iota. rewrite Hcheck. rewrite run_step, logger_info_run. cbn beta iota.
  eexists. split; [reflexivity|]. by cbn.
Qed.

(** The block when the check says that it is not. *)
Lemma process_file_body_run file_id file_name mime_type folder_path sv s :
  check_says_translated file_name sv s = false →
  let data_folder := os_path.join (cwd sv) "Data" in
  let file_path := os_path.join data_folder file_name in
  let translated_path := translated_path_of file_path in
  ∃ r downloaded translated s1,
    process_file_body file_id file_name mime_type folder_path (None, None) sv s =
      ((r, (downloaded, translated)), s1) ∧
    os_environ s1 = os_environ s ∧
    (∀ path, path ≠ file_path → path ≠ translated_path →
       fs (disk s1) !! path = fs (disk s) !! path) ∧
    (downloaded = None ∨ downloaded = Some file_path) ∧
    (translated = None ∨ translated = Some translated_path ∧ downloaded = Some file_path) ∧
    (refuses sv (Makedirs data_folder) = false → fails sv (OpRemove file_path) = false →
       downloaded = Some file_path ∨ fs (disk s1) !! file_path = None) ∧
    (r ≠ Done true ∧ drive (disk s1) = drive (disk s) ∨
     r = Done true ∧ translated = Some translated_path ∧
     ∃ id parent content,
       (os_environ s !! "OUTPUT_FOLDER_ID" = Some parent ∨
        os_environ s !! "OUTPUT_FOLDER_ID" = None ∧ null_parent sv = Some parent) ∧
       drive (disk s1) =
         (drive (disk s) ++
          [RemoteFile id (os_path.basename translated_path) parent false content])%list).
Proof.
  intros Hcheck. cbv zeta.
  set (data_folder := os_path.join (cwd sv) "Data").
  set (file_path := os_path.join data_folder file_name).
  set (translated_path := translated_path_of file_path).
  unfold process_file_body.
  rewrite run_step, getenv_run. cbn beta iota. rewrite run_step.
  destruct (process_file_check_run file_name sv s) as (entries & ->).
  cbn beta iota. rewrite Hcheck. rewrite run_step, logger_info_run. cbn beta iota.
  rewrite run_step.
  match goal with |- context [main.download_file file_id file_name sv ?s0] =>
    set (sa := s0);
    destruct (download_file_run file_id file_name sv sa)
      as (rd & s1 & -> & Hd1 & He1 & Hf1 & Hrd) end.
  fold data_folder file_path in Hf1, Hrd.
  assert (drive (disk sa) = drive (disk s) ∧ os_environ sa = os_environ s ∧
          fs (disk sa) = fs (disk s)) as (Hda & Hea & Hfa) by done.
  assert (∀ path, path ≠ file_path → fs (disk s1) !! path = fs (disk s) !! path) as Hoff1.
  { intros path Hne. rewrite Hf1 by done. by rewrite Hfa. }
  destruct rd as [[path|]|e]; cbn beta iota.
  3: { eexists _, _, _, _. split; [reflexivity|].
       split_and!; [congruence|by auto|by left|by left| |left; split; [done|congruence]].
       intros Hmk Hrm. destruct Hrd as [[_ ?]|?]; congruence. }
  2: { rewrite block_bind_run. unfold assign at 1. cbn beta iota. cbn [nonempty].
       eexists _, _, _, _. split; [reflexivity|].
       split_and!; [congruence|by auto|by left|by left|by right
                   |left; split; [done|congruence]]. }
  destruct Hrd as (-> & f & Hfind & Hcontent).
  rewrite block_bind_run. unfold assign at 1. cbn beta iota.
  rewrite (nonempty_Some_ne file_path) by apply data_path_nonempty.
  rewrite run_step.
  destruct (translate_file_run [translated_path] file_path mime_type sv s1 ltac:(by left))
    as (rt & s2 & -> & (Hd2 & He2 & _ & Hf2) & Hrt).
  fold translated_path in Hrt. cbn beta iota.
  rewrite block_bind_run. unfold assign at 1. cbn beta iota.
  assert (∀ path, path ≠ file_path → path ≠ translated_path →
            fs (disk s2) !! path = fs (disk s) !! path) as Hoff.
  { intros path Hne1 Hne2. rewrite Hf2 by (by intros ?%list_elem_of_singleton).
    by apply Hoff1. }
  destruct rt as [path|].
  2: { cbn [nonempty]. eexists _, _, _, _. split; [reflexivity|].
       split_and!; [congruence|exact Hoff|by right|by left|by left
                   |left; split; [done|congruence]]. }
  destruct (Hrt path eq_refl) as [-> Hpresent].
  rewrite (nonempty_Some_ne translated_path) by apply translated_path_nonempty.
  rewrite run_step, getenv_run. cbn beta iota. rewrite run_step.
  destruct (upload_file_run translated_path (os_environ s2 !! "OUTPUT_FOLDER_ID")
              folder_path sv s2) as (ru & s3 & -> & Hf3 & He3 & Hru).
  cbn beta iota. rewrite He2, He1, Hea in Hru.
  assert (∀ path, path ≠ file_path → path ≠ translated_path →
            fs (disk s3) !! path = fs (disk s) !! path) as Hoff3.
  { intros path Hne1 Hne2. rewrite Hf3. by apply Hoff. }
  destruct Hru as [[-> Hd3]|(id & parent & content & -> & Hid & _ & Hparent & Hd3)].
  - cbn [nonempty]. eexists _, _, _, _. split; [reflexivity|].
    split_and!; [congruence|exact Hoff3|by right|by right|by left
                |left; split; [done|congruence]].
  - rewrite (nonempty_Some_ne id) by done.
    rewrite run_step, logger_info_run. cbn beta iota.
    eexists _, _, _, _. split; [reflexivity|].
    split_and!; [cbn; congruence|exact Hoff3|by right|by right|by left|].
    right. split_and!; try done. exists id, parent, content. split; [done|].
    cbn [disk logged set_disk drive]. rewrite Hd3. congruence.
Qed.

Lemma process_file_cleanup_unbound sv s : process_file_cleanup (None, None) sv s = (Done tt, s).
Proof. reflexivity. Qed.

(** A run of [process_file] when the check says the file is translated. *)
Lemma process_file_skip_run file_id file_name mime_type folder_path sv s :
  check_says_translated file_name sv s = true →
  ∃ s',
    main.process_file file_id file_name mime_type folder_path sv s = (Done true, s') ∧
    fs (disk s') = fs (disk s) ∧ drive (disk s') = drive (disk s) ∧
    os_environ s' = os_environ s ∧ made s' = made s ∧
    trace (disk s') = (trace (disk s) ++ [check_request file_name s])%list.
Proof.
  intros Hcheck. rewrite process_file_unfold.
  destruct (process_file_body_skips file_id file_name mime_type folder_path sv s Hcheck)
    as (s1 & -> & Hf & Hd & He & Hm & Ht).
  rewrite process_file_cleanup_unbound. by exists s1.
Qed.

(** A run of [process_file] when the check says that it is not. *)
Lemma process_file_run file_id file_name mime_type folder_path sv s :
  check_says_translated file_name sv s = false →
  let data_folder := os_path.join (cwd sv) "Data" in
  let file_path := os_path.join data_folder file_name in
  let translated_path := translated_path_of file_path in
  ∃ b s',
    main.process_file file_id file_name mime_type folder_path sv s = (Done b, s') ∧
    os_environ s' = os_environ s ∧
    (∀ path, path ≠ file_path → path ≠ translated_path →
       fs (disk s') !! path = fs (disk s) !! path) ∧
    (b = false ∧ drive (disk s') = drive (disk s) ∨
     b = true ∧
     ∃ id parent content,
       (os_environ s !! "OUTPUT_FOLDER_ID" = Some parent ∨
        os_environ s !! "OUTPUT_FOLDER_ID" = None ∧ null_parent sv = Some parent) ∧
       drive (disk s') =
         (drive (disk s) ++
          [RemoteFile id (os_path.basename translated_path) parent false content])%list) ∧
    (refuses sv (Makedirs data_folder) = false → fails sv (OpRemove file_path) = false →
       fs (disk s') !! file_path = None ∧
       (b = true → fails sv (OpRemove translated_path) = false →
          fs (disk s') !! translated_path = None)).
Proof.
  intros Hcheck. cbv zeta. rewrite process_file_unfold.
  destruct (process_file_body_run file_id file_name mime_type folder_path sv s Hcheck)
    as (r & downloaded & translated & s1 & -> & He1 & Hoff1 & Hdown & Htrans & Hgone & Hdrive).
  set (data_folder := os_path.join (cwd sv) "Data") in *.
  set (file_path := os_path.join data_folder file_name) in *.
  set (translated_path := translated_path_of file_path) in *.
  assert (∃ b s2,
            (match r with
             | Done a => (Done a, s1)
             | Raised e =>
                 (logger_error ("Error processing file " +:+ file_name +:+ ": "
                                +:+ str_error e);;
                  logger_error "Error details:";;
                  mret false) sv s1
             end) = (Done b, s2) ∧
            fs (disk s2) = fs (disk s1) ∧ drive (disk s2) = drive (disk s1) ∧
            os_environ s2 = os_environ s1 ∧
            (b = true ↔ r = Done true)) as (b & s2 & -> & Hf2 & Hd2 & He2 & Hb).
  { destruct r as [b|e]; [exists b, s1; split_and!; try done; split; congruence|].
    eexists false, _. rewrite app_bind_run, logger_error_run. cbn beta iota.
    rewrite app_bind_run, logger_error_run. cbn beta iota. by split_and!. }
  destruct Hb as [Hb Hb'].
  destruct (process_file_cleanup_run downloaded translated sv s2)
    as (s3 & -> & Hd3 & He3 & _ & Hoff3 & Hnone3 & Hsome3).
  exists b, s3. split; [done|].
  assert (nonempty (Some file_path) = Some file_path) as Hne1
    by apply nonempty_Some_ne, data_path_nonempty.
  assert (nonempty (Some translated_path) = Some translated_path) as Hne2
    by apply nonempty_Some_ne, translated_path_nonempty.
  split_and!.
  - congruence.
  - intros path Hp1 Hp2. rewrite Hoff3, Hf2; [by apply Hoff1| |].
    + destruct Hdown as [->| ->]; congruence.
    + destruct Htrans as [->|[-> _]]; congruence.
  - destruct Hdrive as [[Hr Hd]|(-> & _ & id & parent & content & Hparent & Hd)].
    + left. split; [|congruence]. destruct b; [|done]. by specialize (Hb eq_refl).
    + right. split; [by apply Hb'|]. exists id, parent, content. split; [done|]. congruence.
  - intros Hmk Hrm. destruct Hdown as [->| ->].
    + destruct Htrans as [->|[_ [=]]]. destruct (Hnone3 eq_refl eq_refl) as [Hf3 _].
      split.
      * rewrite Hf3, Hf2. by destruct (Hgone Hmk Hrm).
      * intros -> _. specialize (Hb eq_refl) as ->.
        destruct Hdrive as [[? _]|(_ & [=] & _)]; done.
    + destruct (Hsome3 file_path Hne1 Hrm) as [Hgone1 Hgone2]. split; [done|].
      intros -> Hrm2. specialize (Hb eq_refl) as ->.
      destruct Hdrive as [[? _]|(_ & -> & _)]; [done|]. by apply Hgone2.
Qed.

(** A session with the service's folders in the environment and, on the
    drive, a text file to translate. *)
Definition inbox : session := {|
  disk := World ∅ [RemoteFile "d1" "notes.txt" "in" false ("een" +:+ nl +:+ "twee")] [] [];
  os_environ := {["OUTPUT_FOLDER_ID" := "out"]};
  made := [];
  VIDEO_FOLDERS := [];
|}.

(** [inbox], once the subtitles of the file are in the output folder and
    a file of its name lies in the data folder. *)
Definition archived : session := {|
  disk := World {["/app/Data/notes.txt" := "old"]}
                [RemoteFile "d1" "notes.txt" "in" false ("een" +:+ nl +:+ "twee");
                 RemoteFile "t1" "notes_AI_Translated.srt" "out" false "een"] [] [];
  os_environ := {["OUTPUT_FOLDER_ID" := "out"]};
  made := [];
  VIDEO_FOLDERS := [];
|}.

(** [process_file] never raises. It uploads at most one file: the drive
    is as it was, or the result is [True] and the drive has one file
    more, named as the translated file and put under the output folder.
    The environment and every local file other than the download and its
    translation are as they were. *)
Theorem process_file_uploads_at_most_one_file
    (file_id file_name mime_type : string) (folder_path : option (list string))
    (sv : services) (s : session) :
  let out := main.process_file file_id file_name mime_type folder_path sv s in
  let file_path := os_path.join (os_path.join (cwd sv) "Data") file_name in
  let translated_path := translated_path_of file_path in
  ∃ b,
    fst out = Done b ∧
    os_environ (snd out) = os_environ s ∧
    (∀ path, path ≠ file_path → path ≠ translated_path →
       fs (disk (snd out)) !! path = fs (disk s) !! path) ∧
    (drive (disk (snd out)) = drive (disk s) ∨
     b = true ∧
     ∃ id parent content,
       (os_environ s !! "OUTPUT_FOLDER_ID" = Some parent ∨
        os_environ s !! "OUTPUT_FOLDER_ID" = None ∧ null_parent sv = Some parent) ∧
       drive (disk (snd out)) =
         (drive (disk s) ++
          [RemoteFile id (os_path.basename translated_path) parent false content])%list).
Proof.
  cbv zeta. destruct (check_says_translated file_name sv s) eqn:Hcheck.
  - destruct (process_file_skip_run file_id file_name mime_type folder_path sv s Hcheck)
      as (s' & -> & Hf & Hd & He & _). exists true. cbn [fst snd].
    split_and!; [done|done| |by left]. intros path _ _. by rewrite Hf.
  - destruct (process_file_run file_id file_name mime_type folder_path sv s Hcheck)
      as (b & s' & -> & He & Hoff & Hdrive & _). exists b. cbn [fst snd].
    split_and!; [done|done|done|]. destruct Hdrive as [[_ Hd]|[-> Hd]]; [by left|by right].
Qed.

(** When the check for an existing translation says that there is one,
    because it found the file or because the listing failed,
    [process_file] returns [True] and has done nothing but that listing:
    no download, no request to the model, no upload, no local file
    changed. *)
Theorem process_file_skips_what_the_check_reports
    (file_id file_name mime_type : string) (folder_path : option (list string))
    (sv : services) (s : session) :
  let out := main.process_file file_id file_name mime_type folder_path sv s in
  check_says_translated file_name sv s = true →
  fst out = Done true ∧
  fs (disk (snd out)) = fs (disk s) ∧
  drive (disk (snd out)) = drive (disk s) ∧
  made (snd out) = made s ∧
  trace (disk (snd out)) = (trace (disk s) ++ [check_request file_name s])%list.
Proof.
  cbv zeta. intros Hcheck.
  by destruct (process_file_skip_run file_id file_name mime_type folder_path sv s Hcheck)
    as (s' & -> & Hf & Hd & He & Hm & Ht).
Qed.

Lemma process_file_skips_what_the_check_reports_witness :
  fst (main.process_file "d1" "notes.txt" "text/plain" None echo archived) = Done true ∧
  fs (disk (snd (main.process_file "d1" "notes.txt" "text/plain" None echo archived)))
    = fs (disk archived) ∧
  drive (disk (snd (main.process_file "d1" "notes.txt" "text/plain" None echo archived)))
    = drive (disk archived) ∧
  made (snd (main.process_file "d1" "notes.txt" "text/plain" None echo archived))
    = made archived ∧
  trace (disk (snd (main.process_file "d1" "notes.txt" "text/plain" None echo archived)))
    = (trace (disk archived) ++ [check_request "notes.txt" archived])%list.
Proof.
  apply (process_file_skips_what_the_check_reports "d1" "notes.txt" "text/plain" None
           echo archived).
  by vm_compute.
Defined.

(** When the check says that the file is not translated, the data folder
    can be made and the downloaded file can be removed, there is no file
    at the download's path once [process_file] returns, whatever it
    returns: a file that was there before is gone too. When it returns
    [True] and the translated file can be removed, that one is gone as
    well. *)
Theorem process_file_leaves_no_local_copy
    (file_id file_name mime_type : string) (folder_path : option (list string))
    (sv : services) (s : session) :
  let out := main.process_file file_id file_name mime_type folder_path sv s in
  let data_folder := os_path.join (cwd sv) "Data" in
  let file_path := os_path.join data_folder file_name in
  let translated_path := translated_path_of file_path in
  check_says_translated file_name sv s = false →
  refuses sv (Makedirs data_folder) = false →
  fails sv (OpRemove file_path) = false →
  fs (disk (snd out)) !! file_path = None ∧
  (fst out = Done true → fails sv (OpRemove translated_path) = false →
     fs (disk (snd out)) !! translated_path = None).
Proof.
  cbv zeta. intros Hcheck Hmk Hrm.
  destruct (process_file_run file_id file_name mime_type folder_path sv s Hcheck)
    as (b & s' & -> & _ & _ & _ & Hgone).
  destruct (Hgone Hmk Hrm) as [Hfile Htranslated]. cbn [fst snd].
  split; [done|]. intros [= ->]. by apply Htranslated.
Qed.

Lemma process_file_leaves_no_local_copy_witness :
  fs (disk (snd (main.process_file "d1" "notes.txt" "text/plain" None echo inbox)))
    !! "/app/Data/notes.txt" = None ∧
  (fst (main.process_file "d1" "notes.txt" "text/plain" None echo inbox) = Done true →
   fails echo (OpRemove "/app/Data/notes_AI_Translated.txt") = false →
   fs (disk (snd (main.process_file "d1" "notes.txt" "text/plain" None echo inbox)))
     !! "/app/Data/notes_AI_Translated.txt" = None).
Proof.
  apply (process_file_leaves_no_local_copy "d1" "notes.txt" "text/plain" None echo inbox);
    by vm_compute.
Defined.

Lemma listed_snoc name folder_id d f :
  rf_name f ≠ name → listed name folder_id (d ++ [f]) = listed name folder_id d.
Proof.
  intros Hname%String.eqb_neq. unfold listed. rewrite existsb_app. cbn [existsb].
  rewrite Hname. cbn. by rewrite !orb_false_r.
Qed.

(** The check asks for [<stem>_AI_Translated.srt], the upload is named
    [<stem>_AI_Translated<ext>]. When the two names differ, a run of
    [process_file] on a file the check does not report leaves the check
    as it was: after the run it still says that the file is not
    translated, also when the translation was uploaded. *)
Theorem process_file_upload_is_not_what_the_check_asks_for
    (file_id file_name mime_type : string) (folder_path : option (list string))
    (sv : services) (s : session) :
  let out := main.process_file file_id file_name mime_type folder_path sv s in
  let file_path := os_path.join (os_path.join (cwd sv) "Data") file_name in
  os_path.basename (translated_path_of file_path) ≠ translated_name_of file_name →
  check_says_translated file_name sv s = false →
  check_says_translated file_name sv (snd out) = false.
Proof.
  cbv zeta. intros Hname Hcheck.
  destruct (process_file_run file_id file_name mime_type folder_path sv s Hcheck)
    as (b & s' & -> & He & _ & Hdrive & _). cbn [snd].
  rewrite <- Hcheck. unfold check_says_translated, check_request. rewrite He.
  destruct Hdrive as [[_ ->]|(_ & id & parent & content & _ & ->)]; [done|].
  by rewrite listed_snoc.
Qed.

Lemma process_file_upload_is_not_what_the_check_asks_for_witness :
  fst (main.process_file "d1" "notes.txt" "text/plain" None echo inbox) = Done true ∧
  check_says_translated "notes.txt" echo
    (snd (main.process_file "d1" "notes.txt" "text/plain" None echo inbox)) = false.
Proof.
  split; [by vm_compute|].
  apply (process_file_upload_is_not_what_the_check_asks_for "d1" "notes.txt" "text/plain"
           None echo inbox); by vm_compute.
Defined.

Lemma translate_text_sends_the_whole_text_witness :
  ∃ chunks replies,
    made (snd (main.translate_text ("een" +:+ nl +:+ "twee") echo morning)) =
      (made morning ++
       concat (List.map (λ chunk, [ChatCompletion (system_prompt (os_environ morning))
                                                  (str_join nl chunk); Sleep 1])
                        chunks))%list ∧
    chunks ≠ [] ∧
    Forall (λ chunk, chunk ≠ [] ∧ (List.length chunk ≤ 125)%nat) chunks ∧
    str_join nl (List.map (str_join nl) chunks) = "een" +:+ nl +:+ "twee" ∧
    Forall2 (λ chunk reply,
               chat echo (system_prompt (os_environ morning)) (str_join nl chunk) = Some reply)
            chunks replies ∧
    "een" +:+ nl +:+ "twee" = str_join nl (List.map unfenced replies).
Proof.
  apply (translate_text_sends_the_whole_text ("een" +:+ nl +:+ "twee")
           ("een" +:+ nl +:+ "twee") echo morning).
  by vm_compute.
Defined.

Lemma translate_text_returns_no_fence_witness :
  fst (main.translate_text "```een```" echo morning) = Done (Some "een") ∧
  contains "```" "een" = false.
Proof.
  split; [by vm_compute|].
  apply (translate_text_returns_no_fence "```een```" "een" echo morning). by vm_compute.
Defined.
